(** * Playback-control logic of the video player components

    A shallow embedding of the React Native player components of the
    repository (AdvancedVideoPlayer, its earlier revision, ProVideoPlayer,
    NativeVideoPlayer, EnhancedVideoPlayer and the first VideoPlayer) and
    the properties of their seek, scrub, buffering, controls-visibility,
    tap and quality logic; then the watch history the player screen feeds
    (AuthContext) and the time labels.

    Modelling conventions, shared by all components:
    - a JavaScript [number] that holds a time, a volume or a screen
      coordinate is a rational [Q]; only finite values are considered.
      The source computes on doubles: a sum, a difference, a product or a
      quotient written here stands for the source's, which is rounded to
      the nearest double.  Comparisons, [Math.max], [Math.min] and
      [Math.floor] are exact and rounding is monotone, so what is proved
      of the order of computed positions (ranges, clamps, directions)
      holds with and without rounding;
    - every [useState] cell and every [useRef] cell is a field of the
      component's [State] record; a handler is a function on [State];
    - [setTimeout]/[clearTimeout] act on an explicit timer table; the
      callback of a timer is a constructor of the component's [Action]
      type that carries the values its closure captured;
    - React re-renders after every handler and every timer callback; the
      [commit] function of a component runs the effects whose dependencies
      changed (all clean-ups, then all bodies), so a handler always sees
      the state of the latest render;
    - commands sent to the media engine through [videoRef] and calls of the
      host's [onProgress] callback are appended to logs kept in the state. *)

From Stdlib Require Import List Bool Arith NArith ZArith QArith Qabs Qround Lia Lqa.
From Stdlib Require Import Ascii String DecimalString DecimalZ DecimalPos.
From Stdlib Require Import Permutation Sorted.
Import ListNotations.
Open Scope Q_scope.

(** ** JavaScript helpers *)

Module JS.

(** [Math.max] and [Math.min] on two finite numbers. *)
Definition Math_max (a b : Q) : Q := if Qlt_le_dec a b then b else a.
Definition Math_min (a b : Q) : Q := if Qlt_le_dec b a then b else a.
Definition Math_abs (a : Q) : Q := Qabs a.

(** Strict comparisons as used in conditions. *)
Definition lt (a b : Q) : bool := negb (Qle_bool b a).
Definition gt (a b : Q) : bool := lt b a.

(** [Object.is] on finite numbers, as used to compare effect dependencies. *)
Definition same (a b : Q) : bool := Qeq_bool a b.

(** [x || d] on a number: [0] is falsy. *)
Definition num_or (x d : Q) : Q := if Qeq_bool x 0 then d else x.

(** [x || d] on a string: the empty string is falsy. *)
Definition str_or (x d : string) : string :=
  if String.eqb x EmptyString then d else x.

(** The clamp idiom [Math.max(0, Math.min(t, d))]. *)
Definition clamp (t d : Q) : Q := Math_max 0 (Math_min t d).

End JS.

(** ** Timers

    The table behind [setTimeout] and [clearTimeout].  A timer keeps the
    handle it was created with, the clock value at which it is due and
    its callback.  Timers are kept in creation order, which is the order
    in which timers that are due at the same instant run.  The table also
    records, in order, the callbacks that have run. *)

Module Timers.

Record timer (A : Type) : Type := mkTimer { t_id : nat; t_due : N; t_act : A }.
Arguments mkTimer {A} _ _ _.
Arguments t_id {A} _.
Arguments t_due {A} _.
Arguments t_act {A} _.

(** [now] is [Date.now()], in milliseconds. *)
Record clock (A : Type) : Type :=
  mkClock { now : N; next_id : nat; pending : list (timer A); fired : list A }.
Arguments mkClock {A} _ _ _ _.
Arguments now {A} _.
Arguments next_id {A} _.
Arguments pending {A} _.
Arguments fired {A} _.

(** Handles are positive, hence truthy in [if (ref.current)]. *)
Definition start {A} (t0 : N) : clock A := mkClock t0 1 [] [].

Definition setTimeout {A} (a : A) (delay : N) (c : clock A) : nat * clock A :=
  (next_id c,
   mkClock (now c) (S (next_id c))
           (pending c ++ [mkTimer (next_id c) (now c + delay)%N a])
           (fired c)).

Definition clearTimeout {A} (id : nat) (c : clock A) : clock A :=
  mkClock (now c) (next_id c)
          (filter (fun t => negb (Nat.eqb (t_id t) id)) (pending c))
          (fired c).

(** [if (ref) clearTimeout(ref)] for a cell that holds a handle or [null]. *)
Definition clearRef {A} (r : option nat) (c : clock A) : clock A :=
  match r with Some id => clearTimeout id c | None => c end.

Definition advance {A} (c : clock A) : clock A :=
  mkClock (now c + 1)%N (next_id c) (pending c) (fired c).

Definition lookup {A} (id : nat) (c : clock A) : option (timer A) :=
  find (fun t => Nat.eqb (t_id t) id) (pending c).

(** A timer that runs leaves the table and its callback is recorded. *)
Definition take {A} (t : timer A) (c : clock A) : clock A :=
  mkClock (now c) (next_id c)
          (filter (fun u => negb (Nat.eqb (t_id u) (t_id t))) (pending c))
          (fired c ++ [t_act t]).

Definition due_ids {A} (c : clock A) : list nat :=
  map t_id (filter (fun t => N.leb (t_due t) (now c)) (pending c)).

(** A component: a state that owns a clock, and the way it runs the
    callback of a timer (callback, then re-render). *)
Class Component (S A : Type) : Type := {
  clk : S -> clock A;
  with_clk : clock A -> S -> S;
  fire : A -> S -> S
}.

Section Run.
Context {S A : Type} `{Component S A}.

(** Runs the timers of [ids] that are still pending and due, in order; a
    timer cleared by an earlier callback of the same instant does not
    run. *)
Fixpoint fire_ids (ids : list nat) (s : S) : S :=
  match ids with
  | [] => s
  | i :: rest =>
      match lookup i (clk s) with
      | Some t =>
          if N.leb (t_due t) (now (clk s))
          then fire_ids rest (fire (t_act t) (with_clk (take t (clk s)) s))
          else fire_ids rest s
      | None => fire_ids rest s
      end
  end.

(** One millisecond passes, then the timers that became due run. *)
Definition tick (s : S) : S :=
  let s1 := with_clk (advance (clk s)) s in
  fire_ids (due_ids (clk s1)) s1.

(** [n] milliseconds pass with no other event. *)
Fixpoint elapse (n : nat) (s : S) : S :=
  match n with
  | O => s
  | Datatypes.S k => elapse k (tick s)
  end.

End Run.

End Timers.

(** ** The player state shared by the components ([types/index.ts]) *)

Record PlayerState : Type := mkPlayerState {
  isPlaying : bool;
  currentTime : Q;
  duration : Q;
  volume : Q;
  isMuted : bool;
  isFullscreen : bool
}.

Definition initialPlayerState : PlayerState := mkPlayerState false 0 0 1 false false.

Definition ps_isPlaying (v : bool) (p : PlayerState) : PlayerState :=
  mkPlayerState v (currentTime p) (duration p) (volume p) (isMuted p) (isFullscreen p).
Definition ps_currentTime (v : Q) (p : PlayerState) : PlayerState :=
  mkPlayerState (isPlaying p) v (duration p) (volume p) (isMuted p) (isFullscreen p).
Definition ps_duration (v : Q) (p : PlayerState) : PlayerState :=
  mkPlayerState (isPlaying p) (currentTime p) v (volume p) (isMuted p) (isFullscreen p).
Definition ps_volume (v : Q) (p : PlayerState) : PlayerState :=
  mkPlayerState (isPlaying p) (currentTime p) (duration p) v (isMuted p) (isFullscreen p).
Definition ps_isMuted (v : bool) (p : PlayerState) : PlayerState :=
  mkPlayerState (isPlaying p) (currentTime p) (duration p) (volume p) v (isFullscreen p).
Definition ps_isFullscreen (v : bool) (p : PlayerState) : PlayerState :=
  mkPlayerState (isPlaying p) (currentTime p) (duration p) (volume p) (isMuted p) v.

(** Commands that reach the media engine through [videoRef]. *)
Inductive EngineCmd : Type :=
| Seek (position : Q)          (* seek / setPositionAsync *)
| Play                         (* playAsync *)
| Pause                        (* pauseAsync *)
| SetMuted (m : bool)          (* setIsMutedAsync *)
| SetVolume (v : Q)            (* setVolumeAsync *)
| SetRate (r : Q)              (* setRateAsync *)
| PresentFullscreen
| DismissFullscreen.

Inductive ResizeMode : Type := contain | cover | stretch.

(** [Dimensions.get('window')], read once when a component module loads. *)
Record Dimensions : Type := mkDimensions { width : Q; height : Q }.

(** Pipeline notation: [s |> f |> g] runs [f], then [g]. *)
Notation "s |> f" := (f s) (at level 45, left associativity, only parsing).

Definition when {S : Type} (b : bool) (f : S -> S) : S -> S :=
  if b then f else (fun s => s).

(** ** AdvancedVideoPlayer ([src/components/video/AdvancedVideoPlayer.tsx])

    Times are in milliseconds; the engine (react-native-video) takes
    seconds.  The text of the seek indicator and the scale animation are
    presentation only and are left out. *)

Module Advanced.

Definition PLAYBACK_SPEEDS : list Q := [0.25; 0.5; 0.75; 1; 1.25; 1.5; 1.75; 2].
Definition SEEK_TIME : Q := 10000.

(** The props that matter here: whether the host passed [onProgress]. *)
Record Props : Type := mkProps { onProgressCallback : bool }.

(** Timer callbacks, with the values their closures captured. *)
Inductive Action : Type :=
| ForceShow                                        (* emergency fallback, 1000 ms *)
| AutoHide (playing speedMenu qualityMenu : bool)  (* auto-hide, 4000 ms *)
| TapToggle.                                       (* single tap, 250 ms *)

Record State : Type := mkState {
  ps : PlayerState;
  showControls : bool;
  isLoading : bool;
  error : option string;
  playbackSpeed : Q;
  showSpeedMenu : bool;
  showQualityMenu : bool;
  isBuffering : bool;
  resizeMode : ResizeMode;
  brightness : Q;
  networkStatus : string;
  showSeekIndicator : bool;
  controlsTimeoutRef : option nat;
  doubleTapTimeoutRef : option nat;
  lastTap : N;
  controlsVisibilityTimeoutRef : option nat;
  clock : Timers.clock Action;
  engine : list EngineCmd;
  hostProgress : list (Q * Q);
  props : Props;
  window : Dimensions
}.

Definition set_ps (v : PlayerState) (s : State) : State :=
  mkState v (showControls s) (isLoading s) (error s) (playbackSpeed s)
  (showSpeedMenu s) (showQualityMenu s) (isBuffering s) (resizeMode s)
  (brightness s) (networkStatus s) (showSeekIndicator s)
  (controlsTimeoutRef s) (doubleTapTimeoutRef s) (lastTap s)
  (controlsVisibilityTimeoutRef s) (clock s) (engine s) (hostProgress s)
  (props s) (window s).
Definition set_showControls (v : bool) (s : State) : State :=
  mkState (ps s) v (isLoading s) (error s) (playbackSpeed s) (showSpeedMenu s)
  (showQualityMenu s) (isBuffering s) (resizeMode s) (brightness s)
  (networkStatus s) (showSeekIndicator s) (controlsTimeoutRef s)
  (doubleTapTimeoutRef s) (lastTap s) (controlsVisibilityTimeoutRef s)
  (clock s) (engine s) (hostProgress s) (props s) (window s).
Definition set_isLoading (v : bool) (s : State) : State :=
  mkState (ps s) (showControls s) v (error s) (playbackSpeed s)
  (showSpeedMenu s) (showQualityMenu s) (isBuffering s) (resizeMode s)
  (brightness s) (networkStatus s) (showSeekIndicator s)
  (controlsTimeoutRef s) (doubleTapTimeoutRef s) (lastTap s)
  (controlsVisibilityTimeoutRef s) (clock s) (engine s) (hostProgress s)
  (props s) (window s).
Definition set_error (v : option string) (s : State) : State :=
  mkState (ps s) (showControls s) (isLoading s) v (playbackSpeed s)
  (showSpeedMenu s) (showQualityMenu s) (isBuffering s) (resizeMode s)
  (brightness s) (networkStatus s) (showSeekIndicator s)
  (controlsTimeoutRef s) (doubleTapTimeoutRef s) (lastTap s)
  (controlsVisibilityTimeoutRef s) (clock s) (engine s) (hostProgress s)
  (props s) (window s).
Definition set_playbackSpeed (v : Q) (s : State) : State :=
  mkState (ps s) (showControls s) (isLoading s) (error s) v (showSpeedMenu s)
  (showQualityMenu s) (isBuffering s) (resizeMode s) (brightness s)
  (networkStatus s) (showSeekIndicator s) (controlsTimeoutRef s)
  (doubleTapTimeoutRef s) (lastTap s) (controlsVisibilityTimeoutRef s)
  (clock s) (engine s) (hostProgress s) (props s) (window s).
Definition set_showSpeedMenu (v : bool) (s : State) : State :=
  mkState (ps s) (showControls s) (isLoading s) (error s) (playbackSpeed s) v
  (showQualityMenu s) (isBuffering s) (resizeMode s) (brightness s)
  (networkStatus s) (showSeekIndicator s) (controlsTimeoutRef s)
  (doubleTapTimeoutRef s) (lastTap s) (controlsVisibilityTimeoutRef s)
  (clock s) (engine s) (hostProgress s) (props s) (window s).
Definition set_showQualityMenu (v : bool) (s : State) : State :=
  mkState (ps s) (showControls s) (isLoading s) (error s) (playbackSpeed s)
  (showSpeedMenu s) v (isBuffering s) (resizeMode s) (brightness s)
  (networkStatus s) (showSeekIndicator s) (controlsTimeoutRef s)
  (doubleTapTimeoutRef s) (lastTap s) (controlsVisibilityTimeoutRef s)
  (clock s) (engine s) (hostProgress s) (props s) (window s).
Definition set_isBuffering (v : bool) (s : State) : State :=
  mkState (ps s) (showControls s) (isLoading s) (error s) (playbackSpeed s)
  (showSpeedMenu s) (showQualityMenu s) v (resizeMode s) (brightness s)
  (networkStatus s) (showSeekIndicator s) (controlsTimeoutRef s)
  (doubleTapTimeoutRef s) (lastTap s) (controlsVisibilityTimeoutRef s)
  (clock s) (engine s) (hostProgress s) (props s) (window s).
Definition set_resizeMode (v : ResizeMode) (s : State) : State :=
  mkState (ps s) (showControls s) (isLoading s) (error s) (playbackSpeed s)
  (showSpeedMenu s) (showQualityMenu s) (isBuffering s) v (brightness s)
  (networkStatus s) (showSeekIndicator s) (controlsTimeoutRef s)
  (doubleTapTimeoutRef s) (lastTap s) (controlsVisibilityTimeoutRef s)
  (clock s) (engine s) (hostProgress s) (props s) (window s).
Definition set_brightness (v : Q) (s : State) : State :=
  mkState (ps s) (showControls s) (isLoading s) (error s) (playbackSpeed s)
  (showSpeedMenu s) (showQualityMenu s) (isBuffering s) (resizeMode s) v
  (networkStatus s) (showSeekIndicator s) (controlsTimeoutRef s)
  (doubleTapTimeoutRef s) (lastTap s) (controlsVisibilityTimeoutRef s)
  (clock s) (engine s) (hostProgress s) (props s) (window s).
Definition set_networkStatus (v : string) (s : State) : State :=
  mkState (ps s) (showControls s) (isLoading s) (error s) (playbackSpeed s)
  (showSpeedMenu s) (showQualityMenu s) (isBuffering s) (resizeMode s)
  (brightness s) v (showSeekIndicator s) (controlsTimeoutRef s)
  (doubleTapTimeoutRef s) (lastTap s) (controlsVisibilityTimeoutRef s)
  (clock s) (engine s) (hostProgress s) (props s) (window s).
Definition set_showSeekIndicator (v : bool) (s : State) : State :=
  mkState (ps s) (showControls s) (isLoading s) (error s) (playbackSpeed s)
  (showSpeedMenu s) (showQualityMenu s) (isBuffering s) (resizeMode s)
  (brightness s) (networkStatus s) v (controlsTimeoutRef s)
  (doubleTapTimeoutRef s) (lastTap s) (controlsVisibilityTimeoutRef s)
  (clock s) (engine s) (hostProgress s) (props s) (window s).
Definition set_controlsTimeoutRef (v : option nat) (s : State) : State :=
  mkState (ps s) (showControls s) (isLoading s) (error s) (playbackSpeed s)
  (showSpeedMenu s) (showQualityMenu s) (isBuffering s) (resizeMode s)
  (brightness s) (networkStatus s) (showSeekIndicator s) v
  (doubleTapTimeoutRef s) (lastTap s) (controlsVisibilityTimeoutRef s)
  (clock s) (engine s) (hostProgress s) (props s) (window s).
Definition set_doubleTapTimeoutRef (v : option nat) (s : State) : State :=
  mkState (ps s) (showControls s) (isLoading s) (error s) (playbackSpeed s)
  (showSpeedMenu s) (showQualityMenu s) (isBuffering s) (resizeMode s)
  (brightness s) (networkStatus s) (showSeekIndicator s)
  (controlsTimeoutRef s) v (lastTap s) (controlsVisibilityTimeoutRef s)
  (clock s) (engine s) (hostProgress s) (props s) (window s).
Definition set_lastTap (v : N) (s : State) : State :=
  mkState (ps s) (showControls s) (isLoading s) (error s) (playbackSpeed s)
  (showSpeedMenu s) (showQualityMenu s) (isBuffering s) (resizeMode s)
  (brightness s) (networkStatus s) (showSeekIndicator s)
  (controlsTimeoutRef s) (doubleTapTimeoutRef s) v
  (controlsVisibilityTimeoutRef s) (clock s) (engine s) (hostProgress s)
  (props s) (window s).
Definition set_controlsVisibilityTimeoutRef (v : option nat) (s : State) : State :=
  mkState (ps s) (showControls s) (isLoading s) (error s) (playbackSpeed s)
  (showSpeedMenu s) (showQualityMenu s) (isBuffering s) (resizeMode s)
  (brightness s) (networkStatus s) (showSeekIndicator s)
  (controlsTimeoutRef s) (doubleTapTimeoutRef s) (lastTap s) v (clock s)
  (engine s) (hostProgress s) (props s) (window s).
Definition set_clock (v : Timers.clock Action) (s : State) : State :=
  mkState (ps s) (showControls s) (isLoading s) (error s) (playbackSpeed s)
  (showSpeedMenu s) (showQualityMenu s) (isBuffering s) (resizeMode s)
  (brightness s) (networkStatus s) (showSeekIndicator s)
  (controlsTimeoutRef s) (doubleTapTimeoutRef s) (lastTap s)
  (controlsVisibilityTimeoutRef s) v (engine s) (hostProgress s) (props s)
  (window s).
Definition set_engine (v : list EngineCmd) (s : State) : State :=
  mkState (ps s) (showControls s) (isLoading s) (error s) (playbackSpeed s)
  (showSpeedMenu s) (showQualityMenu s) (isBuffering s) (resizeMode s)
  (brightness s) (networkStatus s) (showSeekIndicator s)
  (controlsTimeoutRef s) (doubleTapTimeoutRef s) (lastTap s)
  (controlsVisibilityTimeoutRef s) (clock s) v (hostProgress s) (props s)
  (window s).
Definition set_hostProgress (v : list (Q * Q)) (s : State) : State :=
  mkState (ps s) (showControls s) (isLoading s) (error s) (playbackSpeed s)
  (showSpeedMenu s) (showQualityMenu s) (isBuffering s) (resizeMode s)
  (brightness s) (networkStatus s) (showSeekIndicator s)
  (controlsTimeoutRef s) (doubleTapTimeoutRef s) (lastTap s)
  (controlsVisibilityTimeoutRef s) (clock s) (engine s) v (props s) (window s).


(** [videoRef.current] is set while the [<Video>] element is rendered,
    that is, while [error] is [null]. *)
Definition videoRef (s : State) : bool :=
  match error s with None => true | Some _ => false end.

(** [videoRef.current?.seek(sec)] *)
Definition engine_seek (sec : Q) (s : State) : State :=
  if videoRef s then set_engine (engine s ++ [Seek sec]) s else s.

Definition schedule (a : Action) (delay : N) (s : State) : nat * State :=
  let (id, c) := Timers.setTimeout a delay (clock s) in (id, set_clock c s).

(** [if (ref.current) clearTimeout(ref.current)] *)
Definition clear (r : option nat) (s : State) : State :=
  set_clock (Timers.clearRef r (clock s)) s.

Definition initialState (p : Props) (w : Dimensions) (t0 : N) : State :=
  mkState initialPlayerState true true None 1 false false false contain 1
          "unknown" false None None 0%N None (Timers.start t0) [] [] p w.

(** *** Effects *)

(** Emergency fallback - show controls if paused and hidden.
    Dependencies: [showControls, playerState.isPlaying]. *)
Definition fallback_deps_changed (o n : State) : bool :=
  negb (Bool.eqb (showControls o) (showControls n)
        && Bool.eqb (isPlaying (ps o)) (isPlaying (ps n))).

Definition fallback_effect (s : State) : State :=
  if negb (showControls s) && negb (isPlaying (ps s)) then
    let (id, s1) := schedule ForceShow 1000 s in
    set_controlsVisibilityTimeoutRef (Some id) s1
  else s.

Definition fallback_cleanup (s : State) : State :=
  clear (controlsVisibilityTimeoutRef s) s.

(** Auto-hide controls.  Dependencies:
    [showControls, playerState.isPlaying, showSpeedMenu, showQualityMenu]. *)
Definition autohide_deps_changed (o n : State) : bool :=
  negb (Bool.eqb (showControls o) (showControls n)
        && Bool.eqb (isPlaying (ps o)) (isPlaying (ps n))
        && Bool.eqb (showSpeedMenu o) (showSpeedMenu n)
        && Bool.eqb (showQualityMenu o) (showQualityMenu n)).

Definition autohide_effect (s : State) : State :=
  let s1 := clear (controlsTimeoutRef s) s in
  if showControls s1 then
    let (id, s2) :=
      schedule (AutoHide (isPlaying (ps s1)) (showSpeedMenu s1) (showQualityMenu s1))
               4000 s1 in
    set_controlsTimeoutRef (Some id) s2
  else s1.

Definition autohide_cleanup (s : State) : State :=
  clear (controlsTimeoutRef s) s.

(** Progress callback.  Dependencies:
    [playerState.currentTime, playerState.duration, onProgressCallback]. *)
Definition progress_deps_changed (o n : State) : bool :=
  negb (JS.same (currentTime (ps o)) (currentTime (ps n))
        && JS.same (duration (ps o)) (duration (ps n))).

Definition progress_effect (s : State) : State :=
  if onProgressCallback (props s) && JS.gt (duration (ps s)) 0 then
    set_hostProgress (hostProgress s ++ [(currentTime (ps s), duration (ps s))]) s
  else s.

(** The effects that run when the render of [n] follows the render of [o]. *)
Definition commit (o n : State) : State :=
  n |> when (fallback_deps_changed o n) fallback_cleanup
    |> when (autohide_deps_changed o n) autohide_cleanup
    |> when (fallback_deps_changed o n) fallback_effect
    |> when (autohide_deps_changed o n) autohide_effect
    |> when (progress_deps_changed o n) progress_effect.

(** First render: every effect body runs. *)
Definition mount (p : Props) (w : Dimensions) (t0 : N) : State :=
  initialState p w t0 |> fallback_effect |> autohide_effect |> progress_effect.

(** *** Timer callbacks *)

Definition run (a : Action) (s : State) : State :=
  match a with
  | ForceShow => set_showControls true s
  | AutoHide playing speedMenu qualityMenu =>
      (* Only hide if video is playing and no modals are open *)
      if playing && negb speedMenu && negb qualityMenu
      then set_showControls false s else s
  | TapToggle =>
      s |> set_showControls (negb (showControls s))
        |> set_doubleTapTimeoutRef None
  end.

#[export] Instance component : Timers.Component State Action := {
  Timers.clk := clock;
  Timers.with_clk := set_clock;
  Timers.fire := fun a s => commit s (run a s)
}.

(** *** Video event handlers *)

Definition onNetInfo (isConnected : bool) (type : string) (s : State) : State :=
  if isConnected then set_networkStatus (JS.str_or type "unknown") s
  else s |> set_networkStatus "offline"
         |> set_error (Some "No internet connection"%string).

Definition onLoad (data_duration : Q) (s : State) : State :=
  s |> set_isLoading false
    |> set_error None
    |> set_showControls true
    |> (fun s => set_ps (ps_duration (data_duration * 1000) (ps s)) s).

Definition onProgress (data_currentTime : Q) (s : State) : State :=
  set_ps (ps_currentTime (data_currentTime * 1000) (ps s)) s.

Definition onBuffer (data_isBuffering : bool) (s : State) : State :=
  set_isBuffering data_isBuffering s.

Definition onError (s : State) : State :=
  s |> set_isLoading false
    |> set_isBuffering false
    |> set_showControls true
    |> set_error (Some "Failed to load video. Check your connection and try again."%string).

(** *** Control functions *)

Definition forceShowControls (s : State) : State :=
  s |> set_showControls true |> clear (controlsTimeoutRef s).

Definition togglePlayPause (s : State) : State :=
  s |> (fun s => set_ps (ps_isPlaying (negb (isPlaying (ps s))) (ps s)) s)
    |> set_showControls true
    |> clear (controlsTimeoutRef s).

Definition seekTo (position : Q) (s : State) : State :=
  let seekTime := JS.Math_max 0 (JS.Math_min position (duration (ps s))) in
  s |> engine_seek (seekTime / 1000)
    |> (fun s => set_ps (ps_currentTime seekTime (ps s)) s).

Definition showSeekFeedback (s : State) : State :=
  set_showSeekIndicator true s.

(** [currentTime + SEEK_TIME] and [currentTime - SEEK_TIME] are rounded
    to the nearest double in the source and exact here: the position
    after a skip is the source's up to that rounding, and its order
    relative to 0, to the old position and to the duration is the
    source's. *)
Definition skipForward (s : State) : State :=
  let newPosition :=
    JS.Math_min (currentTime (ps s) + SEEK_TIME) (duration (ps s)) in
  s |> seekTo newPosition |> showSeekFeedback.

Definition skipBackward (s : State) : State :=
  let newPosition := JS.Math_max (currentTime (ps s) - SEEK_TIME) 0 in
  s |> seekTo newPosition |> showSeekFeedback.

Definition toggleFullscreen (s : State) : State :=
  set_ps (ps_isFullscreen (negb (isFullscreen (ps s))) (ps s)) s.

Definition changePlaybackSpeed (speed : Q) (s : State) : State :=
  s |> set_playbackSpeed speed |> set_showSpeedMenu false.

Definition cycleResizeMode (s : State) : State :=
  set_resizeMode
    (match resizeMode s with contain => cover | cover => stretch | stretch => contain end) s.

Definition retryVideo (s : State) : State :=
  s |> set_error None
    |> set_isLoading true
    |> set_isBuffering false
    |> set_showControls true
    |> (fun s1 => if videoRef s then set_engine (engine s1 ++ [Seek 0]) s1 else s1).

(** *** Gesture handling *)

Definition onPanResponderMove (locationX dx dy : Q) (s : State) : State :=
  let w := width (window s) in
  let h := height (window s) in
  let delta := - dy / h in
  s |> set_showControls true
    |> when (JS.lt locationX (w / 2) && JS.gt (Qabs dy) 30)
         (set_brightness (JS.Math_max 0.1 (JS.Math_min 1 (brightness s + delta))))
    |> when (JS.gt locationX (w / 2) && JS.gt (Qabs dy) 30)
         (fun s1 => set_ps (ps_volume (JS.Math_max 0 (JS.Math_min 1 (volume (ps s) + delta)))
                                      (ps s1)) s1)
    |> when (JS.gt (Qabs dx) 30 && JS.gt (Qabs dx) (Qabs dy))
         (set_showSeekIndicator true).

Definition onPanResponderRelease (dx dy : Q) (s : State) : State :=
  let seekDelta := (dx / width (window s)) * 30000 in
  let newTime :=
    JS.Math_max 0 (JS.Math_min (duration (ps s)) (currentTime (ps s) + seekDelta)) in
  s |> set_showSeekIndicator false
    |> when (JS.gt (Qabs dx) 30 && JS.gt (Qabs dx) (Qabs dy)) (seekTo newTime)
    |> clear (controlsTimeoutRef s).

Definition DOUBLE_PRESS_DELAY : N := 250.

Definition handleTap (tapX : Q) (s : State) : State :=
  let now := Timers.now (clock s) in
  let s0 := s |> clear (doubleTapTimeoutRef s) |> set_doubleTapTimeoutRef None in
  if negb (N.eqb (lastTap s0) 0) && N.ltb (now - lastTap s0) DOUBLE_PRESS_DELAY then
    (* Double tap - clear single tap timer and execute double tap action *)
    s0 |> (if JS.lt tapX (width (window s) / 3) then skipBackward
           else if JS.gt tapX (width (window s) * 2 / 3) then skipForward
           else togglePlayPause)
       |> set_lastTap 0%N
  else
    (* Single tap - always show controls immediately, then set timer for action *)
    let s1 := set_showControls true s0 in
    let (id, s2) := schedule TapToggle DOUBLE_PRESS_DELAY s1 in
    s2 |> set_doubleTapTimeoutRef (Some id) |> set_lastTap now.

(** *** Props handed to the [<Video>] element at each render *)

Definition video_paused (s : State) : bool := negb (isPlaying (ps s)).
Definition video_volume (s : State) : Q := if isMuted (ps s) then 0 else volume (ps s).
Definition video_rate (s : State) : Q := playbackSpeed s.
(** [maxBitRate={networkStatus === 'wifi' ? undefined : 1000000}] *)
Definition video_maxBitRate (s : State) : option N :=
  if String.eqb (networkStatus s) "wifi" then None else Some 1000000%N.

(** *** Events: engine callbacks, network changes and user input

    An event is a call of one handler.  [Tap] is a call of [handleTap]
    and [EmergencyTap] a call of [forceShowControls] by the emergency tap
    area; which of the two a press on the video area reaches is decided
    by the render, see [onPress] below. *)

Inductive Event : Type :=
| NetInfo (isConnected : bool) (type : string)
| OnLoad (duration : Q)
| OnProgress (currentTime : Q)
| OnBuffer (isBuffering : bool)
| OnError
| PressPlayPause
| PressSkipBackward
| PressSkipForward
| SliderValueChange (value : Q)
| SlidingStart
| SlidingComplete
| PressMute
| OpenSpeedMenu
| CloseSpeedMenu
| OpenQualityMenu
| SelectSpeed (speed : Q)
| PressFullscreen
| PressResizeMode
| PressRetry
| Tap (locationX : Q)
| EmergencyTap
| PanMove (locationX dx dy : Q)
| PanRelease (dx dy : Q)
| SeekFeedbackEnd.

Definition handle (e : Event) (s : State) : State :=
  match e with
  | NetInfo c t => onNetInfo c t s
  | OnLoad d => onLoad d s
  | OnProgress t => onProgress t s
  | OnBuffer b => onBuffer b s
  | OnError => onError s
  | PressPlayPause => s |> togglePlayPause |> set_showControls true
  | PressSkipBackward => skipBackward s
  | PressSkipForward => skipForward s
  | SliderValueChange v => seekTo v s
  | SlidingStart => s |> set_showControls true |> clear (controlsTimeoutRef s)
  | SlidingComplete => clear (controlsTimeoutRef s) s
  | PressMute => set_ps (ps_isMuted (negb (isMuted (ps s))) (ps s)) s
  | OpenSpeedMenu => set_showSpeedMenu true s
  | CloseSpeedMenu => set_showSpeedMenu false s
  | OpenQualityMenu => set_showQualityMenu true s
  | SelectSpeed v => changePlaybackSpeed v s
  | PressFullscreen => toggleFullscreen s
  | PressResizeMode => cycleResizeMode s
  | PressRetry => retryVideo s
  | Tap x => handleTap x s
  | EmergencyTap => forceShowControls s
  | PanMove x dx dy => onPanResponderMove x dx dy s
  | PanRelease dx dy => onPanResponderRelease dx dy s
  | SeekFeedbackEnd => set_showSeekIndicator false s
  end.

(** A handler runs, then React renders and runs the effects. *)
Definition step (e : Event) (s : State) : State := commit s (handle e s).

(** A press on the video area.  The area is a touchable whose [onPress]
    is [handleTap].  While the controls are hidden the render lays a
    transparent touchable over the whole area ([{!showControls && ...}]),
    and the press goes to that one, whose [onPress] is
    [forceShowControls]: [handleTap] is not called. *)
Definition onPress (locationX : Q) (s : State) : Event :=
  if showControls s then Tap locationX else EmergencyTap.

Definition press (locationX : Q) (s : State) : State :=
  step (onPress locationX s) s.

(** A scenario: events separated by idle periods, in milliseconds. *)
Inductive Input : Type :=
| Ev (e : Event)
| Wait (ms : nat).

Definition input (i : Input) (s : State) : State :=
  match i with
  | Ev e => step e s
  | Wait n => Timers.elapse n s
  end.

Definition play (tr : list Input) (s : State) : State :=
  fold_left (fun s i => input i s) tr s.

(** The states the component can be in: it is mounted at some instant of
    the clock ([Date.now()] is positive), then handles events and lets
    time pass.  Every handler may be called in every state, so the set
    contains the states the render can lead to and more. *)
Inductive reachable : State -> Prop :=
| reach_mount : forall (p : Props) (w : Dimensions) (t0 : N), (0 < t0)%N -> reachable (mount p w t0)
| reach_step : forall e s, reachable s -> reachable (step e s)
| reach_tick : forall s, reachable s -> reachable (Timers.tick s).

End Advanced.

(** ** ProVideoPlayer

    Times are in seconds, as the engine (react-native-video) reports
    them.  The fade animations of the controls run on a shared value of
    react-native-reanimated: assigning a new animation to
    [controlsOpacity.value] cancels the running one, whose completion
    callback then sees [finished = false].  The completion of a fade-out
    is kept in the timer table, its handle in [controlsAnimation]. *)

Module Pro.

Definition PLAYBACK_SPEEDS : list Q := [0.25; 0.5; 0.75; 1; 1.25; 1.5; 1.75; 2].

Record VideoSource : Type :=
  mkVideoSource { uri : string; label : string; resolution : string }.

Record Props : Type :=
  mkProps { sources : list VideoSource; onProgressCallback : bool }.

(** Timer callbacks, with the values their closures captured. *)
Inductive Action : Type :=
| AutoHide                                  (* auto-hide, 4000 ms *)
| FadeOutEnd                                (* end of the 300 ms fade-out *)
| SeekCommit (clampedTime : Q)              (* debounced seek, 150 ms *)
| ProgressUpdate (data_currentTime duration : Q)  (* throttled progress, 100 ms *)
| QualitySeek (currentPosition : Q).        (* resume after quality change, 500 ms *)

Record State : Type := mkState {
  isPlaying : bool;
  isFullscreen : bool;
  showControls : bool;
  isLoading : bool;
  isBuffering : bool;
  error : option string;
  duration : Q;
  currentTime : Q;
  seekTime : Q;
  isSeeking : bool;
  selectedQualityIndex : nat;
  playbackSpeed : Q;
  volume : Q;
  isMuted : bool;
  showSpeedMenu : bool;
  showQualityMenu : bool;
  showVolumeSlider : bool;
  networkType : string;
  controlsTimeoutRef : option nat;
  seekTimeoutRef : option nat;
  progressUpdateTimeoutRef : option nat;
  controlsAnimation : option nat;
  clock : Timers.clock Action;
  engine : list EngineCmd;
  hostProgress : list (Q * Q);
  props : Props
}.

Definition set_isPlaying (v : bool) (s : State) : State :=
  mkState v (isFullscreen s) (showControls s) (isLoading s) (isBuffering s)
  (error s) (duration s) (currentTime s) (seekTime s) (isSeeking s)
  (selectedQualityIndex s) (playbackSpeed s) (volume s) (isMuted s)
  (showSpeedMenu s) (showQualityMenu s) (showVolumeSlider s) (networkType s)
  (controlsTimeoutRef s) (seekTimeoutRef s) (progressUpdateTimeoutRef s)
  (controlsAnimation s) (clock s) (engine s) (hostProgress s) (props s).
Definition set_isFullscreen (v : bool) (s : State) : State :=
  mkState (isPlaying s) v (showControls s) (isLoading s) (isBuffering s)
  (error s) (duration s) (currentTime s) (seekTime s) (isSeeking s)
  (selectedQualityIndex s) (playbackSpeed s) (volume s) (isMuted s)
  (showSpeedMenu s) (showQualityMenu s) (showVolumeSlider s) (networkType s)
  (controlsTimeoutRef s) (seekTimeoutRef s) (progressUpdateTimeoutRef s)
  (controlsAnimation s) (clock s) (engine s) (hostProgress s) (props s).
Definition set_showControls (v : bool) (s : State) : State :=
  mkState (isPlaying s) (isFullscreen s) v (isLoading s) (isBuffering s)
  (error s) (duration s) (currentTime s) (seekTime s) (isSeeking s)
  (selectedQualityIndex s) (playbackSpeed s) (volume s) (isMuted s)
  (showSpeedMenu s) (showQualityMenu s) (showVolumeSlider s) (networkType s)
  (controlsTimeoutRef s) (seekTimeoutRef s) (progressUpdateTimeoutRef s)
  (controlsAnimation s) (clock s) (engine s) (hostProgress s) (props s).
Definition set_isLoading (v : bool) (s : State) : State :=
  mkState (isPlaying s) (isFullscreen s) (showControls s) v (isBuffering s)
  (error s) (duration s) (currentTime s) (seekTime s) (isSeeking s)
  (selectedQualityIndex s) (playbackSpeed s) (volume s) (isMuted s)
  (showSpeedMenu s) (showQualityMenu s) (showVolumeSlider s) (networkType s)
  (controlsTimeoutRef s) (seekTimeoutRef s) (progressUpdateTimeoutRef s)
  (controlsAnimation s) (clock s) (engine s) (hostProgress s) (props s).
Definition set_isBuffering (v : bool) (s : State) : State :=
  mkState (isPlaying s) (isFullscreen s) (showControls s) (isLoading s) v
  (error s) (duration s) (currentTime s) (seekTime s) (isSeeking s)
  (selectedQualityIndex s) (playbackSpeed s) (volume s) (isMuted s)
  (showSpeedMenu s) (showQualityMenu s) (showVolumeSlider s) (networkType s)
  (controlsTimeoutRef s) (seekTimeoutRef s) (progressUpdateTimeoutRef s)
  (controlsAnimation s) (clock s) (engine s) (hostProgress s) (props s).
Definition set_error (v : option string) (s : State) : State :=
  mkState (isPlaying s) (isFullscreen s) (showControls s) (isLoading s)
  (isBuffering s) v (duration s) (currentTime s) (seekTime s) (isSeeking s)
  (selectedQualityIndex s) (playbackSpeed s) (volume s) (isMuted s)
  (showSpeedMenu s) (showQualityMenu s) (showVolumeSlider s) (networkType s)
  (controlsTimeoutRef s) (seekTimeoutRef s) (progressUpdateTimeoutRef s)
  (controlsAnimation s) (clock s) (engine s) (hostProgress s) (props s).
Definition set_duration (v : Q) (s : State) : State :=
  mkState (isPlaying s) (isFullscreen s) (showControls s) (isLoading s)
  (isBuffering s) (error s) v (currentTime s) (seekTime s) (isSeeking s)
  (selectedQualityIndex s) (playbackSpeed s) (volume s) (isMuted s)
  (showSpeedMenu s) (showQualityMenu s) (showVolumeSlider s) (networkType s)
  (controlsTimeoutRef s) (seekTimeoutRef s) (progressUpdateTimeoutRef s)
  (controlsAnimation s) (clock s) (engine s) (hostProgress s) (props s).
Definition set_currentTime (v : Q) (s : State) : State :=
  mkState (isPlaying s) (isFullscreen s) (showControls s) (isLoading s)
  (isBuffering s) (error s) (duration s) v (seekTime s) (isSeeking s)
  (selectedQualityIndex s) (playbackSpeed s) (volume s) (isMuted s)
  (showSpeedMenu s) (showQualityMenu s) (showVolumeSlider s) (networkType s)
  (controlsTimeoutRef s) (seekTimeoutRef s) (progressUpdateTimeoutRef s)
  (controlsAnimation s) (clock s) (engine s) (hostProgress s) (props s).
Definition set_seekTime (v : Q) (s : State) : State :=
  mkState (isPlaying s) (isFullscreen s) (showControls s) (isLoading s)
  (isBuffering s) (error s) (duration s) (currentTime s) v (isSeeking s)
  (selectedQualityIndex s) (playbackSpeed s) (volume s) (isMuted s)
  (showSpeedMenu s) (showQualityMenu s) (showVolumeSlider s) (networkType s)
  (controlsTimeoutRef s) (seekTimeoutRef s) (progressUpdateTimeoutRef s)
  (controlsAnimation s) (clock s) (engine s) (hostProgress s) (props s).
Definition set_isSeeking (v : bool) (s : State) : State :=
  mkState (isPlaying s) (isFullscreen s) (showControls s) (isLoading s)
  (isBuffering s) (error s) (duration s) (currentTime s) (seekTime s) v
  (selectedQualityIndex s) (playbackSpeed s) (volume s) (isMuted s)
  (showSpeedMenu s) (showQualityMenu s) (showVolumeSlider s) (networkType s)
  (controlsTimeoutRef s) (seekTimeoutRef s) (progressUpdateTimeoutRef s)
  (controlsAnimation s) (clock s) (engine s) (hostProgress s) (props s).
Definition set_selectedQualityIndex (v : nat) (s : State) : State :=
  mkState (isPlaying s) (isFullscreen s) (showControls s) (isLoading s)
  (isBuffering s) (error s) (duration s) (currentTime s) (seekTime s)
  (isSeeking s) v (playbackSpeed s) (volume s) (isMuted s) (showSpeedMenu s)
  (showQualityMenu s) (showVolumeSlider s) (networkType s)
  (controlsTimeoutRef s) (seekTimeoutRef s) (progressUpdateTimeoutRef s)
  (controlsAnimation s) (clock s) (engine s) (hostProgress s) (props s).
Definition set_playbackSpeed (v : Q) (s : State) : State :=
  mkState (isPlaying s) (isFullscreen s) (showControls s) (isLoading s)
  (isBuffering s) (error s) (duration s) (currentTime s) (seekTime s)
  (isSeeking s) (selectedQualityIndex s) v (volume s) (isMuted s)
  (showSpeedMenu s) (showQualityMenu s) (showVolumeSlider s) (networkType s)
  (controlsTimeoutRef s) (seekTimeoutRef s) (progressUpdateTimeoutRef s)
  (controlsAnimation s) (clock s) (engine s) (hostProgress s) (props s).
Definition set_volume (v : Q) (s : State) : State :=
  mkState (isPlaying s) (isFullscreen s) (showControls s) (isLoading s)
  (isBuffering s) (error s) (duration s) (currentTime s) (seekTime s)
  (isSeeking s) (selectedQualityIndex s) (playbackSpeed s) v (isMuted s)
  (showSpeedMenu s) (showQualityMenu s) (showVolumeSlider s) (networkType s)
  (controlsTimeoutRef s) (seekTimeoutRef s) (progressUpdateTimeoutRef s)
  (controlsAnimation s) (clock s) (engine s) (hostProgress s) (props s).
Definition set_isMuted (v : bool) (s : State) : State :=
  mkState (isPlaying s) (isFullscreen s) (showControls s) (isLoading s)
  (isBuffering s) (error s) (duration s) (currentTime s) (seekTime s)
  (isSeeking s) (selectedQualityIndex s) (playbackSpeed s) (volume s) v
  (showSpeedMenu s) (showQualityMenu s) (showVolumeSlider s) (networkType s)
  (controlsTimeoutRef s) (seekTimeoutRef s) (progressUpdateTimeoutRef s)
  (controlsAnimation s) (clock s) (engine s) (hostProgress s) (props s).
Definition set_showSpeedMenu (v : bool) (s : State) : State :=
  mkState (isPlaying s) (isFullscreen s) (showControls s) (isLoading s)
  (isBuffering s) (error s) (duration s) (currentTime s) (seekTime s)
  (isSeeking s) (selectedQualityIndex s) (playbackSpeed s) (volume s)
  (isMuted s) v (showQualityMenu s) (showVolumeSlider s) (networkType s)
  (controlsTimeoutRef s) (seekTimeoutRef s) (progressUpdateTimeoutRef s)
  (controlsAnimation s) (clock s) (engine s) (hostProgress s) (props s).
Definition set_showQualityMenu (v : bool) (s : State) : State :=
  mkState (isPlaying s) (isFullscreen s) (showControls s) (isLoading s)
  (isBuffering s) (error s) (duration s) (currentTime s) (seekTime s)
  (isSeeking s) (selectedQualityIndex s) (playbackSpeed s) (volume s)
  (isMuted s) (showSpeedMenu s) v (showVolumeSlider s) (networkType s)
  (controlsTimeoutRef s) (seekTimeoutRef s) (progressUpdateTimeoutRef s)
  (controlsAnimation s) (clock s) (engine s) (hostProgress s) (props s).
Definition set_showVolumeSlider (v : bool) (s : State) : State :=
  mkState (isPlaying s) (isFullscreen s) (showControls s) (isLoading s)
  (isBuffering s) (error s) (duration s) (currentTime s) (seekTime s)
  (isSeeking s) (selectedQualityIndex s) (playbackSpeed s) (volume s)
  (isMuted s) (showSpeedMenu s) (showQualityMenu s) v (networkType s)
  (controlsTimeoutRef s) (seekTimeoutRef s) (progressUpdateTimeoutRef s)
  (controlsAnimation s) (clock s) (engine s) (hostProgress s) (props s).
Definition set_networkType (v : string) (s : State) : State :=
  mkState (isPlaying s) (isFullscreen s) (showControls s) (isLoading s)
  (isBuffering s) (error s) (duration s) (currentTime s) (seekTime s)
  (isSeeking s) (selectedQualityIndex s) (playbackSpeed s) (volume s)
  (isMuted s) (showSpeedMenu s) (showQualityMenu s) (showVolumeSlider s) v
  (controlsTimeoutRef s) (seekTimeoutRef s) (progressUpdateTimeoutRef s)
  (controlsAnimation s) (clock s) (engine s) (hostProgress s) (props s).
Definition set_controlsTimeoutRef (v : option nat) (s : State) : State :=
  mkState (isPlaying s) (isFullscreen s) (showControls s) (isLoading s)
  (isBuffering s) (error s) (duration s) (currentTime s) (seekTime s)
  (isSeeking s) (selectedQualityIndex s) (playbackSpeed s) (volume s)
  (isMuted s) (showSpeedMenu s) (showQualityMenu s) (showVolumeSlider s)
  (networkType s) v (seekTimeoutRef s) (progressUpdateTimeoutRef s)
  (controlsAnimation s) (clock s) (engine s) (hostProgress s) (props s).
Definition set_seekTimeoutRef (v : option nat) (s : State) : State :=
  mkState (isPlaying s) (isFullscreen s) (showControls s) (isLoading s)
  (isBuffering s) (error s) (duration s) (currentTime s) (seekTime s)
  (isSeeking s) (selectedQualityIndex s) (playbackSpeed s) (volume s)
  (isMuted s) (showSpeedMenu s) (showQualityMenu s) (showVolumeSlider s)
  (networkType s) (controlsTimeoutRef s) v (progressUpdateTimeoutRef s)
  (controlsAnimation s) (clock s) (engine s) (hostProgress s) (props s).
Definition set_progressUpdateTimeoutRef (v : option nat) (s : State) : State :=
  mkState (isPlaying s) (isFullscreen s) (showControls s) (isLoading s)
  (isBuffering s) (error s) (duration s) (currentTime s) (seekTime s)
  (isSeeking s) (selectedQualityIndex s) (playbackSpeed s) (volume s)
  (isMuted s) (showSpeedMenu s) (showQualityMenu s) (showVolumeSlider s)
  (networkType s) (controlsTimeoutRef s) (seekTimeoutRef s) v
  (controlsAnimation s) (clock s) (engine s) (hostProgress s) (props s).
Definition set_controlsAnimation (v : option nat) (s : State) : State :=
  mkState (isPlaying s) (isFullscreen s) (showControls s) (isLoading s)
  (isBuffering s) (error s) (duration s) (currentTime s) (seekTime s)
  (isSeeking s) (selectedQualityIndex s) (playbackSpeed s) (volume s)
  (isMuted s) (showSpeedMenu s) (showQualityMenu s) (showVolumeSlider s)
  (networkType s) (controlsTimeoutRef s) (seekTimeoutRef s)
  (progressUpdateTimeoutRef s) v (clock s) (engine s) (hostProgress s)
  (props s).
Definition set_clock (v : Timers.clock Action) (s : State) : State :=
  mkState (isPlaying s) (isFullscreen s) (showControls s) (isLoading s)
  (isBuffering s) (error s) (duration s) (currentTime s) (seekTime s)
  (isSeeking s) (selectedQualityIndex s) (playbackSpeed s) (volume s)
  (isMuted s) (showSpeedMenu s) (showQualityMenu s) (showVolumeSlider s)
  (networkType s) (controlsTimeoutRef s) (seekTimeoutRef s)
  (progressUpdateTimeoutRef s) (controlsAnimation s) v (engine s)
  (hostProgress s) (props s).
Definition set_engine (v : list EngineCmd) (s : State) : State :=
  mkState (isPlaying s) (isFullscreen s) (showControls s) (isLoading s)
  (isBuffering s) (error s) (duration s) (currentTime s) (seekTime s)
  (isSeeking s) (selectedQualityIndex s) (playbackSpeed s) (volume s)
  (isMuted s) (showSpeedMenu s) (showQualityMenu s) (showVolumeSlider s)
  (networkType s) (controlsTimeoutRef s) (seekTimeoutRef s)
  (progressUpdateTimeoutRef s) (controlsAnimation s) (clock s) v
  (hostProgress s) (props s).
Definition set_hostProgress (v : list (Q * Q)) (s : State) : State :=
  mkState (isPlaying s) (isFullscreen s) (showControls s) (isLoading s)
  (isBuffering s) (error s) (duration s) (currentTime s) (seekTime s)
  (isSeeking s) (selectedQualityIndex s) (playbackSpeed s) (volume s)
  (isMuted s) (showSpeedMenu s) (showQualityMenu s) (showVolumeSlider s)
  (networkType s) (controlsTimeoutRef s) (seekTimeoutRef s)
  (progressUpdateTimeoutRef s) (controlsAnimation s) (clock s) (engine s) v
  (props s).


Definition initialState (p : Props) (t0 : N) : State :=
  mkState false false true true false None 0 0 0 false 0%nat 1 1 false
          false false false "unknown" None None None None
          (Timers.start t0) [] [] p.

Definition videoRef (s : State) : bool :=
  match error s with None => true | Some _ => false end.

Definition engine_seek (sec : Q) (s : State) : State :=
  if videoRef s then set_engine (engine s ++ [Seek sec]) s else s.

Definition schedule (a : Action) (delay : N) (s : State) : nat * State :=
  let (id, c) := Timers.setTimeout a delay (clock s) in (id, set_clock c s).

Definition clear (r : option nat) (s : State) : State :=
  set_clock (Timers.clearRef r (clock s)) s.

(** *** Controls animation *)

Definition cancel_animation (s : State) : State :=
  s |> clear (controlsAnimation s) |> set_controlsAnimation None.

Definition hideControlsAnimated (s : State) : State :=
  let (id, s1) := schedule FadeOutEnd 300 (cancel_animation s) in
  set_controlsAnimation (Some id) s1.

Definition showControlsAnimated (s : State) : State :=
  s |> set_showControls true |> cancel_animation.

(** *** Effects *)

(** Auto-hide controls logic.  Dependencies: [showControls, isPlaying,
    isSeeking, showSpeedMenu, showQualityMenu, showVolumeSlider]. *)
Definition autohide_deps_changed (o n : State) : bool :=
  negb (Bool.eqb (showControls o) (showControls n)
        && Bool.eqb (isPlaying o) (isPlaying n)
        && Bool.eqb (isSeeking o) (isSeeking n)
        && Bool.eqb (showSpeedMenu o) (showSpeedMenu n)
        && Bool.eqb (showQualityMenu o) (showQualityMenu n)
        && Bool.eqb (showVolumeSlider o) (showVolumeSlider n)).

Definition autohide_effect (s : State) : State :=
  let s1 := clear (controlsTimeoutRef s) s in
  if showControls s1 && isPlaying s1 && negb (isSeeking s1) && negb (showSpeedMenu s1)
     && negb (showQualityMenu s1) && negb (showVolumeSlider s1)
  then
    let (id, s2) := schedule AutoHide 4000 s1 in
    set_controlsTimeoutRef (Some id) s2
  else s1.

Definition autohide_cleanup (s : State) : State :=
  clear (controlsTimeoutRef s) s.

Definition commit (o n : State) : State :=
  n |> when (autohide_deps_changed o n) autohide_cleanup
    |> when (autohide_deps_changed o n) autohide_effect.

Definition mount (p : Props) (t0 : N) : State :=
  initialState p t0 |> autohide_effect.

(** *** Timer callbacks *)

Definition run (a : Action) (s : State) : State :=
  match a with
  | AutoHide => hideControlsAnimated s
  | FadeOutEnd => s |> set_showControls false |> set_controlsAnimation None
  | SeekCommit clampedTime =>
      s |> engine_seek clampedTime
        |> set_currentTime clampedTime
        |> set_isSeeking false
  | ProgressUpdate data_currentTime duration =>
      s |> set_currentTime data_currentTime
        |> when (onProgressCallback (props s))
             (fun s1 => set_hostProgress (hostProgress s1 ++ [(data_currentTime, duration)]) s1)
  | QualitySeek currentPosition => engine_seek currentPosition s
  end.

#[export] Instance component : Timers.Component State Action := {
  Timers.clk := clock;
  Timers.with_clk := set_clock;
  Timers.fire := fun a s => commit s (run a s)
}.

(** *** Video event handlers *)

Definition onNetInfo (isConnected : bool) (type : string) (s : State) : State :=
  if isConnected then
    s |> set_networkType (JS.str_or type "unknown")
      |> when (match error s with
               | Some e => String.eqb e "No internet connection"
               | None => false
               end) (set_error None)
  else s |> set_networkType "offline"
         |> set_error (Some "No internet connection"%string).

Definition onLoad (data_duration : Q) (s : State) : State :=
  s |> set_isLoading false |> set_error None |> set_duration data_duration.

(** Smooth progress updates without conflicts *)
Definition onProgress (data_currentTime : Q) (s : State) : State :=
  if negb (isSeeking s) then
    (* Throttle progress updates to prevent UI jank *)
    let s1 := clear (progressUpdateTimeoutRef s) s in
    let (id, s2) := schedule (ProgressUpdate data_currentTime (duration s)) 100 s1 in
    set_progressUpdateTimeoutRef (Some id) s2
  else s.

Definition onBuffer (data_isBuffering : bool) (s : State) : State :=
  set_isBuffering data_isBuffering s.

Definition onError (s : State) : State :=
  s |> set_isLoading false
    |> set_isBuffering false
    |> showControlsAnimated
    |> set_error (Some "Failed to load video. Please check your connection and try again."%string).

(** *** Playback controls *)

Definition togglePlayPause (s : State) : State :=
  s |> set_isPlaying (negb (isPlaying s)) |> showControlsAnimated.

Definition toggleMute (s : State) : State :=
  s |> set_isMuted (negb (isMuted s)) |> showControlsAnimated.

(** Smart seeking with debouncing *)
Definition seekTo (time : Q) (s : State) : State :=
  let clampedTime := JS.Math_max 0 (JS.Math_min time (duration s)) in
  let s1 := s |> set_seekTime clampedTime
              |> clear (seekTimeoutRef s) in   (* Clear previous seek timeout *)
  (* Debounced seek - only seek after user stops sliding *)
  let (id, s2) := schedule (SeekCommit clampedTime) 150 s1 in
  set_seekTimeoutRef (Some id) s2.

Definition handleSliderStart (s : State) : State :=
  s |> set_isSeeking true |> showControlsAnimated |> clear (controlsTimeoutRef s).

Definition handleSliderChange (value : Q) (s : State) : State :=
  set_seekTime value s.

Definition handleSliderComplete (value : Q) (s : State) : State :=
  seekTo value s.

Definition skipForward (s : State) : State :=
  let newTime := JS.Math_min (currentTime s + 10) (duration s) in
  s |> seekTo newTime |> showControlsAnimated.

Definition skipBackward (s : State) : State :=
  let newTime := JS.Math_max (currentTime s - 10) 0 in
  s |> seekTo newTime |> showControlsAnimated.

Definition toggleFullscreen (s : State) : State :=
  s |> set_isFullscreen (negb (isFullscreen s)) |> showControlsAnimated.

Definition changeQuality (index : nat) (s : State) : State :=
  let currentPosition := if isSeeking s then seekTime s else currentTime s in
  let s1 := s |> set_selectedQualityIndex index
              |> set_showQualityMenu false
              |> set_isLoading true in
  (* Resume from current position after quality change *)
  snd (schedule (QualitySeek currentPosition) 500 s1).

Definition changePlaybackSpeed (speed : Q) (s : State) : State :=
  s |> set_playbackSpeed speed |> set_showSpeedMenu false |> showControlsAnimated.

(** [sources[selectedQualityIndex] || sources[0]] *)
Definition currentSource (s : State) : option VideoSource :=
  match nth_error (sources (props s)) (selectedQualityIndex s) with
  | Some v => Some v
  | None => nth_error (sources (props s)) 0
  end.

(** *** What the render shows and hands to the [<Video>] element *)

Definition slider_value (s : State) : Q :=
  if isSeeking s then seekTime s else currentTime s.
Definition video_paused (s : State) : bool := negb (isPlaying s).
Definition video_volume (s : State) : Q := if isMuted s then 0 else volume s.
(** [maxBitRate={networkType === 'wifi' ? undefined : 2000000}] *)
Definition video_maxBitRate (s : State) : option N :=
  if String.eqb (networkType s) "wifi" then None else Some 2000000%N.

(** *** Events *)

Inductive Event : Type :=
| NetInfo (isConnected : bool) (type : string)
| OnLoad (duration : Q)
| OnProgress (currentTime : Q)
| OnBuffer (isBuffering : bool)
| OnError
| PressPlayPause
| PressMute
| PressSkipBackward
| PressSkipForward
| SliderStart
| SliderChange (value : Q)
| SliderComplete (value : Q)
| PressFullscreen
| OpenQualityMenu
| CloseQualityMenu
| SelectQuality (index : nat)
| OpenSpeedMenu
| CloseSpeedMenu
| SelectSpeed (speed : Q)
| ToggleVolumeSlider
| CloseVolumeSlider
| VolumeChange (value : Q)
| TapArea
| PressRetry.

Definition handle (e : Event) (s : State) : State :=
  match e with
  | NetInfo c t => onNetInfo c t s
  | OnLoad d => onLoad d s
  | OnProgress t => onProgress t s
  | OnBuffer b => onBuffer b s
  | OnError => onError s
  | PressPlayPause => togglePlayPause s
  | PressMute => toggleMute s
  | PressSkipBackward => skipBackward s
  | PressSkipForward => skipForward s
  | SliderStart => handleSliderStart s
  | SliderChange v => handleSliderChange v s
  | SliderComplete v => handleSliderComplete v s
  | PressFullscreen => toggleFullscreen s
  | OpenQualityMenu => set_showQualityMenu true s
  | CloseQualityMenu => set_showQualityMenu false s
  | SelectQuality i => changeQuality i s
  | OpenSpeedMenu => set_showSpeedMenu true s
  | CloseSpeedMenu => set_showSpeedMenu false s
  | SelectSpeed v => changePlaybackSpeed v s
  | ToggleVolumeSlider => set_showVolumeSlider (negb (showVolumeSlider s)) s
  | CloseVolumeSlider => set_showVolumeSlider false s
  | VolumeChange v => set_volume v s
  | TapArea => if showControls s then hideControlsAnimated s else showControlsAnimated s
  | PressRetry => s |> set_error None |> set_isLoading true
  end.

Definition step (e : Event) (s : State) : State := commit s (handle e s).

Inductive Input : Type :=
| Ev (e : Event)
| Wait (ms : nat).

Definition input (i : Input) (s : State) : State :=
  match i with
  | Ev e => step e s
  | Wait n => Timers.elapse n s
  end.

Definition play (tr : list Input) (s : State) : State :=
  fold_left (fun s i => input i s) tr s.

(** The states the component can be in: it is mounted at some instant of
    the clock ([Date.now()] is positive), then handles events and lets
    time pass. *)
Inductive reachable : State -> Prop :=
| reach_mount : forall (p : Props) (t0 : N), (0 < t0)%N -> reachable (mount p t0)
| reach_step : forall e s, reachable s -> reachable (step e s)
| reach_tick : forall s, reachable s -> reachable (Timers.tick s).

End Pro.

(** ** NativeVideoPlayer ([src/components/video/NativeVideoPlayer.tsx])

    Times are in milliseconds; the engine takes seconds.  The variable
    [timeout] of the auto-hide effect is the cell [autoHideTimeout]. *)

Module Native.

Record Props : Type := mkProps { onProgressCallback : bool }.

Inductive Action : Type :=
| AutoHide.                               (* setShowControls(false), 4000 ms *)

Record State : Type := mkState {
  ps : PlayerState;
  showControls : bool;
  isLoading : bool;
  error : option string;
  playbackSpeed : Q;
  showSpeedMenu : bool;
  showVolumeSlider : bool;
  isBuffering : bool;
  resizeMode : ResizeMode;
  autoHideTimeout : option nat;
  clock : Timers.clock Action;
  engine : list EngineCmd;
  hostProgress : list (Q * Q);
  props : Props
}.

Definition set_ps (v : PlayerState) (s : State) : State :=
  mkState v (showControls s) (isLoading s) (error s) (playbackSpeed s)
  (showSpeedMenu s) (showVolumeSlider s) (isBuffering s) (resizeMode s)
  (autoHideTimeout s) (clock s) (engine s) (hostProgress s) (props s).
Definition set_showControls (v : bool) (s : State) : State :=
  mkState (ps s) v (isLoading s) (error s) (playbackSpeed s) (showSpeedMenu s)
  (showVolumeSlider s) (isBuffering s) (resizeMode s) (autoHideTimeout s)
  (clock s) (engine s) (hostProgress s) (props s).
Definition set_isLoading (v : bool) (s : State) : State :=
  mkState (ps s) (showControls s) v (error s) (playbackSpeed s)
  (showSpeedMenu s) (showVolumeSlider s) (isBuffering s) (resizeMode s)
  (autoHideTimeout s) (clock s) (engine s) (hostProgress s) (props s).
Definition set_error (v : option string) (s : State) : State :=
  mkState (ps s) (showControls s) (isLoading s) v (playbackSpeed s)
  (showSpeedMenu s) (showVolumeSlider s) (isBuffering s) (resizeMode s)
  (autoHideTimeout s) (clock s) (engine s) (hostProgress s) (props s).
Definition set_playbackSpeed (v : Q) (s : State) : State :=
  mkState (ps s) (showControls s) (isLoading s) (error s) v (showSpeedMenu s)
  (showVolumeSlider s) (isBuffering s) (resizeMode s) (autoHideTimeout s)
  (clock s) (engine s) (hostProgress s) (props s).
Definition set_showSpeedMenu (v : bool) (s : State) : State :=
  mkState (ps s) (showControls s) (isLoading s) (error s) (playbackSpeed s) v
  (showVolumeSlider s) (isBuffering s) (resizeMode s) (autoHideTimeout s)
  (clock s) (engine s) (hostProgress s) (props s).
Definition set_showVolumeSlider (v : bool) (s : State) : State :=
  mkState (ps s) (showControls s) (isLoading s) (error s) (playbackSpeed s)
  (showSpeedMenu s) v (isBuffering s) (resizeMode s) (autoHideTimeout s)
  (clock s) (engine s) (hostProgress s) (props s).
Definition set_isBuffering (v : bool) (s : State) : State :=
  mkState (ps s) (showControls s) (isLoading s) (error s) (playbackSpeed s)
  (showSpeedMenu s) (showVolumeSlider s) v (resizeMode s) (autoHideTimeout s)
  (clock s) (engine s) (hostProgress s) (props s).
Definition set_resizeMode (v : ResizeMode) (s : State) : State :=
  mkState (ps s) (showControls s) (isLoading s) (error s) (playbackSpeed s)
  (showSpeedMenu s) (showVolumeSlider s) (isBuffering s) v (autoHideTimeout s)
  (clock s) (engine s) (hostProgress s) (props s).
Definition set_autoHideTimeout (v : option nat) (s : State) : State :=
  mkState (ps s) (showControls s) (isLoading s) (error s) (playbackSpeed s)
  (showSpeedMenu s) (showVolumeSlider s) (isBuffering s) (resizeMode s) v
  (clock s) (engine s) (hostProgress s) (props s).
Definition set_clock (v : Timers.clock Action) (s : State) : State :=
  mkState (ps s) (showControls s) (isLoading s) (error s) (playbackSpeed s)
  (showSpeedMenu s) (showVolumeSlider s) (isBuffering s) (resizeMode s)
  (autoHideTimeout s) v (engine s) (hostProgress s) (props s).
Definition set_engine (v : list EngineCmd) (s : State) : State :=
  mkState (ps s) (showControls s) (isLoading s) (error s) (playbackSpeed s)
  (showSpeedMenu s) (showVolumeSlider s) (isBuffering s) (resizeMode s)
  (autoHideTimeout s) (clock s) v (hostProgress s) (props s).
Definition set_hostProgress (v : list (Q * Q)) (s : State) : State :=
  mkState (ps s) (showControls s) (isLoading s) (error s) (playbackSpeed s)
  (showSpeedMenu s) (showVolumeSlider s) (isBuffering s) (resizeMode s)
  (autoHideTimeout s) (clock s) (engine s) v (props s).


Definition initialState (p : Props) (t0 : N) : State :=
  mkState initialPlayerState true true None 1 false false false contain None
          (Timers.start t0) [] [] p.

Definition videoRef (s : State) : bool :=
  match error s with None => true | Some _ => false end.

Definition engine_send (c : EngineCmd) (s : State) : State :=
  if videoRef s then set_engine (engine s ++ [c]) s else s.

Definition schedule (a : Action) (delay : N) (s : State) : nat * State :=
  let (id, c) := Timers.setTimeout a delay (clock s) in (id, set_clock c s).

(** *** Effects *)

Definition autohide_deps_changed (o n : State) : bool :=
  negb (Bool.eqb (showControls o) (showControls n)
        && Bool.eqb (isPlaying (ps o)) (isPlaying (ps n))).

Definition autohide_effect (s : State) : State :=
  if showControls s && isPlaying (ps s) then
    let (id, s1) := schedule AutoHide 4000 s in
    set_autoHideTimeout (Some id) s1
  else set_autoHideTimeout None s.

Definition autohide_cleanup (s : State) : State :=
  set_clock (Timers.clearRef (autoHideTimeout s) (clock s)) s.

Definition progress_deps_changed (o n : State) : bool :=
  negb (JS.same (currentTime (ps o)) (currentTime (ps n))
        && JS.same (duration (ps o)) (duration (ps n))).

Definition progress_effect (s : State) : State :=
  if onProgressCallback (props s) && JS.gt (duration (ps s)) 0 then
    set_hostProgress (hostProgress s ++ [(currentTime (ps s), duration (ps s))]) s
  else s.

Definition commit (o n : State) : State :=
  n |> when (autohide_deps_changed o n) autohide_cleanup
    |> when (autohide_deps_changed o n) autohide_effect
    |> when (progress_deps_changed o n) progress_effect.

Definition mount (p : Props) (t0 : N) : State :=
  initialState p t0 |> autohide_effect |> progress_effect.

Definition run (a : Action) (s : State) : State :=
  match a with
  | AutoHide => set_showControls false s
  end.

#[export] Instance component : Timers.Component State Action := {
  Timers.clk := clock;
  Timers.with_clk := set_clock;
  Timers.fire := fun a s => commit s (run a s)
}.

(** *** Handlers *)

Definition onLoad (data_duration : Q) (s : State) : State :=
  s |> set_isLoading false
    |> set_error None
    |> (fun s => set_ps (ps_duration (data_duration * 1000) (ps s)) s).

Definition onProgress (data_currentTime : Q) (s : State) : State :=
  set_ps (ps_currentTime (data_currentTime * 1000) (ps s)) s.

Definition onBuffer (data_isBuffering : bool) (s : State) : State :=
  set_isBuffering data_isBuffering s.

Definition onError (s : State) : State :=
  s |> set_isLoading false
    |> set_isBuffering false
    |> set_error (Some "Failed to load video. Please try again."%string).

Definition togglePlayPause (s : State) : State :=
  set_ps (ps_isPlaying (negb (isPlaying (ps s))) (ps s)) s.

Definition toggleMute (s : State) : State :=
  set_ps (ps_isMuted (negb (isMuted (ps s))) (ps s)) s.

Definition setVolume (volume : Q) (s : State) : State :=
  set_ps (ps_volume volume (ps s)) s.

Definition seekTo (position : Q) (s : State) : State :=
  let seekTime := position / 1000 in   (* Convert to seconds *)
  engine_send (Seek seekTime) s.

Definition skipForward (s : State) : State :=
  let newPosition := JS.Math_min (currentTime (ps s) + 10000) (duration (ps s)) in
  seekTo newPosition s.

Definition skipBackward (s : State) : State :=
  let newPosition := JS.Math_max (currentTime (ps s) - 10000) 0 in
  seekTo newPosition s.

Definition changePlaybackSpeed (speed : Q) (s : State) : State :=
  s |> set_playbackSpeed speed |> set_showSpeedMenu false.

Definition toggleFullscreen (s : State) : State :=
  let newFullscreenState := negb (isFullscreen (ps s)) in
  s |> (fun s => set_ps (ps_isFullscreen newFullscreenState (ps s)) s)
    |> engine_send (if newFullscreenState then PresentFullscreen else DismissFullscreen).

Definition cycleResizeMode (s : State) : State :=
  set_resizeMode
    (match resizeMode s with contain => cover | cover => stretch | stretch => contain end) s.

Inductive Event : Type :=
| OnLoad (duration : Q)
| OnProgress (currentTime : Q)
| OnBuffer (isBuffering : bool)
| OnError
| PressPlayPause
| PressMute
| VolumeChange (value : Q)
| SliderValueChange (value : Q)
| PressSkipBackward
| PressSkipForward
| SelectSpeed (speed : Q)
| OpenSpeedMenu
| CloseSpeedMenu
| ToggleVolumeSlider
| CloseVolumeSlider
| PressFullscreen
| PressResizeMode
| TapVideo
| PressRetry.

Definition handle (e : Event) (s : State) : State :=
  match e with
  | OnLoad d => onLoad d s
  | OnProgress t => onProgress t s
  | OnBuffer b => onBuffer b s
  | OnError => onError s
  | PressPlayPause => togglePlayPause s
  | PressMute => toggleMute s
  | VolumeChange v => setVolume v s
  | SliderValueChange v => seekTo v s
  | PressSkipBackward => skipBackward s
  | PressSkipForward => skipForward s
  | SelectSpeed v => changePlaybackSpeed v s
  | OpenSpeedMenu => set_showSpeedMenu true s
  | CloseSpeedMenu => set_showSpeedMenu false s
  | ToggleVolumeSlider => set_showVolumeSlider (negb (showVolumeSlider s)) s
  | CloseVolumeSlider => set_showVolumeSlider false s
  | PressFullscreen => toggleFullscreen s
  | PressResizeMode => cycleResizeMode s
  | TapVideo => set_showControls (negb (showControls s)) s
  | PressRetry => s |> set_error None |> set_isLoading true
  end.

Definition step (e : Event) (s : State) : State := commit s (handle e s).

(** The states the component can be in: it is mounted at some instant of
    the clock ([Date.now()] is positive), then handles events and lets
    time pass. *)
Inductive reachable : State -> Prop :=
| reach_mount : forall (p : Props) (t0 : N), (0 < t0)%N -> reachable (mount p t0)
| reach_step : forall e s, reachable s -> reachable (step e s)
| reach_tick : forall s, reachable s -> reachable (Timers.tick s).

End Native.

(** ** EnhancedVideoPlayer ([src/components/video/EnhancedVideoPlayer.tsx])

    Built on expo-av: times are in milliseconds throughout, the play state
    is whatever the engine last reported through
    [onPlaybackStatusUpdate], and every command is an asynchronous call
    that the engine may reject; whether it resolves is an input of the
    event that issues it. *)

Module Enhanced.

Definition PLAYBACK_SPEEDS : list Q := [0.5; 0.75; 1; 1.25; 1.5; 1.75; 2].

Record Props : Type := mkProps { onProgress : bool }.

(** [AVPlaybackStatus] *)
Inductive AVPlaybackStatus : Type :=
| NotLoaded (error : option string)
| Loaded (isPlaying isBuffering isMuted : bool)
         (positionMillis : Q) (durationMillis : option Q) (volume : Q).

Inductive Action : Type :=
| AutoHide                                   (* setShowControls(false), 4000 ms *)
| BufferingRecovery (playerState_currentTime : Q).  (* stuck buffering, 10000 ms *)

Record State : Type := mkState {
  ps : PlayerState;
  showControls : bool;
  isLoading : bool;
  error : option string;
  playbackSpeed : Q;
  showSpeedMenu : bool;
  showVolumeSlider : bool;
  isBuffering : bool;
  bufferingTimeout : option nat;
  autoHideTimeout : option nat;
  clock : Timers.clock Action;
  engine : list EngineCmd;
  hostProgress : list (Q * Q);
  props : Props
}.

Definition set_ps (v : PlayerState) (s : State) : State :=
  mkState v (showControls s) (isLoading s) (error s) (playbackSpeed s)
  (showSpeedMenu s) (showVolumeSlider s) (isBuffering s) (bufferingTimeout s)
  (autoHideTimeout s) (clock s) (engine s) (hostProgress s) (props s).
Definition set_showControls (v : bool) (s : State) : State :=
  mkState (ps s) v (isLoading s) (error s) (playbackSpeed s) (showSpeedMenu s)
  (showVolumeSlider s) (isBuffering s) (bufferingTimeout s)
  (autoHideTimeout s) (clock s) (engine s) (hostProgress s) (props s).
Definition set_isLoading (v : bool) (s : State) : State :=
  mkState (ps s) (showControls s) v (error s) (playbackSpeed s)
  (showSpeedMenu s) (showVolumeSlider s) (isBuffering s) (bufferingTimeout s)
  (autoHideTimeout s) (clock s) (engine s) (hostProgress s) (props s).
Definition set_error (v : option string) (s : State) : State :=
  mkState (ps s) (showControls s) (isLoading s) v (playbackSpeed s)
  (showSpeedMenu s) (showVolumeSlider s) (isBuffering s) (bufferingTimeout s)
  (autoHideTimeout s) (clock s) (engine s) (hostProgress s) (props s).
Definition set_playbackSpeed (v : Q) (s : State) : State :=
  mkState (ps s) (showControls s) (isLoading s) (error s) v (showSpeedMenu s)
  (showVolumeSlider s) (isBuffering s) (bufferingTimeout s)
  (autoHideTimeout s) (clock s) (engine s) (hostProgress s) (props s).
Definition set_showSpeedMenu (v : bool) (s : State) : State :=
  mkState (ps s) (showControls s) (isLoading s) (error s) (playbackSpeed s) v
  (showVolumeSlider s) (isBuffering s) (bufferingTimeout s)
  (autoHideTimeout s) (clock s) (engine s) (hostProgress s) (props s).
Definition set_showVolumeSlider (v : bool) (s : State) : State :=
  mkState (ps s) (showControls s) (isLoading s) (error s) (playbackSpeed s)
  (showSpeedMenu s) v (isBuffering s) (bufferingTimeout s) (autoHideTimeout s)
  (clock s) (engine s) (hostProgress s) (props s).
Definition set_isBuffering (v : bool) (s : State) : State :=
  mkState (ps s) (showControls s) (isLoading s) (error s) (playbackSpeed s)
  (showSpeedMenu s) (showVolumeSlider s) v (bufferingTimeout s)
  (autoHideTimeout s) (clock s) (engine s) (hostProgress s) (props s).
Definition set_bufferingTimeout (v : option nat) (s : State) : State :=
  mkState (ps s) (showControls s) (isLoading s) (error s) (playbackSpeed s)
  (showSpeedMenu s) (showVolumeSlider s) (isBuffering s) v (autoHideTimeout s)
  (clock s) (engine s) (hostProgress s) (props s).
Definition set_autoHideTimeout (v : option nat) (s : State) : State :=
  mkState (ps s) (showControls s) (isLoading s) (error s) (playbackSpeed s)
  (showSpeedMenu s) (showVolumeSlider s) (isBuffering s) (bufferingTimeout s)
  v (clock s) (engine s) (hostProgress s) (props s).
Definition set_clock (v : Timers.clock Action) (s : State) : State :=
  mkState (ps s) (showControls s) (isLoading s) (error s) (playbackSpeed s)
  (showSpeedMenu s) (showVolumeSlider s) (isBuffering s) (bufferingTimeout s)
  (autoHideTimeout s) v (engine s) (hostProgress s) (props s).
Definition set_engine (v : list EngineCmd) (s : State) : State :=
  mkState (ps s) (showControls s) (isLoading s) (error s) (playbackSpeed s)
  (showSpeedMenu s) (showVolumeSlider s) (isBuffering s) (bufferingTimeout s)
  (autoHideTimeout s) (clock s) v (hostProgress s) (props s).
Definition set_hostProgress (v : list (Q * Q)) (s : State) : State :=
  mkState (ps s) (showControls s) (isLoading s) (error s) (playbackSpeed s)
  (showSpeedMenu s) (showVolumeSlider s) (isBuffering s) (bufferingTimeout s)
  (autoHideTimeout s) (clock s) (engine s) v (props s).


Definition initialState (p : Props) (t0 : N) : State :=
  mkState initialPlayerState true true None 1 false false false None None
          (Timers.start t0) [] [] p.

Definition videoRef (s : State) : bool :=
  match error s with None => true | Some _ => false end.

(** [await videoRef.current?.cmd()] inside [try]: the command is issued
    when the element is rendered; [resolves] tells whether the engine
    accepts it.  The result is whether control reaches the statement after
    the [await]. *)
Definition engine_call (c : EngineCmd) (resolves : bool) (s : State) : bool * State :=
  if videoRef s then (resolves, set_engine (engine s ++ [c]) s) else (true, s).

Definition schedule (a : Action) (delay : N) (s : State) : nat * State :=
  let (id, c) := Timers.setTimeout a delay (clock s) in (id, set_clock c s).

Definition clear (r : option nat) (s : State) : State :=
  set_clock (Timers.clearRef r (clock s)) s.

(** *** Effects *)

Definition autohide_deps_changed (o n : State) : bool :=
  negb (Bool.eqb (showControls o) (showControls n)
        && Bool.eqb (isPlaying (ps o)) (isPlaying (ps n))).

Definition autohide_effect (s : State) : State :=
  if showControls s && isPlaying (ps s) then
    let (id, s1) := schedule AutoHide 4000 s in
    set_autoHideTimeout (Some id) s1
  else set_autoHideTimeout None s.

Definition autohide_cleanup (s : State) : State :=
  clear (autoHideTimeout s) s.

Definition progress_deps_changed (o n : State) : bool :=
  negb (JS.same (currentTime (ps o)) (currentTime (ps n))
        && JS.same (duration (ps o)) (duration (ps n))).

Definition progress_effect (s : State) : State :=
  if onProgress (props s) && JS.gt (duration (ps s)) 0 then
    set_hostProgress (hostProgress s ++ [(currentTime (ps s), duration (ps s))]) s
  else s.

(** The effect on [bufferingTimeout] has no body; its clean-up clears the
    handle it captured, that of the previous render. *)
Definition handle_eqb (a b : option nat) : bool :=
  match a, b with
  | Some x, Some y => Nat.eqb x y
  | None, None => true
  | _, _ => false
  end.

Definition buffering_deps_changed (o n : State) : bool :=
  negb (handle_eqb (bufferingTimeout o) (bufferingTimeout n)).

Definition buffering_cleanup (o : State) (s : State) : State :=
  clear (bufferingTimeout o) s.

Definition commit (o n : State) : State :=
  n |> when (autohide_deps_changed o n) autohide_cleanup
    |> when (buffering_deps_changed o n) (buffering_cleanup o)
    |> when (autohide_deps_changed o n) autohide_effect
    |> when (progress_deps_changed o n) progress_effect.

Definition mount (p : Props) (t0 : N) : State :=
  initialState p t0 |> autohide_effect |> progress_effect.

(** *** Timer callbacks *)

Definition run (a : Action) (s : State) : State :=
  match a with
  | AutoHide => set_showControls false s
  | BufferingRecovery playerState_currentTime =>
      (* Buffering timeout - attempting recovery *)
      s |> set_isBuffering false
        (* Try to recover by seeking to current position *)
        |> when (videoRef s && JS.gt playerState_currentTime 0)
             (fun s1 => set_engine (engine s1 ++ [Seek playerState_currentTime]) s1)
  end.

#[export] Instance component : Timers.Component State Action := {
  Timers.clk := clock;
  Timers.with_clk := set_clock;
  Timers.fire := fun a s => commit s (run a s)
}.

(** *** Handlers *)

Definition onPlaybackStatusUpdate (status : AVPlaybackStatus) (s : State) : State :=
  match status with
  | Loaded st_isPlaying st_isBuffering st_isMuted positionMillis durationMillis st_volume =>
      let s1 := set_isLoading false s in
      (* Handle buffering with timeout to prevent hanging *)
      let s2 :=
        if st_isBuffering then
          let s2 := s1 |> set_isBuffering true
                       |> clear (bufferingTimeout s) in   (* Clear existing timeout *)
          (* Set timeout to handle stuck buffering *)
          let (id, s3) := schedule (BufferingRecovery (currentTime (ps s))) 10000 s2 in
          set_bufferingTimeout (Some id) s3
        else
          s1 |> set_isBuffering false
             |> match bufferingTimeout s with
                | Some _ => fun s2 => s2 |> clear (bufferingTimeout s)
                                         |> set_bufferingTimeout None
                | None => fun s2 => s2
                end in
      s2 |> (fun s3 =>
               set_ps (mkPlayerState
                         st_isPlaying
                         (JS.num_or positionMillis 0)
                         (match durationMillis with Some d => JS.num_or d 0 | None => 0 end)
                         (JS.num_or st_volume 1)
                         st_isMuted
                         (isFullscreen (ps s3))) s3)
         |> set_error None
  | NotLoaded (Some e) =>
      if String.eqb e EmptyString then s
      else
        s |> set_isLoading false
          |> set_isBuffering false
          |> match bufferingTimeout s with
             | Some _ => fun s2 => s2 |> clear (bufferingTimeout s)
                                      |> set_bufferingTimeout None
             | None => fun s2 => s2
             end
          |> set_error (Some "Failed to load video. Please try again."%string)
  | NotLoaded None => s
  end.

Definition togglePlayPause (resolves : bool) (s : State) : State :=
  let (ok, s1) :=
    if isPlaying (ps s) then engine_call Pause resolves s
    else engine_call Play resolves s in
  if ok then s1 else set_error (Some "Playback control failed"%string) s1.

Definition toggleMute (resolves : bool) (s : State) : State :=
  let (ok, s1) := engine_call (SetMuted (negb (isMuted (ps s)))) resolves s in
  if ok then s1 else set_error (Some "Volume control failed"%string) s1.

Definition setVolume (volume : Q) (resolves : bool) (s : State) : State :=
  let (ok, s1) := engine_call (SetVolume volume) resolves s in
  if ok then set_ps (ps_volume volume (ps s1)) s1
  else set_error (Some "Volume control failed"%string) s1.

Definition seekTo (position : Q) (resolves : bool) (s : State) : State :=
  let (ok, s1) := engine_call (Seek position) resolves s in
  if ok then s1 else set_error (Some "Seek failed"%string) s1.

Definition skipForward (resolves : bool) (s : State) : State :=
  let newPosition := JS.Math_min (currentTime (ps s) + 10000) (duration (ps s)) in
  seekTo newPosition resolves s.

Definition skipBackward (resolves : bool) (s : State) : State :=
  let newPosition := JS.Math_max (currentTime (ps s) - 10000) 0 in
  seekTo newPosition resolves s.

Definition changePlaybackSpeed (speed : Q) (resolves : bool) (s : State) : State :=
  let (ok, s1) := engine_call (SetRate speed) resolves s in
  if ok then s1 |> set_playbackSpeed speed |> set_showSpeedMenu false
  else set_error (Some "Playback speed change failed"%string) s1.

Definition toggleFullscreen (resolves : bool) (s : State) : State :=
  let newFullscreenState := negb (isFullscreen (ps s)) in
  let (ok, s1) :=
    engine_call (if newFullscreenState then PresentFullscreen else DismissFullscreen)
                resolves s in
  if ok then set_ps (ps_isFullscreen newFullscreenState (ps s1)) s1
  else set_error (Some "Fullscreen toggle failed"%string) s1.

Inductive Event : Type :=
| StatusUpdate (status : AVPlaybackStatus)
| PressPlayPause (resolves : bool)
| PressMute (resolves : bool)
| VolumeChange (value : Q) (resolves : bool)
| SliderValueChange (value : Q) (resolves : bool)
| PressSkipBackward (resolves : bool)
| PressSkipForward (resolves : bool)
| SelectSpeed (speed : Q) (resolves : bool)
| OpenSpeedMenu
| CloseSpeedMenu
| ToggleVolumeSlider
| CloseVolumeSlider
| PressFullscreen (resolves : bool)
| TapVideo
| PressRetry.

Definition handle (e : Event) (s : State) : State :=
  match e with
  | StatusUpdate st => onPlaybackStatusUpdate st s
  | PressPlayPause r => togglePlayPause r s
  | PressMute r => toggleMute r s
  | VolumeChange v r => setVolume v r s
  | SliderValueChange v r => seekTo v r s
  | PressSkipBackward r => skipBackward r s
  | PressSkipForward r => skipForward r s
  | SelectSpeed v r => changePlaybackSpeed v r s
  | OpenSpeedMenu => set_showSpeedMenu true s
  | CloseSpeedMenu => set_showSpeedMenu false s
  | ToggleVolumeSlider => set_showVolumeSlider (negb (showVolumeSlider s)) s
  | CloseVolumeSlider => set_showVolumeSlider false s
  | PressFullscreen r => toggleFullscreen r s
  | TapVideo => set_showControls (negb (showControls s)) s
  | PressRetry => set_error None s
  end.

Definition step (e : Event) (s : State) : State := commit s (handle e s).

Inductive Input : Type :=
| Ev (e : Event)
| Wait (ms : nat).

Definition input (i : Input) (s : State) : State :=
  match i with
  | Ev e => step e s
  | Wait n => Timers.elapse n s
  end.

Definition play (tr : list Input) (s : State) : State :=
  fold_left (fun s i => input i s) tr s.

(** The states the component can be in: it is mounted at some instant of
    the clock ([Date.now()] is positive), then handles events and lets
    time pass. *)
Inductive reachable : State -> Prop :=
| reach_mount : forall (p : Props) (t0 : N), (0 < t0)%N -> reachable (mount p t0)
| reach_step : forall e s, reachable s -> reachable (step e s)
| reach_tick : forall s, reachable s -> reachable (Timers.tick s).

End Enhanced.

(** ** AdvancedVideoPlayer, earlier revision

    The revision of the component that precedes the one above: a 300 ms
    double-tap window, a single-tap callback that uses the value of
    [showControls] it captured, no emergency fallback and 20 px gesture
    thresholds. *)

Module AdvancedLegacy.

Definition SEEK_TIME : Q := 10000.

Record Props : Type := mkProps { onProgressCallback : bool }.

Inductive Action : Type :=
| AutoHide                               (* setShowControls(false), 4000 ms *)
| TapToggle (showControls : bool).       (* setShowControls(!showControls), 300 ms *)

Record State : Type := mkState {
  ps : PlayerState;
  showControls : bool;
  isLoading : bool;
  error : option string;
  playbackSpeed : Q;
  showSpeedMenu : bool;
  showQualityMenu : bool;
  isBuffering : bool;
  resizeMode : ResizeMode;
  brightness : Q;
  networkStatus : string;
  showSeekIndicator : bool;
  controlsTimeoutRef : option nat;
  doubleTapTimeoutRef : option nat;
  lastTap : N;
  clock : Timers.clock Action;
  engine : list EngineCmd;
  hostProgress : list (Q * Q);
  props : Props;
  window : Dimensions
}.

Definition set_ps (v : PlayerState) (s : State) : State :=
  mkState v (showControls s) (isLoading s) (error s) (playbackSpeed s)
  (showSpeedMenu s) (showQualityMenu s) (isBuffering s) (resizeMode s)
  (brightness s) (networkStatus s) (showSeekIndicator s)
  (controlsTimeoutRef s) (doubleTapTimeoutRef s) (lastTap s) (clock s)
  (engine s) (hostProgress s) (props s) (window s).
Definition set_showControls (v : bool) (s : State) : State :=
  mkState (ps s) v (isLoading s) (error s) (playbackSpeed s) (showSpeedMenu s)
  (showQualityMenu s) (isBuffering s) (resizeMode s) (brightness s)
  (networkStatus s) (showSeekIndicator s) (controlsTimeoutRef s)
  (doubleTapTimeoutRef s) (lastTap s) (clock s) (engine s) (hostProgress s)
  (props s) (window s).
Definition set_isLoading (v : bool) (s : State) : State :=
  mkState (ps s) (showControls s) v (error s) (playbackSpeed s)
  (showSpeedMenu s) (showQualityMenu s) (isBuffering s) (resizeMode s)
  (brightness s) (networkStatus s) (showSeekIndicator s)
  (controlsTimeoutRef s) (doubleTapTimeoutRef s) (lastTap s) (clock s)
  (engine s) (hostProgress s) (props s) (window s).
Definition set_error (v : option string) (s : State) : State :=
  mkState (ps s) (showControls s) (isLoading s) v (playbackSpeed s)
  (showSpeedMenu s) (showQualityMenu s) (isBuffering s) (resizeMode s)
  (brightness s) (networkStatus s) (showSeekIndicator s)
  (controlsTimeoutRef s) (doubleTapTimeoutRef s) (lastTap s) (clock s)
  (engine s) (hostProgress s) (props s) (window s).
Definition set_playbackSpeed (v : Q) (s : State) : State :=
  mkState (ps s) (showControls s) (isLoading s) (error s) v (showSpeedMenu s)
  (showQualityMenu s) (isBuffering s) (resizeMode s) (brightness s)
  (networkStatus s) (showSeekIndicator s) (controlsTimeoutRef s)
  (doubleTapTimeoutRef s) (lastTap s) (clock s) (engine s) (hostProgress s)
  (props s) (window s).
Definition set_showSpeedMenu (v : bool) (s : State) : State :=
  mkState (ps s) (showControls s) (isLoading s) (error s) (playbackSpeed s) v
  (showQualityMenu s) (isBuffering s) (resizeMode s) (brightness s)
  (networkStatus s) (showSeekIndicator s) (controlsTimeoutRef s)
  (doubleTapTimeoutRef s) (lastTap s) (clock s) (engine s) (hostProgress s)
  (props s) (window s).
Definition set_showQualityMenu (v : bool) (s : State) : State :=
  mkState (ps s) (showControls s) (isLoading s) (error s) (playbackSpeed s)
  (showSpeedMenu s) v (isBuffering s) (resizeMode s) (brightness s)
  (networkStatus s) (showSeekIndicator s) (controlsTimeoutRef s)
  (doubleTapTimeoutRef s) (lastTap s) (clock s) (engine s) (hostProgress s)
  (props s) (window s).
Definition set_isBuffering (v : bool) (s : State) : State :=
  mkState (ps s) (showControls s) (isLoading s) (error s) (playbackSpeed s)
  (showSpeedMenu s) (showQualityMenu s) v (resizeMode s) (brightness s)
  (networkStatus s) (showSeekIndicator s) (controlsTimeoutRef s)
  (doubleTapTimeoutRef s) (lastTap s) (clock s) (engine s) (hostProgress s)
  (props s) (window s).
Definition set_resizeMode (v : ResizeMode) (s : State) : State :=
  mkState (ps s) (showControls s) (isLoading s) (error s) (playbackSpeed s)
  (showSpeedMenu s) (showQualityMenu s) (isBuffering s) v (brightness s)
  (networkStatus s) (showSeekIndicator s) (controlsTimeoutRef s)
  (doubleTapTimeoutRef s) (lastTap s) (clock s) (engine s) (hostProgress s)
  (props s) (window s).
Definition set_brightness (v : Q) (s : State) : State :=
  mkState (ps s) (showControls s) (isLoading s) (error s) (playbackSpeed s)
  (showSpeedMenu s) (showQualityMenu s) (isBuffering s) (resizeMode s) v
  (networkStatus s) (showSeekIndicator s) (controlsTimeoutRef s)
  (doubleTapTimeoutRef s) (lastTap s) (clock s) (engine s) (hostProgress s)
  (props s) (window s).
Definition set_networkStatus (v : string) (s : State) : State :=
  mkState (ps s) (showControls s) (isLoading s) (error s) (playbackSpeed s)
  (showSpeedMenu s) (showQualityMenu s) (isBuffering s) (resizeMode s)
  (brightness s) v (showSeekIndicator s) (controlsTimeoutRef s)
  (doubleTapTimeoutRef s) (lastTap s) (clock s) (engine s) (hostProgress s)
  (props s) (window s).
Definition set_showSeekIndicator (v : bool) (s : State) : State :=
  mkState (ps s) (showControls s) (isLoading s) (error s) (playbackSpeed s)
  (showSpeedMenu s) (showQualityMenu s) (isBuffering s) (resizeMode s)
  (brightness s) (networkStatus s) v (controlsTimeoutRef s)
  (doubleTapTimeoutRef s) (lastTap s) (clock s) (engine s) (hostProgress s)
  (props s) (window s).
Definition set_controlsTimeoutRef (v : option nat) (s : State) : State :=
  mkState (ps s) (showControls s) (isLoading s) (error s) (playbackSpeed s)
  (showSpeedMenu s) (showQualityMenu s) (isBuffering s) (resizeMode s)
  (brightness s) (networkStatus s) (showSeekIndicator s) v
  (doubleTapTimeoutRef s) (lastTap s) (clock s) (engine s) (hostProgress s)
  (props s) (window s).
Definition set_doubleTapTimeoutRef (v : option nat) (s : State) : State :=
  mkState (ps s) (showControls s) (isLoading s) (error s) (playbackSpeed s)
  (showSpeedMenu s) (showQualityMenu s) (isBuffering s) (resizeMode s)
  (brightness s) (networkStatus s) (showSeekIndicator s)
  (controlsTimeoutRef s) v (lastTap s) (clock s) (engine s) (hostProgress s)
  (props s) (window s).
Definition set_lastTap (v : N) (s : State) : State :=
  mkState (ps s) (showControls s) (isLoading s) (error s) (playbackSpeed s)
  (showSpeedMenu s) (showQualityMenu s) (isBuffering s) (resizeMode s)
  (brightness s) (networkStatus s) (showSeekIndicator s)
  (controlsTimeoutRef s) (doubleTapTimeoutRef s) v (clock s) (engine s)
  (hostProgress s) (props s) (window s).
Definition set_clock (v : Timers.clock Action) (s : State) : State :=
  mkState (ps s) (showControls s) (isLoading s) (error s) (playbackSpeed s)
  (showSpeedMenu s) (showQualityMenu s) (isBuffering s) (resizeMode s)
  (brightness s) (networkStatus s) (showSeekIndicator s)
  (controlsTimeoutRef s) (doubleTapTimeoutRef s) (lastTap s) v (engine s)
  (hostProgress s) (props s) (window s).
Definition set_engine (v : list EngineCmd) (s : State) : State :=
  mkState (ps s) (showControls s) (isLoading s) (error s) (playbackSpeed s)
  (showSpeedMenu s) (showQualityMenu s) (isBuffering s) (resizeMode s)
  (brightness s) (networkStatus s) (showSeekIndicator s)
  (controlsTimeoutRef s) (doubleTapTimeoutRef s) (lastTap s) (clock s) v
  (hostProgress s) (props s) (window s).
Definition set_hostProgress (v : list (Q * Q)) (s : State) : State :=
  mkState (ps s) (showControls s) (isLoading s) (error s) (playbackSpeed s)
  (showSpeedMenu s) (showQualityMenu s) (isBuffering s) (resizeMode s)
  (brightness s) (networkStatus s) (showSeekIndicator s)
  (controlsTimeoutRef s) (doubleTapTimeoutRef s) (lastTap s) (clock s)
  (engine s) v (props s) (window s).


Definition videoRef (s : State) : bool :=
  match error s with None => true | Some _ => false end.

Definition engine_seek (sec : Q) (s : State) : State :=
  if videoRef s then set_engine (engine s ++ [Seek sec]) s else s.

Definition schedule (a : Action) (delay : N) (s : State) : nat * State :=
  let (id, c) := Timers.setTimeout a delay (clock s) in (id, set_clock c s).

Definition clear (r : option nat) (s : State) : State :=
  set_clock (Timers.clearRef r (clock s)) s.

Definition initialState (p : Props) (w : Dimensions) (t0 : N) : State :=
  mkState initialPlayerState true true None 1 false false false contain 1
          "unknown" false None None 0%N (Timers.start t0) [] [] p w.

(** Auto-hide controls.  Dependencies: [showControls, playerState.isPlaying]. *)
Definition autohide_deps_changed (o n : State) : bool :=
  negb (Bool.eqb (showControls o) (showControls n)
        && Bool.eqb (isPlaying (ps o)) (isPlaying (ps n))).

Definition autohide_effect (s : State) : State :=
  let s1 := clear (controlsTimeoutRef s) s in
  if showControls s1 && isPlaying (ps s1) then
    let (id, s2) := schedule AutoHide 4000 s1 in
    set_controlsTimeoutRef (Some id) s2
  else s1.

Definition autohide_cleanup (s : State) : State :=
  clear (controlsTimeoutRef s) s.

Definition progress_deps_changed (o n : State) : bool :=
  negb (JS.same (currentTime (ps o)) (currentTime (ps n))
        && JS.same (duration (ps o)) (duration (ps n))).

Definition progress_effect (s : State) : State :=
  if onProgressCallback (props s) && JS.gt (duration (ps s)) 0 then
    set_hostProgress (hostProgress s ++ [(currentTime (ps s), duration (ps s))]) s
  else s.

Definition commit (o n : State) : State :=
  n |> when (autohide_deps_changed o n) autohide_cleanup
    |> when (autohide_deps_changed o n) autohide_effect
    |> when (progress_deps_changed o n) progress_effect.

Definition mount (p : Props) (w : Dimensions) (t0 : N) : State :=
  initialState p w t0 |> autohide_effect |> progress_effect.

Definition run (a : Action) (s : State) : State :=
  match a with
  | AutoHide => set_showControls false s
  | TapToggle captured =>
      s |> set_showControls (negb captured) |> set_doubleTapTimeoutRef None
  end.

#[export] Instance component : Timers.Component State Action := {
  Timers.clk := clock;
  Timers.with_clk := set_clock;
  Timers.fire := fun a s => commit s (run a s)
}.

Definition onNetInfo (isConnected : bool) (type : string) (s : State) : State :=
  if isConnected then set_networkStatus (JS.str_or type "unknown") s
  else s |> set_networkStatus "offline"
         |> set_error (Some "No internet connection"%string).

Definition onLoad (data_duration : Q) (s : State) : State :=
  s |> set_isLoading false
    |> set_error None
    |> (fun s => set_ps (ps_duration (data_duration * 1000) (ps s)) s).

Definition onProgress (data_currentTime : Q) (s : State) : State :=
  set_ps (ps_currentTime (data_currentTime * 1000) (ps s)) s.

Definition onBuffer (data_isBuffering : bool) (s : State) : State :=
  set_isBuffering data_isBuffering s.

Definition onError (s : State) : State :=
  s |> set_isLoading false
    |> set_isBuffering false
    |> set_error (Some "Failed to load video. Check your connection and try again."%string).

Definition togglePlayPause (s : State) : State :=
  s |> (fun s => set_ps (ps_isPlaying (negb (isPlaying (ps s))) (ps s)) s)
    |> set_showControls true.

Definition seekTo (position : Q) (s : State) : State :=
  let seekTime := JS.Math_max 0 (JS.Math_min position (duration (ps s))) in
  s |> engine_seek (seekTime / 1000)
    |> (fun s => set_ps (ps_currentTime seekTime (ps s)) s).

Definition showSeekFeedback (s : State) : State :=
  set_showSeekIndicator true s.

Definition skipForward (s : State) : State :=
  let newPosition :=
    JS.Math_min (currentTime (ps s) + SEEK_TIME) (duration (ps s)) in
  s |> seekTo newPosition |> showSeekFeedback.

Definition skipBackward (s : State) : State :=
  let newPosition := JS.Math_max (currentTime (ps s) - SEEK_TIME) 0 in
  s |> seekTo newPosition |> showSeekFeedback.

Definition toggleFullscreen (s : State) : State :=
  set_ps (ps_isFullscreen (negb (isFullscreen (ps s))) (ps s)) s.

Definition changePlaybackSpeed (speed : Q) (s : State) : State :=
  s |> set_playbackSpeed speed |> set_showSpeedMenu false.

Definition retryVideo (s : State) : State :=
  s |> set_error None |> set_isLoading true |> set_isBuffering false.

Definition onPanResponderMove (locationX dx dy : Q) (s : State) : State :=
  let w := width (window s) in
  let h := height (window s) in
  let delta := - dy / h in
  s |> when (JS.lt locationX (w / 2) && JS.gt (Qabs dy) 20)
         (set_brightness (JS.Math_max 0.1 (JS.Math_min 1 (brightness s + delta))))
    |> when (JS.gt locationX (w / 2) && JS.gt (Qabs dy) 20)
         (fun s1 => set_ps (ps_volume (JS.Math_max 0 (JS.Math_min 1 (volume (ps s) + delta)))
                                      (ps s1)) s1)
    |> when (JS.gt (Qabs dx) 20 && JS.gt (Qabs dx) (Qabs dy))
         (set_showSeekIndicator true).

Definition onPanResponderRelease (dx dy : Q) (s : State) : State :=
  let seekDelta := (dx / width (window s)) * 30000 in
  let newTime :=
    JS.Math_max 0 (JS.Math_min (duration (ps s)) (currentTime (ps s) + seekDelta)) in
  s |> set_showSeekIndicator false
    |> when (JS.gt (Qabs dx) 20 && JS.gt (Qabs dx) (Qabs dy)) (seekTo newTime).

Definition DOUBLE_PRESS_DELAY : N := 300.

(** Double tap handling *)
Definition handleTap (tapX : Q) (s : State) : State :=
  let now := Timers.now (clock s) in
  let s0 := s |> clear (doubleTapTimeoutRef s) |> set_doubleTapTimeoutRef None in
  if negb (N.eqb (lastTap s0) 0) && N.ltb (now - lastTap s0) DOUBLE_PRESS_DELAY then
    (* Double tap *)
    s0 |> (if JS.lt tapX (width (window s) / 3) then skipBackward
           else if JS.gt tapX (width (window s) * 2 / 3) then skipForward
           else togglePlayPause)
       |> set_lastTap 0%N
  else
    (* Single tap *)
    let (id, s1) := schedule (TapToggle (showControls s)) DOUBLE_PRESS_DELAY s0 in
    s1 |> set_doubleTapTimeoutRef (Some id) |> set_lastTap now.

Definition video_maxBitRate (s : State) : option N :=
  if String.eqb (networkStatus s) "wifi" then None else Some 1000000%N.

Inductive Event : Type :=
| NetInfo (isConnected : bool) (type : string)
| OnLoad (duration : Q)
| OnProgress (currentTime : Q)
| OnBuffer (isBuffering : bool)
| OnError
| PressPlayPause
| PressSkipBackward
| PressSkipForward
| SliderValueChange (value : Q)
| SlidingStart
| PressMute
| OpenSpeedMenu
| CloseSpeedMenu
| OpenQualityMenu
| SelectSpeed (speed : Q)
| PressFullscreen
| PressResizeMode
| PressRetry
| Tap (locationX : Q)
| PanMove (locationX dx dy : Q)
| PanRelease (dx dy : Q)
| SeekFeedbackEnd.

Definition handle (e : Event) (s : State) : State :=
  match e with
  | NetInfo c t => onNetInfo c t s
  | OnLoad d => onLoad d s
  | OnProgress t => onProgress t s
  | OnBuffer b => onBuffer b s
  | OnError => onError s
  | PressPlayPause => togglePlayPause s
  | PressSkipBackward => skipBackward s
  | PressSkipForward => skipForward s
  | SliderValueChange v => seekTo v s
  | SlidingStart => set_showControls true s
  | PressMute => set_ps (ps_isMuted (negb (isMuted (ps s))) (ps s)) s
  | OpenSpeedMenu => set_showSpeedMenu true s
  | CloseSpeedMenu => set_showSpeedMenu false s
  | OpenQualityMenu => set_showQualityMenu true s
  | SelectSpeed v => changePlaybackSpeed v s
  | PressFullscreen => toggleFullscreen s
  | PressResizeMode =>
      set_resizeMode
        (match resizeMode s with contain => cover | cover => stretch | stretch => contain end) s
  | PressRetry => retryVideo s
  | Tap x => handleTap x s
  | PanMove x dx dy => onPanResponderMove x dx dy s
  | PanRelease dx dy => onPanResponderRelease dx dy s
  | SeekFeedbackEnd => set_showSeekIndicator false s
  end.

Definition step (e : Event) (s : State) : State := commit s (handle e s).

Inductive Input : Type :=
| Ev (e : Event)
| Wait (ms : nat).

Definition input (i : Input) (s : State) : State :=
  match i with
  | Ev e => step e s
  | Wait n => Timers.elapse n s
  end.

Definition play (tr : list Input) (s : State) : State :=
  fold_left (fun s i => input i s) tr s.

(** The states the component can be in: it is mounted at some instant of
    the clock ([Date.now()] is positive), then handles events and lets
    time pass. *)
Inductive reachable : State -> Prop :=
| reach_mount : forall (p : Props) (w : Dimensions) (t0 : N), (0 < t0)%N -> reachable (mount p w t0)
| reach_step : forall e s, reachable s -> reachable (step e s)
| reach_tick : forall s, reachable s -> reachable (Timers.tick s).

End AdvancedLegacy.

(** ** VideoPlayer, the first player built on expo-av
    ([src/components/video/VideoPlayer.tsx])

    As in EnhancedVideoPlayer, times are in milliseconds, the play state
    is what the engine last reported and every command is a call the
    engine may reject.  Calls of the host's [onFullscreenUpdate] are
    logged. *)

Module Basic.

Inductive Action : Type :=
| AutoHide.                               (* setShowControls(false), 3000 ms *)

Record State : Type := mkState {
  ps : PlayerState;
  showControls : bool;
  isLoading : bool;
  error : option string;
  autoHideTimeout : option nat;
  clock : Timers.clock Action;
  engine : list EngineCmd;
  hostFullscreen : list bool;
  window : Dimensions
}.

Definition set_ps (v : PlayerState) (s : State) : State :=
  mkState v (showControls s) (isLoading s) (error s) (autoHideTimeout s) (clock s)
          (engine s) (hostFullscreen s) (window s).
Definition set_showControls (v : bool) (s : State) : State :=
  mkState (ps s) v (isLoading s) (error s) (autoHideTimeout s) (clock s)
          (engine s) (hostFullscreen s) (window s).
Definition set_isLoading (v : bool) (s : State) : State :=
  mkState (ps s) (showControls s) v (error s) (autoHideTimeout s) (clock s)
          (engine s) (hostFullscreen s) (window s).
Definition set_error (v : option string) (s : State) : State :=
  mkState (ps s) (showControls s) (isLoading s) v (autoHideTimeout s) (clock s)
          (engine s) (hostFullscreen s) (window s).
Definition set_autoHideTimeout (v : option nat) (s : State) : State :=
  mkState (ps s) (showControls s) (isLoading s) (error s) v (clock s)
          (engine s) (hostFullscreen s) (window s).
Definition set_clock (v : Timers.clock Action) (s : State) : State :=
  mkState (ps s) (showControls s) (isLoading s) (error s) (autoHideTimeout s) v
          (engine s) (hostFullscreen s) (window s).
Definition set_engine (v : list EngineCmd) (s : State) : State :=
  mkState (ps s) (showControls s) (isLoading s) (error s) (autoHideTimeout s) (clock s)
          v (hostFullscreen s) (window s).
Definition set_hostFullscreen (v : list bool) (s : State) : State :=
  mkState (ps s) (showControls s) (isLoading s) (error s) (autoHideTimeout s) (clock s)
          (engine s) v (window s).

Definition initialState (w : Dimensions) (t0 : N) : State :=
  mkState initialPlayerState true true None None (Timers.start t0) [] [] w.

Definition videoRef (s : State) : bool :=
  match error s with None => true | Some _ => false end.

(** [await videoRef.current?.cmd()] inside [try], as in EnhancedVideoPlayer. *)
Definition engine_call (c : EngineCmd) (resolves : bool) (s : State) : bool * State :=
  if videoRef s then (resolves, set_engine (engine s ++ [c]) s) else (true, s).

Definition schedule (a : Action) (delay : N) (s : State) : nat * State :=
  let (id, c) := Timers.setTimeout a delay (clock s) in (id, set_clock c s).

Definition autohide_deps_changed (o n : State) : bool :=
  negb (Bool.eqb (showControls o) (showControls n)
        && Bool.eqb (isPlaying (ps o)) (isPlaying (ps n))).

Definition autohide_effect (s : State) : State :=
  if showControls s && isPlaying (ps s) then
    let (id, s1) := schedule AutoHide 3000 s in
    set_autoHideTimeout (Some id) s1
  else set_autoHideTimeout None s.

Definition autohide_cleanup (s : State) : State :=
  set_clock (Timers.clearRef (autoHideTimeout s) (clock s)) s.

Definition commit (o n : State) : State :=
  n |> when (autohide_deps_changed o n) autohide_cleanup
    |> when (autohide_deps_changed o n) autohide_effect.

Definition mount (w : Dimensions) (t0 : N) : State :=
  initialState w t0 |> autohide_effect.

Definition run (a : Action) (s : State) : State :=
  match a with
  | AutoHide => set_showControls false s
  end.

#[export] Instance component : Timers.Component State Action := {
  Timers.clk := clock;
  Timers.with_clk := set_clock;
  Timers.fire := fun a s => commit s (run a s)
}.

Definition onPlaybackStatusUpdate (status : Enhanced.AVPlaybackStatus) (s : State) : State :=
  match status with
  | Enhanced.Loaded st_isPlaying _ st_isMuted positionMillis durationMillis st_volume =>
      s |> set_isLoading false
        |> (fun s1 =>
              set_ps (mkPlayerState
                        st_isPlaying
                        (JS.num_or positionMillis 0)
                        (match durationMillis with Some d => JS.num_or d 0 | None => 0 end)
                        (JS.num_or st_volume 1)
                        st_isMuted
                        (isFullscreen (ps s1))) s1)
        |> set_error None
  | Enhanced.NotLoaded (Some e) =>
      if String.eqb e EmptyString then s
      else s |> set_isLoading false
             |> set_error (Some "Failed to load video. Please try again."%string)
  | Enhanced.NotLoaded None => s
  end.

Definition togglePlayPause (resolves : bool) (s : State) : State :=
  let (ok, s1) :=
    if isPlaying (ps s) then engine_call Pause resolves s
    else engine_call Play resolves s in
  if ok then s1 else set_error (Some "Playback control failed"%string) s1.

Definition toggleMute (resolves : bool) (s : State) : State :=
  let (ok, s1) := engine_call (SetMuted (negb (isMuted (ps s)))) resolves s in
  if ok then s1 else set_error (Some "Volume control failed"%string) s1.

Definition seekTo (position : Q) (resolves : bool) (s : State) : State :=
  let (ok, s1) := engine_call (Seek position) resolves s in
  if ok then s1 else set_error (Some "Seek failed"%string) s1.

(** The engine is asked to present the fullscreen player whichever way
    the flag goes. *)
Definition toggleFullscreen (resolves : bool) (s : State) : State :=
  let newFullscreenState := negb (isFullscreen (ps s)) in
  let (ok, s1) := engine_call PresentFullscreen resolves s in
  if ok then
    s1 |> (fun s2 => set_ps (ps_isFullscreen newFullscreenState (ps s2)) s2)
       |> (fun s2 => set_hostFullscreen (hostFullscreen s2 ++ [newFullscreenState]) s2)
  else set_error (Some "Fullscreen toggle failed"%string) s1.

(** What the press handler of the progress bar finds at
    [event.currentTarget.props.style]: the read throws when the target
    has no [props]; otherwise the style is [undefined] or carries a
    width.  The render passes no [style] to the touchable, so which of
    the three it is depends on the host platform alone. *)
Inductive TargetStyle : Type :=
| NoProps
| NoStyle
| StyleWidth (width : Q).

(** A press on the progress bar at [locationX]:
    [const { width } = event.currentTarget.props.style || { width: screenWidth - 80 }],
    then a seek to [(locationX / width) * duration].  The fallback
    divisor is not the width the bar is laid out with.  Where the read
    throws, the handler ends before it seeks. *)
Definition pressProgressBar (locationX : Q) (style : TargetStyle) (resolves : bool)
                            (s : State) : State :=
  match
    match style with
    | NoProps => None
    | NoStyle => Some (width (window s) - 80)
    | StyleWidth w => Some w
    end
  with
  | Some width =>
      let seekPosition := (locationX / width) * duration (ps s) in
      seekTo seekPosition resolves s
  | None => s
  end.

Definition progressPercentage (s : State) : Q :=
  if JS.gt (duration (ps s)) 0
  then (currentTime (ps s) / duration (ps s)) * 100
  else 0.

Inductive Event : Type :=
| StatusUpdate (status : Enhanced.AVPlaybackStatus)
| PressPlayPause (resolves : bool)
| PressMute (resolves : bool)
| PressProgressBar (locationX : Q) (style : TargetStyle) (resolves : bool)
| PressFullscreen (resolves : bool)
| TapVideo
| PressRetry.

Definition handle (e : Event) (s : State) : State :=
  match e with
  | StatusUpdate st => onPlaybackStatusUpdate st s
  | PressPlayPause r => togglePlayPause r s
  | PressMute r => toggleMute r s
  | PressProgressBar x w r => pressProgressBar x w r s
  | PressFullscreen r => toggleFullscreen r s
  | TapVideo => set_showControls (negb (showControls s)) s
  | PressRetry => set_error None s
  end.

Definition step (e : Event) (s : State) : State := commit s (handle e s).

Inductive reachable : State -> Prop :=
| reach_mount : forall (w : Dimensions) (t0 : N), (0 < t0)%N -> reachable (mount w t0)
| reach_step : forall e s, reachable s -> reachable (step e s)
| reach_tick : forall s, reachable s -> reachable (Timers.tick s).

End Basic.

(** ** Unmounting

    What React runs when a component leaves the tree: the clean-up of
    every effect, in the order of the effects.  Subscriptions
    ([NetInfo], [KeepAwake]) are outside the model. *)

Module Lifecycle.



End Lifecycle.

(** ** AuthContext: the signed-in user and the watch history
    ([src/contexts/AuthContext.tsx])

    The provider keeps the user and the watch history in [useState]
    cells and mirrors them in two stores.  Each function of the context
    is [async]; a call is modelled as one step that runs to its end
    before the next call starts, and every [await] on a store takes a
    flag that says whether the store's promise resolves ([true]) or
    rejects ([false]).  [JSON.stringify] followed by [JSON.parse] gives
    back the value that was stored, so the stores hold values.  An
    instant is a number of milliseconds, as [Date.now()] gives it; the
    ISO string of [watchedAt] is represented by its instant, which is
    what the code reads back with [new Date(s).getTime()]. *)

Module Auth.

Record User : Type := mkUser {
  u_id : string;
  u_email : string;
  u_name : string;
  u_picture : option string;
  u_googleId : option string
}.

Record VideoItem : Type := mkVideoItem {
  v_id : string;
  v_title : string;
  v_description : string;
  v_thumbnail : string;
  v_channelTitle : string;
  v_publishedAt : string;
  v_duration : string;
  v_viewCount : string
}.

Record WatchHistoryItem : Type := mkWatchHistoryItem {
  h_id : string;
  videoId : string;
  h_title : string;
  h_thumbnail : string;
  h_channelTitle : string;
  h_duration : string;
  watchedAt : N;
  watchedDuration : option Q          (* in seconds *)
}.

(** [SecureStore] holds the items ['user'] and ['accessToken']. *)
Record SecureStore : Type := mkSecureStore {
  stored_user : option User;
  stored_token : option string
}.

(** [AsyncStorage]: the histories saved so far, by key. *)
Definition AsyncStorage : Type := list (string * list WatchHistoryItem).

Definition getItem (key : string) (st : AsyncStorage) : option (list WatchHistoryItem) :=
  match find (fun kv => String.eqb (fst kv) key) st with
  | Some kv => Some (snd kv)
  | None => None
  end.

Definition setItem (key : string) (value : list WatchHistoryItem) (st : AsyncStorage)
  : AsyncStorage :=
  (key, value) :: filter (fun kv => negb (String.eqb (fst kv) key)) st.

Record State : Type := mkState {
  user : option User;
  isAuthenticated : bool;
  isLoading : bool;
  watchHistory : list WatchHistoryItem;
  secure : SecureStore;
  storage : AsyncStorage
}.

Definition set_user (v : option User) (s : State) : State :=
  mkState v (isAuthenticated s) (isLoading s) (watchHistory s) (secure s) (storage s).
Definition set_isAuthenticated (v : bool) (s : State) : State :=
  mkState (user s) v (isLoading s) (watchHistory s) (secure s) (storage s).
Definition set_isLoading (v : bool) (s : State) : State :=
  mkState (user s) (isAuthenticated s) v (watchHistory s) (secure s) (storage s).
Definition set_watchHistory (v : list WatchHistoryItem) (s : State) : State :=
  mkState (user s) (isAuthenticated s) (isLoading s) v (secure s) (storage s).
Definition set_secure (v : SecureStore) (s : State) : State :=
  mkState (user s) (isAuthenticated s) (isLoading s) (watchHistory s) v (storage s).
Definition set_storage (v : AsyncStorage) (s : State) : State :=
  mkState (user s) (isAuthenticated s) (isLoading s) (watchHistory s) (secure s) v.

Definition initialState (sec : SecureStore) (st : AsyncStorage) : State :=
  mkState None false true [] sec st.

(** [`watchHistory_${userId}`] *)
Definition historyKey (userId : string) : string := "watchHistory_" ++ userId.

(** [history.sort((a, b) => time(b) - time(a))]: newest first; the sort
    of an array is stable. *)
Fixpoint insert_newest_first (x : WatchHistoryItem) (l : list WatchHistoryItem)
  : list WatchHistoryItem :=
  match l with
  | [] => [x]
  | y :: rest =>
      if N.ltb (watchedAt x) (watchedAt y) then y :: insert_newest_first x rest
      else x :: l
  end.

Definition sort_newest_first (l : list WatchHistoryItem) : list WatchHistoryItem :=
  fold_right insert_newest_first [] l.

Definition loadWatchHistory (reads : bool) (userId : string) (s : State) : State :=
  if reads then
    match getItem (historyKey userId) (storage s) with
    | Some history => set_watchHistory (sort_newest_first history) s
    | None => s
    end
  else s.   (* caught and logged *)

Definition saveWatchHistory (writes : bool) (history : list WatchHistoryItem) (s : State)
  : State :=
  match user s with
  | None => s
  | Some u =>
      if writes then set_storage (setItem (historyKey (u_id u)) history (storage s)) s
      else s   (* caught and logged *)
  end.

(** [storedUser && storedToken]: an empty token is falsy. *)
Definition truthy (t : option string) : bool :=
  match t with
  | Some x => negb (String.eqb x EmptyString)
  | None => false
  end.

(** Runs once, when the provider mounts. *)
Definition loadStoredAuth (reads loads : bool) (s : State) : State :=
  (if reads then
     match stored_user (secure s) with
     | Some userData =>
         if truthy (stored_token (secure s)) then
           s |> set_user (Some userData)
             |> set_isAuthenticated true
             |> loadWatchHistory loads (u_id userData)
         else s
     | None => s
     end
   else s)
  |> set_isLoading false.

Definition demoUser : User :=
  mkUser "demo_user_123" "demo@example.com" "Demo User"
         (Some "https://via.placeholder.com/150"%string) (Some "demo_user_123"%string).

(** The two writes to the secure store come first; if one rejects, the
    function rethrows and the state is left as it is. *)
Definition simulateGoogleSignIn (writes1 writes2 loads : bool) (s : State) : State :=
  let userData := demoUser in
  if writes1 then
    let s1 := set_secure (mkSecureStore (Some userData) (stored_token (secure s))) s in
    if writes2 then
      s1 |> set_secure (mkSecureStore (Some userData) (Some "demo_token"%string))
         |> set_user (Some userData)
         |> set_isAuthenticated true
         |> loadWatchHistory loads (u_id userData)
    else s1
  else s.

Definition signIn (writes1 writes2 loads : bool) (s : State) : State :=
  simulateGoogleSignIn writes1 writes2 loads s.

Definition signOut (deletes1 deletes2 : bool) (s : State) : State :=
  if deletes1 then
    let s1 := set_secure (mkSecureStore None (stored_token (secure s))) s in
    if deletes2 then
      s1 |> set_secure (mkSecureStore None None)
         |> set_user None
         |> set_isAuthenticated false
         |> set_watchHistory []
    else s1
  else s.

(** The decimal digits of an instant, as a template literal prints it. *)
Definition decimal (n : N) : string := NilEmpty.string_of_uint (N.to_uint n).

(** [now_id] is what [Date.now()] returns for the item's id, [now_at] the
    instant of [new Date()]. *)
Definition addToHistory (video : VideoItem) (watchedDuration : option Q)
                        (now_id now_at : N) (writes : bool) (s : State) : State :=
  match user s with
  | None => s
  | Some _ =>
      let historyItem :=
        mkWatchHistoryItem (v_id video ++ "_" ++ decimal now_id) (v_id video)
                           (v_title video) (v_thumbnail video) (v_channelTitle video)
                           (v_duration video) now_at watchedDuration in
      (* Remove any existing entry for this video *)
      let filteredHistory :=
        filter (fun item => negb (String.eqb (videoId item) (v_id video)))
               (watchHistory s) in
      (* Add new entry at the beginning; keep last 100 items *)
      let newHistory := firstn 100 (historyItem :: filteredHistory) in
      s |> set_watchHistory newHistory |> saveWatchHistory writes newHistory
  end.

Definition clearHistory (writes : bool) (s : State) : State :=
  match user s with
  | None => s
  | Some _ => s |> set_watchHistory [] |> saveWatchHistory writes []
  end.

Inductive Event : Type :=
| SignIn (writes1 writes2 loads : bool)
| SignOut (deletes1 deletes2 : bool)
| AddToHistory (video : VideoItem) (watchedDuration : option Q)
               (now_id now_at : N) (writes : bool)
| ClearHistory (writes : bool).

Definition handle (e : Event) (s : State) : State :=
  match e with
  | SignIn w1 w2 l => signIn w1 w2 l s
  | SignOut d1 d2 => signOut d1 d2 s
  | AddToHistory v d i a w => addToHistory v d i a w s
  | ClearHistory w => clearHistory w s
  end.

Definition play (tr : list Event) (s : State) : State :=
  fold_left (fun s e => handle e s) tr s.

(** The provider mounts over the stores as the last run left them, loads
    the stored user, then serves calls. *)
Definition mount (reads loads : bool) (sec : SecureStore) (st : AsyncStorage) : State :=
  loadStoredAuth reads loads (initialState sec st).

Inductive reachable (sec : SecureStore) (st : AsyncStorage) : State -> Prop :=
| reach_mount : forall reads loads, reachable sec st (mount reads loads sec st)
| reach_step : forall e s, reachable sec st s -> reachable sec st (handle e s).

End Auth.

(** ** The player screen ([app/player/[id].tsx])

    The part of the screen that feeds the watch history: the progress
    callback it hands to the player.  [auth] is the state of the
    AuthContext the screen reads through [useAuth]. *)

Module PlayerScreen.

Record VideoFormat : Type := mkVideoFormat {
  quality : string;
  url : string;
  mimeType : string;
  bitrate : option Q;
  fps : option Q
}.

Record VideoDetails : Type := mkVideoDetails {
  id : string;
  title : string;
  description : string;
  thumbnail : string;
  channelTitle : string;
  publishedAt : string;
  duration : string;
  viewCount : string;
  formats : list VideoFormat
}.

Record State : Type := mkState {
  auth : Auth.State;
  currentVideo : option VideoDetails;
  selectedFormat : nat;
  hasAddedToHistory : bool
}.

Definition set_auth (v : Auth.State) (s : State) : State :=
  mkState v (currentVideo s) (selectedFormat s) (hasAddedToHistory s).
Definition set_selectedFormat (v : nat) (s : State) : State :=
  mkState (auth s) (currentVideo s) v (hasAddedToHistory s).
Definition set_hasAddedToHistory (v : bool) (s : State) : State :=
  mkState (auth s) (currentVideo s) (selectedFormat s) v.

(** [Math.floor] of a finite number. *)
Definition Math_floor (x : Q) : Z := Qfloor x.

(** Add to history when user has watched at least 30 seconds or 10% of
    the video. *)
Definition watchedPercentage (watchedSeconds totalSeconds : Z) : Q :=
  if Z.ltb 0 totalSeconds
  then (inject_Z watchedSeconds / inject_Z totalSeconds) * 100
  else 0.

Definition watched_enough (currentSec totalSec : Q) : bool :=
  let watchedSeconds := Math_floor currentSec in
  let totalSeconds := Math_floor totalSec in
  Z.leb 30 watchedSeconds
  || Qle_bool 10 (watchedPercentage watchedSeconds totalSeconds).

(** [iso_now] is [new Date().toISOString()], which the history does not
    keep. *)
Definition handleVideoProgress (currentSec totalSec : Q) (iso_now : string)
                               (now_id now_at : N) (writes : bool) (s : State) : State :=
  let watchedSeconds := Math_floor currentSec in
  match currentVideo s with
  | Some video =>
      if negb (hasAddedToHistory s) && Auth.isAuthenticated (auth s)
         && watched_enough currentSec totalSec
      then
        s |> set_auth
               (Auth.addToHistory
                  (Auth.mkVideoItem (id video) (title video)
                     (JS.str_or (description video) "") (thumbnail video)
                     (JS.str_or (channelTitle video) "Unknown Channel") iso_now
                     (JS.str_or (duration video) "Unknown") "0")
                  (Some (inject_Z watchedSeconds)) now_id now_at writes (auth s))
          |> set_hasAddedToHistory true
      else s
  | None => s
  end.

(** [currentVideo.formats[selectedFormat]?.url] *)
Definition videoUri (video : VideoDetails) (s : State) : option string :=
  option_map url (nth_error (formats video) (selectedFormat s)).

Definition hasValidFormats (video : VideoDetails) : bool :=
  Nat.ltb 0 (List.length (formats video)).

End PlayerScreen.

(** ** Time labels

    [formatTime] as AdvancedVideoPlayer, its earlier revision,
    NativeVideoPlayer and EnhancedVideoPlayer define it: the position in
    milliseconds as [h:mm:ss], or [m:ss] below one hour. *)

Module Format.

(** [n.toString()] of an integer. *)
Definition toString (n : Z) : string := NilZero.string_of_int (Z.to_int n).

(** [s.padStart(2, '0')] *)
Definition padStart2 (s : string) : string :=
  match String.length s with
  | O => "00" ++ s
  | S O => "0" ++ s
  | _ => s
  end.

(** [Math.floor] of a quotient of integers rounds down ([Z.div]); [%]
    takes the sign of the dividend ([Z.rem]).

    The source divides doubles and prints them.  For a position from 0
    up to [MAX_EXACT] = 2^53 ms its quotients, floors and remainders are
    the exact ones and the numbers printed are integers below 10^21,
    which [toString] prints in plain decimal; the definition is the
    source's function on that range, and is used on that range only. *)
Definition MAX_EXACT : Q := 9007199254740992.

Definition formatTime (milliseconds : Q) : string :=
  let totalSeconds := Qfloor (milliseconds / 1000) in
  let hours := (totalSeconds / 3600)%Z in
  let minutes := (Z.rem totalSeconds 3600 / 60)%Z in
  let seconds := Z.rem totalSeconds 60 in
  if (0 <? hours)%Z then
    toString hours ++ ":" ++ padStart2 (toString minutes) ++ ":"
      ++ padStart2 (toString seconds)
  else
    toString minutes ++ ":" ++ padStart2 (toString seconds).

End Format.

(** ** Scenarios

    Concrete states used as test inputs: each component mounted at clock
    value 1000 on a 360 x 640 window and loaded with a 60 s video. *)

Module Scenarios.

Definition advanced_loaded : Advanced.State :=
  Advanced.step (Advanced.OnLoad 60)
    (Advanced.mount (Advanced.mkProps true) (mkDimensions 360 640) 1000).
Definition legacy_loaded : AdvancedLegacy.State :=
  AdvancedLegacy.step (AdvancedLegacy.OnLoad 60)
    (AdvancedLegacy.mount (AdvancedLegacy.mkProps true) (mkDimensions 360 640) 1000).
Definition native_loaded : Native.State :=
  Native.step (Native.OnLoad 60) (Native.mount (Native.mkProps true) 1000).
Definition enhanced_loaded : Enhanced.State :=
  Enhanced.step
    (Enhanced.StatusUpdate (Enhanced.Loaded false false false 0 (Some 60000) 1))
    (Enhanced.mount (Enhanced.mkProps true) 1000).

Definition advanced_playing : Advanced.State :=
  Advanced.step Advanced.PressPlayPause advanced_loaded.
Definition advanced_wifi_playing : Advanced.State :=
  Advanced.step Advanced.PressPlayPause
    (Advanced.step (Advanced.NetInfo true "wifi") advanced_loaded).
Definition enhanced_playing : Enhanced.State :=
  Enhanced.step
    (Enhanced.StatusUpdate (Enhanced.Loaded true false false 120000 (Some 300000) 1))
    enhanced_loaded.

Definition pro_sources : list Pro.VideoSource :=
  [Pro.mkVideoSource "https://cdn.example/v-720.mp4" "720p" "1280x720";
   Pro.mkVideoSource "https://cdn.example/v-1080.mp4" "1080p" "1920x1080"].
Definition pro_loaded : Pro.State :=
  Pro.step (Pro.OnLoad 60) (Pro.mount (Pro.mkProps pro_sources true) 1000).
Definition pro_playing : Pro.State :=
  Pro.play [Pro.Ev Pro.PressPlayPause; Pro.Ev (Pro.OnProgress 40); Pro.Wait 100] pro_loaded.

Definition pro_scrubbing : Pro.State :=
  Pro.play [Pro.Ev Pro.SliderStart; Pro.Ev (Pro.SliderChange 45)] pro_playing.

End Scenarios.

(** * Properties *)

(** ** Facts about the JavaScript helpers *)

Module JSFacts.
Import JS.

Lemma lt_spec a b : lt a b = true <-> a < b.
Proof.
  unfold lt. rewrite negb_true_iff. split; intro H.
  - apply Qnot_le_lt. intro L. apply Qle_bool_iff in L. congruence.
  - destruct (Qle_bool b a) eqn:E; [|reflexivity].
    apply Qle_bool_iff in E. exfalso. eapply Qlt_not_le; eauto.
Qed.

Lemma lt_false a b : lt a b = false <-> b <= a.
Proof.
  unfold lt. rewrite negb_false_iff. apply Qle_bool_iff.
Qed.

Lemma clamp_below t d : 0 <= d -> t < 0 -> clamp t d = 0.
Proof.
  intros Hd Ht. unfold clamp, Math_max, Math_min.
  destruct (Qlt_le_dec d t) as [H|H].
  - exfalso. apply (Qlt_irrefl t). eapply Qlt_le_trans; [exact Ht|].
    eapply Qle_trans; [exact Hd|]. apply Qlt_le_weak; exact H.
  - destruct (Qlt_le_dec 0 t) as [H0|H0]; [|reflexivity].
    exfalso. apply (Qlt_irrefl t). eapply Qlt_trans; eauto.
Qed.

Lemma clamp_above t d : 0 <= d -> d < t -> clamp t d == d.
Proof.
  intros Hd Ht. unfold clamp, Math_max, Math_min.
  destruct (Qlt_le_dec d t) as [H|H].
  - destruct (Qlt_le_dec 0 d); [reflexivity|]. apply Qle_antisym; assumption.
  - exfalso. eapply Qlt_not_le; eauto.
Qed.

Lemma clamp_inside t d : 0 <= t -> t <= d -> clamp t d == t.
Proof.
  intros H0 Hd. unfold clamp, Math_max, Math_min.
  destruct (Qlt_le_dec d t) as [H|H].
  - exfalso. eapply Qlt_not_le; eauto.
  - destruct (Qlt_le_dec 0 t); [reflexivity|]. apply Qle_antisym; assumption.
Qed.

Lemma clamp_range t d : 0 <= d -> 0 <= clamp t d /\ clamp t d <= d.
Proof.
  intros Hd. unfold clamp, Math_max, Math_min.
  destruct (Qlt_le_dec d t) as [H|H].
  - destruct (Qlt_le_dec 0 d); split; auto using Qle_refl.
  - destruct (Qlt_le_dec 0 t) as [H0|H0]; split;
      auto using Qle_refl, Qlt_le_weak.
Qed.

Lemma min_le_r a b : Math_min a b <= b.
Proof.
  unfold Math_min. destruct (Qlt_le_dec b a); auto using Qle_refl.
Qed.

Lemma min_le_l a b : Math_min a b <= a.
Proof.
  unfold Math_min. destruct (Qlt_le_dec b a); auto using Qle_refl, Qlt_le_weak.
Qed.

Lemma min_ge c a b : c <= a -> c <= b -> c <= Math_min a b.
Proof.
  intros. unfold Math_min. destruct (Qlt_le_dec b a); assumption.
Qed.

Lemma max_ge_r a b : b <= Math_max a b.
Proof.
  unfold Math_max. destruct (Qlt_le_dec a b); auto using Qle_refl.
Qed.

Lemma max_ge_l a b : a <= Math_max a b.
Proof.
  unfold Math_max. destruct (Qlt_le_dec a b); auto using Qle_refl, Qlt_le_weak.
Qed.

Lemma max_le c a b : a <= c -> b <= c -> Math_max a b <= c.
Proof.
  intros. unfold Math_max. destruct (Qlt_le_dec a b); assumption.
Qed.

End JSFacts.

(** ** Facts about the timer table *)

Module TimerFacts.
Import Timers.

(** The clock of a component is a lens into its state. *)
Class Lawful (S A : Type) `{Component S A} : Prop := {
  clk_with_clk : forall c s, clk (with_clk c s) = c;
  with_clk_clk : forall s, with_clk (clk s) s = s;
  with_clk_twice : forall c c' s, with_clk c (with_clk c' s) = with_clk c s;
  fire_now : forall a s, now (clk (fire a s)) = now (clk s)
}.

(** A handle kept in a ref is older than the next handle. *)
Definition bounded {A} (r : option nat) (c : clock A) : Prop :=
  forall j, r = Some j -> (j < next_id c)%nat.

Section Generic.
Context {S A : Type} `{Component S A}.

Lemma fire_ids_app (l1 l2 : list nat) (s : S) :
  fire_ids (l1 ++ l2) s = fire_ids l2 (fire_ids l1 s).
Proof.
  revert s. induction l1 as [|i l1 IH]; intros s; simpl; [reflexivity|].
  destruct (lookup i (clk s)) as [t|]; [destruct (N.leb (t_due t) (now (clk s)))|];
    apply IH.
Qed.

Lemma elapse_add (a b : nat) (s : S) :
  elapse (a + b) s = elapse b (elapse a s).
Proof.
  revert s. induction a as [|a IH]; intros s; simpl; [reflexivity|]. apply IH.
Qed.


Lemma lookup_In (i : nat) (c : clock A) (t : timer A) :
  lookup i c = Some t -> In t (pending c) /\ t_id t = i.
Proof.
  unfold lookup. intros E. apply find_some in E. destruct E as [HI E].
  split; [assumption|]. apply Nat.eqb_eq; assumption.
Qed.

(** A property kept by every callback that can run is kept by a round
    of callbacks. *)
Lemma fire_ids_inv (P : S -> Prop) (ids : list nat) :
  (forall s t, P s -> In t (pending (clk s)) -> In (t_id t) ids ->
               (t_due t <= now (clk s))%N ->
               P (fire (t_act t) (with_clk (take t (clk s)) s))) ->
  forall s, P s -> P (fire_ids ids s).
Proof.
  induction ids as [|i ids IH]; intros Hf s Hs; simpl; [assumption|].
  assert (Hr : forall s' t', P s' -> In t' (pending (clk s')) -> In (t_id t') ids ->
                             (t_due t' <= now (clk s'))%N ->
                             P (fire (t_act t') (with_clk (take t' (clk s')) s'))).
  { intros s' t' Hs' HI' Hin Hd. apply Hf; auto. right; assumption. }
  destruct (lookup i (clk s)) as [t|] eqn:E; [|apply IH; auto].
  apply lookup_In in E. destruct E as [HI Hid].
  destruct (N.leb_spec (t_due t) (now (clk s))) as [Hd|Hd]; [|apply IH; auto].
  apply IH; [exact Hr|]. apply Hf; auto. left; symmetry; assumption.
Qed.

(** Only timers that are due run. *)
Lemma tick_inv_due (P : S -> Prop) :
  (forall s, P s -> P (with_clk (advance (clk s)) s)) ->
  (forall s t, P s -> In t (pending (clk s)) -> (t_due t <= now (clk s))%N ->
               P (fire (t_act t) (with_clk (take t (clk s)) s))) ->
  forall s, P s -> P (tick s).
Proof.
  intros Ha Hf s Hs. unfold tick. apply fire_ids_inv; auto.
Qed.

Lemma tick_inv (P : S -> Prop) :
  (forall s, P s -> P (with_clk (advance (clk s)) s)) ->
  (forall s t, P s -> In t (pending (clk s)) ->
               P (fire (t_act t) (with_clk (take t (clk s)) s))) ->
  forall s, P s -> P (tick s).
Proof.
  intros Ha Hf. apply tick_inv_due; auto.
Qed.

Lemma elapse_inv (P : S -> Prop) :
  (forall s, P s -> P (tick s)) ->
  forall n s, P s -> P (elapse n s).
Proof.
  intros Ht n. induction n as [|n IH]; intros s Hs; simpl; auto.
Qed.

Context `{!Lawful S A}.

Lemma due_ids_nil (c : clock A) :
  (forall t, In t (pending c) -> (now c < t_due t)%N) -> due_ids c = [].
Proof.
  intros Hd. unfold due_ids.
  replace (filter (fun t => (t_due t <=? now c)%N) (pending c)) with (@nil (timer A));
    [reflexivity|].
  symmetry. induction (pending c) as [|t l IH]; simpl; [reflexivity|].
  destruct (N.leb_spec (t_due t) (now c)) as [L|L].
  - specialize (Hd t (or_introl eq_refl)). lia.
  - apply IH. intros u Hu. apply Hd. right; assumption.
Qed.

(** While no timer is due, time passes and nothing else changes. *)
Lemma elapse_idle (n : nat) (s : S) :
  (forall t, In t (pending (clk s)) -> (now (clk s) + N.of_nat n < t_due t)%N) ->
  elapse n s =
  with_clk (mkClock (now (clk s) + N.of_nat n) (next_id (clk s))
                    (pending (clk s)) (fired (clk s))) s.
Proof.
  revert s. induction n as [|n IH]; intros s Hd.
  - simpl. rewrite N.add_0_r.
    rewrite <- (with_clk_clk s) at 1. f_equal. destruct (clk s); reflexivity.
  - cbn [elapse].
    assert (Et : tick s = with_clk (advance (clk s)) s).
    { unfold tick. cbv zeta. rewrite due_ids_nil; [reflexivity|].
      rewrite clk_with_clk. simpl. intros t Ht. specialize (Hd t Ht). lia. }
    rewrite Et, IH.
    + rewrite clk_with_clk, with_clk_twice. simpl. f_equal. f_equal. lia.
    + rewrite clk_with_clk. simpl. intros t Ht. specialize (Hd t Ht). lia.
Qed.

Lemma now_fire_ids (ids : list nat) (s : S) :
  now (clk (fire_ids ids s)) = now (clk s).
Proof.
  revert s. induction ids as [|i ids IH]; intros s; simpl; [reflexivity|].
  destruct (lookup i (clk s)) as [t|]; [|apply IH].
  destruct (N.leb (t_due t) (now (clk s))); [|apply IH].
  rewrite IH, fire_now, clk_with_clk. reflexivity.
Qed.

Lemma now_tick (s : S) : now (clk (tick s)) = (now (clk s) + 1)%N.
Proof.
  unfold tick. cbv zeta. rewrite now_fire_ids, clk_with_clk. reflexivity.
Qed.

Lemma now_elapse (n : nat) (s : S) :
  now (clk (elapse n s)) = (now (clk s) + N.of_nat n)%N.
Proof.
  revert s. induction n as [|n IH]; intros s.
  - simpl. lia.
  - cbn [elapse]. rewrite IH, now_tick. lia.
Qed.

(** *** A timer that is armed, and what happens when it comes due

    [Armed s] says that the timer with handle [i] is pending and due at
    [D]; [Done s] is what holds once its callback has run.  The three
    hypotheses on callbacks are the obligations of a component. *)
Section Armed.
Variables (Armed Done : S -> Prop) (i : nat) (D : N).

Hypothesis armed_pending :
  forall s, Armed s -> exists t, lookup i (clk s) = Some t.
Hypothesis armed_due :
  forall s t, Armed s -> In t (pending (clk s)) -> t_id t = i -> t_due t = D.
Hypothesis armed_advance :
  forall s, Armed s -> Armed (with_clk (advance (clk s)) s).
Hypothesis done_advance :
  forall s, Done s -> Done (with_clk (advance (clk s)) s).
Hypothesis armed_other :
  forall s t, Armed s -> In t (pending (clk s)) -> t_id t <> i ->
              Armed (fire (t_act t) (with_clk (take t (clk s)) s)).
Hypothesis armed_fire :
  forall s t, Armed s -> In t (pending (clk s)) -> t_id t = i ->
              Done (fire (t_act t) (with_clk (take t (clk s)) s)).
Hypothesis done_other :
  forall s t, Done s -> In t (pending (clk s)) -> (t_due t <= now (clk s))%N ->
              Done (fire (t_act t) (with_clk (take t (clk s)) s)).

Lemma fire_ids_done (ids : list nat) (s : S) : Done s -> Done (fire_ids ids s).
Proof.
  apply fire_ids_inv. intros s' t Hs Ht _ Hd. apply done_other; assumption.
Qed.

Lemma fire_ids_armed_absent (ids : list nat) (s : S) :
  Armed s -> ~ In i ids -> Armed (fire_ids ids s).
Proof.
  intros Hs Hn. revert Hs. apply fire_ids_inv.
  intros s' t Hs Ht Hin _. apply armed_other; try assumption.
  intro E. apply Hn. rewrite <- E. exact Hin.
Qed.

Lemma fire_ids_armed_present (ids : list nat) (s : S) :
  Armed s -> (D <= now (clk s))%N -> In i ids -> Done (fire_ids ids s).
Proof.
  revert s. induction ids as [|j ids IH]; intros s Hs Hd Hin; [destruct Hin|].
  simpl. destruct (Nat.eq_dec j i) as [E|NE].
  - subst j. destruct (armed_pending s Hs) as [t Ht]. rewrite Ht.
    apply lookup_In in Ht. destruct Ht as [HI Hid].
    rewrite (armed_due s t Hs HI Hid).
    destruct (N.leb_spec D (now (clk s))) as [_|Hlt]; [|lia].
    apply fire_ids_done. apply armed_fire; assumption.
  - destruct Hin as [E|Hin]; [contradiction|].
    destruct (lookup j (clk s)) as [t|] eqn:Ht; [|apply IH; assumption].
    apply lookup_In in Ht. destruct Ht as [HI Hid].
    destruct (N.leb (t_due t) (now (clk s))); [|apply IH; assumption].
    apply IH; [| |assumption].
    + apply armed_other; try assumption. congruence.
    + rewrite fire_now, clk_with_clk. exact Hd.
Qed.

Lemma due_ids_spec (c : clock A) (j : nat) :
  In j (due_ids c) <-> exists t, In t (pending c) /\ t_id t = j /\ (t_due t <= now c)%N.
Proof.
  unfold due_ids. rewrite in_map_iff. split.
  - intros (t & E & Hf). apply filter_In in Hf. destruct Hf as [HI Hd].
    exists t. repeat split; try assumption. apply N.leb_le; assumption.
  - intros (t & HI & E & Hd). exists t. split; [assumption|].
    apply filter_In. split; [assumption|]. apply N.leb_le; assumption.
Qed.

Lemma tick_armed_early (s : S) :
  Armed s -> (now (clk s) + 1 < D)%N -> Armed (tick s).
Proof.
  intros Hs Hn. unfold tick. cbv zeta.
  apply fire_ids_armed_absent; [apply armed_advance; assumption|].
  intro Hin. apply due_ids_spec in Hin. destruct Hin as (t & HI & E & Hd).
  rewrite (armed_due _ t (armed_advance s Hs) HI E) in Hd.
  rewrite clk_with_clk in Hd. simpl in Hd. lia.
Qed.

Lemma tick_armed_due (s : S) :
  Armed s -> (D <= now (clk s) + 1)%N -> Done (tick s).
Proof.
  intros Hs Hn. unfold tick. cbv zeta.
  apply fire_ids_armed_present;
    [apply armed_advance; assumption|rewrite clk_with_clk; simpl; lia|].
  apply due_ids_spec.
  destruct (armed_pending _ (armed_advance s Hs)) as [t Ht].
  apply lookup_In in Ht. destruct Ht as [HI E].
  exists t. repeat split; try assumption.
  rewrite (armed_due _ t (armed_advance s Hs) HI E).
  rewrite clk_with_clk. simpl. lia.
Qed.

Lemma tick_done (s : S) : Done s -> Done (tick s).
Proof.
  intros Hs. unfold tick. cbv zeta. apply fire_ids_done, done_advance, Hs.
Qed.

Lemma elapse_done (n : nat) (s : S) : Done s -> Done (elapse n s).
Proof.
  apply elapse_inv. exact tick_done.
Qed.

Lemma elapse_armed_early (n : nat) (s : S) :
  Armed s -> (now (clk s) + N.of_nat n < D)%N -> Armed (elapse n s).
Proof.
  revert s. induction n as [|n IH]; intros s Hs Hn; [exact Hs|].
  cbn [elapse]. apply IH.
  - apply tick_armed_early; [assumption|lia].
  - rewrite now_tick. lia.
Qed.

(** The callback runs at the instant the timer is due, not before. *)
Lemma elapse_armed_due (n : nat) (s : S) :
  Armed s -> (now (clk s) < D)%N -> (D <= now (clk s) + N.of_nat n)%N ->
  Done (elapse n s).
Proof.
  intros Hs Hlt Hge.
  set (k := N.to_nat (D - now (clk s) - 1)).
  assert (Hk : (k < n)%nat) by (unfold k; lia).
  replace n with (k + (1 + (n - k - 1)))%nat by lia.
  rewrite !elapse_add. apply elapse_done.
  cbn [elapse]. apply tick_armed_due.
  - apply elapse_armed_early; [assumption|unfold k; lia].
  - rewrite now_elapse. unfold k. lia.
Qed.

(** A timer that is already late runs at the next instant. *)
Lemma elapse_armed_overdue (n : nat) (s : S) :
  Armed s -> (0 < n)%nat -> (D <= now (clk s) + N.of_nat n)%N ->
  Done (elapse n s).
Proof.
  intros Hs Hn Hge.
  destruct (N.lt_ge_cases (now (clk s)) D) as [L|L].
  - apply elapse_armed_due; assumption.
  - destruct n as [|n]; [lia|]. cbn [elapse].
    apply elapse_done, tick_armed_due; [assumption|lia].
Qed.

End Armed.

End Generic.

End TimerFacts.

(** ** Symbolic execution of handlers *)

Module Exec.

Create HintDb advanced.
#[export] Hint Unfold
  Advanced.step Advanced.handle Advanced.commit Advanced.run
  Advanced.onNetInfo Advanced.onLoad Advanced.onProgress Advanced.onBuffer
  Advanced.onError Advanced.forceShowControls Advanced.togglePlayPause
  Advanced.seekTo Advanced.showSeekFeedback Advanced.skipForward
  Advanced.skipBackward Advanced.toggleFullscreen Advanced.changePlaybackSpeed
  Advanced.cycleResizeMode Advanced.retryVideo Advanced.onPanResponderMove
  Advanced.onPanResponderRelease Advanced.handleTap
  Advanced.fallback_effect Advanced.fallback_cleanup Advanced.autohide_effect
  Advanced.autohide_cleanup Advanced.progress_effect
  Advanced.engine_seek Advanced.schedule Advanced.clear
  Advanced.mount Advanced.initialState
  Timers.setTimeout Timers.clearRef when : advanced.

Create HintDb legacy.
#[export] Hint Unfold
  AdvancedLegacy.step AdvancedLegacy.handle AdvancedLegacy.commit AdvancedLegacy.run
  AdvancedLegacy.onNetInfo AdvancedLegacy.onLoad AdvancedLegacy.onProgress
  AdvancedLegacy.onBuffer AdvancedLegacy.onError AdvancedLegacy.togglePlayPause
  AdvancedLegacy.seekTo AdvancedLegacy.showSeekFeedback AdvancedLegacy.skipForward
  AdvancedLegacy.skipBackward AdvancedLegacy.toggleFullscreen
  AdvancedLegacy.changePlaybackSpeed AdvancedLegacy.retryVideo
  AdvancedLegacy.onPanResponderMove AdvancedLegacy.onPanResponderRelease
  AdvancedLegacy.handleTap AdvancedLegacy.autohide_effect
  AdvancedLegacy.autohide_cleanup AdvancedLegacy.progress_effect
  AdvancedLegacy.engine_seek AdvancedLegacy.schedule AdvancedLegacy.clear
  AdvancedLegacy.mount AdvancedLegacy.initialState
  Timers.setTimeout Timers.clearRef when : legacy.

Create HintDb pro.
#[export] Hint Unfold
  Pro.step Pro.handle Pro.commit Pro.run
  Pro.onNetInfo Pro.onLoad Pro.onProgress Pro.onBuffer Pro.onError
  Pro.togglePlayPause Pro.toggleMute Pro.seekTo Pro.handleSliderStart
  Pro.handleSliderChange Pro.handleSliderComplete Pro.skipForward
  Pro.skipBackward Pro.toggleFullscreen Pro.changeQuality
  Pro.changePlaybackSpeed Pro.cancel_animation Pro.hideControlsAnimated
  Pro.showControlsAnimated Pro.autohide_effect Pro.autohide_cleanup
  Pro.engine_seek Pro.schedule Pro.clear Pro.mount Pro.initialState
  Timers.setTimeout Timers.clearRef when : pro.

Create HintDb native.
#[export] Hint Unfold
  Native.step Native.handle Native.commit Native.run
  Native.onLoad Native.onProgress Native.onBuffer Native.onError
  Native.togglePlayPause Native.toggleMute Native.setVolume Native.seekTo
  Native.skipForward Native.skipBackward Native.changePlaybackSpeed
  Native.toggleFullscreen Native.cycleResizeMode
  Native.autohide_effect Native.autohide_cleanup Native.progress_effect
  Native.engine_send Native.schedule Native.mount Native.initialState
  Timers.setTimeout Timers.clearRef when : native.

Create HintDb enhanced.
#[export] Hint Unfold
  Enhanced.step Enhanced.handle Enhanced.commit Enhanced.run
  Enhanced.onPlaybackStatusUpdate Enhanced.togglePlayPause Enhanced.toggleMute
  Enhanced.setVolume Enhanced.seekTo Enhanced.skipForward Enhanced.skipBackward
  Enhanced.changePlaybackSpeed Enhanced.toggleFullscreen
  Enhanced.autohide_effect Enhanced.autohide_cleanup Enhanced.progress_effect
  Enhanced.buffering_cleanup Enhanced.engine_call Enhanced.schedule
  Enhanced.clear Enhanced.mount Enhanced.initialState
  Timers.setTimeout Timers.clearRef when : enhanced.

(** The comparisons of effect dependencies, unfolded only on demand. *)
Create HintDb deps.
#[export] Hint Unfold
  Advanced.autohide_deps_changed Advanced.fallback_deps_changed
  Advanced.progress_deps_changed AdvancedLegacy.autohide_deps_changed
  AdvancedLegacy.progress_deps_changed Pro.autohide_deps_changed
  Native.autohide_deps_changed Native.progress_deps_changed
  Enhanced.autohide_deps_changed Enhanced.progress_deps_changed
  Enhanced.buffering_deps_changed : deps.

(** Case analysis on every condition the goal branches on. *)
Ltac break_if :=
  match goal with
  | |- context [if ?b then _ else _] =>
      lazymatch b with
      | context [if _ then _ else _] => fail
      | _ => destruct b eqn:?
      end
  | |- context [match ?o with Some _ => _ | None => _ end] =>
      lazymatch o with
      | context [if _ then _ else _] => fail
      | context [match _ with Some _ => _ | None => _ end] => fail
      | _ => destruct o eqn:?
      end
  | |- context [match ?x with _ => _ end] => is_var x; destruct x
  end.

Ltac simp := cbn; rewrite ?Bool.eqb_reflx; cbn.
Ltac exec := repeat (simp; try break_if).
Ltac exec_advanced := repeat (simp; autounfold with advanced; try break_if).
Ltac exec_legacy := repeat (simp; autounfold with legacy; try break_if).
Ltac exec_pro := repeat (simp; autounfold with pro; try break_if).
Ltac exec_native := repeat (simp; autounfold with native; try break_if).
Ltac exec_enhanced := repeat (simp; autounfold with enhanced; try break_if).

(** *** Clauses about timer tables *)

(** Membership in a timer table after clears and additions. *)
Ltac in_cases H :=
  repeat first
    [ apply in_app_or in H; destruct H as [H|H]
    | apply filter_In in H; destruct H as [H ?]
    | let T := type of H in
      let T' := eval hnf in T in
      lazymatch T' with False => destruct H end
    | destruct H as [H|H]; [subst; cbn in *|]
    | destruct H ].

Ltac neq_ids :=
  repeat match goal with
  | H : negb (Nat.eqb _ _) = true |- _ =>
      apply negb_true_iff in H; apply Nat.eqb_neq in H
  | H : Some _ = Some _ |- _ => injection H as H; try subst
  end.

Ltac use_bound :=
  match goal with
  | W : forall t, In t ?l -> (Timers.t_id t < _)%nat, H : In ?u ?l |- _ =>
      pose proof (W _ H); clear H
  | W : forall j, ?r = Some j -> (j < _)%nat, H : ?r = Some _ |- _ =>
      pose proof (W _ H); clear W
  | W : forall j, Some ?k = Some j -> (j < _)%nat |- _ =>
      pose proof (W _ eq_refl); clear W
  end.

(** Everything the invariant says about a timer known to be pending. *)
Ltac use_member :=
  match goal with
  | H : In ?x ?l |- _ =>
      repeat match goal with
             | W : forall t, In t l -> _ |- _ => pose proof (W x H); clear W
             end;
      clear H
  end.

Ltac finish :=
  cbn in *;
  first [ reflexivity | discriminate | assumption | congruence | lia
        | solve [eauto]
        | solve [exfalso; eauto]
        | solve [intuition (subst; cbn in *; first [congruence | lia])] ].

(** A timer is still in the table: it was added last, or it survives the
    clears because its handle differs from the cleared ones. *)
Ltac find_in :=
  lazymatch goal with
  | |- In _ (_ ++ _) =>
      first [ apply in_or_app; right; left; reflexivity
            | apply in_or_app; left; find_in ]
  | |- In _ (filter _ _) =>
      apply filter_In; split;
      [ find_in
      | apply negb_true_iff, Nat.eqb_neq; cbn; repeat use_bound; cbn in *;
        first [lia | congruence] ]
  | |- In _ _ => first [assumption | left; reflexivity]
  end.

(** A clause of an invariant, on the state a handler or a callback has
    just computed. *)
Ltac clause :=
  cbn; unfold TimerFacts.bounded; cbn;
  first
    [ assumption
    | reflexivity
    | congruence
    | find_in
    | let u := fresh "u" in let Hu := fresh "Hu" in
      intros u Hu; intros; in_cases Hu; neq_ids; cbn in *;
      first [ reflexivity | discriminate | congruence | lia
            | try use_member; repeat use_bound; finish ]
    | intros; neq_ids; repeat use_bound; cbn in *; first [lia | congruence]
    | let Hc := fresh "Hc" in
      intro Hc; try (injection Hc; intros); repeat use_bound; cbn in *; lia ].

End Exec.

(** ** AdvancedVideoPlayer: what rendering leaves alone *)

Module AdvancedFacts.
Import Timers Exec.
#[local] Existing Instance Advanced.component.

(** Two states that differ at most in the timer table, the timer refs and
    the log of host calls. *)
Record same_core (s s' : Advanced.State) : Prop := {
  sc_ps : Advanced.ps s = Advanced.ps s';
  sc_showControls : Advanced.showControls s = Advanced.showControls s';
  sc_isLoading : Advanced.isLoading s = Advanced.isLoading s';
  sc_error : Advanced.error s = Advanced.error s';
  sc_playbackSpeed : Advanced.playbackSpeed s = Advanced.playbackSpeed s';
  sc_showSpeedMenu : Advanced.showSpeedMenu s = Advanced.showSpeedMenu s';
  sc_showQualityMenu : Advanced.showQualityMenu s = Advanced.showQualityMenu s';
  sc_isBuffering : Advanced.isBuffering s = Advanced.isBuffering s';
  sc_resizeMode : Advanced.resizeMode s = Advanced.resizeMode s';
  sc_brightness : Advanced.brightness s = Advanced.brightness s';
  sc_networkStatus : Advanced.networkStatus s = Advanced.networkStatus s';
  sc_showSeekIndicator : Advanced.showSeekIndicator s = Advanced.showSeekIndicator s';
  sc_doubleTapTimeoutRef : Advanced.doubleTapTimeoutRef s = Advanced.doubleTapTimeoutRef s';
  sc_lastTap : Advanced.lastTap s = Advanced.lastTap s';
  sc_engine : Advanced.engine s = Advanced.engine s';
  sc_props : Advanced.props s = Advanced.props s';
  sc_window : Advanced.window s = Advanced.window s';
  sc_now : now (Advanced.clock s) = now (Advanced.clock s');
  sc_fired : fired (Advanced.clock s) = fired (Advanced.clock s')
}.

Lemma adv_same_core_refl s : same_core s s.
Proof. split; reflexivity. Qed.

Lemma adv_same_core_trans s1 s2 s3 : same_core s1 s2 -> same_core s2 s3 -> same_core s1 s3.
Proof.
  intros [ ] [ ]; split; etransitivity; eassumption.
Qed.

Lemma adv_same_core_when (b : bool) (f : Advanced.State -> Advanced.State) s :
  (forall x, same_core (f x) x) -> same_core (when b f s) s.
Proof.
  intros Hf. destruct b; cbn; [apply Hf|apply adv_same_core_refl].
Qed.

Lemma adv_fallback_cleanup_core s : same_core (Advanced.fallback_cleanup s) s.
Proof. exec_advanced; split; reflexivity. Qed.

Lemma adv_autohide_cleanup_core s : same_core (Advanced.autohide_cleanup s) s.
Proof. exec_advanced; split; reflexivity. Qed.

Lemma adv_fallback_effect_core s : same_core (Advanced.fallback_effect s) s.
Proof. exec_advanced; split; reflexivity. Qed.

Lemma adv_autohide_effect_core s : same_core (Advanced.autohide_effect s) s.
Proof. exec_advanced; split; reflexivity. Qed.

Lemma adv_progress_effect_core s : same_core (Advanced.progress_effect s) s.
Proof. exec_advanced; split; reflexivity. Qed.

(** Rendering runs effects; effects only touch timers and call the host. *)
Lemma adv_commit_core o n : same_core (Advanced.commit o n) n.
Proof.
  unfold Advanced.commit.
  repeat (eapply adv_same_core_trans; [apply adv_same_core_when|]);
    auto using adv_fallback_cleanup_core, adv_autohide_cleanup_core, adv_fallback_effect_core,
               adv_autohide_effect_core, adv_progress_effect_core, adv_same_core_refl.
Qed.

Lemma adv_handle_now e s : now (Advanced.clock (Advanced.handle e s)) = now (Advanced.clock s).
Proof.
  destruct e; exec_advanced; reflexivity.
Qed.

Lemma adv_run_now a s : now (Advanced.clock (Advanced.run a s)) = now (Advanced.clock s).
Proof.
  destruct a; exec_advanced; reflexivity.
Qed.

Lemma adv_step_now e s : now (Advanced.clock (Advanced.step e s)) = now (Advanced.clock s).
Proof.
  unfold Advanced.step. rewrite (sc_now _ _ (adv_commit_core _ _)). apply adv_handle_now.
Qed.

#[export] Instance lawful : TimerFacts.Lawful Advanced.State Advanced.Action.
Proof.
  split.
  - intros c [ ]; reflexivity.
  - intros [ ]; reflexivity.
  - intros c c' [ ]; reflexivity.
  - intros a s. cbn [fire Advanced.component].
    rewrite (sc_now _ _ (adv_commit_core _ _)). apply adv_run_now.
Qed.

End AdvancedFacts.

(** ** Seeking: what the engine receives *)

Module Seeking.
Import Scenarios.

(** AdvancedVideoPlayer: [seekTo] clamps, sends the clamped position to
    the engine in seconds and stores it in [currentTime]. *)
Lemma advanced_seekTo (t : Q) (s : Advanced.State) :
  Advanced.videoRef s = true ->
  Advanced.engine (Advanced.seekTo t s) =
    Advanced.engine s ++ [Seek (JS.clamp t (duration (Advanced.ps s)) / 1000)]
  /\ currentTime (Advanced.ps (Advanced.seekTo t s)) = JS.clamp t (duration (Advanced.ps s))
  /\ duration (Advanced.ps (Advanced.seekTo t s)) = duration (Advanced.ps s).
Proof.
  intros Hv. unfold Advanced.seekTo, Advanced.engine_seek. rewrite Hv.
  repeat split.
Qed.

(** NativeVideoPlayer: [seekTo] only converts to seconds. *)
Lemma native_seekTo (t : Q) (s : Native.State) :
  Native.videoRef s = true ->
  Native.engine (Native.seekTo t s) = Native.engine s ++ [Seek (t / 1000)].
Proof.
  intros Hv. unfold Native.seekTo, Native.engine_send. rewrite Hv. reflexivity.
Qed.

(** EnhancedVideoPlayer: [seekTo] hands the position over as it is. *)
Lemma enhanced_seekTo (t : Q) (resolves : bool) (s : Enhanced.State) :
  Enhanced.videoRef s = true ->
  Enhanced.engine (Enhanced.seekTo t resolves s) = Enhanced.engine s ++ [Seek t].
Proof.
  intros Hv. unfold Enhanced.seekTo, Enhanced.engine_call. rewrite Hv.
  destruct resolves; reflexivity.
Qed.

(** In the two components that do not clamp in [seekTo], the targets of
    the skip buttons are within range as long as the position is. *)
Lemma skip_targets_in_range (cur d : Q) :
  0 <= cur -> cur <= d ->
  (0 <= JS.Math_min (cur + 10000) d /\ JS.Math_min (cur + 10000) d <= d)
  /\ (0 <= JS.Math_max (cur - 10000) 0 /\ JS.Math_max (cur - 10000) 0 <= d).
Proof.
  intros H0 Hd.
  assert (D0 : 0 <= d) by (eapply Qle_trans; eauto).
  repeat split.
  - apply JSFacts.min_ge; [|assumption].
    apply Qle_trans with cur; [assumption|].
    rewrite <- (Qplus_0_r cur) at 1. apply Qplus_le_r. discriminate.
  - apply JSFacts.min_le_r.
  - apply JSFacts.max_ge_r.
  - apply JSFacts.max_le; [|assumption].
    apply Qle_trans with cur; [|assumption].
    unfold Qminus. rewrite <- (Qplus_0_r cur) at 2. apply Qplus_le_r. discriminate.
Qed.

Lemma native_skip_commands (s : Native.State) :
  Native.videoRef s = true ->
  Native.engine (Native.skipForward s) =
    Native.engine s ++
      [Seek (JS.Math_min (currentTime (Native.ps s) + 10000) (duration (Native.ps s)) / 1000)]
  /\ Native.engine (Native.skipBackward s) =
    Native.engine s ++ [Seek (JS.Math_max (currentTime (Native.ps s) - 10000) 0 / 1000)].
Proof.
  intros Hv. unfold Native.skipForward, Native.skipBackward.
  split; apply native_seekTo; assumption.
Qed.

Lemma enhanced_skip_commands (r : bool) (s : Enhanced.State) :
  Enhanced.videoRef s = true ->
  Enhanced.engine (Enhanced.skipForward r s) =
    Enhanced.engine s ++
      [Seek (JS.Math_min (currentTime (Enhanced.ps s) + 10000) (duration (Enhanced.ps s)))]
  /\ Enhanced.engine (Enhanced.skipBackward r s) =
    Enhanced.engine s ++ [Seek (JS.Math_max (currentTime (Enhanced.ps s) - 10000) 0)].
Proof.
  intros Hv. unfold Enhanced.skipForward, Enhanced.skipBackward.
  split; apply enhanced_seekTo; assumption.
Qed.

(** C1, as the code has it.  In AdvancedVideoPlayer, for every target [t]
    and every state whose duration [d] is not negative, [seekTo] commits
    the position clamped to [0, d]: [0] when [t < 0], [d] when [t > d],
    [t] otherwise; the state holds it in milliseconds and the engine
    receives it in seconds.  In NativeVideoPlayer and EnhancedVideoPlayer
    [seekTo] does not clamp: the engine receives the target itself (in
    seconds, respectively milliseconds). *)
Theorem seekTo_commits
  (t : Q) (a : Advanced.State) (n : Native.State) (e : Enhanced.State) (resolves : bool) :
  0 <= duration (Advanced.ps a) ->
  Advanced.videoRef a = true ->
  Native.videoRef n = true ->
  Enhanced.videoRef e = true ->
  let d := duration (Advanced.ps a) in
  let c := JS.clamp t d in
  (Advanced.engine (Advanced.seekTo t a) = Advanced.engine a ++ [Seek (c / 1000)]
   /\ currentTime (Advanced.ps (Advanced.seekTo t a)) = c
   /\ 0 <= c /\ c <= d
   /\ (t < 0 -> c = 0)
   /\ (d < t -> c == d)
   /\ (0 <= t -> t <= d -> c == t))
  /\ Native.engine (Native.seekTo t n) = Native.engine n ++ [Seek (t / 1000)]
  /\ Enhanced.engine (Enhanced.seekTo t resolves e) = Enhanced.engine e ++ [Seek t].
Proof.
  intros Hd Ha Hn He d c.
  destruct (advanced_seekTo t a Ha) as (E1 & E2 & _).
  destruct (JSFacts.clamp_range t d Hd) as [R0 R1].
  split; [|split].
  - split; [exact E1|]. split; [exact E2|]. split; [exact R0|]. split; [exact R1|].
    split; [|split].
    + intro Ht. apply JSFacts.clamp_below; assumption.
    + intro Ht. apply JSFacts.clamp_above; assumption.
    + intros H0 H1. apply JSFacts.clamp_inside; assumption.
  - apply native_seekTo; assumption.
  - apply enhanced_seekTo; assumption.
Qed.

Lemma seekTo_commits_witness :
  Advanced.engine (Advanced.seekTo 75000 advanced_loaded) = [Seek (60000 / 1000)]
  /\ Native.engine (Native.seekTo 75000 native_loaded) = [Seek (75000 / 1000)]
  /\ Enhanced.engine (Enhanced.seekTo 75000 true enhanced_loaded) = [Seek 75000].
Proof.
  assert (Hd : 0 <= duration (Advanced.ps advanced_loaded)) by (vm_compute; discriminate).
  destruct (seekTo_commits 75000 advanced_loaded native_loaded enhanced_loaded true
              Hd eq_refl eq_refl eq_refl) as ((E & _) & N & F).
  split; [exact E | split; [exact N | exact F]].
Defined.

(** The claim C1 fails as written: NativeVideoPlayer, loaded with a
    60 s video, is asked to seek to -1000 ms; the engine receives -1 s,
    not 0, and EnhancedVideoPlayer sends -1000 ms. *)
Lemma seekTo_not_clamped :
  0 <= duration (Native.ps native_loaded)
  /\ Native.engine (Native.seekTo (-1000) native_loaded) = [Seek (-1000 / 1000)]
  /\ ~ (-1000 / 1000 == 0)
  /\ Enhanced.engine (Enhanced.seekTo (-1000) true enhanced_loaded) = [Seek (-1000)]
  /\ ~ (-1000 == 0).
Proof.
  repeat split; try (vm_compute; discriminate).
Qed.

End Seeking.

(** ** The host's progress callback *)

Module ProgressCallback.
Import Exec Scenarios.

Definition positive_duration (call : Q * Q) : Prop := 0 < snd call.

Lemma positive_snoc (l : list (Q * Q)) (t d : Q) :
  Forall positive_duration l -> JS.gt d 0 = true ->
  Forall positive_duration (l ++ [(t, d)]).
Proof.
  intros Hl Hd. apply Forall_app. split; [assumption|].
  constructor; [|constructor]. apply JSFacts.lt_spec. exact Hd.
Qed.

(** AdvancedVideoPlayer *)

Lemma advanced_handle_host (e : Advanced.Event) (s : Advanced.State) :
  Advanced.hostProgress (Advanced.handle e s) = Advanced.hostProgress s.
Proof.
  destruct e; autounfold with advanced; exec; reflexivity.
Qed.

Lemma advanced_run_host (a : Advanced.Action) (s : Advanced.State) :
  Advanced.hostProgress (Advanced.run a s) = Advanced.hostProgress s.
Proof.
  destruct a; autounfold with advanced; exec; reflexivity.
Qed.

(** The effect is the only caller, and it calls with the state just
    rendered, under its guard. *)
Lemma advanced_commit_host (o n : Advanced.State) :
  Advanced.hostProgress (Advanced.commit o n) = Advanced.hostProgress n
  \/ (JS.gt (duration (Advanced.ps n)) 0 = true
      /\ Advanced.hostProgress (Advanced.commit o n) =
         Advanced.hostProgress n ++ [(currentTime (Advanced.ps n), duration (Advanced.ps n))]).
Proof.
  autounfold with advanced. exec; auto.
  all: right; split; [|reflexivity];
    match goal with H : (_ && _)%bool = true |- _ => apply andb_prop in H; tauto end.
Qed.

Lemma advanced_commit_positive (o n : Advanced.State) :
  Forall positive_duration (Advanced.hostProgress n) ->
  Forall positive_duration (Advanced.hostProgress (Advanced.commit o n)).
Proof.
  intros H. destruct (advanced_commit_host o n) as [E|[G E]]; rewrite E; auto.
  apply positive_snoc; assumption.
Qed.

Lemma advanced_positive (s : Advanced.State) :
  Advanced.reachable s -> Forall positive_duration (Advanced.hostProgress s).
Proof.
  induction 1 as [p w t0 _|e s _ IH|s _ IH].
  - destruct p as [[|]]; constructor.
  - apply advanced_commit_positive. rewrite advanced_handle_host. exact IH.
  - apply (TimerFacts.tick_inv
             (fun s => Forall positive_duration (Advanced.hostProgress s)));
      [intros s' H'; exact H' | | exact IH].
    intros s' t H' _. cbn. apply advanced_commit_positive.
    rewrite advanced_run_host. exact H'.
Qed.

(** NativeVideoPlayer *)

Lemma native_handle_host (e : Native.Event) (s : Native.State) :
  Native.hostProgress (Native.handle e s) = Native.hostProgress s.
Proof.
  destruct e; autounfold with native; exec; reflexivity.
Qed.

Lemma native_run_host (a : Native.Action) (s : Native.State) :
  Native.hostProgress (Native.run a s) = Native.hostProgress s.
Proof.
  destruct a; autounfold with native; exec; reflexivity.
Qed.

(** The effect is the only caller, and it calls with the state just
    rendered, under its guard. *)
Lemma native_commit_host (o n : Native.State) :
  Native.hostProgress (Native.commit o n) = Native.hostProgress n
  \/ (JS.gt (duration (Native.ps n)) 0 = true
      /\ Native.hostProgress (Native.commit o n) =
         Native.hostProgress n ++ [(currentTime (Native.ps n), duration (Native.ps n))]).
Proof.
  autounfold with native. exec; auto.
  all: right; split; [|reflexivity];
    match goal with H : (_ && _)%bool = true |- _ => apply andb_prop in H; tauto end.
Qed.

Lemma native_commit_positive (o n : Native.State) :
  Forall positive_duration (Native.hostProgress n) ->
  Forall positive_duration (Native.hostProgress (Native.commit o n)).
Proof.
  intros H. destruct (native_commit_host o n) as [E|[G E]]; rewrite E; auto.
  apply positive_snoc; assumption.
Qed.

Lemma native_positive (s : Native.State) :
  Native.reachable s -> Forall positive_duration (Native.hostProgress s).
Proof.
  induction 1 as [p t0 _|e s _ IH|s _ IH].
  - destruct p as [[|]]; constructor.
  - apply native_commit_positive. rewrite native_handle_host. exact IH.
  - apply (TimerFacts.tick_inv
             (fun s => Forall positive_duration (Native.hostProgress s)));
      [intros s' H'; exact H' | | exact IH].
    intros s' t H' _. cbn. apply native_commit_positive.
    rewrite native_run_host. exact H'.
Qed.

(** EnhancedVideoPlayer *)

Lemma enhanced_handle_host (e : Enhanced.Event) (s : Enhanced.State) :
  Enhanced.hostProgress (Enhanced.handle e s) = Enhanced.hostProgress s.
Proof.
  destruct e; autounfold with enhanced; exec; reflexivity.
Qed.

Lemma enhanced_run_host (a : Enhanced.Action) (s : Enhanced.State) :
  Enhanced.hostProgress (Enhanced.run a s) = Enhanced.hostProgress s.
Proof.
  destruct a; autounfold with enhanced; exec; reflexivity.
Qed.

(** The effect is the only caller, and it calls with the state just
    rendered, under its guard. *)
Lemma enhanced_commit_host (o n : Enhanced.State) :
  Enhanced.hostProgress (Enhanced.commit o n) = Enhanced.hostProgress n
  \/ (JS.gt (duration (Enhanced.ps n)) 0 = true
      /\ Enhanced.hostProgress (Enhanced.commit o n) =
         Enhanced.hostProgress n ++ [(currentTime (Enhanced.ps n), duration (Enhanced.ps n))]).
Proof.
  autounfold with enhanced. exec; auto.
  all: right; split; [|reflexivity];
    match goal with H : (_ && _)%bool = true |- _ => apply andb_prop in H; tauto end.
Qed.

Lemma enhanced_commit_positive (o n : Enhanced.State) :
  Forall positive_duration (Enhanced.hostProgress n) ->
  Forall positive_duration (Enhanced.hostProgress (Enhanced.commit o n)).
Proof.
  intros H. destruct (enhanced_commit_host o n) as [E|[G E]]; rewrite E; auto.
  apply positive_snoc; assumption.
Qed.

Lemma enhanced_positive (s : Enhanced.State) :
  Enhanced.reachable s -> Forall positive_duration (Enhanced.hostProgress s).
Proof.
  induction 1 as [p t0 _|e s _ IH|s _ IH].
  - destruct p as [[|]]; constructor.
  - apply enhanced_commit_positive. rewrite enhanced_handle_host. exact IH.
  - apply (TimerFacts.tick_inv
             (fun s => Forall positive_duration (Enhanced.hostProgress s)));
      [intros s' H'; exact H' | | exact IH].
    intros s' t H' _. cbn. apply enhanced_commit_positive.
    rewrite enhanced_run_host. exact H'.
Qed.

(** C10.  In AdvancedVideoPlayer, NativeVideoPlayer and
    EnhancedVideoPlayer the host's progress callback is never called with
    a duration that is zero or negative: in every state the component can
    reach, every call made so far carried a duration greater than 0. *)
Theorem host_progress_positive_duration
  (a : Advanced.State) (n : Native.State) (e : Enhanced.State) :
  Advanced.reachable a -> Native.reachable n -> Enhanced.reachable e ->
  Forall positive_duration (Advanced.hostProgress a)
  /\ Forall positive_duration (Native.hostProgress n)
  /\ Forall positive_duration (Enhanced.hostProgress e).
Proof.
  intros Ha Hn He. split; [|split].
  - apply advanced_positive; assumption.
  - apply native_positive; assumption.
  - apply enhanced_positive; assumption.
Qed.

Lemma host_progress_positive_duration_witness :
  Forall positive_duration (Advanced.hostProgress advanced_loaded)
  /\ Forall positive_duration (Native.hostProgress native_loaded)
  /\ Forall positive_duration (Enhanced.hostProgress enhanced_loaded).
Proof.
  apply host_progress_positive_duration.
  - apply Advanced.reach_step, Advanced.reach_mount. reflexivity.
  - apply Native.reach_step, Native.reach_mount. reflexivity.
  - apply Enhanced.reach_step, Enhanced.reach_mount. reflexivity.
Defined.

(** What one render can add: nothing, or one call that carries the
    position and the duration just rendered, the duration being positive. *)
Lemma advanced_step_calls (e : Advanced.Event) (s : Advanced.State) :
  let s' := Advanced.step e s in
  Advanced.hostProgress s' = Advanced.hostProgress s
  \/ (0 < duration (Advanced.ps (Advanced.handle e s))
      /\ Advanced.hostProgress s' =
         Advanced.hostProgress s ++
           [(currentTime (Advanced.ps (Advanced.handle e s)),
             duration (Advanced.ps (Advanced.handle e s)))]).
Proof.
  cbv zeta. unfold Advanced.step.
  destruct (advanced_commit_host s (Advanced.handle e s)) as [E|[G E]];
    rewrite E, advanced_handle_host; [left; reflexivity|right].
  split; [apply JSFacts.lt_spec; exact G|reflexivity].
Qed.

(** ProVideoPlayer, which the claim does not cite, calls the host from its
    throttled progress callback without the guard: before the video has
    loaded, the duration it passes is 0. *)
Remark pro_progress_unguarded :
  Pro.hostProgress
    (Pro.play [Pro.Ev (Pro.OnProgress 5); Pro.Wait 100] (Pro.mount (Pro.mkProps [] true) 1000))
  = [(5, 0)].
Proof. vm_compute. reflexivity. Qed.

End ProgressCallback.

(** ** Play and pause *)

Module PlayPause.
Import Timers Exec Scenarios.
#[local] Existing Instance Enhanced.component.
#[local] Existing Instance Advanced.component.















End PlayPause.

(** ** Network-adaptive bitrate ceiling *)

Module BitrateCeiling.
Import Exec Scenarios.

Lemma advanced_ceiling (s : Advanced.State) :
  Advanced.video_maxBitRate s = None <-> Advanced.networkStatus s = "wifi"%string.
Proof.
  unfold Advanced.video_maxBitRate.
  destruct (String.eqb_spec (Advanced.networkStatus s) "wifi"); split; congruence.
Qed.

Lemma pro_ceiling (s : Pro.State) :
  Pro.video_maxBitRate s = None <-> Pro.networkType s = "wifi"%string.
Proof.
  unfold Pro.video_maxBitRate.
  destruct (String.eqb_spec (Pro.networkType s) "wifi"); split; congruence.
Qed.

Lemma advanced_netinfo (c : bool) (t : string) (s : Advanced.State) :
  Advanced.networkStatus (Advanced.step (Advanced.NetInfo c t) s) =
    if c then JS.str_or t "unknown" else "offline"%string.
Proof.
  unfold Advanced.step.
  rewrite (AdvancedFacts.sc_networkStatus _ _ (AdvancedFacts.adv_commit_core _ _)).
  destruct c; reflexivity.
Qed.

Lemma pro_commit_network (o n : Pro.State) :
  Pro.networkType (Pro.commit o n) = Pro.networkType n.
Proof.
  unfold Pro.commit, when.
  destruct (Pro.autohide_deps_changed o n); exec_pro; reflexivity.
Qed.

Lemma pro_netinfo (c : bool) (t : string) (s : Pro.State) :
  Pro.networkType (Pro.step (Pro.NetInfo c t) s) =
    if c then JS.str_or t "unknown" else "offline"%string.
Proof.
  unfold Pro.step. rewrite pro_commit_network.
  destruct c; [|reflexivity]. cbn. unfold when.
  destruct (match Pro.error s with Some e => _ | None => false end); reflexivity.
Qed.

(** C9, as the code has it.  The ceiling handed to the [<Video>] element
    is computed at every render from the connectivity class alone: it is
    absent exactly when the class is wifi and is 1,000,000
    (AdvancedVideoPlayer) or 2,000,000 (ProVideoPlayer) otherwise.  A
    network event changes the class, hence the ceiling of the mounted
    element, at once. *)
Theorem ceiling_follows_connectivity
  (a : Advanced.State) (p : Pro.State) (connected : bool) (type : string) :
  let class := if connected then JS.str_or type "unknown" else "offline"%string in
  (Advanced.video_maxBitRate a = None <-> Advanced.networkStatus a = "wifi"%string)
  /\ (Pro.video_maxBitRate p = None <-> Pro.networkType p = "wifi"%string)
  /\ Advanced.video_maxBitRate (Advanced.step (Advanced.NetInfo connected type) a)
     = (if String.eqb class "wifi" then None else Some 1000000%N)
  /\ Pro.video_maxBitRate (Pro.step (Pro.NetInfo connected type) p)
     = (if String.eqb class "wifi" then None else Some 2000000%N).
Proof.
  cbv zeta. split; [apply advanced_ceiling|]. split; [apply pro_ceiling|].
  unfold Advanced.video_maxBitRate, Pro.video_maxBitRate.
  rewrite advanced_netinfo, pro_netinfo. split; reflexivity.
Qed.

(** The claim C9 fails as written: AdvancedVideoPlayer plays on wifi with
    no ceiling; connectivity changes to cellular; with no load and no
    quality switch, the element that is playing now has the ceiling. *)
Lemma ceiling_not_deferred :
  isPlaying (Advanced.ps advanced_wifi_playing) = true
  /\ Advanced.video_maxBitRate advanced_wifi_playing = None
  /\ Advanced.video_maxBitRate
       (Advanced.step (Advanced.NetInfo true "cellular") advanced_wifi_playing)
     = Some 1000000%N
  /\ Advanced.isLoading
       (Advanced.step (Advanced.NetInfo true "cellular") advanced_wifi_playing) = false.
Proof.
  repeat split.
Qed.

End BitrateCeiling.

(** ** ProVideoPlayer: the timers that send a seek *)

Module ProFacts.
Import Timers Exec.
#[local] Existing Instance Pro.component.

#[export] Instance lawful : TimerFacts.Lawful Pro.State Pro.Action.
Proof.
  split.
  - intros c [ ]; reflexivity.
  - intros [ ]; reflexivity.
  - intros c c' [ ]; reflexivity.
  - intros a s. destruct a; exec_pro; reflexivity.
Qed.

(** The two callbacks that send a seek to the engine. *)
Definition is_seek (a : Pro.Action) : bool :=
  match a with
  | Pro.SeekCommit _ | Pro.QualitySeek _ => true
  | _ => false
  end.

Definition seek_target (a : Pro.Action) : Q :=
  match a with
  | Pro.SeekCommit v | Pro.QualitySeek v => v
  | _ => 0
  end.

(** Handles are handed out in increasing order: every pending timer and
    every handle kept in a ref is older than the next handle. *)
Record wf (s : Pro.State) : Prop := {
  wf_pending : forall t, In t (pending (Pro.clock s)) -> (t_id t < next_id (Pro.clock s))%nat;
  wf_controls : TimerFacts.bounded (Pro.controlsTimeoutRef s) (Pro.clock s);
  wf_seek : TimerFacts.bounded (Pro.seekTimeoutRef s) (Pro.clock s);
  wf_progress : TimerFacts.bounded (Pro.progressUpdateTimeoutRef s) (Pro.clock s);
  wf_animation : TimerFacts.bounded (Pro.controlsAnimation s) (Pro.clock s)
}.

(** No seek is on its way to the engine. *)
Record quiet (L : list EngineCmd) (d : Q) (s : Pro.State) : Prop := {
  q_wf : wf s;
  q_engine : Pro.engine s = L;
  q_mounted : Pro.error s = None;
  q_duration : Pro.duration s = d;
  q_none : forall t, In t (pending (Pro.clock s)) -> is_seek (t_act t) = false
}.

(** Exactly one seek is on its way: the timer [i], due at [D]. *)
Record armed (L : list EngineCmd) (d : Q) (i : nat) (D : N) (a : Pro.Action)
             (r : option nat) (s : Pro.State) : Prop := {
  a_wf : wf s;
  a_engine : Pro.engine s = L;
  a_mounted : Pro.error s = None;
  a_duration : Pro.duration s = d;
  a_in : In (mkTimer i D a) (pending (Pro.clock s));
  a_uniq : forall t, In t (pending (Pro.clock s)) -> t_id t = i -> t = mkTimer i D a;
  a_only : forall t, In t (pending (Pro.clock s)) -> is_seek (t_act t) = true -> t_id t = i;
  a_ref : Pro.seekTimeoutRef s = r;
  a_controls : Pro.controlsTimeoutRef s <> Some i;
  a_progress : Pro.progressUpdateTimeoutRef s <> Some i;
  a_animation : Pro.controlsAnimation s <> Some i
}.

Lemma pro_quiet_commit L d o n : quiet L d n -> quiet L d (Pro.commit o n).
Proof.
  intros [[Wp Wc Ws Wg Wa] E M Du N].
  destruct n; cbn in *. unfold TimerFacts.bounded in *; cbn in *.
  unfold Pro.commit, when. destruct (Pro.autohide_deps_changed _ _); exec_pro.
  all: split; [split| | | |].
  all: try clause.
Qed.

Lemma pro_quiet_other L d s t :
  quiet L d s -> In t (pending (Pro.clock s)) ->
  quiet L d (fire (t_act t) (with_clk (take t (clk s)) s)).
Proof.
  intros [[Wp Wc Ws Wg Wa] E M Du N] Ht.
  pose proof (N t Ht) as Nt. destruct t as [j due a]. cbn in Nt.
  cbn [fire Pro.component]. apply pro_quiet_commit.
  destruct s; cbn in *. unfold TimerFacts.bounded in *; cbn in *.
  destruct a; try discriminate; exec_pro.
  all: split; [split| | | |].
  all: try clause.
Qed.
Lemma pro_armed_commit L d i D a r o n :
  armed L d i D a r n -> armed L d i D a r (Pro.commit o n).
Proof.
  intros [[Wp Wc Ws Wg Wa] E M Du I U O R Nc Np Na].
  pose proof (Wp _ I) as Bi. cbn in Bi.
  destruct n; cbn in *. unfold TimerFacts.bounded in *; cbn in *.
  unfold Pro.commit, when. destruct (Pro.autohide_deps_changed _ _); exec_pro.
  all: split; [split| | | | | | | | | |].
  all: try clause.
Qed.

Lemma pro_armed_other L d i D a r s t :
  armed L d i D a r s -> In t (pending (Pro.clock s)) -> t_id t <> i ->
  armed L d i D a r (fire (t_act t) (with_clk (take t (clk s)) s)).
Proof.
  intros [[Wp Wc Ws Wg Wa] E M Du I U O R Nc Np Na] Ht Hne.
  assert (Nt : is_seek (t_act t) = false).
  { destruct (is_seek (t_act t)) eqn:S; [|reflexivity]. elim Hne. apply O; assumption. }
  pose proof (Wp _ I) as Bi. cbn in Bi.
  destruct t as [j due b]. cbn in Nt, Hne.
  cbn [fire Pro.component]. apply pro_armed_commit.
  destruct s; cbn in *. unfold TimerFacts.bounded in *; cbn in *.
  destruct b; try discriminate; exec_pro.
  all: split; [split| | | | | | | | | |].
  all: try clause.
Qed.

Lemma pro_armed_lookup L d i D a r s :
  armed L d i D a r s -> exists t, lookup i (clk s) = Some t.
Proof.
  intros H. destruct (lookup i (clk s)) as [t|] eqn:E; [eauto|].
  exfalso. unfold lookup in E.
  pose proof (find_none _ _ E _ (a_in _ _ _ _ _ _ _ H)) as F.
  cbn in F. rewrite Nat.eqb_refl in F. discriminate.
Qed.

Lemma pro_armed_due L d i D a r s t :
  armed L d i D a r s -> In t (pending (clk s)) -> t_id t = i -> t_due t = D.
Proof.
  intros H Ht E. rewrite (a_uniq _ _ _ _ _ _ _ H t Ht E). reflexivity.
Qed.

Lemma pro_armed_advance L d i D a r s :
  armed L d i D a r s -> armed L d i D a r (with_clk (advance (clk s)) s).
Proof.
  intros [[Wp Wc Ws Wg Wa] E M Du I U O R Nc Np Na].
  destruct s; cbn in *. split; [split| | | | | | | | | |]; assumption.
Qed.

Lemma pro_quiet_advance L d s :
  quiet L d s -> quiet L d (with_clk (advance (clk s)) s).
Proof.
  intros [[Wp Wc Ws Wg Wa] E M Du N].
  destruct s; cbn in *. split; [split| | | |]; assumption.
Qed.

(** When its timer comes due, the seek reaches the engine. *)
Lemma pro_armed_fire L d i D a r s t :
  is_seek a = true ->
  armed L d i D a r s -> In t (pending (Pro.clock s)) -> t_id t = i ->
  quiet (L ++ [Seek (seek_target a)]) d (fire (t_act t) (with_clk (take t (clk s)) s)).
Proof.
  intros Sa [[Wp Wc Ws Wg Wa] E M Du I U O R Nc Np Na] Ht Hi.
  rewrite (U t Ht Hi). clear t Ht Hi.
  cbn [fire Pro.component t_act]. apply pro_quiet_commit.
  destruct s; cbn in *. unfold TimerFacts.bounded in *; cbn in *. subst.
  destruct a; try discriminate; exec_pro.
  all: split; [split| | | |].
  all: try clause.
  all: intros u Hu; in_cases Hu; neq_ids; try reflexivity;
    match goal with
    | H : t_id ?v <> _ |- is_seek (t_act ?v) = false =>
        destruct (is_seek (t_act v)) eqn:S; [|reflexivity];
        exfalso; apply H; apply O; assumption
    end.
Qed.

(** *** Well-formedness is an invariant *)

Lemma pro_wf_mount p t0 : wf (Pro.mount p t0).
Proof.
  split; cbn; unfold TimerFacts.bounded; cbn; intros; try discriminate; contradiction.
Qed.

Lemma pro_wf_commit o n : wf n -> wf (Pro.commit o n).
Proof.
  intros [Wp Wc Ws Wg Wa].
  destruct n; cbn in *. unfold TimerFacts.bounded in *; cbn in *.
  unfold Pro.commit, when. destruct (Pro.autohide_deps_changed _ _); exec_pro.
  all: split; try clause.
Qed.

Lemma pro_wf_handle e s : wf s -> wf (Pro.handle e s).
Proof.
  intros [Wp Wc Ws Wg Wa].
  destruct s; cbn in *. unfold TimerFacts.bounded in *; cbn in *.
  destruct e; exec_pro.
  all: split; try clause.
Qed.

Lemma pro_wf_step e s : wf s -> wf (Pro.step e s).
Proof.
  intros H. apply pro_wf_commit, pro_wf_handle, H.
Qed.

Lemma pro_wf_fire s t :
  wf s -> In t (pending (Pro.clock s)) ->
  wf (fire (t_act t) (with_clk (take t (clk s)) s)).
Proof.
  intros [Wp Wc Ws Wg Wa] Ht. destruct t as [j due a].
  cbn [fire Pro.component]. apply pro_wf_commit.
  destruct s; cbn in *. unfold TimerFacts.bounded in *; cbn in *.
  destruct a; exec_pro.
  all: split; try clause.
Qed.

Lemma pro_reachable_wf s : Pro.reachable s -> wf s.
Proof.
  induction 1 as [p t0 _|e s _ IH|s _ IH].
  - apply pro_wf_mount.
  - apply pro_wf_step; assumption.
  - apply (TimerFacts.tick_inv wf); [| |exact IH].
    + intros s' [Wp Wc Ws Wg Wa]. destruct s'; cbn in *. split; assumption.
    + intros s' t Hs Ht. apply pro_wf_fire; assumption.
Qed.

Lemma pro_commit_now o n : now (Pro.clock (Pro.commit o n)) = now (Pro.clock n).
Proof.
  unfold Pro.commit, when. destruct (Pro.autohide_deps_changed o n); exec_pro; reflexivity.
Qed.

Lemma pro_handle_now e s : now (Pro.clock (Pro.handle e s)) = now (Pro.clock s).
Proof.
  destruct e; exec_pro; reflexivity.
Qed.

Lemma pro_step_now e s : now (Pro.clock (Pro.step e s)) = now (Pro.clock s).
Proof.
  unfold Pro.step. rewrite pro_commit_now. apply pro_handle_now.
Qed.

(** *** Requests *)

(** A seek request while nothing is on its way arms the debounce timer. *)
Lemma pro_quiet_seekTo L d s v :
  quiet L d s ->
  armed L d (next_id (Pro.clock s)) (now (Pro.clock s) + 150)
        (Pro.SeekCommit (JS.clamp v d)) (Some (next_id (Pro.clock s)))
        (Pro.step (Pro.SliderComplete v) s).
Proof.
  intros [[Wp Wc Ws Wg Wa] E M Du N].
  unfold Pro.step. apply pro_armed_commit.
  destruct s; cbn in *. unfold TimerFacts.bounded in *; cbn in *. subst.
  exec_pro.
  all: split; [split| | | | | | | | | |].
  all: try clause.
Qed.

(** A newer request cancels the pending one and takes its place. *)
Lemma pro_armed_seekTo L d i D c s v :
  armed L d i D (Pro.SeekCommit c) (Some i) s ->
  armed L d (next_id (Pro.clock s)) (now (Pro.clock s) + 150)
        (Pro.SeekCommit (JS.clamp v d)) (Some (next_id (Pro.clock s)))
        (Pro.step (Pro.SliderComplete v) s).
Proof.
  intros [[Wp Wc Ws Wg Wa] E M Du I U O R Nc Np Na].
  unfold Pro.step. apply pro_armed_commit.
  destruct s; cbn in *. unfold TimerFacts.bounded in *; cbn in *. subst.
  exec_pro.
  all: split; [split| | | | | | | | | |].
  all: try clause.
Qed.

Lemma pro_quiet_changeQuality L d s idx :
  quiet L d s ->
  armed L d (next_id (Pro.clock s)) (now (Pro.clock s) + 500)
        (Pro.QualitySeek (if Pro.isSeeking s then Pro.seekTime s else Pro.currentTime s))
        (Pro.seekTimeoutRef s)
        (Pro.step (Pro.SelectQuality idx) s).
Proof.
  intros [[Wp Wc Ws Wg Wa] E M Du N].
  unfold Pro.step. apply pro_armed_commit.
  destruct s; cbn in *. unfold TimerFacts.bounded in *; cbn in *. subst.
  exec_pro.
  all: split; [split| | | | | | | | | |].
  all: try clause.
Qed.

(** The load of a source sends nothing and touches no timer. *)
Lemma pro_armed_onLoad L d d' i D a r s :
  armed L d i D a r s -> armed L d' i D a r (Pro.step (Pro.OnLoad d') s).
Proof.
  intros [[Wp Wc Ws Wg Wa] E M Du I U O R Nc Np Na].
  unfold Pro.step. apply pro_armed_commit.
  destruct s; cbn in *. unfold TimerFacts.bounded in *; cbn in *.
  exec_pro.
  all: split; [split| | | | | | | | | |].
  all: try clause.
Qed.

Lemma pro_quiet_onLoad L d d' s :
  quiet L d s -> quiet L d' (Pro.step (Pro.OnLoad d') s).
Proof.
  intros [[Wp Wc Ws Wg Wa] E M Du N].
  unfold Pro.step. apply pro_quiet_commit.
  destruct s; cbn in *. unfold TimerFacts.bounded in *; cbn in *.
  exec_pro.
  all: split; [split| | | |].
  all: try clause.
Qed.

(** *** Waiting *)

Section Waiting.
Variables (L : list EngineCmd) (d : Q) (i : nat) (D : N) (a : Pro.Action) (r : option nat).
Hypothesis seek_a : is_seek a = true.

Lemma pro_wait_early n s :
  armed L d i D a r s -> (now (Pro.clock s) + N.of_nat n < D)%N ->
  armed L d i D a r (elapse n s).
Proof.
  intros Hs Hn.
  apply (TimerFacts.elapse_armed_early (armed L d i D a r) i D); try assumption.
  - intros s' t H. eapply pro_armed_due; eassumption.
  - intros s' H. apply pro_armed_advance; assumption.
  - intros s' t H Ht Hne. apply pro_armed_other; assumption.
Qed.

Lemma pro_wait_due n s :
  armed L d i D a r s ->
  (now (Pro.clock s) < D)%N -> (D <= now (Pro.clock s) + N.of_nat n)%N ->
  quiet (L ++ [Seek (seek_target a)]) d (elapse n s).
Proof.
  intros Hs Hlt Hge.
  apply (TimerFacts.elapse_armed_due
           (armed L d i D a r) (quiet (L ++ [Seek (seek_target a)]) d) i D);
    try assumption.
  - intros s' H. eapply pro_armed_lookup; eassumption.
  - intros s' t H. eapply pro_armed_due; eassumption.
  - intros s' H. apply pro_armed_advance; assumption.
  - intros s' H. apply pro_quiet_advance; assumption.
  - intros s' t H Ht Hn. apply pro_armed_other; assumption.
  - intros s' t H Ht Hn. eapply pro_armed_fire; eassumption.
  - intros s' t H Ht _. apply pro_quiet_other; assumption.
Qed.

End Waiting.

Lemma pro_wait_quiet L d n s : quiet L d s -> quiet L d (elapse n s).
Proof.
  revert n s. apply (TimerFacts.elapse_inv (quiet L d)).
  apply (TimerFacts.tick_inv (quiet L d)).
  - intros s' H. apply pro_quiet_advance; assumption.
  - intros s' t H Ht. apply pro_quiet_other; assumption.
Qed.

(** *** From a reachable state *)

Definition no_seek_pending (s : Pro.State) : Prop :=
  forall t, In t (pending (Pro.clock s)) -> is_seek (t_act t) = false.

(** The same, as a test that computes. *)
Lemma pro_no_seek_pending_check s :
  forallb (fun t => negb (is_seek (t_act t))) (pending (Pro.clock s)) = true ->
  no_seek_pending s.
Proof.
  intros H t Ht. rewrite forallb_forall in H. specialize (H t Ht).
  apply negb_true_iff in H. exact H.
Qed.

Lemma pro_reachable_quiet s :
  Pro.reachable s -> Pro.error s = None -> no_seek_pending s ->
  quiet (Pro.engine s) (Pro.duration s) s.
Proof.
  intros R M N. split; auto using pro_reachable_wf.
Qed.

(** Requests, each followed by an idle period. *)
Fixpoint burst (reqs : list (Q * nat)) (s : Pro.State) : Pro.State :=
  match reqs with
  | [] => s
  | (v, gap) :: rest => burst rest (elapse gap (Pro.step (Pro.SliderComplete v) s))
  end.

(** Nothing is on its way, or one debounced seek is. *)
Definition settled (L : list EngineCmd) (d : Q) (s : Pro.State) : Prop :=
  quiet L d s \/ exists i D c, armed L d i D (Pro.SeekCommit c) (Some i) s.

Lemma pro_settled_seekTo L d s v :
  settled L d s ->
  armed L d (next_id (Pro.clock s)) (now (Pro.clock s) + 150)
        (Pro.SeekCommit (JS.clamp v d)) (Some (next_id (Pro.clock s)))
        (Pro.step (Pro.SliderComplete v) s).
Proof.
  intros [Q|(i & D & c & A)].
  - apply pro_quiet_seekTo; assumption.
  - eapply pro_armed_seekTo; eassumption.
Qed.

Lemma pro_burst_settled L d reqs s :
  settled L d s -> Forall (fun r => (snd r < 150)%nat) reqs ->
  settled L d (burst reqs s).
Proof.
  revert s. induction reqs as [|[v gap] reqs IH]; intros s Hs Hg; [exact Hs|].
  inversion Hg as [|? ? Hgap Hrest]; subst. cbn [burst]. apply IH; [|assumption].
  right. do 3 eexists.
  apply pro_wait_early; [apply pro_settled_seekTo; eassumption|].
  rewrite pro_step_now. cbn in Hgap. lia.
Qed.

(** Once the last request of a burst has been quiet for 150 ms, the engine
    has received one seek, to the last target. *)
Lemma pro_burst_commits L d reqs s v n :
  settled L d s -> Forall (fun r => (snd r < 150)%nat) reqs -> (150 <= n)%nat ->
  quiet (L ++ [Seek (JS.clamp v d)]) d
        (elapse n (Pro.step (Pro.SliderComplete v) (burst reqs s))).
Proof.
  intros Hs Hg Hn.
  pose proof (pro_settled_seekTo L d _ v (pro_burst_settled L d reqs s Hs Hg)) as A.
  refine (pro_wait_due _ _ _ _ _ _ _ n _ A _ _);
    [reflexivity | rewrite pro_step_now; lia | rewrite pro_step_now; lia].
Qed.

End ProFacts.
(** ** Debounced seeking *)

Module Debounce.
Import Timers Exec Scenarios ProFacts.
#[local] Existing Instance Pro.component.
#[local] Existing Instance Advanced.component.

(** AdvancedVideoPlayer: the values of a slider drag, one call of [seekTo]
    each. *)
Definition drag (values : list Q) (a : Advanced.State) : Advanced.State :=
  fold_left (fun a v => Advanced.step (Advanced.SliderValueChange v) a) values a.

Lemma advanced_drag (values : list Q) (a : Advanced.State) :
  Advanced.videoRef a = true ->
  Advanced.engine (drag values a) =
    Advanced.engine a ++
      map (fun v => Seek (JS.clamp v (duration (Advanced.ps a)) / 1000)) values.
Proof.
  revert a. induction values as [|v values IH]; intros a Hv; cbn [drag fold_left map].
  - rewrite app_nil_r. reflexivity.
  - pose proof (AdvancedFacts.adv_commit_core a (Advanced.seekTo v a)) as C.
    pose proof (AdvancedFacts.sc_engine _ _ C) as E1.
    pose proof (AdvancedFacts.sc_error _ _ C) as E2.
    pose proof (AdvancedFacts.sc_ps _ _ C) as E3.
    destruct (Seeking.advanced_seekTo v a Hv) as (S1 & _ & S3).
    fold (drag values (Advanced.step (Advanced.SliderValueChange v) a)).
    rewrite IH.
    + unfold Advanced.step, Advanced.handle. rewrite E1, E3, S1, S3.
      rewrite <- app_assoc. reflexivity.
    + unfold Advanced.videoRef in *. unfold Advanced.step, Advanced.handle. rewrite E2.
      replace (Advanced.error (Advanced.seekTo v a)) with (Advanced.error a); [exact Hv|].
      unfold Advanced.seekTo, Advanced.engine_seek, Advanced.videoRef.
      destruct (Advanced.error a) eqn:Ee; cbn; rewrite ?Ee; first [discriminate | reflexivity].
Qed.

(** C2, as the code has it.  In ProVideoPlayer, when nothing is on its way
    to the engine, any sequence of seek requests in which each request
    follows the previous one by less than 150 ms makes the engine receive
    exactly one seek, 150 ms after the last request, to the last target
    clamped to [0, duration]; each earlier request is cancelled by the
    next.  In AdvancedVideoPlayer there is no debounce: every value the
    slider reports is sent to the engine at once. *)
Theorem seek_requests_coalesce
  (s : Pro.State) (reqs : list (Q * nat)) (v : Q) (n : nat)
  (a : Advanced.State) (values : list Q) :
  Pro.reachable s -> Pro.error s = None -> no_seek_pending s ->
  Forall (fun r => (snd r < 150)%nat) reqs -> (150 <= n)%nat ->
  Advanced.videoRef a = true ->
  Pro.engine (elapse n (Pro.step (Pro.SliderComplete v) (burst reqs s)))
    = Pro.engine s ++ [Seek (JS.clamp v (Pro.duration s))]
  /\ Advanced.engine (drag values a)
    = Advanced.engine a ++
        map (fun x => Seek (JS.clamp x (duration (Advanced.ps a)) / 1000)) values.
Proof.
  intros R M N G Hn Hv. split.
  - apply (q_engine _ _ _
             (pro_burst_commits _ _ reqs s v n (or_introl (pro_reachable_quiet s R M N)) G Hn)).
  - apply advanced_drag; assumption.
Qed.

Lemma seek_requests_coalesce_witness :
  Pro.engine
    (elapse 150 (Pro.step (Pro.SliderComplete 52) (burst [(45, 100%nat); (50, 149%nat)] pro_loaded)))
    = [Seek 52]
  /\ Advanced.engine (drag [45000; 50000; 52000] advanced_loaded)
    = [Seek (45000 / 1000); Seek (50000 / 1000); Seek (52000 / 1000)].
Proof.
  apply (seek_requests_coalesce pro_loaded [(45, 100%nat); (50, 149%nat)] 52 150
           advanced_loaded [45000; 50000; 52000]).
  - apply Pro.reach_step, Pro.reach_mount. reflexivity.
  - reflexivity.
  - intros t Ht. destruct Ht.
  - repeat constructor.
  - lia.
  - reflexivity.
Defined.

(** The claim C2 fails as written: AdvancedVideoPlayer receives the values
    45 s, 50 s and 52 s from its slider within 100 ms and sends three
    seeks to the engine. *)
Lemma seek_requests_not_coalesced :
  Advanced.engine
    (Advanced.play
       [Advanced.Ev (Advanced.SliderValueChange 45000); Advanced.Wait 50;
        Advanced.Ev (Advanced.SliderValueChange 50000); Advanced.Wait 50;
        Advanced.Ev (Advanced.SliderValueChange 52000); Advanced.Wait 150]
       advanced_loaded)
  = [Seek (45000 / 1000); Seek (50000 / 1000); Seek (52000 / 1000)].
Proof. vm_compute. reflexivity. Qed.

End Debounce.

(** ** Scrubbing and engine progress *)

Module Scrubbing.
Import Timers Exec Scenarios.
#[local] Existing Instance Pro.component.

Lemma pro_commit_same (s : Pro.State) : Pro.commit s s = s.
Proof.
  unfold Pro.commit, Pro.autohide_deps_changed.
  rewrite !Bool.eqb_reflx. reflexivity.
Qed.

Lemma pro_commit_scrub (o n : Pro.State) :
  Pro.isSeeking (Pro.commit o n) = Pro.isSeeking n
  /\ Pro.seekTime (Pro.commit o n) = Pro.seekTime n.
Proof.
  unfold Pro.commit, when. destruct (Pro.autohide_deps_changed o n); exec_pro; split; reflexivity.
Qed.

(** C4, as the code has it.  In ProVideoPlayer a progress event that
    arrives while [isSeeking] is set changes nothing: no state, no timer,
    no call of the host; and the position the slider shows while
    scrubbing is [seekTime], which no progress callback writes, not even a
    throttled one scheduled before the scrub began.  AdvancedVideoPlayer
    has no scrubbing flag: every progress event overwrites [currentTime],
    the value its slider shows. *)
Theorem progress_while_scrubbing
  (s : Pro.State) (a : Advanced.State) (t t' d' : Q) :
  Pro.isSeeking s = true ->
  Pro.step (Pro.OnProgress t) s = s
  /\ Pro.slider_value s = Pro.seekTime s
  /\ Pro.slider_value (fire (Pro.ProgressUpdate t' d') s) = Pro.seekTime s
  /\ currentTime (Advanced.ps (Advanced.step (Advanced.OnProgress t) a)) = t * 1000.
Proof.
  intros Hs. repeat split.
  - unfold Pro.step, Pro.handle, Pro.onProgress. rewrite Hs. cbn. apply pro_commit_same.
  - unfold Pro.slider_value. rewrite Hs. reflexivity.
  - cbn [fire Pro.component]. unfold Pro.slider_value.
    destruct (pro_commit_scrub s (Pro.run (Pro.ProgressUpdate t' d') s)) as [E1 E2].
    rewrite E1, E2. unfold Pro.run, when.
    destruct (Pro.onProgressCallback (Pro.props s)); cbn; rewrite Hs; reflexivity.
  - unfold Advanced.step.
    rewrite (AdvancedFacts.sc_ps _ _ (AdvancedFacts.adv_commit_core _ _)). reflexivity.
Qed.

Lemma progress_while_scrubbing_witness :
  Pro.step (Pro.OnProgress 41) pro_scrubbing = pro_scrubbing
  /\ Pro.slider_value pro_scrubbing = 45.
Proof.
  destruct (progress_while_scrubbing pro_scrubbing advanced_playing 41 41 60 eq_refl)
    as (E & V & _).
  split; [exact E | exact V].
Defined.

(** The claim C4 fails as written: in AdvancedVideoPlayer the user starts
    to drag the slider and moves it to 30 s; before the drag is over the
    engine reports 12 s, and the position is overwritten. *)
Lemma progress_overwrites_scrub :
  currentTime
    (Advanced.ps
       (Advanced.play [Advanced.Ev Advanced.SlidingStart;
                       Advanced.Ev (Advanced.SliderValueChange 30000)] advanced_playing))
  = 30000
  /\ currentTime
       (Advanced.ps
          (Advanced.play [Advanced.Ev Advanced.SlidingStart;
                          Advanced.Ev (Advanced.SliderValueChange 30000);
                          Advanced.Ev (Advanced.OnProgress 12)] advanced_playing))
     = 12 * 1000
  /\ ~ (12 * 1000 == 30000).
Proof.
  repeat split. vm_compute. discriminate.
Qed.

End Scrubbing.

(** ** Quality switch *)

Module QualitySwitch.
Import Timers Exec Scenarios ProFacts.
#[local] Existing Instance Pro.component.

Lemma pro_commit_frame (o n : Pro.State) :
  Pro.engine (Pro.commit o n) = Pro.engine n
  /\ Pro.selectedQualityIndex (Pro.commit o n) = Pro.selectedQualityIndex n
  /\ Pro.isLoading (Pro.commit o n) = Pro.isLoading n
  /\ Pro.isPlaying (Pro.commit o n) = Pro.isPlaying n.
Proof.
  unfold Pro.commit, when. destruct (Pro.autohide_deps_changed o n); exec_pro; repeat split.
Qed.

(** What [changeQuality] does at once. *)
Lemma changeQuality_now (idx : nat) (s : Pro.State) :
  let s1 := Pro.step (Pro.SelectQuality idx) s in
  Pro.selectedQualityIndex s1 = idx
  /\ Pro.isLoading s1 = true
  /\ Pro.isPlaying s1 = Pro.isPlaying s
  /\ Pro.engine s1 = Pro.engine s.
Proof.
  cbv zeta. unfold Pro.step.
  destruct (pro_commit_frame s (Pro.handle (Pro.SelectQuality idx) s)) as (E1 & E2 & E3 & E4).
  rewrite E1, E2, E3, E4. repeat split.
Qed.

Lemma onLoad_sends_nothing (d' : Q) (s : Pro.State) :
  Pro.engine (Pro.step (Pro.OnLoad d') s) = Pro.engine s.
Proof.
  unfold Pro.step.
  destruct (pro_commit_frame s (Pro.handle (Pro.OnLoad d') s)) as (E1 & _).
  rewrite E1. reflexivity.
Qed.

(** C8, as the code has it.  [changeQuality] captures the position [P]
    ([seekTime] while scrubbing, [currentTime] otherwise) before it
    selects the new source, sets [isLoading], leaves [isPlaying] alone and
    sends nothing yet.  The seek to [P] is sent 500 ms later, by a timer:
    whether the new source never reports a load, reports it before the
    500 ms are over, or reports it afterwards, the engine receives exactly
    that one seek, and the load itself sends nothing. *)
Theorem quality_switch_seek
  (s : Pro.State) (idx : nat) (k n : nat) (d' : Q) :
  Pro.reachable s -> Pro.error s = None -> no_seek_pending s ->
  (k < 500)%nat -> (500 <= k + n)%nat ->
  let P := if Pro.isSeeking s then Pro.seekTime s else Pro.currentTime s in
  let s1 := Pro.step (Pro.SelectQuality idx) s in
  (Pro.selectedQualityIndex s1 = idx /\ Pro.isLoading s1 = true
   /\ Pro.isPlaying s1 = Pro.isPlaying s /\ Pro.engine s1 = Pro.engine s)
  /\ Pro.engine (elapse k s1) = Pro.engine s
  /\ Pro.engine (elapse (k + n) s1) = Pro.engine s ++ [Seek P]
  /\ Pro.engine (Pro.step (Pro.OnLoad d') (elapse k s1)) = Pro.engine s
  /\ Pro.engine (elapse n (Pro.step (Pro.OnLoad d') (elapse k s1))) = Pro.engine s ++ [Seek P]
  /\ Pro.engine (Pro.step (Pro.OnLoad d') (elapse (k + n) s1)) = Pro.engine s ++ [Seek P].
Proof.
  intros R M N Hk Hn P s1.
  pose proof (pro_quiet_changeQuality _ _ s idx (pro_reachable_quiet s R M N)) as A.
  fold s1 in A. fold P in A.
  assert (Now : now (Pro.clock s1) = now (Pro.clock s)) by apply pro_step_now.
  assert (Ak : armed (Pro.engine s) (Pro.duration s) (next_id (Pro.clock s))
                     (now (Pro.clock s) + 500) (Pro.QualitySeek P) (Pro.seekTimeoutRef s)
                     (elapse k s1)).
  { apply pro_wait_early; [exact A|]. rewrite Now. lia. }
  pose proof (TimerFacts.now_elapse k s1) as Nk.
  cbn [clk Pro.component] in Nk. rewrite Now in Nk.
  split; [apply changeQuality_now|].
  split; [apply (a_engine _ _ _ _ _ _ _ Ak)|].
  split.
  { refine (q_engine _ _ _ (pro_wait_due _ _ _ _ _ _ _ (k + n) _ A _ _));
      [reflexivity | rewrite Now; lia | rewrite Now; lia]. }
  split; [rewrite onLoad_sends_nothing; apply (a_engine _ _ _ _ _ _ _ Ak)|].
  split.
  { refine (q_engine _ _ _
              (pro_wait_due _ _ _ _ _ _ _ n _ (pro_armed_onLoad _ _ d' _ _ _ _ _ Ak) _ _));
      [reflexivity | rewrite pro_step_now, Nk; lia | rewrite pro_step_now, Nk; lia]. }
  rewrite onLoad_sends_nothing.
  refine (q_engine _ _ _ (pro_wait_due _ _ _ _ _ _ _ (k + n) _ A _ _));
    [reflexivity | rewrite Now; lia | rewrite Now; lia].
Qed.

Lemma quality_switch_seek_witness :
  Pro.engine (elapse (100 + 400) (Pro.step (Pro.SelectQuality 1) pro_playing)) = [Seek 40]
  /\ Pro.engine
       (elapse 400 (Pro.step (Pro.OnLoad 60)
                      (elapse 100 (Pro.step (Pro.SelectQuality 1) pro_playing))))
     = [Seek 40].
Proof.
  assert (R : Pro.reachable pro_playing).
  { unfold pro_playing, Pro.play. cbn [fold_left Pro.input].
    assert (E : forall n s, Pro.reachable s -> Pro.reachable (elapse n s)).
    { intros n. induction n as [|n IH]; intros s H; [exact H|].
      cbn [elapse]. apply IH, Pro.reach_tick, H. }
    apply E. do 3 apply Pro.reach_step. apply Pro.reach_mount. reflexivity. }
  assert (N : no_seek_pending pro_playing).
  { apply pro_no_seek_pending_check. vm_compute. reflexivity. }
  assert (M : Pro.error pro_playing = None) by (vm_compute; reflexivity).
  destruct (quality_switch_seek pro_playing 1 100 400 60 R M N) as (_ & _ & E1 & _ & E2 & _);
    [lia | lia |].
  split.
  - rewrite E1. vm_compute. reflexivity.
  - rewrite E2. vm_compute. reflexivity.
Defined.

(** The claim C8 fails as written.  The player is at 40 s; the quality is
    switched.  After 500 ms, with no load reported, the seek has already
    been sent while [isLoading] is still set; when the load is reported
    later, no seek follows it. *)
Lemma quality_switch_seek_not_on_load :
  let s := Pro.play [Pro.Ev (Pro.SelectQuality 1); Pro.Wait 500] pro_playing in
  Pro.engine s = [Seek 40] /\ Pro.isLoading s = true
  /\ Pro.engine (Pro.play [Pro.Ev (Pro.OnLoad 60); Pro.Wait 5000] s) = [Seek 40].
Proof.
  vm_compute. repeat split.
Qed.

End QualitySwitch.

(** ** EnhancedVideoPlayer: the buffering timeout *)

Module EnhancedFacts.
Import Timers Exec.
#[local] Existing Instance Enhanced.component.

Lemma enh_commit_now o n : now (Enhanced.clock (Enhanced.commit o n)) = now (Enhanced.clock n).
Proof.
  unfold Enhanced.commit, when.
  destruct (Enhanced.autohide_deps_changed o n), (Enhanced.buffering_deps_changed o n),
    (Enhanced.progress_deps_changed o n); exec_enhanced; reflexivity.
Qed.

Lemma enh_handle_now e s : now (Enhanced.clock (Enhanced.handle e s)) = now (Enhanced.clock s).
Proof.
  destruct e; exec_enhanced; reflexivity.
Qed.

Lemma enh_step_now e s : now (Enhanced.clock (Enhanced.step e s)) = now (Enhanced.clock s).
Proof.
  unfold Enhanced.step. rewrite enh_commit_now. apply enh_handle_now.
Qed.

#[export] Instance lawful : TimerFacts.Lawful Enhanced.State Enhanced.Action.
Proof.
  split.
  - intros c [ ]; reflexivity.
  - intros [ ]; reflexivity.
  - intros c c' [ ]; reflexivity.
  - intros a s. cbn [fire Enhanced.component]. rewrite enh_commit_now.
    destruct a; exec_enhanced; reflexivity.
Qed.

Definition is_recovery (a : Enhanced.Action) : bool :=
  match a with
  | Enhanced.BufferingRecovery _ => true
  | Enhanced.AutoHide => false
  end.

Record wf (s : Enhanced.State) : Prop := {
  wf_pending : forall t, In t (pending (Enhanced.clock s)) ->
                         (t_id t < next_id (Enhanced.clock s))%nat;
  wf_buffering : TimerFacts.bounded (Enhanced.bufferingTimeout s) (Enhanced.clock s);
  wf_autohide : TimerFacts.bounded (Enhanced.autoHideTimeout s) (Enhanced.clock s)
}.

(** The watchdog is not armed. *)
Record quiet (L : list EngineCmd) (p : PlayerState) (b : bool) (s : Enhanced.State) : Prop := {
  q_wf : wf s;
  q_engine : Enhanced.engine s = L;
  q_error : Enhanced.error s = None;
  q_ps : Enhanced.ps s = p;
  q_buffering : Enhanced.isBuffering s = b;
  q_none : forall t, In t (pending (Enhanced.clock s)) -> is_recovery (t_act t) = false
}.

(** The watchdog is armed: timer [i], due at [D], will seek to [P]. *)
Record armed (L : list EngineCmd) (p : PlayerState) (i : nat) (D : N) (P : Q)
             (s : Enhanced.State) : Prop := {
  a_wf : wf s;
  a_engine : Enhanced.engine s = L;
  a_error : Enhanced.error s = None;
  a_ps : Enhanced.ps s = p;
  a_buffering : Enhanced.isBuffering s = true;
  a_in : In (mkTimer i D (Enhanced.BufferingRecovery P)) (pending (Enhanced.clock s));
  a_uniq : forall t, In t (pending (Enhanced.clock s)) -> t_id t = i ->
                     t = mkTimer i D (Enhanced.BufferingRecovery P);
  a_only : forall t, In t (pending (Enhanced.clock s)) -> is_recovery (t_act t) = true ->
                     t_id t = i;
  a_ref : Enhanced.bufferingTimeout s = Some i;
  a_autohide : Enhanced.autoHideTimeout s <> Some i
}.

Lemma enh_handle_eqb_spec a b : Enhanced.handle_eqb a b = true <-> a = b.
Proof.
  destruct a as [x|], b as [y|]; cbn; split; intro H; try congruence.
  - apply Nat.eqb_eq in H. congruence.
  - injection H as ->. apply Nat.eqb_refl.
Qed.

(** Effects keep both situations: the clean-up of the buffering effect
    clears the handle of the previous render, never the armed one. *)
Lemma enh_wf_commit o n : wf n -> wf (Enhanced.commit o n).
Proof.
  intros [Wp Wb Wa].
  destruct n; cbn in *. unfold TimerFacts.bounded in *; cbn in *.
  unfold Enhanced.commit, when.
  destruct (Enhanced.autohide_deps_changed _ _), (Enhanced.buffering_deps_changed _ _),
    (Enhanced.progress_deps_changed _ _); exec_enhanced.
  all: split; try clause.
Qed.

Lemma enh_quiet_commit L p b o n : quiet L p b n -> quiet L p b (Enhanced.commit o n).
Proof.
  intros [[Wp Wb Wa] E M Ps B N].
  destruct n; cbn in *. unfold TimerFacts.bounded in *; cbn in *.
  unfold Enhanced.commit, when.
  destruct (Enhanced.autohide_deps_changed _ _), (Enhanced.buffering_deps_changed _ _),
    (Enhanced.progress_deps_changed _ _); exec_enhanced.
  all: split; [split| | | | |].
  all: try clause.
Qed.

Lemma enh_armed_commit L p i D P o n :
  armed L p i D P n -> armed L p i D P (Enhanced.commit o n).
Proof.
  intros [[Wp Wb Wa] E M Ps B I U O R Na].
  pose proof (Wp _ I) as Bi. cbn in Bi.
  assert (Ho : Enhanced.buffering_deps_changed o n = true ->
               Enhanced.bufferingTimeout o <> Some i).
  { unfold Enhanced.buffering_deps_changed. rewrite R. intros H Hc. rewrite Hc in H.
    cbn in H. rewrite Nat.eqb_refl in H. discriminate. }
  destruct n; cbn in *. unfold TimerFacts.bounded in *; cbn in *.
  unfold Enhanced.commit, when.
  destruct (Enhanced.autohide_deps_changed _ _), (Enhanced.buffering_deps_changed _ _),
    (Enhanced.progress_deps_changed _ _); try specialize (Ho eq_refl); exec_enhanced.
  all: split; [split| | | | | | | | |].
  all: try clause.
Qed.

Lemma enh_quiet_other L p b s t :
  quiet L p b s -> In t (pending (Enhanced.clock s)) ->
  quiet L p b (fire (t_act t) (with_clk (take t (clk s)) s)).
Proof.
  intros [[Wp Wb Wa] E M Ps B N] Ht.
  pose proof (N t Ht) as Nt. destruct t as [j due a]. cbn in Nt.
  cbn [fire Enhanced.component]. apply enh_quiet_commit.
  destruct s; cbn in *. unfold TimerFacts.bounded in *; cbn in *.
  destruct a; try discriminate; exec_enhanced.
  all: split; [split| | | | |].
  all: try clause.
Qed.

Lemma enh_armed_other L p i D P s t :
  armed L p i D P s -> In t (pending (Enhanced.clock s)) -> t_id t <> i ->
  armed L p i D P (fire (t_act t) (with_clk (take t (clk s)) s)).
Proof.
  intros [[Wp Wb Wa] E M Ps B I U O R Na] Ht Hne.
  assert (Nt : is_recovery (t_act t) = false).
  { destruct (is_recovery (t_act t)) eqn:S; [|reflexivity]. elim Hne. apply O; assumption. }
  pose proof (Wp _ I) as Bi. cbn in Bi.
  destruct t as [j due a]. cbn in Nt, Hne.
  cbn [fire Enhanced.component]. apply enh_armed_commit.
  destruct s; cbn in *. unfold TimerFacts.bounded in *; cbn in *.
  destruct a; try discriminate; exec_enhanced.
  all: split; [split| | | | | | | | |].
  all: try clause.
Qed.

(** When the watchdog fires: buffering is cleared and, the captured
    position being positive, one seek to it is sent. *)
Lemma enh_armed_fire L p i D P s t :
  0 < P ->
  armed L p i D P s -> In t (pending (Enhanced.clock s)) -> t_id t = i ->
  quiet (L ++ [Seek P]) p false (fire (t_act t) (with_clk (take t (clk s)) s)).
Proof.
  intros HP [[Wp Wb Wa] E M Ps B I U O R Na] Ht Hi.
  rewrite (U t Ht Hi). clear t Ht Hi.
  apply JSFacts.lt_spec in HP.
  cbn [fire Enhanced.component t_act]. apply enh_quiet_commit.
  destruct s; cbn in *. unfold TimerFacts.bounded in *; cbn in *. subst.
  unfold Enhanced.run, when, Enhanced.videoRef. cbn. unfold JS.gt. rewrite HP. cbn.
  split; [split| | | | |].
  all: try clause.
  intros u Hu; in_cases Hu; neq_ids; try reflexivity.
  destruct (is_recovery (t_act u)) eqn:S; [|reflexivity].
  exfalso. match goal with H : t_id u <> _ |- _ => apply H end. apply O; assumption.
Qed.

Lemma enh_armed_lookup L p i D P s :
  armed L p i D P s -> exists t, lookup i (clk s) = Some t.
Proof.
  intros H. destruct (lookup i (clk s)) as [t|] eqn:E; [eauto|].
  exfalso. unfold lookup in E.
  pose proof (find_none _ _ E _ (a_in _ _ _ _ _ _ H)) as F.
  cbn in F. rewrite Nat.eqb_refl in F. discriminate.
Qed.

Lemma enh_armed_due L p i D P s t :
  armed L p i D P s -> In t (pending (clk s)) -> t_id t = i -> t_due t = D.
Proof.
  intros H Ht E. rewrite (a_uniq _ _ _ _ _ _ H t Ht E). reflexivity.
Qed.

Lemma enh_armed_advance L p i D P s :
  armed L p i D P s -> armed L p i D P (with_clk (advance (clk s)) s).
Proof.
  intros [[Wp Wb Wa] E M Ps B I U O R Na].
  destruct s; cbn in *. split; [split| | | | | | | | |]; assumption.
Qed.

Lemma enh_quiet_advance L p b s :
  quiet L p b s -> quiet L p b (with_clk (advance (clk s)) s).
Proof.
  intros [[Wp Wb Wa] E M Ps B N].
  destruct s; cbn in *. split; [split| | | | |]; assumption.
Qed.

(** *** Well-formedness is an invariant *)

Lemma enh_wf_mount p t0 : wf (Enhanced.mount p t0).
Proof.
  destruct p as [[|]]; split; cbn; unfold TimerFacts.bounded; cbn; intros;
    try discriminate; contradiction.
Qed.

Lemma enh_wf_handle e s : wf s -> wf (Enhanced.handle e s).
Proof.
  intros [Wp Wb Wa].
  destruct s; cbn in *. unfold TimerFacts.bounded in *; cbn in *.
  destruct e; exec_enhanced.
  all: split; try clause.
Qed.

Lemma enh_wf_fire s t :
  wf s -> In t (pending (Enhanced.clock s)) ->
  wf (fire (t_act t) (with_clk (take t (clk s)) s)).
Proof.
  intros [Wp Wb Wa] Ht. destruct t as [j due a].
  cbn [fire Enhanced.component]. apply enh_wf_commit.
  destruct s; cbn in *. unfold TimerFacts.bounded in *; cbn in *.
  destruct a; exec_enhanced.
  all: split; try clause.
Qed.

Lemma enh_reachable_wf s : Enhanced.reachable s -> wf s.
Proof.
  induction 1 as [p t0 _|e s _ IH|s _ IH].
  - apply enh_wf_mount.
  - apply enh_wf_commit, enh_wf_handle, IH.
  - apply (TimerFacts.tick_inv wf); [| |exact IH].
    + intros s' [Wp Wb Wa]. destruct s'; cbn in *. split; assumption.
    + intros s' t Hs Ht. apply enh_wf_fire; assumption.
Qed.

(** *** A status update that reports buffering arms the watchdog *)

Definition reported (st_isPlaying st_isMuted : bool) (positionMillis : Q)
           (durationMillis : option Q) (st_volume : Q) (s : Enhanced.State) : PlayerState :=
  mkPlayerState st_isPlaying (JS.num_or positionMillis 0)
                (match durationMillis with Some d => JS.num_or d 0 | None => 0 end)
                (JS.num_or st_volume 1) st_isMuted (isFullscreen (Enhanced.ps s)).

Lemma enh_quiet_buffering L p b s pl mu pos dur vol :
  quiet L p b s ->
  armed L (reported pl mu pos dur vol s)
        (next_id (Enhanced.clock s)) (now (Enhanced.clock s) + 10000)
        (currentTime p)
        (Enhanced.step (Enhanced.StatusUpdate (Enhanced.Loaded pl true mu pos dur vol)) s).
Proof.
  intros [[Wp Wb Wa] E M Ps B N].
  unfold Enhanced.step. apply enh_armed_commit.
  destruct s; cbn in *. unfold TimerFacts.bounded in *; cbn in *. subst.
  exec_enhanced.
  all: split; [split| | | | | | | | |].
  all: try clause.
Qed.

(** A later one, while the watchdog is armed, restarts the countdown. *)
Lemma enh_armed_buffering L p i D P s pl mu pos dur vol :
  armed L p i D P s ->
  armed L (reported pl mu pos dur vol s)
        (next_id (Enhanced.clock s)) (now (Enhanced.clock s) + 10000)
        (currentTime p)
        (Enhanced.step (Enhanced.StatusUpdate (Enhanced.Loaded pl true mu pos dur vol)) s).
Proof.
  intros [[Wp Wb Wa] E M Ps B I U O R Na].
  pose proof (Wp _ I) as Bi. cbn in Bi.
  unfold Enhanced.step. apply enh_armed_commit.
  destruct s; cbn in *. unfold TimerFacts.bounded in *; cbn in *. subst.
  exec_enhanced.
  all: split; [split| | | | | | | | |].
  all: try clause.
Qed.

(** *** Waiting *)

Lemma enh_wait_early L p i D P n s :
  armed L p i D P s -> (now (Enhanced.clock s) + N.of_nat n < D)%N ->
  armed L p i D P (elapse n s).
Proof.
  intros Hs Hn.
  apply (TimerFacts.elapse_armed_early (armed L p i D P) i D); try assumption.
  - intros s' t H. eapply enh_armed_due; eassumption.
  - intros s' H. apply enh_armed_advance; assumption.
  - intros s' t H Ht Hne. apply enh_armed_other; assumption.
Qed.

Lemma enh_wait_due L p i D P n s :
  0 < P ->
  armed L p i D P s ->
  (now (Enhanced.clock s) < D)%N -> (D <= now (Enhanced.clock s) + N.of_nat n)%N ->
  quiet (L ++ [Seek P]) p false (elapse n s).
Proof.
  intros HP Hs Hlt Hge.
  apply (TimerFacts.elapse_armed_due (armed L p i D P) (quiet (L ++ [Seek P]) p false) i D);
    try assumption.
  - intros s' H. eapply enh_armed_lookup; eassumption.
  - intros s' t H. eapply enh_armed_due; eassumption.
  - intros s' H. apply enh_armed_advance; assumption.
  - intros s' H. apply enh_quiet_advance; assumption.
  - intros s' t H Ht Hne. apply enh_armed_other; assumption.
  - intros s' t H Ht Hi. eapply enh_armed_fire; eassumption.
  - intros s' t H Ht _. apply enh_quiet_other; assumption.
Qed.

Definition no_recovery_pending (s : Enhanced.State) : Prop :=
  forall t, In t (pending (Enhanced.clock s)) -> is_recovery (t_act t) = false.

Lemma enh_no_recovery_pending_check s :
  forallb (fun t => negb (is_recovery (t_act t))) (pending (Enhanced.clock s)) = true ->
  no_recovery_pending s.
Proof.
  intros H t Ht. rewrite forallb_forall in H. specialize (H t Ht).
  apply negb_true_iff in H. exact H.
Qed.

Lemma enh_reachable_quiet s :
  Enhanced.reachable s -> Enhanced.error s = None -> no_recovery_pending s ->
  quiet (Enhanced.engine s) (Enhanced.ps s) (Enhanced.isBuffering s) s.
Proof.
  intros R M N. split; auto using enh_reachable_wf.
Qed.

End EnhancedFacts.

(** ** Buffering watchdog *)

Module Watchdog.
Import Timers Exec Scenarios EnhancedFacts.
#[local] Existing Instance Enhanced.component.

Lemma num_or_positive (x : Q) : 0 < x -> JS.num_or x 0 = x.
Proof.
  intros H. unfold JS.num_or. destruct (Qeq_bool x 0) eqn:E; [|reflexivity].
  apply Qeq_bool_iff in E. rewrite E in H. discriminate.
Qed.

(** C3, as the code has it.  EnhancedVideoPlayer arms a 10 s timer at
    every status update that reports buffering; the timer captures the
    position [P] the player state held when the update arrived.  If
    10 s pass with no further event and [P > 0], exactly one recovery is
    made: the buffering flag is cleared and one seek to [P] is sent.  A
    later report of buffering inside the 10 s restarts the countdown
    instead.  There is no retry counter and no stall error: when buffering
    is reported again and another 10 s pass, the same recovery is made
    again and [error] stays [null]. *)
Theorem buffering_timeout_recovery
  (s : Enhanced.State) (pl mu : bool) (pos : Q) (dur : option Q) (vol : Q) (k n m : nat) :
  Enhanced.reachable s -> Enhanced.error s = None -> no_recovery_pending s ->
  0 < currentTime (Enhanced.ps s) -> 0 < pos ->
  (N.of_nat k < 10000)%N -> (10000 <= N.of_nat n)%N -> (10000 <= N.of_nat m)%N ->
  let P := currentTime (Enhanced.ps s) in
  let upd := Enhanced.StatusUpdate (Enhanced.Loaded pl true mu pos dur vol) in
  let s1 := Enhanced.step upd s in
  let s2 := elapse n s1 in
  let s3 := elapse m (Enhanced.step upd s2) in
  (Enhanced.isBuffering s1 = true /\ Enhanced.engine s1 = Enhanced.engine s)
  /\ Enhanced.engine (elapse k s1) = Enhanced.engine s
  /\ (Enhanced.engine s2 = Enhanced.engine s ++ [Seek P]
      /\ Enhanced.isBuffering s2 = false /\ Enhanced.error s2 = None)
  /\ Enhanced.engine (elapse k (Enhanced.step upd (elapse k s1))) = Enhanced.engine s
  /\ (Enhanced.engine s3 = Enhanced.engine s ++ [Seek P; Seek pos]
      /\ Enhanced.isBuffering s3 = false /\ Enhanced.error s3 = None).
Proof.
  intros R M N HP Hpos Hk Hn Hm P upd s1 s2 s3.
  pose proof (enh_quiet_buffering _ _ _ s pl mu pos dur vol (enh_reachable_quiet s R M N)) as A1.
  fold upd in A1. fold s1 in A1. fold P in A1.
  assert (Now1 : now (Enhanced.clock s1) = now (Enhanced.clock s)) by apply enh_step_now.
  (* before the timeout *)
  assert (Ak : armed (Enhanced.engine s) (reported pl mu pos dur vol s)
                     (next_id (Enhanced.clock s)) (now (Enhanced.clock s) + 10000) P
                     (elapse k s1)).
  { apply enh_wait_early; [exact A1|]. rewrite Now1. lia. }
  (* the timeout *)
  assert (Q2 : quiet (Enhanced.engine s ++ [Seek P]) (reported pl mu pos dur vol s) false s2).
  { unfold s2. eapply enh_wait_due; [exact HP | exact A1 | rewrite Now1; lia | rewrite Now1; lia]. }
  (* buffering reported again inside the first countdown *)
  pose proof (enh_armed_buffering _ _ _ _ _ _ pl mu pos dur vol Ak) as Ar.
  fold upd in Ar.
  assert (Ark : Enhanced.engine (elapse k (Enhanced.step upd (elapse k s1))) = Enhanced.engine s).
  { eapply a_engine. eapply enh_wait_early; [exact Ar|]. rewrite enh_step_now. lia. }
  (* buffering reported again after the recovery *)
  pose proof (enh_quiet_buffering _ _ _ s2 pl mu pos dur vol Q2) as A3.
  fold upd in A3. cbn [currentTime reported] in A3. rewrite (num_or_positive pos Hpos) in A3.
  assert (Q3 : quiet ((Enhanced.engine s ++ [Seek P]) ++ [Seek pos])
                     (reported pl mu pos dur vol s2) false s3).
  { unfold s3. eapply enh_wait_due;
      [exact Hpos | exact A3 | rewrite enh_step_now; lia | rewrite enh_step_now; lia]. }
  split; [split; [apply (a_buffering _ _ _ _ _ _ A1) | apply (a_engine _ _ _ _ _ _ A1)]|].
  split; [apply (a_engine _ _ _ _ _ _ Ak)|].
  split; [split; [apply (q_engine _ _ _ _ Q2) |
                  split; [apply (q_buffering _ _ _ _ Q2) | apply (q_error _ _ _ _ Q2)]]|].
  split; [exact Ark|].
  split; [rewrite (q_engine _ _ _ _ Q3), <- app_assoc; reflexivity|].
  split; [apply (q_buffering _ _ _ _ Q3) | apply (q_error _ _ _ _ Q3)].
Qed.

Lemma buffering_timeout_recovery_witness :
  let upd := Enhanced.StatusUpdate (Enhanced.Loaded true true false 120000 (Some 300000) 1) in
  Enhanced.engine (elapse (N.to_nat 10000) (Enhanced.step upd enhanced_playing))
    = [Seek 120000]
  /\ Enhanced.engine
       (elapse (N.to_nat 10000)
          (Enhanced.step upd (elapse (N.to_nat 10000) (Enhanced.step upd enhanced_playing))))
     = [Seek 120000; Seek 120000].
Proof.
  cbv zeta.
  assert (R : Enhanced.reachable enhanced_playing).
  { do 2 apply Enhanced.reach_step. apply Enhanced.reach_mount. reflexivity. }
  assert (N : no_recovery_pending enhanced_playing).
  { apply enh_no_recovery_pending_check. vm_compute. reflexivity. }
  assert (HP : 0 < currentTime (Enhanced.ps enhanced_playing)) by (vm_compute; reflexivity).
  assert (Hpos : 0 < 120000) by reflexivity.
  destruct (buffering_timeout_recovery enhanced_playing true false 120000 (Some 300000) 1
              0 (N.to_nat 10000) (N.to_nat 10000) R eq_refl N HP Hpos)
    as (_ & _ & (E2 & _) & _ & (E3 & _)); try lia.
  split; [exact E2 | exact E3].
Defined.

(** The claim C3 fails as written: buffering is reported at 120 s and
    lasts 10 s, then is reported again and lasts another 10 s.  The
    second timeout repeats the recovery; the state does not become an
    error. *)
Lemma buffering_never_errors :
  let upd := Enhanced.StatusUpdate (Enhanced.Loaded true true false 120000 (Some 300000) 1) in
  let s := Enhanced.play [Enhanced.Ev upd; Enhanced.Wait (N.to_nat 10000);
                          Enhanced.Ev upd; Enhanced.Wait (N.to_nat 10000)] enhanced_playing in
  Enhanced.error s = None
  /\ Enhanced.engine s = [Seek 120000; Seek 120000].
Proof.
  vm_compute. split; reflexivity.
Qed.

End Watchdog.

(** ** Timers of AdvancedVideoPlayer *)

Module AdvancedTimers.
Import Timers Exec AdvancedFacts.
#[local] Existing Instance Advanced.component.

(** How the three timer refs and the timer table fit together: handles
    are handed out in increasing order and never shared, every pending
    callback is the one its ref points to, and the emergency timer is due
    within a second. *)
Record sound (s : Advanced.State) : Prop := {
  so_ids : forall t, In t (pending (Advanced.clock s)) ->
                     (t_id t < next_id (Advanced.clock s))%nat;
  so_uniq : forall t u, In t (pending (Advanced.clock s)) ->
                        In u (pending (Advanced.clock s)) -> t_id t = t_id u -> t = u;
  so_ctl : TimerFacts.bounded (Advanced.controlsTimeoutRef s) (Advanced.clock s);
  so_tap : TimerFacts.bounded (Advanced.doubleTapTimeoutRef s) (Advanced.clock s);
  so_vis : TimerFacts.bounded (Advanced.controlsVisibilityTimeoutRef s) (Advanced.clock s);
  so_ctl_tap : forall j, Advanced.controlsTimeoutRef s = Some j ->
                         Advanced.doubleTapTimeoutRef s <> Some j;
  so_ctl_vis : forall j, Advanced.controlsTimeoutRef s = Some j ->
                         Advanced.controlsVisibilityTimeoutRef s <> Some j;
  so_tap_vis : forall j, Advanced.doubleTapTimeoutRef s = Some j ->
                         Advanced.controlsVisibilityTimeoutRef s <> Some j;
  so_autohide : forall t, In t (pending (Advanced.clock s)) ->
                forall p a b, t_act t = Advanced.AutoHide p a b ->
                Advanced.controlsTimeoutRef s = Some (t_id t);
  so_force : forall t, In t (pending (Advanced.clock s)) ->
             t_act t = Advanced.ForceShow ->
             Advanced.controlsVisibilityTimeoutRef s = Some (t_id t)
             /\ (t_due t <= now (Advanced.clock s) + 1000)%N;
  so_toggle : forall t, In t (pending (Advanced.clock s)) ->
              t_act t = Advanced.TapToggle ->
              Advanced.doubleTapTimeoutRef s = Some (t_id t);
  so_now : (0 < now (Advanced.clock s))%N
}.

(** Two timers of a table after clears and additions have different
    handles unless they are the same timer. *)
Ltac uniq_clause :=
  let t := fresh "t" in let u := fresh "u" in
  let Ht := fresh "Ht" in let Hu := fresh "Hu" in let E := fresh "E" in
  cbn;
  lazymatch goal with
  | |- forall (_ : Timers.timer _) (_ : Timers.timer _), _ => idtac
  end;
  intros t u Ht Hu E; in_cases Ht; in_cases Hu; neq_ids; cbn in *;
  first [ reflexivity
        | solve [eauto]
        | exfalso; repeat use_bound; cbn in *; lia ].

(** Two refs never hold the same handle. *)
Ltac distinct_clause :=
  cbn; intros; try intro; neq_ids; repeat use_bound; cbn in *;
  first [ lia | congruence | solve [eauto] ].

(** What the table says about a pending callback of a given kind. *)
Ltac use_kind :=
  repeat match goal with
  | W : forall p a b, ?x = Advanced.AutoHide p a b -> _,
    H : ?x = Advanced.AutoHide _ _ _ |- _ => pose proof (W _ _ _ H); clear W
  | W : ?x = ?y -> _, H : ?x = ?y |- _ => pose proof (W H); clear W
  end.

Ltac kind_clause :=
  let u := fresh "u" in let Hu := fresh "Hu" in
  cbn; intros u Hu; intros; in_cases Hu; neq_ids; cbn in *;
  try discriminate; try use_member; use_kind; repeat use_bound; cbn in *;
  first [ reflexivity | discriminate | assumption | congruence | lia
        | solve [intuition (subst; cbn in *; first [congruence | lia])] ].

Ltac sound_clauses :=
  split; first [ clause | uniq_clause | distinct_clause | kind_clause | idtac ].

(** The progress effect only calls the host. *)
Lemma adv_progress_frame b s :
  Advanced.clock (when b Advanced.progress_effect s) = Advanced.clock s
  /\ Advanced.controlsTimeoutRef (when b Advanced.progress_effect s)
     = Advanced.controlsTimeoutRef s
  /\ Advanced.doubleTapTimeoutRef (when b Advanced.progress_effect s)
     = Advanced.doubleTapTimeoutRef s
  /\ Advanced.controlsVisibilityTimeoutRef (when b Advanced.progress_effect s)
     = Advanced.controlsVisibilityTimeoutRef s
  /\ Advanced.showControls (when b Advanced.progress_effect s) = Advanced.showControls s
  /\ Advanced.ps (when b Advanced.progress_effect s) = Advanced.ps s.
Proof.
  destruct b; unfold when, Advanced.progress_effect; [destruct (_ && _)|];
    repeat split; reflexivity.
Qed.

Lemma adv_sound_progress b s : sound s -> sound (when b Advanced.progress_effect s).
Proof.
  destruct (adv_progress_frame b s) as (Ec & E1 & E2 & E3 & _).
  intros [ ]. split; rewrite ?Ec, ?E1, ?E2, ?E3; assumption.
Qed.

Lemma adv_sound_commit o n : sound n -> sound (Advanced.commit o n).
Proof.
  intros [Wi Wu Wc Wt Wv Dct Dcv Dtv Ka Kf Kt Nw].
  unfold Advanced.commit. apply adv_sound_progress.
  destruct n; cbn in *. unfold TimerFacts.bounded in *; cbn in *.
  unfold when.
  destruct (Advanced.fallback_deps_changed _ _), (Advanced.autohide_deps_changed _ _);
    exec_advanced.
  all: sound_clauses.
Qed.

Lemma adv_sound_handle e s : sound s -> sound (Advanced.handle e s).
Proof.
  intros [Wi Wu Wc Wt Wv Dct Dcv Dtv Ka Kf Kt Nw].
  destruct s; cbn in *. unfold TimerFacts.bounded in *; cbn in *.
  destruct e; exec_advanced.
  all: sound_clauses.
Qed.

Lemma adv_sound_run s t :
  sound s -> In t (pending (Advanced.clock s)) ->
  sound (Advanced.run (t_act t) (with_clk (take t (clk s)) s)).
Proof.
  intros [Wi Wu Wc Wt Wv Dct Dcv Dtv Ka Kf Kt Nw] Ht.
  pose proof (Wi _ Ht) as Bt. pose proof (Kt _ Ht) as Tt.
  destruct t as [j due a]. cbn in Bt, Tt.
  destruct s; cbn in *. unfold TimerFacts.bounded in *; cbn in *.
  destruct a; exec_advanced.
  all: sound_clauses.
Qed.

Lemma adv_sound_advance s : sound s -> sound (with_clk (advance (clk s)) s).
Proof.
  intros [Wi Wu Wc Wt Wv Dct Dcv Dtv Ka Kf Kt Nw].
  destruct s; cbn in *. unfold TimerFacts.bounded in *; cbn in *.
  split; cbn; try assumption; try lia.
  intros t Ht E. destruct (Kf t Ht E). split; [assumption|lia].
Qed.

Lemma adv_sound_mount p w t0 : (0 < t0)%N -> sound (Advanced.mount p w t0).
Proof.
  intros H0. destruct p as [[|]]; exec_advanced.
  all: sound_clauses.
Qed.

End AdvancedTimers.

Module AdvancedControls.
Import Timers Exec AdvancedFacts AdvancedTimers.
#[local] Existing Instance Advanced.component.

(** What the pending callbacks say about the controls: the auto-hide
    timer runs only while the controls are visible and captured the
    current playing flag; the emergency timer runs exactly while the
    controls are hidden and playback is paused. *)
Record calm (s : Advanced.State) : Prop := {
  ca_autohide : forall t, In t (pending (Advanced.clock s)) ->
                forall p a b, t_act t = Advanced.AutoHide p a b ->
                Advanced.showControls s = true /\ p = isPlaying (Advanced.ps s);
  ca_force : forall t, In t (pending (Advanced.clock s)) ->
             t_act t = Advanced.ForceShow ->
             Advanced.showControls s = false /\ isPlaying (Advanced.ps s) = false;
  ca_armed : Advanced.showControls s = false -> isPlaying (Advanced.ps s) = false ->
             exists t, In t (pending (Advanced.clock s)) /\ t_act t = Advanced.ForceShow
}.

Lemma adv_fallback_same o n :
  Advanced.fallback_deps_changed o n = false ->
  Advanced.showControls n = Advanced.showControls o
  /\ isPlaying (Advanced.ps n) = isPlaying (Advanced.ps o).
Proof.
  unfold Advanced.fallback_deps_changed. intros H.
  apply negb_false_iff, andb_true_iff in H. destruct H as [A B].
  apply Bool.eqb_prop in A, B. split; congruence.
Qed.

Lemma adv_autohide_same o n :
  Advanced.autohide_deps_changed o n = false ->
  Advanced.showControls n = Advanced.showControls o
  /\ isPlaying (Advanced.ps n) = isPlaying (Advanced.ps o).
Proof.
  unfold Advanced.autohide_deps_changed. intros H.
  apply negb_false_iff in H. repeat (apply andb_true_iff in H; destruct H as [H ?]).
  repeat match goal with E : Bool.eqb _ _ = true |- _ => apply Bool.eqb_prop in E end.
  split; congruence.
Qed.

Ltac bools :=
  repeat match goal with
  | H : _ && _ = true |- _ => apply andb_true_iff in H; destruct H
  | H : negb _ = true |- _ => apply negb_true_iff in H
  | H : negb _ = false |- _ => apply negb_false_iff in H
  end.

Ltac calm_clause :=
  let u := fresh "u" in let Hu := fresh "Hu" in
  cbn; intros u Hu; intros; in_cases Hu; neq_ids; bools; cbn in *;
  try discriminate; try use_member; use_kind; repeat use_bound; cbn in *;
  first [ reflexivity | discriminate | assumption | congruence | lia
        | solve [intuition (subst; cbn in *; first [congruence | lia])] ].

(** The emergency timer is in the table: it was just armed, or it was
    there and the clears of the other refs left it. *)
Ltac kept :=
  lazymatch goal with
  | |- In _ (_ ++ _) => apply in_or_app; left; kept
  | |- In _ (filter _ _) =>
      apply filter_In; split;
      [ kept
      | apply negb_true_iff, Nat.eqb_neq; cbn; intro; subst;
        repeat match goal with
               | D : forall j, Some ?k = Some j -> _ |- _ => specialize (D _ eq_refl)
               end; congruence ]
  | |- In _ _ => assumption
  end.

Ltac armed_clause :=
  let Hs := fresh "Hs" in let Hp := fresh "Hp" in
  cbn; intros Hs Hp;
  first
    [ discriminate
    | solve [exfalso; cbn in *; subst; try rewrite Hp in *; cbn in *; congruence]
    | eexists; split; [find_in|reflexivity]
    | match goal with
      | F : _ -> _ -> exists t, _ |- _ =>
          let t := fresh "t" in let Ht := fresh "Ht" in let Et := fresh "Et" in
          destruct (F Hs Hp) as (t & Ht & Et); exists t; split; [|exact Et];
          match goal with
          | K : forall u, In u _ -> t_act u = Advanced.ForceShow -> _ /\ _ |- _ =>
              let Ev := fresh "Ev" in
              destruct (K _ Ht Et) as [Ev _]; try (injection Ev as Ev); kept
          end
      end ].

Lemma adv_calm_progress b s : calm s -> calm (when b Advanced.progress_effect s).
Proof.
  destruct (adv_progress_frame b s) as (Ec & _ & _ & _ & Es & Ep).
  intros [ ]. split; rewrite ?Ec, ?Es, ?Ep; assumption.
Qed.

(** Rendering after a change that leaves the dependencies of an effect
    alone keeps what that effect had set up; after any other change the
    effect sets it up again. *)
Lemma adv_calm_commit o n :
  sound n ->
  (Advanced.fallback_deps_changed o n = false ->
   (forall t, In t (pending (Advanced.clock n)) -> t_act t = Advanced.ForceShow ->
              Advanced.showControls n = false /\ isPlaying (Advanced.ps n) = false)
   /\ (Advanced.showControls n = false -> isPlaying (Advanced.ps n) = false ->
       exists t, In t (pending (Advanced.clock n)) /\ t_act t = Advanced.ForceShow)) ->
  (Advanced.autohide_deps_changed o n = false ->
   forall t, In t (pending (Advanced.clock n)) ->
   forall p a b, t_act t = Advanced.AutoHide p a b ->
   Advanced.showControls n = true /\ p = isPlaying (Advanced.ps n)) ->
  calm (Advanced.commit o n).
Proof.
  intros [Wi Wu Wc Wt Wv Dct Dcv Dtv Ka Kf Kt Nw] Hf Ha.
  unfold Advanced.commit. apply adv_calm_progress.
  destruct n; cbn in *. unfold TimerFacts.bounded in *; cbn in *.
  unfold when.
  destruct (Advanced.fallback_deps_changed _ _), (Advanced.autohide_deps_changed _ _);
    try (destruct (Hf eq_refl) as [Hf1 Hf2]; clear Hf);
    try (specialize (Ha eq_refl)); exec_advanced.
  all: split; first [ calm_clause | armed_clause | idtac ].
Qed.

(** A handler adds no timer but the tap timer, and leaves the emergency
    timer alone. *)
Lemma adv_handle_pending e s t :
  In t (pending (Advanced.clock (Advanced.handle e s))) ->
  t_act t = Advanced.TapToggle \/ In t (pending (Advanced.clock s)).
Proof.
  destruct s; destruct e; exec_advanced; intros H; in_cases H; auto.
Qed.

Lemma adv_handle_keeps e s t :
  sound s -> In t (pending (Advanced.clock s)) -> t_act t = Advanced.ForceShow ->
  In t (pending (Advanced.clock (Advanced.handle e s))).
Proof.
  intros [Wi Wu Wc Wt Wv Dct Dcv Dtv Ka Kf Kt Nw] Ht Et.
  destruct (Kf _ Ht Et) as [Ev _].
  destruct s; cbn in *. destruct e; exec_advanced; kept.
Qed.

Lemma adv_calm_frame s n :
  calm s ->
  (forall t, In t (pending (Advanced.clock n)) ->
             t_act t = Advanced.TapToggle \/ In t (pending (Advanced.clock s))) ->
  (forall t, In t (pending (Advanced.clock s)) -> t_act t = Advanced.ForceShow ->
             In t (pending (Advanced.clock n))) ->
  Advanced.showControls n = Advanced.showControls s ->
  isPlaying (Advanced.ps n) = isPlaying (Advanced.ps s) ->
  calm n.
Proof.
  intros [A F R] H1 H2 Es Ep. split; rewrite Es, Ep.
  - intros t Ht p a b Et. destruct (H1 t Ht) as [X|X]; [congruence|].
    apply (A t X p a b Et).
  - intros t Ht Et. destruct (H1 t Ht) as [X|X]; [congruence|]. apply (F t X Et).
  - intros a b. destruct (R a b) as (t & Ht & Et). exists t; split; auto.
Qed.

Lemma adv_calm_step e s : sound s -> calm s -> calm (Advanced.step e s).
Proof.
  intros So Ca. unfold Advanced.step.
  pose proof (adv_calm_frame s (Advanced.handle e s) Ca (adv_handle_pending e s)
                (fun t Ht Et => adv_handle_keeps e s t So Ht Et)) as Fr.
  apply adv_calm_commit; [apply adv_sound_handle; assumption| |]; intros H.
  - destruct (adv_fallback_same _ _ H) as [Es Ep]. destruct (Fr Es Ep) as [_ F R].
    split; assumption.
  - destruct (adv_autohide_same _ _ H) as [Es Ep]. destruct (Fr Es Ep) as [A _ _].
    exact A.
Qed.

Lemma adv_run_pending a c s :
  Advanced.clock (Advanced.run a (Advanced.set_clock c s)) = c.
Proof. destruct a; exec_advanced; reflexivity. Qed.

Lemma adv_calm_fire s t :
  sound s -> calm s -> In t (pending (Advanced.clock s)) ->
  calm (fire (t_act t) (with_clk (take t (clk s)) s)).
Proof.
  intros So Ca Ht. cbn [fire with_clk clk Advanced.component].
  set (s' := Advanced.set_clock _ s).
  assert (Fr : t_act t <> Advanced.ForceShow ->
               Advanced.showControls (Advanced.run (t_act t) s') = Advanced.showControls s ->
               isPlaying (Advanced.ps (Advanced.run (t_act t) s')) = isPlaying (Advanced.ps s) ->
               calm (Advanced.run (t_act t) s')).
  { intros Ne. apply adv_calm_frame; [assumption| |].
    - intros u Hu. right. unfold s' in Hu. rewrite adv_run_pending in Hu.
      cbn in Hu. apply filter_In in Hu. apply Hu.
    - intros u Hu Eu. unfold s'. rewrite adv_run_pending. cbn.
      apply filter_In. split; [assumption|].
      apply negb_true_iff, Nat.eqb_neq. intro E.
      apply (so_uniq _ So) in E; try assumption. congruence. }
  assert (Fo : t_act t = Advanced.ForceShow ->
               Advanced.showControls (Advanced.run (t_act t) s') = Advanced.showControls s ->
               False).
  { intros E. destruct (ca_force _ Ca t Ht E) as [X _]. rewrite E. cbn. congruence. }
  apply adv_calm_commit; [apply adv_sound_run; assumption| |]; intros H.
  - destruct (adv_fallback_same _ _ H) as [Es Ep].
    assert (Ne : t_act t <> Advanced.ForceShow) by (intro E; exact (Fo E Es)).
    destruct (Fr Ne Es Ep) as [_ F R]. split; assumption.
  - destruct (adv_autohide_same _ _ H) as [Es Ep].
    assert (Ne : t_act t <> Advanced.ForceShow) by (intro E; exact (Fo E Es)).
    destruct (Fr Ne Es Ep) as [A _ _]. exact A.
Qed.

Lemma adv_calm_advance s : calm s -> calm (with_clk (advance (clk s)) s).
Proof.
  intros [A F R]. destruct s; cbn in *. split; assumption.
Qed.

Lemma adv_calm_mount p w t0 : calm (Advanced.mount p w t0).
Proof.
  destruct p as [[|]]; exec_advanced.
  all: split; first [ calm_clause | armed_clause ].
Qed.

(** *** The invariant of the reachable states *)

Record inv (s : Advanced.State) : Prop := {
  in_sound : sound s;
  in_calm : calm s
}.

Lemma adv_inv_step e s : inv s -> inv (Advanced.step e s).
Proof.
  intros [So Ca]. split; [|apply adv_calm_step; assumption].
  apply adv_sound_commit, adv_sound_handle, So.
Qed.

Lemma adv_inv_fire s t :
  inv s -> In t (pending (clk s)) ->
  inv (fire (t_act t) (with_clk (take t (clk s)) s)).
Proof.
  intros [So Ca] Ht. split; [|apply adv_calm_fire; assumption].
  apply adv_sound_commit, adv_sound_run; assumption.
Qed.

Lemma adv_inv_advance s : inv s -> inv (with_clk (advance (clk s)) s).
Proof.
  intros [So Ca]. split; [apply adv_sound_advance|apply adv_calm_advance]; assumption.
Qed.

Lemma adv_inv_tick s : inv s -> inv (tick s).
Proof.
  apply (TimerFacts.tick_inv inv); [exact adv_inv_advance|].
  intros x t Hx Ht. apply adv_inv_fire; assumption.
Qed.

Lemma adv_reachable_inv s : Advanced.reachable s -> inv s.
Proof.
  induction 1 as [p w t0 H0|e s _ IH|s _ IH].
  - split; [apply adv_sound_mount; assumption|apply adv_calm_mount].
  - apply adv_inv_step, IH.
  - apply adv_inv_tick, IH.
Qed.

(** *** Waiting for the emergency timer *)

Definition is_tap (a : Advanced.Action) : bool :=
  match a with Advanced.TapToggle => true | _ => false end.

(** No single tap is waiting for its 250 ms. *)
Definition no_tap_pending (s : Advanced.State) : Prop :=
  forall t, In t (pending (Advanced.clock s)) -> is_tap (t_act t) = false.

Lemma adv_no_tap_pending_check s :
  forallb (fun t => negb (is_tap (t_act t))) (pending (Advanced.clock s)) = true ->
  no_tap_pending s.
Proof.
  intros H t Ht. rewrite forallb_forall in H. apply negb_true_iff, H, Ht.
Qed.

(** Controls visible, playback paused, no tap in flight. *)
Record shown (s : Advanced.State) : Prop := {
  sh_inv : inv s;
  sh_visible : Advanced.showControls s = true;
  sh_paused : isPlaying (Advanced.ps s) = false;
  sh_no_tap : no_tap_pending s
}.


Lemma adv_run_ps a s : Advanced.ps (Advanced.run a s) = Advanced.ps s.
Proof. destruct a; exec_advanced; reflexivity. Qed.

Lemma adv_commit_no_tap o n : no_tap_pending n -> no_tap_pending (Advanced.commit o n).
Proof.
  unfold no_tap_pending, Advanced.commit. intros H.
  rewrite (proj1 (adv_progress_frame _ _)).
  destruct n; cbn in *. unfold when.
  destruct (Advanced.fallback_deps_changed _ _), (Advanced.autohide_deps_changed _ _);
    exec_advanced.
  all: clause.
Qed.

Lemma adv_fire_no_tap s t :
  (forall u, In u (pending (Advanced.clock s)) -> t_id u <> t_id t ->
             is_tap (t_act u) = false) ->
  no_tap_pending (fire (t_act t) (with_clk (take t (clk s)) s)).
Proof.
  intros H. cbn [fire with_clk clk Advanced.component].
  apply adv_commit_no_tap. intros u Hu. rewrite adv_run_pending in Hu.
  cbn in Hu. apply filter_In in Hu. destruct Hu as [Hu Ne].
  apply H; [assumption|]. apply negb_true_iff, Nat.eqb_neq in Ne. exact Ne.
Qed.

Lemma adv_fire_ps a s :
  Advanced.ps (fire a s) = Advanced.ps s.
Proof.
  cbn [fire Advanced.component].
  rewrite (sc_ps _ _ (adv_commit_core _ _)). apply adv_run_ps.
Qed.

Lemma adv_fire_showControls a s :
  Advanced.showControls (fire a s) = Advanced.showControls (Advanced.run a s).
Proof.
  cbn [fire Advanced.component]. apply (sc_showControls _ _ (adv_commit_core _ _)).
Qed.

(** While paused, the auto-hide callback leaves visible controls alone. *)
Lemma adv_visible_fire s t :
  inv s -> Advanced.showControls s = true -> isPlaying (Advanced.ps s) = false ->
  In t (pending (Advanced.clock s)) -> is_tap (t_act t) = false ->
  Advanced.showControls (fire (t_act t) (with_clk (take t (clk s)) s)) = true.
Proof.
  intros [So Ca] V P Ht Nt. rewrite adv_fire_showControls.
  destruct t as [j due a]. destruct a as [|p a b|]; cbn in *; try discriminate;
    [reflexivity|].
  destruct (ca_autohide _ Ca _ Ht p a b eq_refl) as [_ Ep].
  rewrite Ep, P. cbn. exact V.
Qed.

Lemma adv_shown_fire s t :
  shown s -> In t (pending (clk s)) ->
  shown (fire (t_act t) (with_clk (take t (clk s)) s)).
Proof.
  intros [I V P Nt] Ht. split.
  - apply adv_inv_fire; assumption.
  - apply adv_visible_fire; auto.
  - rewrite adv_fire_ps. exact P.
  - apply adv_fire_no_tap. intros u Hu _. apply Nt, Hu.
Qed.

Lemma adv_shown_advance s : shown s -> shown (with_clk (advance (clk s)) s).
Proof.
  intros [I V P Nt]. split; [apply adv_inv_advance; assumption| | |];
    destruct s; cbn in *; assumption.
Qed.

Lemma adv_shown_elapse n s : shown s -> shown (elapse n s).
Proof.
  revert n s. apply (TimerFacts.elapse_inv shown).
  apply (TimerFacts.tick_inv shown); [exact adv_shown_advance|].
  intros s t H Ht. apply adv_shown_fire; assumption.
Qed.







(** *** Events while the emergency timer is armed *)

Lemma adv_handle_quiet_pending e s t :
  (forall x, e <> Advanced.Tap x) ->
  In t (pending (Advanced.clock (Advanced.handle e s))) ->
  In t (pending (Advanced.clock s)).
Proof.
  intros Ne. destruct s; destruct e; try solve [exfalso; eapply Ne; reflexivity];
    exec_advanced; intros H; in_cases H; auto.
Qed.




(** The idle time of a scenario, and scenarios without a tap. *)
Fixpoint idle_time (tr : list Advanced.Input) : N :=
  match tr with
  | [] => 0
  | Advanced.Ev _ :: rest => idle_time rest
  | Advanced.Wait n :: rest => N.of_nat n + idle_time rest
  end.

Definition is_tap_event (i : Advanced.Input) : bool :=
  match i with Advanced.Ev (Advanced.Tap _) => true | _ => false end.

Definition untapped (tr : list Advanced.Input) : bool :=
  forallb (fun i => negb (is_tap_event i)) tr.


(** *** A single tap that hides the controls *)

(** The first tap of a gesture: no earlier tap within the window. *)
Definition single_tap (s : Advanced.State) : Prop :=
  negb (N.eqb (Advanced.lastTap s) 0)
  && N.ltb (now (Advanced.clock s) - Advanced.lastTap s) Advanced.DOUBLE_PRESS_DELAY
  = false.



Lemma adv_commit_keeps_tap o n u :
  sound n -> In u (pending (Advanced.clock n)) -> t_act u = Advanced.TapToggle ->
  In u (pending (Advanced.clock (Advanced.commit o n))).
Proof.
  intros [Wi Wu Wc Wt Wv Dct Dcv Dtv Ka Kf Kt Nw] Hu Eu.
  pose proof (Kt _ Hu Eu) as Ev.
  unfold Advanced.commit. rewrite (proj1 (adv_progress_frame _ _)).
  destruct n; cbn in *. unfold when.
  destruct (Advanced.fallback_deps_changed _ _), (Advanced.autohide_deps_changed _ _);
    exec_advanced; kept.
Qed.













Lemma adv_reachable_elapse n : forall s,
  Advanced.reachable s -> Advanced.reachable (elapse n s).
Proof.
  induction n as [|n IH]; intros s H; [exact H|].
  cbn [elapse]. apply IH, Advanced.reach_tick, H.
Qed.

Lemma adv_reachable_play tr : forall s,
  Advanced.reachable s -> Advanced.reachable (Advanced.play tr s).
Proof.
  unfold Advanced.play.
  induction tr as [|[e|n] tr IH]; intros s H; cbn [fold_left Advanced.input];
    [exact H| |]; apply IH.
  - apply Advanced.reach_step, H.
  - apply adv_reachable_elapse, H.
Qed.

Lemma adv_reachable_loaded : Advanced.reachable Scenarios.advanced_loaded.
Proof.
  apply Advanced.reach_step, Advanced.reach_mount. reflexivity.
Qed.

End AdvancedControls.

(** ** Controls visibility while paused *)

Module ControlsVisibility.
Import Timers Exec Scenarios AdvancedFacts AdvancedTimers AdvancedControls.
#[local] Existing Instance Advanced.component.



End ControlsVisibility.

(** ** Single and double taps of AdvancedVideoPlayer *)

Module AdvancedTaps.
Import Timers Exec AdvancedFacts AdvancedTimers AdvancedControls.
#[local] Existing Instance Advanced.component.

(** How many times the single-tap callback has run. *)
Definition toggles (s : Advanced.State) : nat :=
  List.length (filter is_tap (fired (Advanced.clock s))).

(** What the double-tap branch of [handleTap] does: the pending single
    tap is cancelled, then the third of the screen picks the command. *)
Definition cancel_tap (s : Advanced.State) : Advanced.State :=
  s |> Advanced.clear (Advanced.doubleTapTimeoutRef s)
    |> Advanced.set_doubleTapTimeoutRef None.

Definition transport (x : Q) (s : Advanced.State) : Advanced.State :=
  if JS.lt x (width (Advanced.window s) / 3) then Advanced.skipBackward s
  else if JS.gt x (width (Advanced.window s) * 2 / 3) then Advanced.skipForward s
  else Advanced.togglePlayPause s.

(** A single tap was made at [L]; its timer [i] is due at [D]. *)
Record tapped (i : nat) (D L : N) (F : nat) (s : Advanced.State) : Prop := {
  tq_sound : sound s;
  tq_in : In (mkTimer i D Advanced.TapToggle) (pending (Advanced.clock s));
  tq_last : Advanced.lastTap s = L;
  tq_toggles : toggles s = F
}.

Lemma adv_sound_fire s t :
  sound s -> In t (pending (clk s)) ->
  sound (fire (t_act t) (with_clk (take t (clk s)) s)).
Proof.
  intros So Ht. apply adv_sound_commit, adv_sound_run; assumption.
Qed.

Lemma adv_fire_lastTap a s : Advanced.lastTap (fire a s) = Advanced.lastTap s.
Proof.
  cbn [fire Advanced.component]. rewrite (sc_lastTap _ _ (adv_commit_core _ _)).
  destruct a; exec_advanced; reflexivity.
Qed.

Lemma adv_fire_toggles s t :
  toggles (fire (t_act t) (with_clk (take t (clk s)) s))
  = (toggles s + (if is_tap (t_act t) then 1 else 0))%nat.
Proof.
  unfold toggles. cbn [fire with_clk clk Advanced.component].
  rewrite (sc_fired _ _ (adv_commit_core _ _)), adv_run_pending. cbn [fired take].
  rewrite filter_app, length_app. cbn. destruct (is_tap (t_act t)); reflexivity.
Qed.

Lemma adv_handle_fired e s :
  fired (Advanced.clock (Advanced.handle e s)) = fired (Advanced.clock s).
Proof. destruct s; destruct e; exec_advanced; reflexivity. Qed.

Lemma adv_step_toggles e s : toggles (Advanced.step e s) = toggles s.
Proof.
  unfold toggles, Advanced.step.
  rewrite (sc_fired _ _ (adv_commit_core _ _)), adv_handle_fired. reflexivity.
Qed.

Lemma adv_tapped_only i D L F s t :
  tapped i D L F s -> In t (pending (Advanced.clock s)) ->
  t_id t = i \/ is_tap (t_act t) = false.
Proof.
  intros [So T _ _] Ht.
  destruct (t_act t) eqn:E; try (right; reflexivity). left.
  pose proof (so_toggle _ So t Ht E) as R1.
  pose proof (so_toggle _ So _ T eq_refl) as R2. cbn in R2. congruence.
Qed.

Lemma adv_tapped_same i D L F s t :
  tapped i D L F s -> In t (pending (Advanced.clock s)) -> t_id t = i ->
  t = mkTimer i D Advanced.TapToggle.
Proof.
  intros [So T _ _] Ht Ei. apply (so_uniq _ So); auto.
Qed.

Lemma adv_tapped_advance i D L F s :
  tapped i D L F s -> tapped i D L F (with_clk (advance (clk s)) s).
Proof.
  intros [So T La To]. split; [apply adv_sound_advance; assumption| | |];
    destruct s; cbn in *; assumption.
Qed.

Lemma adv_tapped_other i D L F s t :
  tapped i D L F s -> In t (pending (clk s)) -> t_id t <> i ->
  tapped i D L F (fire (t_act t) (with_clk (take t (clk s)) s)).
Proof.
  intros H Ht Ne. pose proof H as [So T La To].
  destruct (adv_tapped_only i D L F s t H Ht) as [E|Nt]; [contradiction|].
  split.
  - apply adv_sound_fire; assumption.
  - cbn [fire with_clk clk Advanced.component].
    apply adv_commit_keeps_tap; [apply adv_sound_run; assumption| |reflexivity].
    rewrite adv_run_pending. cbn. apply filter_In. split; [exact T|].
    apply negb_true_iff, Nat.eqb_neq. cbn. congruence.
  - rewrite adv_fire_lastTap. destruct s; exact La.
  - rewrite adv_fire_toggles, Nt. lia.
Qed.

(** Until the tap timer is due nothing toggles the controls. *)
Lemma adv_tapped_elapse i D L F g s :
  tapped i D L F s -> (now (Advanced.clock s) + N.of_nat g < D)%N ->
  tapped i D L F (elapse g s).
Proof.
  intros Hs Hg.
  apply (TimerFacts.elapse_armed_early (tapped i D L F) i D); try assumption.
  - intros s' t H Ht Ei. rewrite (adv_tapped_same i D L F s' t H Ht Ei). reflexivity.
  - intros s' H. apply adv_tapped_advance; assumption.
  - intros s' t H Ht Ne. apply adv_tapped_other; assumption.
Qed.

Lemma adv_first_tap x s :
  sound s -> single_tap s ->
  tapped (next_id (Advanced.clock s))
         (now (Advanced.clock s) + Advanced.DOUBLE_PRESS_DELAY)
         (now (Advanced.clock s)) (toggles s)
         (Advanced.step (Advanced.Tap x) s).
Proof.
  intros So Si. unfold single_tap in Si.
  pose proof (adv_commit_core s (Advanced.handle (Advanced.Tap x) s)) as C.
  assert (E : Advanced.lastTap (Advanced.handle (Advanced.Tap x) s) = now (Advanced.clock s)
              /\ In (mkTimer (next_id (Advanced.clock s))
                             (now (Advanced.clock s) + Advanced.DOUBLE_PRESS_DELAY)
                             Advanced.TapToggle)
                    (pending (Advanced.clock (Advanced.handle (Advanced.Tap x) s)))).
  { cbn [Advanced.handle]. unfold Advanced.handleTap.
    destruct s; cbn in Si |- *. rewrite Si.
    destruct doubleTapTimeoutRef; cbn; repeat split;
      apply in_or_app; right; left; reflexivity. }
  destruct E as (El & Ei).
  split.
  - apply adv_sound_commit, adv_sound_handle, So.
  - unfold Advanced.step.
    apply adv_commit_keeps_tap; [apply adv_sound_handle, So|exact Ei|reflexivity].
  - unfold Advanced.step. rewrite (sc_lastTap _ _ C). exact El.
  - apply adv_step_toggles.
Qed.

(** A tap within the window of the previous one takes the double-tap
    branch. *)
Lemma adv_handleTap_double x s :
  Advanced.lastTap s <> 0%N ->
  (now (Advanced.clock s) - Advanced.lastTap s < Advanced.DOUBLE_PRESS_DELAY)%N ->
  Advanced.handleTap x s = Advanced.set_lastTap 0 (transport x (cancel_tap s)).
Proof.
  intros H0 Hw. unfold Advanced.handleTap, transport, cancel_tap.
  apply N.eqb_neq in H0. apply N.ltb_lt in Hw.
  destruct s; cbn in H0, Hw |- *. rewrite H0, Hw. cbn.
  destruct (JS.lt x _); [reflexivity|]. destruct (JS.gt x _); reflexivity.
Qed.

Lemma adv_double_no_tap i D L F x s :
  tapped i D L F s ->
  no_tap_pending (Advanced.set_lastTap 0 (transport x (cancel_tap s))).
Proof.
  intros H. pose proof H as [So T _ _].
  pose proof (so_toggle _ So _ T eq_refl) as R. cbn in R.
  assert (O : forall u, In u (pending (Advanced.clock s)) -> t_id u <> i ->
                        is_tap (t_act u) = false).
  { intros u Hu Ne. destruct (adv_tapped_only i D L F s u H Hu); [contradiction|assumption]. }
  clear H So T. unfold no_tap_pending, transport, cancel_tap.
  destruct s; cbn in R, O |- *. subst. exec_advanced.
  all: intros u Hu; in_cases Hu; neq_ids; auto.
Qed.

(** With no tap timer pending, time passes and the single-tap callback
    does not run. *)
Lemma adv_untapped_elapse F n s :
  no_tap_pending s /\ toggles s = F ->
  no_tap_pending (elapse n s) /\ toggles (elapse n s) = F.
Proof.
  revert n s. apply (TimerFacts.elapse_inv (fun s => no_tap_pending s /\ toggles s = F)).
  apply (TimerFacts.tick_inv (fun s => no_tap_pending s /\ toggles s = F)).
  - intros s H. destruct s; exact H.
  - intros s t [H E] Ht. split.
    + apply adv_fire_no_tap. intros u Hu _. apply H, Hu.
    + rewrite adv_fire_toggles, (H t Ht). lia.
Qed.

(** *** Other events around the taps *)

Lemma adv_handle_keeps_tap e s u :
  sound s -> (forall x, e <> Advanced.Tap x) ->
  In u (pending (Advanced.clock s)) -> t_act u = Advanced.TapToggle ->
  In u (pending (Advanced.clock (Advanced.handle e s))).
Proof.
  intros [Wi Wu Wc Wt Wv Dct Dcv Dtv Ka Kf Kt Nw] Ne Hu Eu.
  pose proof (Kt _ Hu Eu) as Ev.
  destruct s; cbn in *.
  destruct e; try solve [exfalso; eapply Ne; reflexivity]; exec_advanced; kept.
Qed.

(** Only [handleTap] writes [lastTap]. *)
Lemma adv_handle_lastTap e s :
  (forall x, e <> Advanced.Tap x) ->
  Advanced.lastTap (Advanced.handle e s) = Advanced.lastTap s.
Proof.
  intros Ne. destruct s.
  destruct e; try solve [exfalso; eapply Ne; reflexivity]; exec_advanced; reflexivity.
Qed.

Lemma adv_tapped_step i D L F e s :
  tapped i D L F s -> (forall x, e <> Advanced.Tap x) ->
  tapped i D L F (Advanced.step e s).
Proof.
  intros [So T La To] Ne.
  pose proof (adv_commit_core s (Advanced.handle e s)) as C.
  split.
  - apply adv_sound_commit, adv_sound_handle, So.
  - unfold Advanced.step.
    apply adv_commit_keeps_tap; [apply adv_sound_handle, So| |reflexivity].
    apply adv_handle_keeps_tap; auto.
  - unfold Advanced.step. rewrite (sc_lastTap _ _ C), adv_handle_lastTap; assumption.
  - rewrite adv_step_toggles. exact To.
Qed.

Lemma adv_untapped_event (e : Advanced.Event) :
  is_tap_event (Advanced.Ev e) = false -> forall x, e <> Advanced.Tap x.
Proof.
  intros H x E. subst e. discriminate.
Qed.

(** A scenario without taps that ends before the tap timer is due. *)
Lemma adv_tapped_play i D L F tr : forall s,
  tapped i D L F s -> untapped tr = true ->
  (now (Advanced.clock s) + idle_time tr < D)%N ->
  tapped i D L F (Advanced.play tr s)
  /\ now (Advanced.clock (Advanced.play tr s)) = (now (Advanced.clock s) + idle_time tr)%N.
Proof.
  induction tr as [|[e|n] tr IH]; intros s T U B; cbn in U, B.
  - split; [exact T|cbn; lia].
  - apply andb_true_iff in U. destruct U as [Ue U]. apply negb_true_iff in Ue.
    destruct (IH (Advanced.step e s)) as [T' N']; try assumption.
    + apply adv_tapped_step; [exact T|apply adv_untapped_event, Ue].
    + rewrite adv_step_now. exact B.
    + split; [exact T'|]. cbn [idle_time]. rewrite <- (adv_step_now e s). exact N'.
  - pose proof (TimerFacts.now_elapse n s) as Nn. cbn [clk Advanced.component] in Nn.
    destruct (IH (elapse n s)) as [T' N']; try assumption.
    + apply adv_tapped_elapse; [exact T|lia].
    + rewrite Nn. lia.
    + split; [exact T'|]. cbn [idle_time]. change (Advanced.play (Advanced.Wait n :: tr) s)
        with (Advanced.play tr (elapse n s)). rewrite N', Nn. lia.
Qed.

(** With no tap timer pending, a scenario without taps does not run the
    single-tap callback. *)
Lemma adv_untapped_play F tr : forall s,
  no_tap_pending s /\ toggles s = F -> untapped tr = true ->
  no_tap_pending (Advanced.play tr s) /\ toggles (Advanced.play tr s) = F.
Proof.
  induction tr as [|[e|n] tr IH]; intros s H U; cbn in U.
  - exact H.
  - apply andb_true_iff in U. destruct U as [Ue U]. apply negb_true_iff in Ue.
    apply (IH (Advanced.step e s)); [|exact U]. destruct H as [Hn Ht]. split.
    + unfold Advanced.step. apply adv_commit_no_tap. intros u Hu. apply Hn.
      apply (adv_handle_quiet_pending e s u); [apply adv_untapped_event, Ue|exact Hu].
    + rewrite adv_step_toggles. exact Ht.
  - apply (IH (elapse n s)); [|exact U]. apply adv_untapped_elapse, H.
Qed.

End AdvancedTaps.

(** ** Single and double taps of the earlier AdvancedVideoPlayer *)

Module LegacyTaps.
Import Timers Exec.
#[local] Existing Instance AdvancedLegacy.component.

#[export] Instance lawful : TimerFacts.Lawful AdvancedLegacy.State AdvancedLegacy.Action.
Proof.
  split.
  - intros c [ ]; reflexivity.
  - intros [ ]; reflexivity.
  - intros c c' [ ]; reflexivity.
  - intros a s. destruct a; unfold fire, AdvancedLegacy.component, AdvancedLegacy.commit, when;
      destruct (AdvancedLegacy.autohide_deps_changed _ _),
               (AdvancedLegacy.progress_deps_changed _ _);
      exec_legacy; reflexivity.
Qed.

Definition is_tap (a : AdvancedLegacy.Action) : bool :=
  match a with AdvancedLegacy.TapToggle _ => true | _ => false end.

Definition toggles (s : AdvancedLegacy.State) : nat :=
  List.length (filter is_tap (fired (AdvancedLegacy.clock s))).

Definition no_tap_pending (s : AdvancedLegacy.State) : Prop :=
  forall t, In t (pending (AdvancedLegacy.clock s)) -> is_tap (t_act t) = false.

Definition single_tap (s : AdvancedLegacy.State) : Prop :=
  negb (N.eqb (AdvancedLegacy.lastTap s) 0)
  && N.ltb (now (AdvancedLegacy.clock s) - AdvancedLegacy.lastTap s)
           AdvancedLegacy.DOUBLE_PRESS_DELAY
  = false.

Definition cancel_tap (s : AdvancedLegacy.State) : AdvancedLegacy.State :=
  s |> AdvancedLegacy.clear (AdvancedLegacy.doubleTapTimeoutRef s)
    |> AdvancedLegacy.set_doubleTapTimeoutRef None.

Definition transport (x : Q) (s : AdvancedLegacy.State) : AdvancedLegacy.State :=
  if JS.lt x (width (AdvancedLegacy.window s) / 3) then AdvancedLegacy.skipBackward s
  else if JS.gt x (width (AdvancedLegacy.window s) * 2 / 3)
       then AdvancedLegacy.skipForward s
       else AdvancedLegacy.togglePlayPause s.

(** Handles are handed out in increasing order and never shared, and a
    pending single tap is the one [doubleTapTimeoutRef] points to. *)
Record sound (s : AdvancedLegacy.State) : Prop := {
  lo_ids : forall t, In t (pending (AdvancedLegacy.clock s)) ->
                     (t_id t < next_id (AdvancedLegacy.clock s))%nat;
  lo_uniq : forall t u, In t (pending (AdvancedLegacy.clock s)) ->
                        In u (pending (AdvancedLegacy.clock s)) ->
                        t_id t = t_id u -> t = u;
  lo_ctl : TimerFacts.bounded (AdvancedLegacy.controlsTimeoutRef s) (AdvancedLegacy.clock s);
  lo_tap : TimerFacts.bounded (AdvancedLegacy.doubleTapTimeoutRef s) (AdvancedLegacy.clock s);
  lo_ctl_tap : forall j, AdvancedLegacy.controlsTimeoutRef s = Some j ->
                         AdvancedLegacy.doubleTapTimeoutRef s <> Some j;
  lo_toggle : forall t, In t (pending (AdvancedLegacy.clock s)) ->
              forall c, t_act t = AdvancedLegacy.TapToggle c ->
              AdvancedLegacy.doubleTapTimeoutRef s = Some (t_id t);
  lo_now : (0 < now (AdvancedLegacy.clock s))%N
}.

Ltac use_toggle :=
  repeat match goal with
  | W : forall c, ?x = AdvancedLegacy.TapToggle c -> _,
    H : ?x = AdvancedLegacy.TapToggle _ |- _ => pose proof (W _ H); clear W
  end.

Ltac toggle_clause :=
  let u := fresh "u" in let Hu := fresh "Hu" in
  cbn; intros u Hu; intros; in_cases Hu; neq_ids; cbn in *;
  try discriminate; try use_member; use_toggle; repeat use_bound; cbn in *;
  first [ reflexivity | discriminate | assumption | congruence | lia
        | solve [intuition (subst; cbn in *; first [congruence | lia])] ].

Ltac sound_clauses :=
  split;
  first [ clause | AdvancedTimers.uniq_clause | AdvancedTimers.distinct_clause
        | toggle_clause | idtac ].

Lemma leg_sound_commit o n : sound n -> sound (AdvancedLegacy.commit o n).
Proof.
  intros [Wi Wu Wc Wt Dct Kt Nw].
  destruct n; cbn in *. unfold TimerFacts.bounded in *; cbn in *.
  unfold AdvancedLegacy.commit, when.
  destruct (AdvancedLegacy.autohide_deps_changed _ _),
           (AdvancedLegacy.progress_deps_changed _ _); exec_legacy.
  all: sound_clauses.
Qed.

Lemma leg_sound_handle e s : sound s -> sound (AdvancedLegacy.handle e s).
Proof.
  intros [Wi Wu Wc Wt Dct Kt Nw].
  destruct s; cbn in *. unfold TimerFacts.bounded in *; cbn in *.
  destruct e; exec_legacy.
  all: sound_clauses.
Qed.

Lemma leg_sound_run s t :
  sound s -> In t (pending (AdvancedLegacy.clock s)) ->
  sound (AdvancedLegacy.run (t_act t) (with_clk (take t (clk s)) s)).
Proof.
  intros [Wi Wu Wc Wt Dct Kt Nw] Ht.
  pose proof (Wi _ Ht) as Bt. pose proof (Kt _ Ht) as Tt.
  destruct t as [j due a]. cbn in Bt, Tt.
  destruct s; cbn in *. unfold TimerFacts.bounded in *; cbn in *.
  destruct a; [|specialize (Tt _ eq_refl)]; exec_legacy.
  all: sound_clauses.
Qed.

Lemma leg_sound_advance s : sound s -> sound (with_clk (advance (clk s)) s).
Proof.
  intros [Wi Wu Wc Wt Dct Kt Nw].
  destruct s; cbn in *. unfold TimerFacts.bounded in *; cbn in *.
  split; cbn; try assumption; lia.
Qed.

Lemma leg_sound_mount p w t0 : (0 < t0)%N -> sound (AdvancedLegacy.mount p w t0).
Proof.
  intros H0. destruct p as [[|]]; exec_legacy.
  all: sound_clauses.
Qed.

Lemma leg_sound_fire s t :
  sound s -> In t (pending (clk s)) ->
  sound (fire (t_act t) (with_clk (take t (clk s)) s)).
Proof.
  intros So Ht. apply leg_sound_commit, leg_sound_run; assumption.
Qed.

Lemma leg_reachable_sound s : AdvancedLegacy.reachable s -> sound s.
Proof.
  induction 1 as [p w t0 H0|e s _ IH|s _ IH].
  - apply leg_sound_mount; assumption.
  - apply leg_sound_commit, leg_sound_handle, IH.
  - revert IH. apply (TimerFacts.tick_inv sound); [exact leg_sound_advance|].
    intros x t Hx Ht. apply leg_sound_fire; assumption.
Qed.

(** Rendering and callbacks leave the tap bookkeeping alone. *)
Lemma leg_commit_frame o n :
  AdvancedLegacy.lastTap (AdvancedLegacy.commit o n) = AdvancedLegacy.lastTap n
  /\ fired (AdvancedLegacy.clock (AdvancedLegacy.commit o n)) = fired (AdvancedLegacy.clock n)
  /\ now (AdvancedLegacy.clock (AdvancedLegacy.commit o n)) = now (AdvancedLegacy.clock n).
Proof.
  unfold AdvancedLegacy.commit, when.
  destruct (AdvancedLegacy.autohide_deps_changed _ _),
           (AdvancedLegacy.progress_deps_changed _ _);
    exec_legacy; repeat split; reflexivity.
Qed.

Lemma leg_run_clock a c s :
  AdvancedLegacy.clock (AdvancedLegacy.run a (AdvancedLegacy.set_clock c s)) = c.
Proof. destruct a; exec_legacy; reflexivity. Qed.

Lemma leg_commit_no_tap o n : no_tap_pending n -> no_tap_pending (AdvancedLegacy.commit o n).
Proof.
  unfold no_tap_pending. intros H. destruct n; cbn in *.
  unfold AdvancedLegacy.commit, when.
  destruct (AdvancedLegacy.autohide_deps_changed _ _),
           (AdvancedLegacy.progress_deps_changed _ _); exec_legacy.
  all: clause.
Qed.

Lemma leg_commit_keeps_tap o n u c :
  sound n -> In u (pending (AdvancedLegacy.clock n)) ->
  t_act u = AdvancedLegacy.TapToggle c ->
  In u (pending (AdvancedLegacy.clock (AdvancedLegacy.commit o n))).
Proof.
  intros [Wi Wu Wc Wt Dct Kt Nw] Hu Eu.
  pose proof (Kt _ Hu _ Eu) as Ev.
  destruct n; cbn in *. unfold AdvancedLegacy.commit, when.
  destruct (AdvancedLegacy.autohide_deps_changed _ _),
           (AdvancedLegacy.progress_deps_changed _ _);
    exec_legacy; AdvancedControls.kept.
Qed.

Lemma leg_fire_no_tap s t :
  (forall u, In u (pending (AdvancedLegacy.clock s)) -> t_id u <> t_id t ->
             is_tap (t_act u) = false) ->
  no_tap_pending (fire (t_act t) (with_clk (take t (clk s)) s)).
Proof.
  intros H. cbn [fire with_clk clk AdvancedLegacy.component].
  apply leg_commit_no_tap. intros u Hu. rewrite leg_run_clock in Hu.
  cbn in Hu. apply filter_In in Hu. destruct Hu as [Hu Ne].
  apply H; [assumption|]. apply negb_true_iff, Nat.eqb_neq in Ne. exact Ne.
Qed.

Lemma leg_fire_lastTap a s : AdvancedLegacy.lastTap (fire a s) = AdvancedLegacy.lastTap s.
Proof.
  cbn [fire AdvancedLegacy.component].
  destruct (leg_commit_frame s (AdvancedLegacy.run a s)) as (E & _ & _). rewrite E.
  destruct a; exec_legacy; reflexivity.
Qed.

Lemma leg_fire_toggles s t :
  toggles (fire (t_act t) (with_clk (take t (clk s)) s))
  = (toggles s + (if is_tap (t_act t) then 1 else 0))%nat.
Proof.
  unfold toggles. cbn [fire with_clk clk AdvancedLegacy.component].
  match goal with
  | |- context [AdvancedLegacy.commit ?o ?n] =>
      destruct (leg_commit_frame o n) as (_ & E & _)
  end.
  rewrite E, leg_run_clock. cbn [fired take].
  rewrite filter_app, length_app. cbn. destruct (is_tap (t_act t)); reflexivity.
Qed.

Lemma leg_handle_frame e s :
  fired (AdvancedLegacy.clock (AdvancedLegacy.handle e s)) = fired (AdvancedLegacy.clock s)
  /\ now (AdvancedLegacy.clock (AdvancedLegacy.handle e s)) = now (AdvancedLegacy.clock s).
Proof. destruct s; destruct e; exec_legacy; split; reflexivity. Qed.

Lemma leg_step_toggles e s : toggles (AdvancedLegacy.step e s) = toggles s.
Proof.
  unfold toggles, AdvancedLegacy.step.
  destruct (leg_commit_frame s (AdvancedLegacy.handle e s)) as (_ & E & _).
  destruct (leg_handle_frame e s) as (E' & _). rewrite E, E'. reflexivity.
Qed.

Lemma leg_step_now e s :
  now (AdvancedLegacy.clock (AdvancedLegacy.step e s)) = now (AdvancedLegacy.clock s).
Proof.
  unfold AdvancedLegacy.step.
  destruct (leg_commit_frame s (AdvancedLegacy.handle e s)) as (_ & _ & E).
  destruct (leg_handle_frame e s) as (_ & E'). rewrite E, E'. reflexivity.
Qed.

(** A single tap was made at [L] with the controls in state [c]; its
    timer [i] is due at [D]. *)
Record tapped (i : nat) (D : N) (c : bool) (L : N) (F : nat)
              (s : AdvancedLegacy.State) : Prop := {
  tl_sound : sound s;
  tl_in : In (mkTimer i D (AdvancedLegacy.TapToggle c)) (pending (AdvancedLegacy.clock s));
  tl_last : AdvancedLegacy.lastTap s = L;
  tl_toggles : toggles s = F
}.

Lemma leg_tapped_only i D c L F s t :
  tapped i D c L F s -> In t (pending (AdvancedLegacy.clock s)) ->
  t_id t = i \/ is_tap (t_act t) = false.
Proof.
  intros [So T _ _] Ht.
  destruct (t_act t) eqn:E; try (right; reflexivity). left.
  pose proof (lo_toggle _ So t Ht _ E) as R1.
  pose proof (lo_toggle _ So _ T _ eq_refl) as R2. cbn in R2. congruence.
Qed.

Lemma leg_tapped_same i D c L F s t :
  tapped i D c L F s -> In t (pending (AdvancedLegacy.clock s)) -> t_id t = i ->
  t = mkTimer i D (AdvancedLegacy.TapToggle c).
Proof.
  intros [So T _ _] Ht Ei. apply (lo_uniq _ So); auto.
Qed.

Lemma leg_tapped_advance i D c L F s :
  tapped i D c L F s -> tapped i D c L F (with_clk (advance (clk s)) s).
Proof.
  intros [So T La To]. split; [apply leg_sound_advance; assumption| | |];
    destruct s; cbn in *; assumption.
Qed.

Lemma leg_tapped_other i D c L F s t :
  tapped i D c L F s -> In t (pending (clk s)) -> t_id t <> i ->
  tapped i D c L F (fire (t_act t) (with_clk (take t (clk s)) s)).
Proof.
  intros H Ht Ne. pose proof H as [So T La To].
  destruct (leg_tapped_only i D c L F s t H Ht) as [E|Nt]; [contradiction|].
  split.
  - apply leg_sound_fire; assumption.
  - cbn [fire with_clk clk AdvancedLegacy.component].
    apply (leg_commit_keeps_tap _ _ _ c);
      [apply leg_sound_run; assumption| |reflexivity].
    rewrite leg_run_clock. cbn. apply filter_In. split; [exact T|].
    apply negb_true_iff, Nat.eqb_neq. cbn. congruence.
  - rewrite leg_fire_lastTap. destruct s; exact La.
  - rewrite leg_fire_toggles, Nt. lia.
Qed.

Lemma leg_tapped_elapse i D c L F g s :
  tapped i D c L F s -> (now (AdvancedLegacy.clock s) + N.of_nat g < D)%N ->
  tapped i D c L F (elapse g s).
Proof.
  intros Hs Hg.
  apply (TimerFacts.elapse_armed_early (tapped i D c L F) i D); try assumption.
  - intros s' t H Ht Ei. rewrite (leg_tapped_same i D c L F s' t H Ht Ei). reflexivity.
  - intros s' H. apply leg_tapped_advance; assumption.
  - intros s' t H Ht Ne. apply leg_tapped_other; assumption.
Qed.

Lemma leg_first_tap x s :
  sound s -> single_tap s ->
  tapped (next_id (AdvancedLegacy.clock s))
         (now (AdvancedLegacy.clock s) + AdvancedLegacy.DOUBLE_PRESS_DELAY)
         (AdvancedLegacy.showControls s)
         (now (AdvancedLegacy.clock s)) (toggles s)
         (AdvancedLegacy.step (AdvancedLegacy.Tap x) s).
Proof.
  intros So Si. unfold single_tap in Si.
  destruct (leg_commit_frame s (AdvancedLegacy.handle (AdvancedLegacy.Tap x) s))
    as (Cl & _ & _).
  assert (E : AdvancedLegacy.lastTap (AdvancedLegacy.handle (AdvancedLegacy.Tap x) s)
              = now (AdvancedLegacy.clock s)
              /\ In (mkTimer (next_id (AdvancedLegacy.clock s))
                             (now (AdvancedLegacy.clock s) + AdvancedLegacy.DOUBLE_PRESS_DELAY)
                             (AdvancedLegacy.TapToggle (AdvancedLegacy.showControls s)))
                    (pending (AdvancedLegacy.clock
                                (AdvancedLegacy.handle (AdvancedLegacy.Tap x) s)))).
  { cbn [AdvancedLegacy.handle]. unfold AdvancedLegacy.handleTap.
    destruct s; cbn in Si |- *. rewrite Si.
    destruct doubleTapTimeoutRef; cbn; repeat split;
      apply in_or_app; right; left; reflexivity. }
  destruct E as (El & Ei).
  split.
  - apply leg_sound_commit, leg_sound_handle, So.
  - unfold AdvancedLegacy.step.
    eapply leg_commit_keeps_tap; [apply leg_sound_handle, So|exact Ei|reflexivity].
  - unfold AdvancedLegacy.step. rewrite Cl. exact El.
  - apply leg_step_toggles.
Qed.

Lemma leg_handleTap_double x s :
  AdvancedLegacy.lastTap s <> 0%N ->
  (now (AdvancedLegacy.clock s) - AdvancedLegacy.lastTap s
   < AdvancedLegacy.DOUBLE_PRESS_DELAY)%N ->
  AdvancedLegacy.handleTap x s
  = AdvancedLegacy.set_lastTap 0 (transport x (cancel_tap s)).
Proof.
  intros H0 Hw. unfold AdvancedLegacy.handleTap, transport, cancel_tap.
  apply N.eqb_neq in H0. apply N.ltb_lt in Hw.
  destruct s; cbn in H0, Hw |- *. rewrite H0, Hw. cbn.
  destruct (JS.lt x _); [reflexivity|]. destruct (JS.gt x _); reflexivity.
Qed.

Lemma leg_double_no_tap i D c L F x s :
  tapped i D c L F s ->
  no_tap_pending (AdvancedLegacy.set_lastTap 0 (transport x (cancel_tap s))).
Proof.
  intros H. pose proof H as [So T _ _].
  pose proof (lo_toggle _ So _ T _ eq_refl) as R. cbn in R.
  assert (O : forall u, In u (pending (AdvancedLegacy.clock s)) -> t_id u <> i ->
                        is_tap (t_act u) = false).
  { intros u Hu Ne.
    destruct (leg_tapped_only i D c L F s u H Hu); [contradiction|assumption]. }
  clear H So T. unfold no_tap_pending, transport, cancel_tap.
  destruct s; cbn in R, O |- *. subst. exec_legacy.
  all: intros u Hu; in_cases Hu; neq_ids; auto.
Qed.

Lemma leg_untapped_elapse F n s :
  no_tap_pending s /\ toggles s = F ->
  no_tap_pending (elapse n s) /\ toggles (elapse n s) = F.
Proof.
  revert n s. apply (TimerFacts.elapse_inv (fun s => no_tap_pending s /\ toggles s = F)).
  apply (TimerFacts.tick_inv (fun s => no_tap_pending s /\ toggles s = F)).
  - intros s H. destruct s; exact H.
  - intros s t [H E] Ht. split.
    + apply leg_fire_no_tap. intros u Hu _. apply H, Hu.
    + rewrite leg_fire_toggles, (H t Ht). lia.
Qed.

(** *** Other events around the taps *)

Fixpoint idle_time (tr : list AdvancedLegacy.Input) : N :=
  match tr with
  | [] => 0
  | AdvancedLegacy.Ev _ :: rest => idle_time rest
  | AdvancedLegacy.Wait n :: rest => N.of_nat n + idle_time rest
  end.

Definition is_tap_event (i : AdvancedLegacy.Input) : bool :=
  match i with AdvancedLegacy.Ev (AdvancedLegacy.Tap _) => true | _ => false end.

Definition untapped (tr : list AdvancedLegacy.Input) : bool :=
  forallb (fun i => negb (is_tap_event i)) tr.

Lemma leg_untapped_event (e : AdvancedLegacy.Event) :
  is_tap_event (AdvancedLegacy.Ev e) = false -> forall x, e <> AdvancedLegacy.Tap x.
Proof.
  intros H x E. subst e. discriminate.
Qed.

Lemma leg_handle_quiet_pending e s t :
  (forall x, e <> AdvancedLegacy.Tap x) ->
  In t (pending (AdvancedLegacy.clock (AdvancedLegacy.handle e s))) ->
  In t (pending (AdvancedLegacy.clock s)).
Proof.
  intros Ne. destruct s; destruct e; try solve [exfalso; eapply Ne; reflexivity];
    exec_legacy; intros H; in_cases H; auto.
Qed.

Lemma leg_handle_keeps_tap e s u c :
  sound s -> (forall x, e <> AdvancedLegacy.Tap x) ->
  In u (pending (AdvancedLegacy.clock s)) -> t_act u = AdvancedLegacy.TapToggle c ->
  In u (pending (AdvancedLegacy.clock (AdvancedLegacy.handle e s))).
Proof.
  intros [Wi Wu Wc Wt Dct Kt Nw] Ne Hu Eu.
  pose proof (Kt _ Hu _ Eu) as Ev.
  destruct s; cbn in *.
  destruct e; try solve [exfalso; eapply Ne; reflexivity];
    exec_legacy; AdvancedControls.kept.
Qed.

Lemma leg_handle_lastTap e s :
  (forall x, e <> AdvancedLegacy.Tap x) ->
  AdvancedLegacy.lastTap (AdvancedLegacy.handle e s) = AdvancedLegacy.lastTap s.
Proof.
  intros Ne. destruct s.
  destruct e; try solve [exfalso; eapply Ne; reflexivity]; exec_legacy; reflexivity.
Qed.

Lemma leg_tapped_step i D c L F e s :
  tapped i D c L F s -> (forall x, e <> AdvancedLegacy.Tap x) ->
  tapped i D c L F (AdvancedLegacy.step e s).
Proof.
  intros [So T La To] Ne.
  destruct (leg_commit_frame s (AdvancedLegacy.handle e s)) as (Cl & _ & _).
  split.
  - apply leg_sound_commit, leg_sound_handle, So.
  - unfold AdvancedLegacy.step.
    apply (leg_commit_keeps_tap _ _ _ c); [apply leg_sound_handle, So| |reflexivity].
    apply (leg_handle_keeps_tap _ _ _ c); auto.
  - unfold AdvancedLegacy.step. rewrite Cl, leg_handle_lastTap; assumption.
  - rewrite leg_step_toggles. exact To.
Qed.

Lemma leg_tapped_play i D c L F tr : forall s,
  tapped i D c L F s -> untapped tr = true ->
  (now (AdvancedLegacy.clock s) + idle_time tr < D)%N ->
  tapped i D c L F (AdvancedLegacy.play tr s)
  /\ now (AdvancedLegacy.clock (AdvancedLegacy.play tr s))
     = (now (AdvancedLegacy.clock s) + idle_time tr)%N.
Proof.
  induction tr as [|[e|n] tr IH]; intros s T U B; cbn in U, B.
  - split; [exact T|cbn; lia].
  - apply andb_true_iff in U. destruct U as [Ue U]. apply negb_true_iff in Ue.
    destruct (IH (AdvancedLegacy.step e s)) as [T' N']; try assumption.
    + apply leg_tapped_step; [exact T|apply leg_untapped_event, Ue].
    + rewrite leg_step_now. exact B.
    + split; [exact T'|]. cbn [idle_time]. rewrite <- (leg_step_now e s). exact N'.
  - pose proof (TimerFacts.now_elapse n s) as Nn.
    cbn [clk AdvancedLegacy.component] in Nn.
    destruct (IH (elapse n s)) as [T' N']; try assumption.
    + apply leg_tapped_elapse; [exact T|lia].
    + rewrite Nn. lia.
    + split; [exact T'|]. cbn [idle_time].
      change (AdvancedLegacy.play (AdvancedLegacy.Wait n :: tr) s)
        with (AdvancedLegacy.play tr (elapse n s)). rewrite N', Nn. lia.
Qed.

Lemma leg_untapped_play F tr : forall s,
  no_tap_pending s /\ toggles s = F -> untapped tr = true ->
  no_tap_pending (AdvancedLegacy.play tr s) /\ toggles (AdvancedLegacy.play tr s) = F.
Proof.
  induction tr as [|[e|n] tr IH]; intros s H U; cbn in U.
  - exact H.
  - apply andb_true_iff in U. destruct U as [Ue U]. apply negb_true_iff in Ue.
    apply (IH (AdvancedLegacy.step e s)); [|exact U]. destruct H as [Hn Ht]. split.
    + unfold AdvancedLegacy.step. apply leg_commit_no_tap. intros u Hu. apply Hn.
      apply (leg_handle_quiet_pending e s u); [apply leg_untapped_event, Ue|exact Hu].
    + rewrite leg_step_toggles. exact Ht.
  - apply (IH (elapse n s)); [|exact U]. apply leg_untapped_elapse, H.
Qed.

End LegacyTaps.

(** ** Double taps *)

Module Gestures.
Import Timers Exec Scenarios AdvancedFacts AdvancedTimers AdvancedControls.
#[local] Existing Instance Advanced.component.
#[local] Existing Instance AdvancedLegacy.component.
#[local] Existing Instance LegacyTaps.lawful.

(** The thirds of the screen, as [handleTap] tells them apart:
    [tapX < screenWidth / 3], [tapX > (screenWidth * 2) / 3], or neither. *)
Inductive Third : Type := LeftThird | MiddleThird | RightThird.

Definition third (screenWidth tapX : Q) : Third :=
  if JS.lt tapX (screenWidth / 3) then LeftThird
  else if JS.gt tapX (screenWidth * 2 / 3) then RightThird
  else MiddleThird.

(** What a transport command leaves behind.  [p] and [p'] are the player
    state before and after, [sent] the commands the engine received and
    [mounted] tells whether the video element is rendered.  Left third:
    the position goes back by 10 s, not below 0, and the engine is told
    to seek there (in seconds).  Right third: forward by 10 s, not beyond
    the duration.  Middle third: [isPlaying] flips and the engine is sent
    nothing. *)
Definition transported (t : Third) (mounted : bool) (p p' : PlayerState)
                       (sent : list EngineCmd) : Prop :=
  match t with
  | LeftThird =>
      let target := JS.clamp (JS.Math_max (currentTime p - 10000) 0) (duration p) in
      p' = ps_currentTime target p
      /\ sent = if mounted then [Seek (target / 1000)] else []
  | RightThird =>
      let target :=
        JS.clamp (JS.Math_min (currentTime p + 10000) (duration p)) (duration p) in
      p' = ps_currentTime target p
      /\ sent = if mounted then [Seek (target / 1000)] else []
  | MiddleThird =>
      p' = ps_isPlaying (negb (isPlaying p)) p /\ sent = []
  end.

Lemma adv_transport_effect (x : Q) (s : Advanced.State) :
  let s' := Advanced.set_lastTap 0 (AdvancedTaps.transport x (AdvancedTaps.cancel_tap s)) in
  exists sent,
    Advanced.engine s' = Advanced.engine s ++ sent
    /\ transported (third (width (Advanced.window s)) x) (Advanced.videoRef s)
                   (Advanced.ps s) (Advanced.ps s') sent.
Proof.
  unfold AdvancedTaps.transport, AdvancedTaps.cancel_tap, third, transported.
  destruct s as [p sc il er]; cbn.
  destruct (JS.lt x _); [|destruct (JS.gt x _)].
  - unfold Advanced.skipBackward, Advanced.seekTo, Advanced.engine_seek, Advanced.videoRef.
    destruct er; cbn.
    + exists []. rewrite app_nil_r. repeat split.
    + eexists. split; [reflexivity|]. split; reflexivity.
  - unfold Advanced.skipForward, Advanced.seekTo, Advanced.engine_seek, Advanced.videoRef.
    destruct er; cbn.
    + exists []. rewrite app_nil_r. repeat split.
    + eexists. split; [reflexivity|]. split; reflexivity.
  - exists []. rewrite app_nil_r. repeat split.
Qed.

Lemma leg_transport_effect (x : Q) (s : AdvancedLegacy.State) :
  let s' := AdvancedLegacy.set_lastTap 0 (LegacyTaps.transport x (LegacyTaps.cancel_tap s)) in
  exists sent,
    AdvancedLegacy.engine s' = AdvancedLegacy.engine s ++ sent
    /\ transported (third (width (AdvancedLegacy.window s)) x) (AdvancedLegacy.videoRef s)
                   (AdvancedLegacy.ps s) (AdvancedLegacy.ps s') sent.
Proof.
  unfold LegacyTaps.transport, LegacyTaps.cancel_tap, third, transported.
  destruct s as [p sc il er]; cbn.
  destruct (JS.lt x _); [|destruct (JS.gt x _)].
  - unfold AdvancedLegacy.skipBackward, AdvancedLegacy.seekTo, AdvancedLegacy.engine_seek,
      AdvancedLegacy.videoRef.
    destruct er; cbn.
    + exists []. rewrite app_nil_r. repeat split.
    + eexists. split; [reflexivity|]. split; reflexivity.
  - unfold AdvancedLegacy.skipForward, AdvancedLegacy.seekTo, AdvancedLegacy.engine_seek,
      AdvancedLegacy.videoRef.
    destruct er; cbn.
    + exists []. rewrite app_nil_r. repeat split.
    + eexists. split; [reflexivity|]. split; reflexivity.
  - exists []. rewrite app_nil_r. repeat split.
Qed.

Lemma leg_commit_logs o n :
  AdvancedLegacy.engine (AdvancedLegacy.commit o n) = AdvancedLegacy.engine n
  /\ AdvancedLegacy.ps (AdvancedLegacy.commit o n) = AdvancedLegacy.ps n.
Proof.
  unfold AdvancedLegacy.commit, when.
  destruct (AdvancedLegacy.autohide_deps_changed _ _),
           (AdvancedLegacy.progress_deps_changed _ _);
    exec_legacy; split; reflexivity.
Qed.

(** A press on visible controls is a call of [handleTap]. *)
Lemma adv_press_visible (x : Q) (s : Advanced.State) :
  Advanced.showControls s = true -> Advanced.press x s = Advanced.step (Advanced.Tap x) s.
Proof.
  intros V. unfold Advanced.press, Advanced.onPress. rewrite V. reflexivity.
Qed.

Lemma adv_double_tap (a : Advanced.State) (x1 x2 : Q)
                     (between after : list Advanced.Input) :
  Advanced.reachable a -> single_tap a ->
  untapped between = true ->
  (idle_time between < Advanced.DOUBLE_PRESS_DELAY)%N ->
  untapped after = true ->
  let a2 := Advanced.play between (Advanced.step (Advanced.Tap x1) a) in
  Advanced.handle (Advanced.Tap x2) a2
  = Advanced.set_lastTap 0 (AdvancedTaps.transport x2 (AdvancedTaps.cancel_tap a2))
  /\ AdvancedTaps.toggles a2 = AdvancedTaps.toggles a
  /\ AdvancedTaps.toggles (Advanced.play after (Advanced.step (Advanced.Tap x2) a2))
     = AdvancedTaps.toggles a.
Proof.
  intros Ra Si Ub Hg Ua a2.
  pose proof (in_sound _ (adv_reachable_inv a Ra)) as So.
  pose proof (AdvancedTaps.adv_first_tap x1 a So Si) as T1.
  pose proof (adv_step_now (Advanced.Tap x1) a) as N1.
  destruct (AdvancedTaps.adv_tapped_play _ _ _ _ between _ T1 Ub) as [T2 N2];
    [rewrite N1; lia|].
  fold a2 in T2, N2. rewrite N1 in N2.
  pose proof (so_now _ So) as Nw.
  assert (E : Advanced.handle (Advanced.Tap x2) a2
              = Advanced.set_lastTap 0
                  (AdvancedTaps.transport x2 (AdvancedTaps.cancel_tap a2))).
  { cbn [Advanced.handle]. apply AdvancedTaps.adv_handleTap_double.
    - rewrite (AdvancedTaps.tq_last _ _ _ _ _ T2). lia.
    - rewrite (AdvancedTaps.tq_last _ _ _ _ _ T2), N2. lia. }
  split; [exact E|]. split; [exact (AdvancedTaps.tq_toggles _ _ _ _ _ T2)|].
  apply (AdvancedTaps.adv_untapped_play (AdvancedTaps.toggles a) after); [|exact Ua].
  split.
  - unfold Advanced.step. apply adv_commit_no_tap. rewrite E.
    eapply AdvancedTaps.adv_double_no_tap; exact T2.
  - rewrite AdvancedTaps.adv_step_toggles. exact (AdvancedTaps.tq_toggles _ _ _ _ _ T2).
Qed.

Lemma leg_double_tap (l : AdvancedLegacy.State) (x1 x2 : Q)
                     (between after : list AdvancedLegacy.Input) :
  AdvancedLegacy.reachable l -> LegacyTaps.single_tap l ->
  LegacyTaps.untapped between = true ->
  (LegacyTaps.idle_time between < AdvancedLegacy.DOUBLE_PRESS_DELAY)%N ->
  LegacyTaps.untapped after = true ->
  let l2 := AdvancedLegacy.play between (AdvancedLegacy.step (AdvancedLegacy.Tap x1) l) in
  AdvancedLegacy.handle (AdvancedLegacy.Tap x2) l2
  = AdvancedLegacy.set_lastTap 0 (LegacyTaps.transport x2 (LegacyTaps.cancel_tap l2))
  /\ LegacyTaps.toggles l2 = LegacyTaps.toggles l
  /\ LegacyTaps.toggles
       (AdvancedLegacy.play after (AdvancedLegacy.step (AdvancedLegacy.Tap x2) l2))
     = LegacyTaps.toggles l.
Proof.
  intros Rl Si Ub Hg Ua l2.
  pose proof (LegacyTaps.leg_reachable_sound l Rl) as So.
  pose proof (LegacyTaps.leg_first_tap x1 l So Si) as T1.
  pose proof (LegacyTaps.leg_step_now (AdvancedLegacy.Tap x1) l) as N1.
  destruct (LegacyTaps.leg_tapped_play _ _ _ _ _ between _ T1 Ub) as [T2 N2];
    [rewrite N1; lia|].
  fold l2 in T2, N2. rewrite N1 in N2.
  pose proof (LegacyTaps.lo_now _ So) as Nw.
  assert (E : AdvancedLegacy.handle (AdvancedLegacy.Tap x2) l2
              = AdvancedLegacy.set_lastTap 0
                  (LegacyTaps.transport x2 (LegacyTaps.cancel_tap l2))).
  { cbn [AdvancedLegacy.handle]. apply LegacyTaps.leg_handleTap_double.
    - rewrite (LegacyTaps.tl_last _ _ _ _ _ _ T2). lia.
    - rewrite (LegacyTaps.tl_last _ _ _ _ _ _ T2), N2. lia. }
  split; [exact E|]. split; [exact (LegacyTaps.tl_toggles _ _ _ _ _ _ T2)|].
  apply (LegacyTaps.leg_untapped_play (LegacyTaps.toggles l) after); [|exact Ua].
  split.
  - unfold AdvancedLegacy.step. apply LegacyTaps.leg_commit_no_tap. rewrite E.
    eapply LegacyTaps.leg_double_no_tap; exact T2.
  - rewrite LegacyTaps.leg_step_toggles.
    exact (LegacyTaps.tl_toggles _ _ _ _ _ _ T2).
Qed.

Lemma leg_reachable_loaded : AdvancedLegacy.reachable legacy_loaded.
Proof.
  apply AdvancedLegacy.reach_step, AdvancedLegacy.reach_mount. reflexivity.
Qed.

(** Claim C7, for presses that reach [handleTap].  In the earlier
    revision of AdvancedVideoPlayer (window 300 ms) every press on the
    video area does; in AdvancedVideoPlayer (window 250 ms) a press does
    while the controls are visible.  From a reachable state, let a first
    press be followed by a second press at [x2], with any events other
    than calls of [handleTap] in between and less idle time between the
    two than the window; in AdvancedVideoPlayer let the controls be
    visible at both presses.  Then the second press runs the transport
    command of the third of the screen that contains [x2]: in the left
    third the position goes back by 10 s, not below 0, and the engine is
    told to seek there; in the right third it goes forward by 10 s, not
    beyond the duration; in the middle third [isPlaying] flips.  The
    single-tap callback that toggles the controls does not run: not
    between the two presses, and not in any scenario without further
    calls of [handleTap] that follows the second one. *)
Theorem double_tap_consumed
  (a : Advanced.State) (l : AdvancedLegacy.State) (x1 x2 : Q)
  (between after : list Advanced.Input)
  (between' after' : list AdvancedLegacy.Input) :
  Advanced.reachable a -> single_tap a ->
  untapped between = true ->
  (idle_time between < Advanced.DOUBLE_PRESS_DELAY)%N ->
  untapped after = true ->
  AdvancedLegacy.reachable l -> LegacyTaps.single_tap l ->
  LegacyTaps.untapped between' = true ->
  (LegacyTaps.idle_time between' < AdvancedLegacy.DOUBLE_PRESS_DELAY)%N ->
  LegacyTaps.untapped after' = true ->
  let a2 := Advanced.play between (Advanced.press x1 a) in
  let a3 := Advanced.press x2 a2 in
  let l2 := AdvancedLegacy.play between' (AdvancedLegacy.step (AdvancedLegacy.Tap x1) l) in
  let l3 := AdvancedLegacy.step (AdvancedLegacy.Tap x2) l2 in
  Advanced.showControls a = true -> Advanced.showControls a2 = true ->
  ((exists sent,
      Advanced.engine a3 = Advanced.engine a2 ++ sent
      /\ transported (third (width (Advanced.window a2)) x2) (Advanced.videoRef a2)
                     (Advanced.ps a2) (Advanced.ps a3) sent)
   /\ AdvancedTaps.toggles a2 = AdvancedTaps.toggles a
   /\ AdvancedTaps.toggles (Advanced.play after a3) = AdvancedTaps.toggles a)
  /\ ((exists sent,
         AdvancedLegacy.engine l3 = AdvancedLegacy.engine l2 ++ sent
         /\ transported (third (width (AdvancedLegacy.window l2)) x2)
                        (AdvancedLegacy.videoRef l2)
                        (AdvancedLegacy.ps l2) (AdvancedLegacy.ps l3) sent)
      /\ LegacyTaps.toggles l2 = LegacyTaps.toggles l
      /\ LegacyTaps.toggles (AdvancedLegacy.play after' l3) = LegacyTaps.toggles l).
Proof.
  intros Ra Sa Ub Hg Ua Rl Sl Ub' Hg' Ua' a2 a3 l2 l3 V1 V2. split.
  - assert (E2 : a2 = Advanced.play between (Advanced.step (Advanced.Tap x1) a)).
    { unfold a2. rewrite (adv_press_visible x1 a V1). reflexivity. }
    assert (E3 : a3 = Advanced.step (Advanced.Tap x2) a2).
    { unfold a3. apply adv_press_visible. exact V2. }
    destruct (adv_double_tap a x1 x2 between after Ra Sa Ub Hg Ua) as (H & T2 & T3).
    rewrite <- E2 in H, T2, T3. rewrite <- E3 in T3.
    split; [|split; [exact T2|exact T3]].
    rewrite E3. unfold Advanced.step.
    rewrite (sc_engine _ _ (adv_commit_core _ _)), (sc_ps _ _ (adv_commit_core _ _)), H.
    apply adv_transport_effect.
  - destruct (leg_double_tap l x1 x2 between' after' Rl Sl Ub' Hg' Ua') as (H & T2 & T3).
    fold l2 in H, T2, T3. fold l3 in T3.
    split; [|split; [exact T2|exact T3]].
    unfold l3, AdvancedLegacy.step.
    destruct (leg_commit_logs l2 (AdvancedLegacy.handle (AdvancedLegacy.Tap x2) l2))
      as (-> & ->).
    rewrite H. apply leg_transport_effect.
Qed.

Lemma double_tap_consumed_witness :
  let between := [Advanced.Ev (Advanced.OnProgress 25); Advanced.Wait 120;
                  Advanced.Ev (Advanced.OnBuffer false); Advanced.Wait 100] in
  let after := [Advanced.Wait 1000; Advanced.Ev Advanced.PressMute; Advanced.Wait 1000] in
  let between' := [AdvancedLegacy.Wait 280] in
  let after' := [AdvancedLegacy.Wait 1000; AdvancedLegacy.Ev AdvancedLegacy.PressMute] in
  let a2 := Advanced.play between (Advanced.press 180 advanced_loaded) in
  let a3 := Advanced.press 60 a2 in
  let l2 := AdvancedLegacy.play between'
              (AdvancedLegacy.step (AdvancedLegacy.Tap 180) legacy_loaded) in
  let l3 := AdvancedLegacy.step (AdvancedLegacy.Tap 60) l2 in
  ((exists sent,
      Advanced.engine a3 = Advanced.engine a2 ++ sent
      /\ transported (third (width (Advanced.window a2)) 60) (Advanced.videoRef a2)
                     (Advanced.ps a2) (Advanced.ps a3) sent)
   /\ AdvancedTaps.toggles a2 = AdvancedTaps.toggles advanced_loaded
   /\ AdvancedTaps.toggles (Advanced.play after a3) = AdvancedTaps.toggles advanced_loaded)
  /\ ((exists sent,
         AdvancedLegacy.engine l3 = AdvancedLegacy.engine l2 ++ sent
         /\ transported (third (width (AdvancedLegacy.window l2)) 60)
                        (AdvancedLegacy.videoRef l2)
                        (AdvancedLegacy.ps l2) (AdvancedLegacy.ps l3) sent)
      /\ LegacyTaps.toggles l2 = LegacyTaps.toggles legacy_loaded
      /\ LegacyTaps.toggles (AdvancedLegacy.play after' l3)
         = LegacyTaps.toggles legacy_loaded).
Proof.
  apply (double_tap_consumed advanced_loaded legacy_loaded 180 60).
  - exact adv_reachable_loaded.
  - vm_compute; reflexivity.
  - vm_compute; reflexivity.
  - apply N.ltb_lt. vm_compute; reflexivity.
  - vm_compute; reflexivity.
  - exact leg_reachable_loaded.
  - vm_compute; reflexivity.
  - vm_compute; reflexivity.
  - apply N.ltb_lt. vm_compute; reflexivity.
  - vm_compute; reflexivity.
  - vm_compute; reflexivity.
  - vm_compute; reflexivity.
Defined.

(** The same in numbers: 25 s into a video of 60 s, with the controls
    visible, a double tap in the left third sends one seek, to 15 s. *)
Example double_tap_seeks_back :
  let a2 := Advanced.play [Advanced.Ev (Advanced.OnProgress 25); Advanced.Wait 220]
              (Advanced.press 180 advanced_loaded) in
  let a3 := Advanced.press 60 a2 in
  Advanced.onPress 60 a2 = Advanced.Tap 60
  /\ Advanced.engine a3 = Advanced.engine a2 ++ [Seek (15000 / 1000)]
  /\ currentTime (Advanced.ps a3) == 15000
  /\ isPlaying (Advanced.ps a3) = isPlaying (Advanced.ps a2).
Proof.
  vm_compute. repeat split; reflexivity.
Qed.

(** The claim C7 fails for AdvancedVideoPlayer when a press of the double
    tap lands on hidden controls: that press goes to the emergency tap
    area and only shows the controls.  A video of 60 s plays and the
    controls have hidden themselves after 4 s; the user double-taps the
    left third, 100 ms between the presses.  The first press shows the
    controls, the second is a single tap for [handleTap]: no seek is
    sent, the player state is as before, and 250 ms later the single-tap
    callback runs and hides the controls.  Likewise when the controls
    hide themselves between the two presses: the first press, 3900 ms
    after the controls appeared, is a single tap; the second, 150 ms
    later, finds them hidden. *)
Lemma double_tap_on_hidden_controls :
  let s := elapse 4000 advanced_playing in
  let s1 := elapse 100 (Advanced.press 60 s) in
  let s3 := elapse 250 (Advanced.press 60 s1) in
  let v := elapse 3900 advanced_playing in
  let v1 := elapse 150 (Advanced.press 60 v) in
  let v3 := elapse 250 (Advanced.press 60 v1) in
  (Advanced.showControls s = false
   /\ Advanced.onPress 60 s = Advanced.EmergencyTap
   /\ Advanced.onPress 60 s1 = Advanced.Tap 60
   /\ Advanced.engine s3 = Advanced.engine s
   /\ Advanced.ps s3 = Advanced.ps s
   /\ AdvancedTaps.toggles s3 = S (AdvancedTaps.toggles s)
   /\ Advanced.showControls s3 = false)
  /\ (Advanced.onPress 60 v = Advanced.Tap 60
      /\ Advanced.onPress 60 v1 = Advanced.EmergencyTap
      /\ Advanced.engine v3 = Advanced.engine v
      /\ Advanced.ps v3 = Advanced.ps v
      /\ AdvancedTaps.toggles v3 = S (AdvancedTaps.toggles v)
      /\ Advanced.showControls v3 = false).
Proof.
  vm_compute. repeat split; reflexivity.
Qed.

End Gestures.

(** * Further properties of the components *)



(** ** AdvancedVideoPlayer: gestures, controls and errors *)

Module AdvancedBehaviour.
Import Timers Exec Scenarios AdvancedFacts AdvancedTimers AdvancedControls.
#[local] Existing Instance Advanced.component.

(** *** Brightness and volume *)

Definition levels_in_range (s : Advanced.State) : Prop :=
  (0.1 <= Advanced.brightness s /\ Advanced.brightness s <= 1)
  /\ (0 <= volume (Advanced.ps s) /\ volume (Advanced.ps s) <= 1).

Lemma adv_clamp_levels lo x : lo <= 1 ->
  lo <= JS.Math_max lo (JS.Math_min 1 x) /\ JS.Math_max lo (JS.Math_min 1 x) <= 1.
Proof.
  intros H. split; [apply JSFacts.max_ge_l|].
  apply JSFacts.max_le; [exact H|apply JSFacts.min_le_l].
Qed.

Lemma adv_levels_handle e s : levels_in_range s -> levels_in_range (Advanced.handle e s).
Proof.
  intros [B V]. destruct s; cbn in B, V.
  destruct e; exec_advanced; unfold levels_in_range; cbn;
    try (split; assumption);
    split; try assumption; apply adv_clamp_levels; discriminate.
Qed.

Lemma adv_levels_core s s' : same_core s' s -> levels_in_range s -> levels_in_range s'.
Proof.
  intros C H. unfold levels_in_range. rewrite (sc_brightness _ _ C), (sc_ps _ _ C). exact H.
Qed.

Lemma adv_run_core_levels a s : levels_in_range s -> levels_in_range (Advanced.run a s).
Proof.
  intros H. destruct a; exec_advanced; exact H.
Qed.

Lemma adv_levels_reachable s : Advanced.reachable s -> levels_in_range s.
Proof.
  induction 1 as [p w t0 H0|e s _ IH|s _ IH].
  - destruct p as [[|]]; exec_advanced; repeat split; cbn; discriminate.
  - apply (adv_levels_core _ _ (adv_commit_core _ _)), adv_levels_handle, IH.
  - revert IH. apply (TimerFacts.tick_inv levels_in_range).
    + intros x H. destruct x; exact H.
    + intros x t H _. cbn [fire Advanced.component].
      apply (adv_levels_core _ _ (adv_commit_core _ _)), adv_run_core_levels.
      destruct x; exact H.
Qed.

(** X1.  AdvancedVideoPlayer, vertical swipes ([onPanResponderMove]).
    Whatever the user swipes, the brightness stays between 0.1 and 1 and
    the volume between 0 and 1, so the volume handed to the video element
    is between 0 and 1 too.  The window has a positive height. *)
Theorem swipe_levels_stay_in_range (s : Advanced.State) :
  Advanced.reachable s -> 0 < height (Advanced.window s) ->
  (0.1 <= Advanced.brightness s /\ Advanced.brightness s <= 1)
  /\ (0 <= volume (Advanced.ps s) /\ volume (Advanced.ps s) <= 1)
  /\ (0 <= Advanced.video_volume s /\ Advanced.video_volume s <= 1).
Proof.
  intros R _. destruct (adv_levels_reachable s R) as [B V].
  split; [exact B|]. split; [exact V|].
  unfold Advanced.video_volume. destruct (isMuted (Advanced.ps s)); [|exact V].
  split; discriminate.
Qed.

Lemma swipe_levels_stay_in_range_witness :
  let s := Advanced.play
             [Advanced.Ev (Advanced.PanMove 300 0 (-2000));
              Advanced.Ev (Advanced.PanMove 10 0 5000)] advanced_loaded in
  (0.1 <= Advanced.brightness s /\ Advanced.brightness s <= 1)
  /\ (0 <= volume (Advanced.ps s) /\ volume (Advanced.ps s) <= 1)
  /\ (0 <= Advanced.video_volume s /\ Advanced.video_volume s <= 1).
Proof.
  apply swipe_levels_stay_in_range.
  - apply adv_reachable_play, adv_reachable_loaded.
  - vm_compute; reflexivity.
Defined.

(** *** Auto-hide *)

(** X2.  AdvancedVideoPlayer, auto-hide effect.  While playback is paused
    the controls never hide by themselves: from a reachable state with
    the controls visible, playback paused and no single tap in flight,
    they are still visible after any idle time. *)
Theorem controls_stay_while_paused (s : Advanced.State) (n : nat) :
  Advanced.reachable s -> Advanced.showControls s = true ->
  isPlaying (Advanced.ps s) = false -> no_tap_pending s ->
  Advanced.showControls (elapse n s) = true
  /\ isPlaying (Advanced.ps (elapse n s)) = false.
Proof.
  intros R V P Nt.
  assert (H : shown (elapse n s)).
  { apply adv_shown_elapse. split; auto using adv_reachable_inv. }
  split; [exact (sh_visible _ H)|exact (sh_paused _ H)].
Qed.

Lemma controls_stay_while_paused_witness :
  Advanced.showControls (elapse 4500 advanced_loaded) = true
  /\ isPlaying (Advanced.ps (elapse 4500 advanced_loaded)) = false.
Proof.
  apply controls_stay_while_paused.
  - exact adv_reachable_loaded.
  - vm_compute; reflexivity.
  - vm_compute; reflexivity.
  - apply adv_no_tap_pending_check. vm_compute; reflexivity.
Defined.

(** Rendering a state whose effect dependencies did not change runs no
    effect. *)
Lemma adv_commit_unchanged o n :
  Advanced.showControls o = Advanced.showControls n ->
  Advanced.ps o = Advanced.ps n ->
  Advanced.showSpeedMenu o = Advanced.showSpeedMenu n ->
  Advanced.showQualityMenu o = Advanced.showQualityMenu n ->
  Advanced.commit o n = n.
Proof.
  intros E1 E2 E3 E4. unfold Advanced.commit, Advanced.fallback_deps_changed,
    Advanced.autohide_deps_changed, Advanced.progress_deps_changed, JS.same.
  rewrite E1, E2, E3, E4, !Bool.eqb_reflx, !Qeq_bool_refl. reflexivity.
Qed.

(** The only pending timer is [T]. *)
Record lone (T : timer Advanced.Action) (s : Advanced.State) : Prop := {
  lo_some : In T (pending (Advanced.clock s));
  lo_all : forall t, In t (pending (Advanced.clock s)) -> t = T
}.

Lemma adv_lone_take T s :
  lone T s -> pending (take T (clk s)) = [].
Proof.
  intros [_ A]. cbn. induction (pending (Advanced.clock s)) as [|t l IH]; [reflexivity|].
  cbn. rewrite (A t (or_introl eq_refl)), Nat.eqb_refl. cbn.
  apply IH. intros u Hu. apply A. right; exact Hu.
Qed.

Lemma adv_lone_lookup T s : lone T s -> exists t, lookup (t_id T) (clk s) = Some t.
Proof.
  intros [I _]. destruct (lookup (t_id T) (clk s)) as [u|] eqn:E; [eauto|].
  exfalso. unfold lookup in E. pose proof (find_none _ _ E _ I) as F.
  cbn in F. rewrite Nat.eqb_refl in F. discriminate.
Qed.

Lemma adv_lone_advance T s : lone T s -> lone T (with_clk (advance (clk s)) s).
Proof.
  intros [I A]. destruct s; split; assumption.
Qed.

(** Controls visible, playing, nothing open: they hide when [i] is due. *)
Record hiding (i : nat) (D : N) (s : Advanced.State) : Prop := {
  hg_visible : Advanced.showControls s = true;
  hg_playing : isPlaying (Advanced.ps s) = true;
  hg_lone : lone (mkTimer i D (Advanced.AutoHide true false false)) s
}.

(** Controls hidden and no timer pending. *)
Record settled (s : Advanced.State) : Prop := {
  se_hidden : Advanced.showControls s = false;
  se_playing : isPlaying (Advanced.ps s) = true;
  se_none : pending (Advanced.clock s) = []
}.

Lemma adv_commit_playing_pending o n t :
  Advanced.showControls n = false -> isPlaying (Advanced.ps n) = true ->
  In t (pending (Advanced.clock (Advanced.commit o n))) ->
  In t (pending (Advanced.clock n)).
Proof.
  intros Hs Hi. unfold Advanced.commit.
  rewrite (proj1 (adv_progress_frame _ _)).
  destruct n as [[]]; cbn in Hs, Hi; subst. unfold when.
  destruct (Advanced.fallback_deps_changed _ _), (Advanced.autohide_deps_changed _ _);
    exec_advanced; intros H; in_cases H; auto.
Qed.

Lemma adv_commit_settled o n :
  pending (Advanced.clock n) = [] -> Advanced.showControls n = false ->
  isPlaying (Advanced.ps n) = true ->
  pending (Advanced.clock (Advanced.commit o n)) = [].
Proof.
  intros Hp Hs Hi.
  destruct (pending (Advanced.clock (Advanced.commit o n))) as [|t l] eqn:E; [reflexivity|].
  exfalso. assert (H : In t (pending (Advanced.clock (Advanced.commit o n)))).
  { rewrite E. left; reflexivity. }
  apply adv_commit_playing_pending in H; auto. rewrite Hp in H. exact H.
Qed.

Lemma adv_hiding_fire i D s t :
  hiding i D s -> In t (pending (clk s)) ->
  settled (fire (t_act t) (with_clk (take t (clk s)) s)).
Proof.
  intros [V P L] Ht. rewrite (lo_all _ _ L t Ht). cbn [t_act].
  split.
  - rewrite adv_fire_showControls. reflexivity.
  - rewrite adv_fire_ps. destruct s; exact P.
  - cbn [fire Advanced.component]. apply adv_commit_settled.
    + cbn [Advanced.run]. cbn. pose proof (adv_lone_take _ _ L) as E. cbn in E.
      destruct s; exact E.
    + reflexivity.
    + destruct s; exact P.
Qed.

Lemma adv_hiding_advance i D s : hiding i D s -> hiding i D (with_clk (advance (clk s)) s).
Proof.
  intros [V P L]. destruct s; split; try assumption. split; apply L.
Qed.

Lemma adv_settled_advance s : settled s -> settled (with_clk (advance (clk s)) s).
Proof.
  intros [V P L]. destruct s; split; assumption.
Qed.

Lemma adv_hiding_elapse i D n s :
  hiding i D s -> (now (Advanced.clock s) + N.of_nat n < D)%N -> hiding i D (elapse n s).
Proof.
  intros Hs Hk.
  apply (TimerFacts.elapse_armed_early (hiding i D) i D); try assumption.
  - intros s' t H' Ht Ei. rewrite (lo_all _ _ (hg_lone _ _ _ H') t Ht). reflexivity.
  - apply adv_hiding_advance.
  - intros s' t H' Ht Ne. exfalso. apply Ne.
    rewrite (lo_all _ _ (hg_lone _ _ _ H') t Ht). reflexivity.
Qed.

Lemma adv_hiding_hides i D n s :
  hiding i D s -> (0 < n)%nat -> (D <= now (Advanced.clock s) + N.of_nat n)%N ->
  settled (elapse n s).
Proof.
  intros Hs Hn Hd.
  apply (TimerFacts.elapse_armed_overdue (hiding i D) settled i D); try assumption.
  - intros s' H'. apply (adv_lone_lookup _ _ (hg_lone _ _ _ H')).
  - intros s' t H' Ht Ei. rewrite (lo_all _ _ (hg_lone _ _ _ H') t Ht). reflexivity.
  - apply adv_hiding_advance.
  - apply adv_settled_advance.
  - intros s' t H' Ht Ne. exfalso. apply Ne.
    rewrite (lo_all _ _ (hg_lone _ _ _ H') t Ht). reflexivity.
  - intros s' t H' Ht _. eapply adv_hiding_fire; eassumption.
  - intros s' t H' Ht _. exfalso. cbn in Ht. rewrite (se_none _ H') in Ht. exact Ht.
Qed.

(** Pressing play with the menus closed leaves one timer: the auto-hide. *)
Lemma adv_play_arms s :
  sound s -> isPlaying (Advanced.ps s) = false ->
  Advanced.showSpeedMenu s = false -> Advanced.showQualityMenu s = false ->
  no_tap_pending s ->
  hiding (next_id (Advanced.clock s)) (now (Advanced.clock s) + 4000)
         (Advanced.step Advanced.PressPlayPause s).
Proof.
  intros [Wi Wu Wc Wt Wv Dct Dcv Dtv Ka Kf Kt Nw] P Sm Qm Nt.
  unfold Advanced.step.
  pose proof (adv_commit_core s (Advanced.handle Advanced.PressPlayPause s)) as C.
  split.
  - rewrite (sc_showControls _ _ C). reflexivity.
  - rewrite (sc_ps _ _ C). cbn. rewrite P. reflexivity.
  - unfold no_tap_pending in Nt. clear C.
    split; unfold Advanced.commit;
      rewrite (proj1 (adv_progress_frame _ _));
      destruct s as [[] []]; cbn in *; subst; autounfold with deps;
      exec_advanced; try find_in;
      intros u Hu; in_cases Hu; neq_ids; cbn in *;
      try reflexivity; exfalso;
      pose proof (Nt _ Hu) as Nu;
      destruct (t_act u) eqn:Eu; try discriminate;
      use_member; use_kind; intuition congruence.
Qed.

(** X3.  AdvancedVideoPlayer, auto-hide effect.  Pressing play with both
    menus closed starts a 4 s countdown: the controls are visible during
    the first 3999 ms and hidden from 4000 ms on, for as long as nothing
    else happens. *)
Theorem controls_hide_four_seconds_after_play (s : Advanced.State) (k n : nat) :
  Advanced.reachable s -> isPlaying (Advanced.ps s) = false ->
  Advanced.showSpeedMenu s = false -> Advanced.showQualityMenu s = false ->
  no_tap_pending s ->
  (N.of_nat k < 4000)%N -> (4000 <= N.of_nat n)%N ->
  isPlaying (Advanced.ps (Advanced.step Advanced.PressPlayPause s)) = true
  /\ Advanced.showControls (elapse k (Advanced.step Advanced.PressPlayPause s)) = true
  /\ Advanced.showControls (elapse n (Advanced.step Advanced.PressPlayPause s)) = false.
Proof.
  intros R P Sm Qm Nt Hk Hn.
  pose proof (adv_play_arms s (in_sound _ (adv_reachable_inv _ R)) P Sm Qm Nt) as H.
  pose proof (adv_step_now Advanced.PressPlayPause s) as Nw.
  split; [exact (hg_playing _ _ _ H)|split].
  - apply (hg_visible (next_id (Advanced.clock s)) (now (Advanced.clock s) + 4000)%N).
    apply adv_hiding_elapse; [exact H|]. rewrite Nw. lia.
  - apply se_hidden. eapply adv_hiding_hides; [exact H|lia|]. rewrite Nw. lia.
Qed.

Lemma controls_hide_four_seconds_after_play_witness :
  isPlaying (Advanced.ps (Advanced.step Advanced.PressPlayPause advanced_loaded)) = true
  /\ Advanced.showControls
       (elapse 3999 (Advanced.step Advanced.PressPlayPause advanced_loaded)) = true
  /\ Advanced.showControls
       (elapse 4000 (Advanced.step Advanced.PressPlayPause advanced_loaded)) = false.
Proof.
  apply controls_hide_four_seconds_after_play.
  - exact adv_reachable_loaded.
  - vm_compute; reflexivity.
  - vm_compute; reflexivity.
  - vm_compute; reflexivity.
  - apply adv_no_tap_pending_check. vm_compute; reflexivity.
  - apply N.ltb_lt. vm_compute; reflexivity.
  - apply N.leb_le. vm_compute; reflexivity.
Defined.

(** *** Menus *)

(** Controls visible with a menu open: no pending callback can hide them. *)
Record pinned (s : Advanced.State) : Prop := {
  pi_visible : Advanced.showControls s = true;
  pi_menu : Advanced.showSpeedMenu s || Advanced.showQualityMenu s = true;
  pi_all : forall t, In t (pending (Advanced.clock s)) ->
           match t_act t with
           | Advanced.AutoHide _ a b =>
               a = Advanced.showSpeedMenu s /\ b = Advanced.showQualityMenu s
           | Advanced.ForceShow => True
           | Advanced.TapToggle => False
           end
}.

Lemma adv_pinned_take s t :
  pinned s -> pinned (with_clk (take t (clk s)) s).
Proof.
  intros [V M A]. destruct s; split; try assumption.
  cbn in *. intros u Hu. apply filter_In in Hu. apply A, Hu.
Qed.

Lemma adv_pinned_fire s t :
  pinned s -> In t (pending (clk s)) ->
  fire (t_act t) (with_clk (take t (clk s)) s) = with_clk (take t (clk s)) s.
Proof.
  intros [V M A] Ht. specialize (A t Ht). cbn [fire Advanced.component].
  assert (E : Advanced.run (t_act t) (with_clk (take t (clk s)) s)
              = with_clk (take t (clk s)) s).
  { destruct (t_act t) as [|p a b|]; cbn [Advanced.run].
    - destruct s; cbn in *; subst; reflexivity.
    - destruct A as [-> ->].
      destruct p; destruct s as [? ? ? ? ? [] []]; cbn in *;
        try discriminate; reflexivity.
    - destruct A. }
  rewrite E. apply adv_commit_unchanged; reflexivity.
Qed.

Lemma adv_pinned_elapse n s : pinned s -> pinned (elapse n s).
Proof.
  revert n s. apply (TimerFacts.elapse_inv pinned).
  apply (TimerFacts.tick_inv pinned).
  - intros s [V M A]. destruct s; split; assumption.
  - intros s t H Ht. rewrite adv_pinned_fire by assumption.
    apply adv_pinned_take, H.
Qed.

Definition opens_menu (e : Advanced.Event) (s : Advanced.State) : Prop :=
  (e = Advanced.OpenSpeedMenu /\ Advanced.showSpeedMenu s = false)
  \/ (e = Advanced.OpenQualityMenu /\ Advanced.showQualityMenu s = false).

Lemma adv_menu_pins e s :
  sound s -> Advanced.showControls s = true -> no_tap_pending s ->
  opens_menu e s -> pinned (Advanced.step e s).
Proof.
  intros [Wi Wu Wc Wt Wv Dct Dcv Dtv Ka Kf Kt Nw] V Nt O.
  unfold Advanced.step.
  pose proof (adv_commit_core s (Advanced.handle e s)) as C.
  split.
  - rewrite (sc_showControls _ _ C). destruct O as [[-> _]|[-> _]]; exact V.
  - rewrite (sc_showSpeedMenu _ _ C), (sc_showQualityMenu _ _ C).
    destruct O as [[-> _]|[-> _]]; cbn; [reflexivity|apply orb_true_r].
  - rewrite (sc_showSpeedMenu _ _ C), (sc_showQualityMenu _ _ C). clear C.
    unfold no_tap_pending in Nt. unfold Advanced.commit.
    rewrite (proj1 (adv_progress_frame _ _)).
    destruct O as [[-> O]|[-> O]];
      destruct s as [[[] ? ? ? ? ?] ?]; cbn in *; subst; autounfold with deps;
      exec_advanced;
      intros u Hu; in_cases Hu; neq_ids; cbn in *;
      try (split; reflexivity);
      pose proof (Nt _ Hu) as Nu;
      destruct (t_act u) eqn:Eu; try discriminate; try exact I;
      exfalso; use_member; use_kind; intuition congruence.
Qed.

(** X4.  AdvancedVideoPlayer, auto-hide effect.  Opening the speed menu
    or the quality menu while the controls are visible suspends the
    auto-hide: the controls stay visible for any idle time, also during
    playback. *)
Theorem open_menu_keeps_controls (e : Advanced.Event) (s : Advanced.State) (n : nat) :
  Advanced.reachable s -> Advanced.showControls s = true -> no_tap_pending s ->
  opens_menu e s ->
  Advanced.showControls (elapse n (Advanced.step e s)) = true.
Proof.
  intros R V Nt O. apply pi_visible, adv_pinned_elapse, adv_menu_pins; try assumption.
  apply in_sound, adv_reachable_inv, R.
Qed.

Lemma open_menu_keeps_controls_witness :
  Advanced.showControls (elapse 4500 (Advanced.step Advanced.OpenSpeedMenu advanced_playing))
  = true.
Proof.
  apply open_menu_keeps_controls.
  - apply Advanced.reach_step, adv_reachable_loaded.
  - vm_compute; reflexivity.
  - apply adv_no_tap_pending_check. vm_compute; reflexivity.
  - left. split; vm_compute; reflexivity.
Defined.

(** *** Unmounting *)





(** *** The error screen *)

(** The inputs other than the two that leave the error screen: a load
    event of the engine and the Retry button. *)
Definition keeps_error (i : Advanced.Input) : bool :=
  match i with
  | Advanced.Ev (Advanced.OnLoad _) | Advanced.Ev Advanced.PressRetry => false
  | _ => true
  end.

(** The error screen is up, and the engine has received [cmds]. *)
Record failed (cmds : list EngineCmd) (s : Advanced.State) : Prop := {
  fa_error : Advanced.error s <> None;
  fa_engine : Advanced.engine s = cmds
}.

Lemma adv_failed_handle cmds e s :
  failed cmds s -> keeps_error (Advanced.Ev e) = true -> failed cmds (Advanced.handle e s).
Proof.
  intros [E G] K. destruct s; cbn in *. destruct error as [msg|]; [|congruence].
  destruct e; try discriminate; exec_advanced;
    try (unfold Advanced.videoRef in *; cbn in *; discriminate);
    split; cbn; congruence.
Qed.

Lemma adv_failed_core cmds s s' : same_core s' s -> failed cmds s -> failed cmds s'.
Proof.
  intros C [E G]. split.
  - rewrite (sc_error _ _ C). exact E.
  - rewrite (sc_engine _ _ C). exact G.
Qed.

Lemma adv_failed_run cmds a s : failed cmds s -> failed cmds (Advanced.run a s).
Proof.
  intros [E G]. destruct s; destruct a; exec_advanced; split; assumption.
Qed.

Lemma adv_failed_tick cmds s : failed cmds s -> failed cmds (tick s).
Proof.
  apply (TimerFacts.tick_inv (failed cmds)).
  - intros s' [E G]. destruct s'; split; assumption.
  - intros s' t H Ht. cbn [fire Advanced.component].
    apply (adv_failed_core _ _ _ (adv_commit_core _ _)), adv_failed_run.
    destruct H as [E G]. destruct s'; split; assumption.
Qed.

Lemma adv_failed_play cmds tr : forall s,
  failed cmds s -> forallb keeps_error tr = true -> failed cmds (Advanced.play tr s).
Proof.
  induction tr as [|[e|n] tr IH]; intros s F K; cbn [forallb] in K; [exact F| |];
    apply andb_true_iff in K; destruct K as [Ke K]; cbn [Advanced.play fold_left];
    apply IH; try assumption.
  - unfold Advanced.input, Advanced.step.
    apply (adv_failed_core _ _ _ (adv_commit_core _ _)), adv_failed_handle; assumption.
  - cbn [Advanced.input]. revert F. apply TimerFacts.elapse_inv, adv_failed_tick.
Qed.

(** X6.  AdvancedVideoPlayer, error screen.  Once an error is set (also
    "No internet connection"), it stays until the engine reports a load
    or the user presses Retry: the connection coming back does not
    clear it, the video element stays unmounted and no command reaches
    the engine.  Retry clears it. *)
Theorem error_stays_until_retry (s : Advanced.State) (tr : list Advanced.Input) :
  Advanced.error s <> None -> forallb keeps_error tr = true ->
  Advanced.error (Advanced.play tr s) <> None
  /\ Advanced.videoRef (Advanced.play tr s) = false
  /\ Advanced.engine (Advanced.play tr s) = Advanced.engine s
  /\ Advanced.error (Advanced.step Advanced.PressRetry (Advanced.play tr s)) = None
  /\ Advanced.engine (Advanced.step Advanced.PressRetry (Advanced.play tr s))
     = Advanced.engine s.
Proof.
  intros E K.
  destruct (adv_failed_play (Advanced.engine s) tr s) as [E' G']; [split; auto|exact K|].
  split; [exact E'|]. split; [|split; [exact G'|]].
  - unfold Advanced.videoRef.
    destruct (Advanced.error (Advanced.play tr s)) eqn:Ee; [reflexivity|congruence].
  - unfold Advanced.step.
    rewrite (sc_error _ _ (adv_commit_core _ _)), (sc_engine _ _ (adv_commit_core _ _)).
    unfold Advanced.handle, Advanced.retryVideo, Advanced.videoRef.
    destruct (Advanced.error (Advanced.play tr s)) eqn:Ee; [|congruence].
    split; [reflexivity|exact G'].
Qed.

Lemma error_stays_until_retry_witness :
  let s := Advanced.step (Advanced.NetInfo false "none") advanced_playing in
  let tr := [Advanced.Wait 500; Advanced.Ev (Advanced.NetInfo true "wifi");
             Advanced.Ev Advanced.PressPlayPause; Advanced.Wait 4500] in
  Advanced.error (Advanced.play tr s) <> None
  /\ Advanced.videoRef (Advanced.play tr s) = false
  /\ Advanced.engine (Advanced.play tr s) = Advanced.engine s
  /\ Advanced.error (Advanced.step Advanced.PressRetry (Advanced.play tr s)) = None
  /\ Advanced.engine (Advanced.step Advanced.PressRetry (Advanced.play tr s))
     = Advanced.engine s.
Proof.
  apply error_stays_until_retry.
  - vm_compute; discriminate.
  - vm_compute; reflexivity.
Defined.

(** *** Skipping and swiping *)

Lemma adv_step_ps e s : Advanced.ps (Advanced.step e s) = Advanced.ps (Advanced.handle e s).
Proof.
  unfold Advanced.step. apply (sc_ps _ _ (adv_commit_core _ _)).
Qed.

Lemma adv_step_engine e s :
  Advanced.engine (Advanced.step e s) = Advanced.engine (Advanced.handle e s).
Proof.
  unfold Advanced.step. apply (sc_engine _ _ (adv_commit_core _ _)).
Qed.

Lemma adv_skipForward_time s :
  currentTime (Advanced.ps (Advanced.step Advanced.PressSkipForward s))
  = JS.clamp (JS.Math_min (currentTime (Advanced.ps s) + 10000) (duration (Advanced.ps s)))
             (duration (Advanced.ps s)).
Proof.
  rewrite adv_step_ps. reflexivity.
Qed.

Lemma adv_skipBackward_time s :
  currentTime (Advanced.ps (Advanced.step Advanced.PressSkipBackward s))
  = JS.clamp (JS.Math_max (currentTime (Advanced.ps s) - 10000) 0)
             (duration (Advanced.ps s)).
Proof.
  rewrite adv_step_ps. reflexivity.
Qed.

(** Comparisons between a position and the one a skip replaces it with.
    None of them depends on the sum or the difference being exact: each
    follows from [c - 10000 <= c <= c + 10000] and the order of the
    clamps. *)
Lemma adv_skip_forward_order c d :
  0 <= d ->
  let f := JS.clamp (JS.Math_min (c + 10000) d) d in
  (0 <= f /\ f <= d) /\ (c <= d -> c <= f) /\ (d <= c + 10000 -> f == d).
Proof.
  intros D. unfold JS.clamp, JS.Math_max, JS.Math_min.
  repeat destruct (Qlt_le_dec _ _); repeat split; intros; lra.
Qed.

Lemma adv_skip_backward_order c d :
  0 <= d ->
  let b := JS.clamp (JS.Math_max (c - 10000) 0) d in
  (0 <= b /\ b <= d) /\ (0 <= c -> b <= c) /\ (c <= 10000 -> b == 0).
Proof.
  intros D. unfold JS.clamp, JS.Math_max, JS.Math_min.
  repeat destruct (Qlt_le_dec _ _); repeat split; intros; lra.
Qed.

(** X7.  AdvancedVideoPlayer, skip buttons.  With a duration that is not
    negative, a skip never leaves [0, duration].  Skipping forward from a
    position that is not beyond the duration never moves the position
    back, and lands on the duration when less than 10 s remain; skipping
    back from a position that is not negative never moves it forward,
    and lands on 0 within the first 10 s. *)
Theorem skip_buttons_stay_in_range (s : Advanced.State) :
  0 <= duration (Advanced.ps s) ->
  let c := currentTime (Advanced.ps s) in
  let d := duration (Advanced.ps s) in
  let f := currentTime (Advanced.ps (Advanced.step Advanced.PressSkipForward s)) in
  let b := currentTime (Advanced.ps (Advanced.step Advanced.PressSkipBackward s)) in
  (0 <= f /\ f <= d) /\ (0 <= b /\ b <= d)
  /\ (c <= d -> c <= f) /\ (d <= c + 10000 -> f == d)
  /\ (0 <= c -> b <= c) /\ (c <= 10000 -> b == 0).
Proof.
  intros Hd c d f b. unfold f, b. rewrite adv_skipForward_time, adv_skipBackward_time.
  destruct (adv_skip_forward_order c d Hd) as (F1 & F2 & F3).
  destruct (adv_skip_backward_order c d Hd) as (B1 & B2 & B3).
  split; [exact F1|]. split; [exact B1|]. split; [exact F2|]. split; [exact F3|].
  split; [exact B2|exact B3].
Qed.

Lemma skip_buttons_stay_in_range_witness :
  let s := Advanced.step (Advanced.OnProgress 55) advanced_loaded in
  currentTime (Advanced.ps (Advanced.step Advanced.PressSkipForward s))
  == duration (Advanced.ps s)
  /\ currentTime (Advanced.ps (Advanced.step Advanced.PressSkipBackward advanced_loaded))
     == 0.
Proof.
  cbv zeta. split.
  - apply (skip_buttons_stay_in_range
             (Advanced.step (Advanced.OnProgress 55) advanced_loaded));
      vm_compute; discriminate.
  - apply (skip_buttons_stay_in_range advanced_loaded); vm_compute; discriminate.
Defined.

(** Swipes.  [seekDelta] is the horizontal travel as a fraction of the
    screen width, times 30 s. *)
Definition swipe_seeks (dx dy : Q) : bool :=
  JS.gt (Qabs dx) 30 && JS.gt (Qabs dx) (Qabs dy).

Lemma adv_swipe_delta_sign dx w :
  0 < w -> (0 <= dx -> 0 <= dx / w * 30000) /\ (dx <= 0 -> dx / w * 30000 <= 0).
Proof.
  intros W. split; intros H.
  - apply Qmult_le_0_compat; [|discriminate].
    apply Qle_shift_div_l; [exact W|]. rewrite Qmult_0_l. exact H.
  - apply Qle_trans with (0 * 30000); [|rewrite Qmult_0_l; apply Qle_refl].
    apply Qmult_le_compat_r; [|discriminate].
    apply Qle_shift_div_r; [exact W|]. rewrite Qmult_0_l. exact H.
Qed.

Lemma adv_swipe_target c d x :
  let p := JS.Math_max 0 (JS.Math_min (JS.Math_max 0 (JS.Math_min d (c + x))) d) in
  0 <= p /\ (0 <= d -> p <= d)
  /\ (0 <= c -> c <= d -> (0 <= x -> c <= p) /\ (x <= 0 -> p <= c)).
Proof.
  unfold JS.Math_max, JS.Math_min.
  repeat destruct (Qlt_le_dec _ _); repeat split; intros; lra.
Qed.

(** X8.  AdvancedVideoPlayer, end of a swipe ([onPanResponderRelease]).
    A swipe that is mostly vertical, or not longer than 30 points, never
    seeks: player state and engine are left alone.  A horizontal swipe
    sets the position to some [p] that is not negative, and not beyond
    the duration when the duration is not negative, and sends the seek
    to [p] when the video element is mounted.  When the window width is
    positive and the position the swipe starts from lies within
    [0, duration], a swipe to the right never seeks to an earlier
    position and a swipe to the left never to a later one. *)
Theorem swipe_seek_only_when_horizontal (dx dy : Q) (s : Advanced.State) :
  let s' := Advanced.step (Advanced.PanRelease dx dy) s in
  let c := currentTime (Advanced.ps s) in
  let d := duration (Advanced.ps s) in
  if swipe_seeks dx dy
  then exists p,
         Advanced.engine s'
         = Advanced.engine s ++ (if Advanced.videoRef s then [Seek (p / 1000)] else [])
         /\ currentTime (Advanced.ps s') = p
         /\ 0 <= p /\ (0 <= d -> p <= d)
         /\ (0 < width (Advanced.window s) -> 0 <= c -> c <= d ->
             (0 <= dx -> c <= p) /\ (dx <= 0 -> p <= c))
  else Advanced.engine s' = Advanced.engine s /\ Advanced.ps s' = Advanced.ps s.
Proof.
  intros s' c d. unfold s'. rewrite adv_step_ps, adv_step_engine.
  unfold swipe_seeks, Advanced.handle, Advanced.onPanResponderRelease.
  destruct (JS.gt (Qabs dx) 30 && JS.gt (Qabs dx) (Qabs dy)); cbn [when].
  - eexists. split; [|split; [reflexivity|]].
    + cbn. unfold Advanced.engine_seek, Advanced.videoRef. cbn.
      destruct (Advanced.error s); cbn; rewrite ?app_nil_r; reflexivity.
    + fold c d.
      destruct (adv_swipe_target c d (dx / width (Advanced.window s) * 30000))
        as (P0 & P1 & P2).
      split; [exact P0|]. split; [exact P1|].
      intros W C0 C1. destruct (adv_swipe_delta_sign dx _ W) as [X0 X1].
      destruct (P2 C0 C1) as [Q0 Q1]. split; auto.
  - split; reflexivity.
Qed.

Lemma swipe_seek_only_when_horizontal_witness :
  exists p,
    Advanced.engine (Advanced.step (Advanced.PanRelease 120 10) advanced_loaded)
    = Advanced.engine advanced_loaded ++ [Seek (p / 1000)]
    /\ currentTime (Advanced.ps (Advanced.step (Advanced.PanRelease 120 10) advanced_loaded))
       = p
    /\ currentTime (Advanced.ps advanced_loaded) <= p
    /\ p <= duration (Advanced.ps advanced_loaded).
Proof.
  destruct (swipe_seek_only_when_horizontal 120 10 advanced_loaded)
    as (p & A & B & _ & C & D).
  exists p. split; [exact A|]. split; [exact B|]. split.
  - apply D; vm_compute; first [reflexivity|discriminate].
  - apply C. vm_compute; discriminate.
Defined.

End AdvancedBehaviour.

(** ** AdvancedVideoPlayer, earlier revision: hidden controls *)

Module LegacyBehaviour.
Import Timers Exec Scenarios LegacyTaps.
#[local] Existing Instance AdvancedLegacy.component.





Lemma leg_commit_flags o n :
  AdvancedLegacy.showControls (AdvancedLegacy.commit o n) = AdvancedLegacy.showControls n
  /\ AdvancedLegacy.ps (AdvancedLegacy.commit o n) = AdvancedLegacy.ps n.
Proof.
  unfold AdvancedLegacy.commit, when.
  destruct (AdvancedLegacy.autohide_deps_changed _ _),
           (AdvancedLegacy.progress_deps_changed _ _);
    exec_legacy; split; reflexivity.
Qed.










End LegacyBehaviour.

(** ** ProVideoPlayer: the network error and throttled progress *)

Module ProBehaviour.
Import Timers Exec Scenarios ProFacts.
#[local] Existing Instance Pro.component.






(** *** Throttled progress *)

Definition is_progress (a : Pro.Action) : bool :=
  match a with Pro.ProgressUpdate _ _ => true | _ => false end.

(** No progress update is waiting; the host has been told [H]. *)
Record told (H : list (Q * Q)) (d : Q) (s : Pro.State) : Prop := {
  t_wf : wf s;
  t_host : Pro.hostProgress s = H;
  t_callback : Pro.onProgressCallback (Pro.props s) = true;
  t_free : Pro.isSeeking s = false;
  t_duration : Pro.duration s = d;
  t_none : forall t, In t (pending (Pro.clock s)) -> is_progress (t_act t) = false
}.

(** Exactly one progress update is waiting: the timer [i], due at [D]. *)
Record pending_update (H : list (Q * Q)) (d : Q) (i : nat) (D : N) (v : Q)
                      (s : Pro.State) : Prop := {
  p_wf : wf s;
  p_host : Pro.hostProgress s = H;
  p_callback : Pro.onProgressCallback (Pro.props s) = true;
  p_free : Pro.isSeeking s = false;
  p_duration : Pro.duration s = d;
  p_in : In (mkTimer i D (Pro.ProgressUpdate v d)) (pending (Pro.clock s));
  p_uniq : forall t, In t (pending (Pro.clock s)) -> t_id t = i ->
           t = mkTimer i D (Pro.ProgressUpdate v d);
  p_only : forall t, In t (pending (Pro.clock s)) -> is_progress (t_act t) = true ->
           t_id t = i;
  p_ref : Pro.progressUpdateTimeoutRef s = Some i;
  p_controls : Pro.controlsTimeoutRef s <> Some i;
  p_seek : Pro.seekTimeoutRef s <> Some i;
  p_animation : Pro.controlsAnimation s <> Some i
}.

Ltac told_clauses := split; [split| | | | |].
Ltac update_clauses := split; [split| | | | | | | | | | |].

Lemma pro_told_commit H d o n : told H d n -> told H d (Pro.commit o n).
Proof.
  intros [[Wp Wc Ws Wg Wa] E C F Du N].
  destruct n; cbn in *. unfold TimerFacts.bounded in *; cbn in *.
  unfold Pro.commit, when. destruct (Pro.autohide_deps_changed _ _); exec_pro.
  all: told_clauses.
  all: try clause.
Qed.

Lemma pro_update_commit H d i D v o n :
  pending_update H d i D v n -> pending_update H d i D v (Pro.commit o n).
Proof.
  intros [[Wp Wc Ws Wg Wa] E C F Du I U O R Nc Ns Na].
  pose proof (Wp _ I) as Bi. cbn in Bi.
  destruct n; cbn in *. unfold TimerFacts.bounded in *; cbn in *.
  unfold Pro.commit, when. destruct (Pro.autohide_deps_changed _ _); exec_pro.
  all: update_clauses.
  all: try clause.
Qed.

Lemma pro_told_other H d s t :
  told H d s -> In t (pending (Pro.clock s)) ->
  told H d (fire (t_act t) (with_clk (take t (clk s)) s)).
Proof.
  intros [[Wp Wc Ws Wg Wa] E C F Du N] Ht.
  pose proof (N t Ht) as Nt. destruct t as [j due a]. cbn in Nt.
  cbn [fire Pro.component]. apply pro_told_commit.
  destruct s; cbn in *. unfold TimerFacts.bounded in *; cbn in *.
  destruct a; try discriminate; exec_pro.
  all: told_clauses.
  all: try clause.
Qed.

Lemma pro_update_other H d i D v s t :
  pending_update H d i D v s -> In t (pending (Pro.clock s)) -> t_id t <> i ->
  pending_update H d i D v (fire (t_act t) (with_clk (take t (clk s)) s)).
Proof.
  intros [[Wp Wc Ws Wg Wa] E C F Du I U O R Nc Ns Na] Ht Hne.
  assert (Nt : is_progress (t_act t) = false).
  { destruct (is_progress (t_act t)) eqn:S; [|reflexivity]. elim Hne. apply O; assumption. }
  pose proof (Wp _ I) as Bi. cbn in Bi.
  destruct t as [j due b]. cbn in Nt, Hne.
  cbn [fire Pro.component]. apply pro_update_commit.
  destruct s; cbn in *. unfold TimerFacts.bounded in *; cbn in *.
  destruct b; try discriminate; exec_pro.
  all: update_clauses.
  all: try clause.
Qed.

Lemma pro_update_lookup H d i D v s :
  pending_update H d i D v s -> exists t, lookup i (clk s) = Some t.
Proof.
  intros P. destruct (lookup i (clk s)) as [t|] eqn:E; [eauto|].
  exfalso. unfold lookup in E.
  pose proof (find_none _ _ E _ (p_in _ _ _ _ _ _ P)) as F.
  cbn in F. rewrite Nat.eqb_refl in F. discriminate.
Qed.

Lemma pro_update_advance H d i D v s :
  pending_update H d i D v s -> pending_update H d i D v (with_clk (advance (clk s)) s).
Proof.
  intros [[Wp Wc Ws Wg Wa] E C F Du I U O R Nc Ns Na].
  destruct s; cbn in *. update_clauses; assumption.
Qed.

Lemma pro_told_advance H d s :
  told H d s -> told H d (with_clk (advance (clk s)) s).
Proof.
  intros [[Wp Wc Ws Wg Wa] E C F Du N].
  destruct s; cbn in *. told_clauses; assumption.
Qed.

(** When its timer comes due, the host hears the position. *)
Lemma pro_update_fire H d i D v s t :
  pending_update H d i D v s -> In t (pending (Pro.clock s)) -> t_id t = i ->
  told (H ++ [(v, d)]) d (fire (t_act t) (with_clk (take t (clk s)) s)).
Proof.
  intros [[Wp Wc Ws Wg Wa] E C F Du I U O R Nc Ns Na] Ht Hi.
  rewrite (U t Ht Hi). clear t Ht Hi.
  cbn [fire Pro.component t_act]. apply pro_told_commit.
  destruct s as [? ? ? ? ? ? ? ? ? ? ? ? ? ? ? ? ? ? ? ? ? ? ? ? ? []];
    cbn in *. unfold TimerFacts.bounded in *; cbn in *. subst.
  exec_pro.
  all: told_clauses.
  all: try clause.
  all: intros u Hu; in_cases Hu; neq_ids; try reflexivity;
    match goal with
    | K : t_id ?x <> _ |- is_progress (t_act ?x) = false =>
        destruct (is_progress (t_act x)) eqn:S; [|reflexivity];
        exfalso; apply K; apply O; assumption
    end.
Qed.

(** A progress event while none is waiting arms the throttle timer. *)
Lemma pro_told_onProgress H d s v :
  told H d s ->
  pending_update H d (next_id (Pro.clock s)) (now (Pro.clock s) + 100) v
                 (Pro.step (Pro.OnProgress v) s).
Proof.
  intros [[Wp Wc Ws Wg Wa] E C F Du N].
  unfold Pro.step. apply pro_update_commit.
  destruct s; cbn in *. unfold TimerFacts.bounded in *; cbn in *. subst.
  exec_pro.
  all: update_clauses.
  all: try clause.
Qed.

(** A newer event cancels the waiting update and takes its place. *)
Lemma pro_update_onProgress H d i D c s v :
  pending_update H d i D c s ->
  pending_update H d (next_id (Pro.clock s)) (now (Pro.clock s) + 100) v
                 (Pro.step (Pro.OnProgress v) s).
Proof.
  intros [[Wp Wc Ws Wg Wa] E C F Du I U O R Nc Ns Na].
  unfold Pro.step. apply pro_update_commit.
  destruct s; cbn in *. unfold TimerFacts.bounded in *; cbn in *. subst.
  exec_pro.
  all: update_clauses.
  all: try clause.
Qed.

Lemma pro_update_early H d i D v n s :
  pending_update H d i D v s -> (now (Pro.clock s) + N.of_nat n < D)%N ->
  pending_update H d i D v (elapse n s).
Proof.
  intros Hs Hn.
  apply (TimerFacts.elapse_armed_early (pending_update H d i D v) i D); try assumption.
  - intros s' t P Ht Ei. rewrite (p_uniq _ _ _ _ _ _ P t Ht Ei). reflexivity.
  - intros s' P. apply pro_update_advance; assumption.
  - intros s' t P Ht Hne. apply pro_update_other; assumption.
Qed.

Lemma pro_update_due H d i D v n s :
  pending_update H d i D v s ->
  (now (Pro.clock s) < D)%N -> (D <= now (Pro.clock s) + N.of_nat n)%N ->
  told (H ++ [(v, d)]) d (elapse n s).
Proof.
  intros Hs Hlt Hge.
  apply (TimerFacts.elapse_armed_due
           (pending_update H d i D v) (told (H ++ [(v, d)]) d) i D); try assumption.
  - intros s' P. eapply pro_update_lookup; eassumption.
  - intros s' t P Ht Ei. rewrite (p_uniq _ _ _ _ _ _ P t Ht Ei). reflexivity.
  - intros s' P. apply pro_update_advance; assumption.
  - intros s' P. apply pro_told_advance; assumption.
  - intros s' t P Ht Hn. apply pro_update_other; assumption.
  - intros s' t P Ht Hn. eapply pro_update_fire; eassumption.
  - intros s' t P Ht _. apply pro_told_other; assumption.
Qed.

(** Progress events, each followed by an idle period. *)
Fixpoint progress_burst (evs : list (Q * nat)) (s : Pro.State) : Pro.State :=
  match evs with
  | [] => s
  | (v, gap) :: rest => progress_burst rest (elapse gap (Pro.step (Pro.OnProgress v) s))
  end.

Definition no_progress_pending (s : Pro.State) : Prop :=
  forall t, In t (pending (Pro.clock s)) -> is_progress (t_act t) = false.

Lemma pro_no_progress_pending_check s :
  forallb (fun t => negb (is_progress (t_act t))) (pending (Pro.clock s)) = true ->
  no_progress_pending s.
Proof.
  intros H t Ht. rewrite forallb_forall in H. specialize (H t Ht).
  apply negb_true_iff in H. exact H.
Qed.

(** None is waiting, or one is. *)
Definition throttled (H : list (Q * Q)) (d : Q) (s : Pro.State) : Prop :=
  told H d s \/ exists i D c, pending_update H d i D c s.

Lemma pro_throttled_onProgress H d s v :
  throttled H d s ->
  pending_update H d (next_id (Pro.clock s)) (now (Pro.clock s) + 100) v
                 (Pro.step (Pro.OnProgress v) s).
Proof.
  intros [T|(i & D & c & P)].
  - apply pro_told_onProgress; assumption.
  - eapply pro_update_onProgress; eassumption.
Qed.

Lemma pro_burst_throttled H d evs s :
  throttled H d s -> Forall (fun r => (snd r < 100)%nat) evs ->
  throttled H d (progress_burst evs s).
Proof.
  revert s. induction evs as [|[v gap] evs IH]; intros s Hs Hg; [exact Hs|].
  inversion Hg as [|? ? Hgap Hrest]; subst. cbn [progress_burst]. apply IH; [|assumption].
  right. do 3 eexists.
  apply pro_update_early; [apply pro_throttled_onProgress; eassumption|].
  rewrite pro_step_now. cbn in Hgap. lia.
Qed.

Lemma pro_throttled_host H d s : throttled H d s -> Pro.hostProgress s = H.
Proof.
  intros [T|(i & D & c & P)]; [apply T|apply P].
Qed.

(** X17.  ProVideoPlayer, [onProgress].  Progress events that follow
    one another by less than 100 ms are coalesced: during such a run the
    host's [onProgress] is not called at all, and 100 ms after the last
    event it is called once, with the position of the last event. *)
Theorem progress_reports_coalesce
  (s : Pro.State) (evs : list (Q * nat)) (v : Q) (n : nat) :
  Pro.reachable s ->
  Pro.onProgressCallback (Pro.props s) = true ->
  Pro.isSeeking s = false ->
  no_progress_pending s ->
  Forall (fun r => (snd r < 100)%nat) evs ->
  (100 <= n)%nat ->
  Pro.hostProgress (progress_burst evs s) = Pro.hostProgress s
  /\ Pro.hostProgress (elapse n (Pro.step (Pro.OnProgress v) (progress_burst evs s)))
     = Pro.hostProgress s ++ [(v, Pro.duration s)].
Proof.
  intros R C F N G Hn.
  assert (T : throttled (Pro.hostProgress s) (Pro.duration s) s).
  { left. split; auto using pro_reachable_wf. }
  pose proof (pro_burst_throttled _ _ evs s T G) as B.
  split; [apply (pro_throttled_host _ _ _ B)|].
  pose proof (pro_throttled_onProgress _ _ _ v B) as P.
  apply (t_host _ (Pro.duration s)).
  eapply pro_update_due; [exact P| |]; rewrite pro_step_now; lia.
Qed.

Lemma progress_reports_coalesce_witness :
  Pro.hostProgress (progress_burst [(10, 40%nat); (1051 # 100, 99%nat)] pro_loaded)
  = Pro.hostProgress pro_loaded
  /\ Pro.hostProgress
       (elapse 100 (Pro.step (Pro.OnProgress 11)
                      (progress_burst [(10, 40%nat); (1051 # 100, 99%nat)] pro_loaded)))
     = Pro.hostProgress pro_loaded ++ [(11, Pro.duration pro_loaded)].
Proof.
  apply progress_reports_coalesce.
  - apply Pro.reach_step, Pro.reach_mount. reflexivity.
  - vm_compute; reflexivity.
  - vm_compute; reflexivity.
  - apply pro_no_progress_pending_check. vm_compute; reflexivity.
  - repeat constructor.
  - repeat constructor.
Defined.

End ProBehaviour.

(** ** EnhancedVideoPlayer: rejected commands *)

Module EnhancedBehaviour.
Import Timers Exec Scenarios EnhancedFacts.
#[local] Existing Instance Enhanced.component.

(** The events whose command the engine rejects. *)
Definition rejected (e : Enhanced.Event) : bool :=
  match e with
  | Enhanced.PressPlayPause r | Enhanced.PressMute r | Enhanced.VolumeChange _ r
  | Enhanced.SliderValueChange _ r | Enhanced.PressSkipBackward r
  | Enhanced.PressSkipForward r | Enhanced.SelectSpeed _ r
  | Enhanced.PressFullscreen r => negb r
  | _ => false
  end.

(** The inputs other than the two that leave the error screen: a status
    of a loaded video and the Retry button. *)
Definition keeps_error (i : Enhanced.Input) : bool :=
  match i with
  | Enhanced.Ev (Enhanced.StatusUpdate (Enhanced.Loaded _ _ _ _ _ _))
  | Enhanced.Ev Enhanced.PressRetry => false
  | _ => true
  end.

Record failed (cmds : list EngineCmd) (s : Enhanced.State) : Prop := {
  fa_error : Enhanced.error s <> None;
  fa_engine : Enhanced.engine s = cmds
}.

Lemma enh_commit_error o n :
  Enhanced.error (Enhanced.commit o n) = Enhanced.error n
  /\ Enhanced.engine (Enhanced.commit o n) = Enhanced.engine n.
Proof.
  unfold Enhanced.commit, when.
  destruct (Enhanced.autohide_deps_changed o n), (Enhanced.buffering_deps_changed o n),
    (Enhanced.progress_deps_changed o n); exec_enhanced; split; reflexivity.
Qed.

Lemma enh_failed_commit cmds o n : failed cmds n -> failed cmds (Enhanced.commit o n).
Proof.
  intros [E G]. destruct (enh_commit_error o n) as [E' G']. split; congruence.
Qed.

Lemma enh_failed_handle cmds e s :
  failed cmds s -> keeps_error (Enhanced.Ev e) = true -> failed cmds (Enhanced.handle e s).
Proof.
  intros [E G] K. destruct s; cbn in *. destruct error as [msg|]; [|congruence].
  destruct e as [[?|]| | | | | | | | | | | | | |]; try discriminate; exec_enhanced;
    try (unfold Enhanced.videoRef in *; cbn in *; discriminate);
    split; cbn; congruence.
Qed.

Lemma enh_failed_run cmds a s : failed cmds s -> failed cmds (Enhanced.run a s).
Proof.
  intros [E G]. destruct s; cbn in *. destruct error as [msg|]; [|congruence].
  destruct a; exec_enhanced;
    try (unfold Enhanced.videoRef in *; cbn in *; discriminate);
    split; cbn; congruence.
Qed.

Lemma enh_failed_tick cmds s : failed cmds s -> failed cmds (tick s).
Proof.
  apply (TimerFacts.tick_inv (failed cmds)).
  - intros s' [E G]. destruct s'; split; assumption.
  - intros s' t H Ht. cbn [fire Enhanced.component].
    apply enh_failed_commit, enh_failed_run.
    destruct H as [E G]. destruct s'; split; assumption.
Qed.

Lemma enh_failed_play cmds tr : forall s,
  failed cmds s -> forallb keeps_error tr = true -> failed cmds (Enhanced.play tr s).
Proof.
  induction tr as [|[e|n] tr IH]; intros s F K; cbn [forallb] in K; [exact F| |];
    apply andb_true_iff in K; destruct K as [Ke K]; cbn [Enhanced.play fold_left];
    apply IH; try assumption.
  - unfold Enhanced.input, Enhanced.step.
    apply enh_failed_commit, enh_failed_handle; assumption.
  - cbn [Enhanced.input]. revert F. apply TimerFacts.elapse_inv, enh_failed_tick.
Qed.

Lemma enh_rejected_fails e s :
  Enhanced.videoRef s = true -> rejected e = true ->
  Enhanced.error (Enhanced.handle e s) <> None
  /\ exists c, Enhanced.engine (Enhanced.handle e s) = Enhanced.engine s ++ [c].
Proof.
  intros V R. destruct e; try discriminate; cbn in R; apply negb_true_iff in R; subst;
    cbn [Enhanced.handle];
    unfold Enhanced.togglePlayPause, Enhanced.toggleMute, Enhanced.setVolume,
      Enhanced.skipBackward, Enhanced.skipForward, Enhanced.seekTo,
      Enhanced.changePlaybackSpeed, Enhanced.toggleFullscreen, Enhanced.engine_call;
    rewrite V; try destruct (isPlaying _); cbn; (split; [discriminate|eauto]).
Qed.

(** X18.  EnhancedVideoPlayer, commands.  When the engine rejects a
    command, the command was sent, the error screen comes up, and from
    then on nothing reaches the engine - whatever is pressed and however
    long one waits - until Retry is pressed or the engine reports a
    loaded status. *)
Theorem rejected_command_stops_the_player
  (e : Enhanced.Event) (s : Enhanced.State) (tr : list Enhanced.Input) :
  Enhanced.videoRef s = true -> rejected e = true ->
  forallb keeps_error tr = true ->
  let s1 := Enhanced.step e s in
  (exists c, Enhanced.engine s1 = Enhanced.engine s ++ [c])
  /\ Enhanced.error (Enhanced.play tr s1) <> None
  /\ Enhanced.videoRef (Enhanced.play tr s1) = false
  /\ Enhanced.engine (Enhanced.play tr s1) = Enhanced.engine s1.
Proof.
  intros V R K s1.
  destruct (enh_rejected_fails e s V R) as [E [c G]].
  destruct (enh_commit_error s (Enhanced.handle e s)) as [E1 G1].
  assert (F : failed (Enhanced.engine s1) s1).
  { split; [|reflexivity]. unfold s1, Enhanced.step. rewrite E1. exact E. }
  destruct (enh_failed_play _ tr s1 F K) as [E' G'].
  split; [exists c; unfold s1, Enhanced.step; congruence|].
  split; [exact E'|]. split; [|exact G'].
  unfold Enhanced.videoRef.
  destruct (Enhanced.error (Enhanced.play tr s1)); [reflexivity|congruence].
Qed.

Lemma rejected_command_stops_the_player_witness :
  let s1 := Enhanced.step (Enhanced.PressSkipForward false) enhanced_playing in
  let tr := [Enhanced.Ev (Enhanced.PressPlayPause true); Enhanced.Wait 4500;
             Enhanced.Ev (Enhanced.SliderValueChange 5000 true)] in
  (exists c, Enhanced.engine s1 = Enhanced.engine enhanced_playing ++ [c])
  /\ Enhanced.error (Enhanced.play tr s1) <> None
  /\ Enhanced.videoRef (Enhanced.play tr s1) = false
  /\ Enhanced.engine (Enhanced.play tr s1) = Enhanced.engine s1.
Proof.
  apply rejected_command_stops_the_player; vm_compute; reflexivity.
Defined.

End EnhancedBehaviour.

(** ** NativeVideoPlayer: the auto-hide timer *)

Module NativeBehaviour.
Import Timers Exec Scenarios.
#[local] Existing Instance Native.component.

Lemma nat_commit_now o n : now (Native.clock (Native.commit o n)) = now (Native.clock n).
Proof.
  unfold Native.commit, when.
  destruct (Native.autohide_deps_changed o n), (Native.progress_deps_changed o n);
    exec_native; reflexivity.
Qed.

#[export] Instance native_lawful : TimerFacts.Lawful Native.State Native.Action.
Proof.
  split.
  - intros c [ ]; reflexivity.
  - intros [ ]; reflexivity.
  - intros c c' [ ]; reflexivity.
  - intros a s. cbn [fire Native.component]. rewrite nat_commit_now.
    destruct a; reflexivity.
Qed.

(** The auto-hide timer is pending exactly while the controls are
    visible and the video plays; there is no other timer. *)
Inductive tidy (s : Native.State) : Prop :=
| tidy_idle :
    pending (Native.clock s) = [] ->
    Native.showControls s && isPlaying (Native.ps s) = false ->
    tidy s
| tidy_armed : forall i D,
    pending (Native.clock s) = [mkTimer i D Native.AutoHide] ->
    Native.autoHideTimeout s = Some i ->
    Native.showControls s = true -> isPlaying (Native.ps s) = true ->
    (D <= now (Native.clock s) + 4000)%N ->
    tidy s.

(** Handlers touch neither the timer table nor the timer handle. *)
Lemma nat_handle_frame e s :
  Native.clock (Native.handle e s) = Native.clock s
  /\ Native.autoHideTimeout (Native.handle e s) = Native.autoHideTimeout s.
Proof.
  destruct e; exec_native; split; reflexivity.
Qed.

Lemma nat_progress_frame b s :
  Native.clock (when b Native.progress_effect s) = Native.clock s
  /\ Native.autoHideTimeout (when b Native.progress_effect s) = Native.autoHideTimeout s
  /\ Native.showControls (when b Native.progress_effect s) = Native.showControls s
  /\ Native.ps (when b Native.progress_effect s) = Native.ps s.
Proof.
  destruct b; exec_native; repeat split; reflexivity.
Qed.

Lemma nat_commit_flags o n :
  Native.showControls (Native.commit o n) = Native.showControls n
  /\ Native.ps (Native.commit o n) = Native.ps n.
Proof.
  unfold Native.commit, when.
  destruct (Native.autohide_deps_changed o n), (Native.progress_deps_changed o n);
    exec_native; split; reflexivity.
Qed.

Lemma nat_cleanup_clears n :
  (pending (Native.clock n) = []
   \/ exists i D, pending (Native.clock n) = [mkTimer i D Native.AutoHide]
                  /\ Native.autoHideTimeout n = Some i) ->
  pending (Native.clock (Native.autohide_cleanup n)) = []
  /\ Native.showControls (Native.autohide_cleanup n) = Native.showControls n
  /\ Native.ps (Native.autohide_cleanup n) = Native.ps n
  /\ next_id (Native.clock (Native.autohide_cleanup n)) = next_id (Native.clock n)
  /\ now (Native.clock (Native.autohide_cleanup n)) = now (Native.clock n).
Proof.
  intros Hp. destruct n as [? ? ? ? ? ? ? ? ? r [nw nx pd fd]]; cbn in *.
  destruct Hp as [->|(i & D & -> & ->)]; cbn.
  - destruct r; repeat split; reflexivity.
  - rewrite Nat.eqb_refl. repeat split; reflexivity.
Qed.

Lemma nat_effect_arms c :
  pending (Native.clock c) = [] ->
  Native.showControls (Native.autohide_effect c) = Native.showControls c
  /\ Native.ps (Native.autohide_effect c) = Native.ps c
  /\ now (Native.clock (Native.autohide_effect c)) = now (Native.clock c)
  /\ (if Native.showControls c && isPlaying (Native.ps c)
      then pending (Native.clock (Native.autohide_effect c))
           = [mkTimer (next_id (Native.clock c)) (now (Native.clock c) + 4000)
                      Native.AutoHide]
           /\ Native.autoHideTimeout (Native.autohide_effect c)
              = Some (next_id (Native.clock c))
      else pending (Native.clock (Native.autohide_effect c)) = []).
Proof.
  intros G. destruct c as [[[] ? ? ? ? ?] [] ? ? ? ? ? ? ? ? [nw nx pd fd]];
    cbn in *; subst; repeat split; reflexivity.
Qed.

(** The flags changed: the effect starts afresh. *)
Lemma nat_commit_changed o n :
  Native.autohide_deps_changed o n = true ->
  (pending (Native.clock n) = []
   \/ exists i D, pending (Native.clock n) = [mkTimer i D Native.AutoHide]
                  /\ Native.autoHideTimeout n = Some i) ->
  tidy (Native.commit o n)
  /\ (Native.showControls n = true -> isPlaying (Native.ps n) = true ->
      pending (Native.clock (Native.commit o n))
      = [mkTimer (next_id (Native.clock n)) (now (Native.clock n) + 4000) Native.AutoHide]).
Proof.
  intros Hc Hp. unfold Native.commit. rewrite Hc. cbn [when].
  destruct (nat_cleanup_clears n Hp) as (G & Fv & Fp & Fn & Fw).
  set (c := Native.autohide_cleanup n) in *.
  destruct (nat_effect_arms c G) as (Av & Ap & Aw & A).
  set (e := Native.autohide_effect c) in *.
  destruct (nat_progress_frame (Native.progress_deps_changed o n) e) as (Ec & Er & Ev & Ep).
  rewrite Ec. rewrite Fv, Fp, Fn, Fw in A.
  destruct (Native.showControls n && isPlaying (Native.ps n)) eqn:B.
  - destruct A as [A1 A2]. apply andb_true_iff in B. destruct B as [Bv Bp].
    split; [|intros _ _; exact A1].
    apply (tidy_armed _ (next_id (Native.clock n)) (now (Native.clock n) + 4000)%N).
    + rewrite Ec. exact A1.
    + rewrite Er. exact A2.
    + rewrite Ev, Av, Fv. exact Bv.
    + rewrite Ep, Ap, Fp. exact Bp.
    + rewrite Ec, Aw, Fw. lia.
  - split.
    + apply tidy_idle.
      * rewrite Ec. exact A.
      * rewrite Ev, Ep, Av, Ap, Fv, Fp. exact B.
    + intros Hv Hq. rewrite Hv, Hq in B. discriminate.
Qed.

(** The flags did not change: no effect runs on the timer. *)
Lemma nat_commit_unchanged o n :
  Native.autohide_deps_changed o n = false ->
  Native.clock (Native.commit o n) = Native.clock n
  /\ Native.autoHideTimeout (Native.commit o n) = Native.autoHideTimeout n.
Proof.
  intros Hc. unfold Native.commit. rewrite Hc. cbn [when].
  destruct (nat_progress_frame (Native.progress_deps_changed o n) n) as (Ec & Er & _).
  split; assumption.
Qed.

Lemma nat_deps_same o n :
  Native.autohide_deps_changed o n = false ->
  Native.showControls o = Native.showControls n
  /\ isPlaying (Native.ps o) = isPlaying (Native.ps n).
Proof.
  unfold Native.autohide_deps_changed. rewrite negb_false_iff, andb_true_iff.
  intros [A B]. split; apply Bool.eqb_prop; assumption.
Qed.

Lemma nat_tidy_pending s :
  tidy s ->
  pending (Native.clock s) = []
  \/ exists i D, pending (Native.clock s) = [mkTimer i D Native.AutoHide]
                 /\ Native.autoHideTimeout s = Some i.
Proof.
  intros [P _|i D P R _ _ _]; [left; exact P|right; eauto].
Qed.

Lemma nat_tidy_step e s : tidy s -> tidy (Native.step e s).
Proof.
  intros T. unfold Native.step.
  destruct (nat_handle_frame e s) as [Hc Hr].
  destruct (Native.autohide_deps_changed s (Native.handle e s)) eqn:Hd.
  - apply nat_commit_changed; [exact Hd|]. rewrite Hc, Hr. apply nat_tidy_pending, T.
  - destruct (nat_commit_unchanged _ _ Hd) as [Ec Er].
    destruct (nat_commit_flags s (Native.handle e s)) as [Ev Ep].
    destruct (nat_deps_same _ _ Hd) as [Sv Sp].
    destruct T as [P B|i D P R V Q L].
    + apply tidy_idle.
      * rewrite Ec, Hc. exact P.
      * rewrite Ev, Ep, <- Sv, <- Sp. exact B.
    + apply (tidy_armed _ i D).
      * rewrite Ec, Hc. exact P.
      * rewrite Er, Hr. exact R.
      * rewrite Ev, <- Sv. exact V.
      * rewrite Ep, <- Sp. exact Q.
      * rewrite Ec, Hc. exact L.
Qed.

Lemma nat_tidy_advance s : tidy s -> tidy (with_clk (advance (clk s)) s).
Proof.
  intros [P B|i D P R V Q L]; destruct s as [? ? ? ? ? ? ? ? ? ? [nw nx pd fd]]; cbn in *.
  - apply tidy_idle; assumption.
  - apply (tidy_armed _ i D); try assumption. cbn. lia.
Qed.

(** The callback hides the controls and leaves no timer. *)
Lemma nat_fire_hides s t :
  tidy s -> In t (pending (clk s)) ->
  let s' := fire (t_act t) (with_clk (take t (clk s)) s) in
  Native.showControls s' = false /\ pending (Native.clock s') = [] /\ tidy s'.
Proof.
  intros [P B|i D P R V Q L] Ht; cbn [clk Native.component] in Ht; rewrite P in Ht;
    [destruct Ht|]. destruct Ht as [<-|[]]. cbn [t_act t_id].
  cbn [fire Native.component Native.run].
  set (o := with_clk _ s).
  assert (Po : pending (Native.clock o) = []).
  { unfold o. destruct s as [? ? ? ? ? ? ? ? ? ? [nw nx pd fd]]; cbn in *. subst pd.
    cbn. rewrite Nat.eqb_refl. reflexivity. }
  assert (Vo : Native.showControls o = true) by (unfold o; destruct s; exact V).
  assert (Hd : Native.autohide_deps_changed o (Native.set_showControls false o) = true).
  { clearbody o. unfold Native.autohide_deps_changed. cbn. rewrite Vo. reflexivity. }
  destruct (nat_commit_changed o (Native.set_showControls false o) Hd) as [T _].
  { left. exact Po. }
  destruct (nat_commit_flags o (Native.set_showControls false o)) as [Ev _].
  split; [rewrite Ev; reflexivity|]. split; [|exact T].
  destruct T as [P' _|i' D' _ _ V' _ _]; [exact P'|].
  rewrite Ev in V'. discriminate.
Qed.

Lemma nat_tidy_tick s : tidy s -> tidy (tick s).
Proof.
  apply (TimerFacts.tick_inv tidy); [exact nat_tidy_advance|].
  intros s' t T Ht. apply (nat_fire_hides s' t T Ht).
Qed.

Lemma nat_tidy_mount p t0 : tidy (Native.mount p t0).
Proof.
  unfold Native.mount.
  destruct (nat_progress_frame true
              (Native.autohide_effect (Native.initialState p t0))) as (Ec & _ & Ev & Ep).
  cbn [when] in *. apply tidy_idle.
  - rewrite Ec. reflexivity.
  - rewrite Ev, Ep. reflexivity.
Qed.

Lemma nat_reachable_tidy s : Native.reachable s -> tidy s.
Proof.
  induction 1 as [p t0 _|e s _ IH|s _ IH].
  - apply nat_tidy_mount.
  - apply nat_tidy_step, IH.
  - apply nat_tidy_tick, IH.
Qed.

(** X19.  NativeVideoPlayer, auto-hide effect.  While the video is
    paused no timer is pending: however long one waits, the controls
    stay as they are and nothing in the player changes but the time. *)
Theorem paused_player_is_at_rest (s : Native.State) (n : nat) :
  Native.reachable s -> isPlaying (Native.ps s) = false ->
  pending (Native.clock s) = []
  /\ elapse n s
     = Native.set_clock
         (mkClock (now (Native.clock s) + N.of_nat n) (next_id (Native.clock s))
                  [] (fired (Native.clock s))) s.
Proof.
  intros R P.
  assert (E : pending (Native.clock s) = []).
  { destruct (nat_reachable_tidy s R) as [E _|i D _ _ _ Q _]; [exact E|congruence]. }
  split; [exact E|]. rewrite TimerFacts.elapse_idle.
  - cbn [clk with_clk Native.component]. rewrite E. reflexivity.
  - cbn [clk Native.component]. rewrite E. intros t [].
Qed.

Lemma paused_player_is_at_rest_witness :
  pending (Native.clock native_loaded) = []
  /\ elapse 4500 native_loaded
     = Native.set_clock
         (mkClock (now (Native.clock native_loaded) + N.of_nat 4500)
                  (next_id (Native.clock native_loaded))
                  [] (fired (Native.clock native_loaded))) native_loaded.
Proof.
  apply paused_player_is_at_rest.
  - apply Native.reach_step, Native.reach_mount. reflexivity.
  - vm_compute; reflexivity.
Defined.

(** Visible and playing: the timer [i] hides the controls at [D]. *)
Record hiding (i : nat) (D : N) (s : Native.State) : Prop := {
  hi_tidy : tidy s;
  hi_pending : pending (Native.clock s) = [mkTimer i D Native.AutoHide];
  hi_visible : Native.showControls s = true
}.

Record hidden (s : Native.State) : Prop := {
  hn_tidy : tidy s;
  hn_hidden : Native.showControls s = false;
  hn_none : pending (Native.clock s) = []
}.

Lemma nat_hiding_advance i D s : hiding i D s -> hiding i D (with_clk (advance (clk s)) s).
Proof.
  intros [T P V]. split; [apply nat_tidy_advance, T| |]; destruct s; assumption.
Qed.

Lemma nat_hidden_advance s : hidden s -> hidden (with_clk (advance (clk s)) s).
Proof.
  intros [T V P]. split; [apply nat_tidy_advance, T| |]; destruct s; assumption.
Qed.

Lemma nat_hiding_only i D s t :
  hiding i D s -> In t (pending (clk s)) -> t = mkTimer i D Native.AutoHide.
Proof.
  intros [_ P _] Ht. cbn [clk Native.component] in Ht. rewrite P in Ht.
  destruct Ht as [<-|[]]. reflexivity.
Qed.

Lemma nat_hiding_lookup i D s : hiding i D s -> exists t, lookup i (clk s) = Some t.
Proof.
  intros [_ P _]. unfold lookup. cbn [clk Native.component]. rewrite P. cbn.
  rewrite Nat.eqb_refl. eauto.
Qed.

Lemma nat_hiding_early i D n s :
  hiding i D s -> (now (Native.clock s) + N.of_nat n < D)%N -> hiding i D (elapse n s).
Proof.
  intros Hs Hn.
  apply (TimerFacts.elapse_armed_early (hiding i D) i D); try assumption.
  - intros s' t H Ht _. rewrite (nat_hiding_only _ _ _ _ H Ht). reflexivity.
  - apply nat_hiding_advance.
  - intros s' t H Ht Ne. exfalso. apply Ne.
    rewrite (nat_hiding_only _ _ _ _ H Ht). reflexivity.
Qed.

Lemma nat_hiding_due i D n s :
  hiding i D s -> (0 < n)%nat -> (D <= now (Native.clock s) + N.of_nat n)%N ->
  hidden (elapse n s).
Proof.
  intros Hs Hn Hd.
  apply (TimerFacts.elapse_armed_overdue (hiding i D) hidden i D); try assumption.
  - apply nat_hiding_lookup.
  - intros s' t H Ht _. rewrite (nat_hiding_only _ _ _ _ H Ht). reflexivity.
  - apply nat_hiding_advance.
  - apply nat_hidden_advance.
  - intros s' t H Ht Ne. exfalso. apply Ne.
    rewrite (nat_hiding_only _ _ _ _ H Ht). reflexivity.
  - intros s' t H Ht _. destruct (nat_fire_hides s' t (hi_tidy _ _ _ H) Ht) as (V & P & T).
    split; assumption.
  - intros s' t H Ht _. exfalso. cbn [clk Native.component] in Ht.
    rewrite (hn_none _ H) in Ht. exact Ht.
Qed.

(** X20.  NativeVideoPlayer, auto-hide effect.  Pressing play while the
    controls are visible starts a 4 s countdown: the controls are still
    visible after 3999 ms and hidden from 4000 ms on - also when the
    speed menu or the volume slider is open, which this player does not
    look at. *)
Theorem controls_hide_even_with_menu_open (s : Native.State) (k n : nat) :
  Native.reachable s -> Native.showControls s = true ->
  isPlaying (Native.ps s) = false ->
  (N.of_nat k < 4000)%N -> (4000 <= N.of_nat n)%N ->
  let s1 := Native.step Native.PressPlayPause s in
  isPlaying (Native.ps s1) = true
  /\ Native.showSpeedMenu s1 = Native.showSpeedMenu s
  /\ Native.showControls (elapse k s1) = true
  /\ Native.showControls (elapse n s1) = false.
Proof.
  intros R V P Hk Hn s1.
  pose proof (nat_reachable_tidy s R) as T.
  destruct (nat_handle_frame Native.PressPlayPause s) as [Hc Hr].
  assert (Hd : Native.autohide_deps_changed s (Native.handle Native.PressPlayPause s) = true).
  { unfold Native.autohide_deps_changed. cbn. rewrite P. cbn.
    rewrite andb_false_r. reflexivity. }
  destruct (nat_commit_changed s (Native.handle Native.PressPlayPause s) Hd) as [T1 P1].
  { rewrite Hc, Hr. apply nat_tidy_pending, T. }
  destruct (nat_commit_flags s (Native.handle Native.PressPlayPause s)) as [Ev Ep].
  assert (Q1 : isPlaying (Native.ps s1) = true).
  { unfold s1, Native.step. rewrite Ep. cbn. rewrite P. reflexivity. }
  assert (V1 : Native.showControls s1 = true).
  { unfold s1, Native.step. rewrite Ev. exact V. }
  assert (H : hiding (next_id (Native.clock s)) (now (Native.clock s) + 4000) s1).
  { split; [exact T1| |exact V1]. unfold s1, Native.step. rewrite P1.
    - rewrite Hc. reflexivity.
    - exact V.
    - cbn. rewrite P. reflexivity. }
  assert (Nw : now (Native.clock s1) = now (Native.clock s)).
  { unfold s1, Native.step. rewrite nat_commit_now, Hc. reflexivity. }
  split; [exact Q1|]. split.
  - unfold s1, Native.step, Native.commit, when.
    destruct (Native.autohide_deps_changed _ _), (Native.progress_deps_changed _ _);
      exec_native; reflexivity.
  - split.
    + apply (hi_visible (next_id (Native.clock s)) (now (Native.clock s) + 4000)%N).
      apply nat_hiding_early; [exact H|]. rewrite Nw. lia.
    + apply hn_hidden. eapply nat_hiding_due; [exact H|lia|]. rewrite Nw. lia.
Qed.

Lemma controls_hide_even_with_menu_open_witness :
  let s := Native.step Native.OpenSpeedMenu native_loaded in
  let s1 := Native.step Native.PressPlayPause s in
  isPlaying (Native.ps s1) = true
  /\ Native.showSpeedMenu s1 = Native.showSpeedMenu s
  /\ Native.showControls (elapse 3999 s1) = true
  /\ Native.showControls (elapse 4000 s1) = false.
Proof.
  apply controls_hide_even_with_menu_open.
  - repeat apply Native.reach_step. apply Native.reach_mount. reflexivity.
  - vm_compute; reflexivity.
  - vm_compute; reflexivity.
  - apply N.ltb_lt. vm_compute; reflexivity.
  - apply N.leb_le. vm_compute; reflexivity.
Defined.

End NativeBehaviour.

(** ** VideoPlayer: fullscreen *)

Module BasicBehaviour.
Import Timers.
#[local] Existing Instance Basic.component.

Definition is_dismiss (c : EngineCmd) : bool :=
  match c with DismissFullscreen => true | _ => false end.

(** The engine was never asked to leave fullscreen. *)
Definition one_way (s : Basic.State) : Prop :=
  forallb (fun c => negb (is_dismiss c)) (Basic.engine s) = true.

Lemma basic_commit_logs o n :
  Basic.engine (Basic.commit o n) = Basic.engine n
  /\ Basic.hostFullscreen (Basic.commit o n) = Basic.hostFullscreen n
  /\ Basic.ps (Basic.commit o n) = Basic.ps n
  /\ Basic.error (Basic.commit o n) = Basic.error n.
Proof.
  unfold Basic.commit, when, Basic.autohide_effect, Basic.autohide_cleanup.
  destruct (Basic.autohide_deps_changed o n); [|repeat split; reflexivity].
  cbn. destruct (Basic.showControls n && isPlaying (Basic.ps n)); repeat split; reflexivity.
Qed.

Lemma basic_call_one_way c r s :
  is_dismiss c = false -> one_way s ->
  one_way (snd (Basic.engine_call c r s))
  /\ forall e, one_way (Basic.set_error e (snd (Basic.engine_call c r s))).
Proof.
  intros C O. unfold Basic.engine_call, one_way in *.
  destruct (Basic.videoRef s); cbn; rewrite ?forallb_app, ?O; cbn; rewrite ?C; auto.
Qed.

Lemma basic_one_way_handle e s : one_way s -> one_way (Basic.handle e s).
Proof.
  intros O. destruct e as [st|r|r|x w r|r| |]; cbn [Basic.handle].
  - destruct st as [[e|]|? ? ? ? ? ?]; cbn; try destruct (String.eqb e _); exact O.
  - unfold Basic.togglePlayPause.
    destruct (isPlaying (Basic.ps s));
      match goal with |- context [Basic.engine_call ?c r s] =>
        destruct (basic_call_one_way c r s eq_refl O) as [A B];
        destruct (Basic.engine_call c r s) as [[] s1]; [exact A|apply B]
      end.
  - unfold Basic.toggleMute.
    match goal with |- context [Basic.engine_call ?c r s] =>
      destruct (basic_call_one_way c r s eq_refl O) as [A B];
      destruct (Basic.engine_call c r s) as [[] s1]; [exact A|apply B]
    end.
  - unfold Basic.pressProgressBar, Basic.seekTo.
    destruct w; try exact O;
    match goal with |- context [Basic.engine_call ?c r s] =>
      destruct (basic_call_one_way c r s eq_refl O) as [A B];
      destruct (Basic.engine_call c r s) as [[] s1]; [exact A|apply B]
    end.
  - unfold Basic.toggleFullscreen.
    destruct (basic_call_one_way PresentFullscreen r s eq_refl O) as [A B].
    destruct (Basic.engine_call PresentFullscreen r s) as [[] s1]; [exact A|apply B].
  - exact O.
  - exact O.
Qed.

Lemma basic_one_way_reachable s : Basic.reachable s -> one_way s.
Proof.
  induction 1 as [w t0 _|e s _ IH|s _ IH].
  - reflexivity.
  - unfold Basic.step, one_way. rewrite (proj1 (basic_commit_logs _ _)).
    apply basic_one_way_handle, IH.
  - revert IH. apply (TimerFacts.tick_inv one_way).
    + intros x O. destruct x; exact O.
    + intros x t O _. cbn [fire Basic.component]. unfold one_way.
      rewrite (proj1 (basic_commit_logs _ _)). destruct (t_act t), x; exact O.
Qed.

(** X21.  VideoPlayer, [toggleFullscreen].  The player never asks the
    engine to leave fullscreen.  Two accepted presses of the fullscreen
    button bring the flag back to where it was and tell the host so, but
    the engine has been asked twice to present the fullscreen player. *)
Theorem fullscreen_is_never_dismissed (s : Basic.State) :
  Basic.reachable s -> Basic.error s = None ->
  let s2 := Basic.step (Basic.PressFullscreen true)
              (Basic.step (Basic.PressFullscreen true) s) in
  ~ In DismissFullscreen (Basic.engine s)
  /\ ~ In DismissFullscreen (Basic.engine s2)
  /\ Basic.engine s2 = Basic.engine s ++ [PresentFullscreen; PresentFullscreen]
  /\ isFullscreen (Basic.ps s2) = isFullscreen (Basic.ps s)
  /\ Basic.hostFullscreen s2
     = Basic.hostFullscreen s
       ++ [negb (isFullscreen (Basic.ps s)); isFullscreen (Basic.ps s)].
Proof.
  intros R E s2.
  assert (G : forall x, one_way x -> ~ In DismissFullscreen (Basic.engine x)).
  { intros x O I. unfold one_way in O. rewrite forallb_forall in O.
    specialize (O _ I). discriminate. }
  split; [apply G, basic_one_way_reachable, R|].
  split; [apply G, basic_one_way_reachable; repeat apply Basic.reach_step; exact R|].
  assert (S1 : forall x, Basic.error x = None ->
            Basic.engine (Basic.step (Basic.PressFullscreen true) x)
            = Basic.engine x ++ [PresentFullscreen]
            /\ isFullscreen (Basic.ps (Basic.step (Basic.PressFullscreen true) x))
               = negb (isFullscreen (Basic.ps x))
            /\ Basic.hostFullscreen (Basic.step (Basic.PressFullscreen true) x)
               = Basic.hostFullscreen x ++ [negb (isFullscreen (Basic.ps x))]
            /\ Basic.error (Basic.step (Basic.PressFullscreen true) x) = None).
  { intros x Ex. unfold Basic.step.
    destruct (basic_commit_logs x (Basic.handle (Basic.PressFullscreen true) x))
      as (-> & -> & -> & ->).
    cbn [Basic.handle]. unfold Basic.toggleFullscreen, Basic.engine_call, Basic.videoRef.
    rewrite Ex. cbn. rewrite Ex. repeat split; reflexivity. }
  destruct (S1 s E) as (E1 & F1 & H1 & X1).
  destruct (S1 _ X1) as (E2 & F2 & H2 & _).
  unfold s2. rewrite E2, F2, H2, E1, F1, H1, negb_involutive, <- !app_assoc.
  repeat split; reflexivity.
Qed.

Lemma fullscreen_is_never_dismissed_witness :
  let s := Basic.step
             (Basic.StatusUpdate (Enhanced.Loaded false false false 0 (Some 60000) 1))
             (Basic.mount (mkDimensions 360 640) 1000) in
  let s2 := Basic.step (Basic.PressFullscreen true)
              (Basic.step (Basic.PressFullscreen true) s) in
  Basic.engine s2 = [PresentFullscreen; PresentFullscreen]
  /\ isFullscreen (Basic.ps s2) = false.
Proof.
  cbv zeta.
  destruct (fullscreen_is_never_dismissed
              (Basic.step
                 (Basic.StatusUpdate (Enhanced.Loaded false false false 0 (Some 60000) 1))
                 (Basic.mount (mkDimensions 360 640) 1000)))
    as (_ & _ & A & B & _).
  - apply Basic.reach_step, Basic.reach_mount. reflexivity.
  - reflexivity.
  - split; [exact A|exact B].
Defined.

End BasicBehaviour.

(** ** Time labels *)

Module TimeLabels.
Import Format.
Local Open Scope string_scope.

(** The number of colons of a label. *)
Fixpoint colons (s : string) : nat :=
  match s with
  | EmptyString => O
  | String c rest => ((if Ascii.eqb c ":"%char then 1 else 0) + colons rest)%nat
  end.

Lemma label_colons_app a b : colons (a ++ b) = (colons a + colons b)%nat.
Proof.
  induction a as [|c a IH]; cbn; [reflexivity|]. rewrite IH. lia.
Qed.

Lemma label_digits_colons (d : Decimal.uint) : colons (NilEmpty.string_of_uint d) = O.
Proof.
  induction d; cbn; first [reflexivity|assumption].
Qed.

Lemma label_toString_colons n : (0 <= n)%Z -> colons (toString n) = O.
Proof.
  intros H. unfold toString. destruct n as [|p|p]; [reflexivity| |lia].
  cbn. unfold NilZero.string_of_uint.
  destruct (Pos.to_uint p); try reflexivity; apply (label_digits_colons (_ _)).
Qed.

Lemma label_pad_colons s : colons (padStart2 s) = colons s.
Proof.
  unfold padStart2. destruct (String.length s) as [|[|k]]; reflexivity.
Qed.

(** A colon-free prefix is determined by the whole. *)
Lemma label_split a : forall a' b b',
  colons a = O -> colons a' = O -> a ++ ":" ++ b = a' ++ ":" ++ b' -> a = a' /\ b = b'.
Proof.
  induction a as [|c a IH]; intros [|c' a'] b b' Ha Ha' E; cbn in *.
  - injection E as E. auto.
  - injection E as Ec E. subst c'. cbn in Ha'. discriminate.
  - injection E as Ec E. subst c. cbn in Ha. discriminate.
  - injection E as Ec E. subst c'.
    destruct (Ascii.eqb c ":"%char); [discriminate|]. cbn in Ha, Ha'.
    destruct (IH a' b b' Ha Ha' E) as [-> ->]. auto.
Qed.

Lemma label_toString_inj n n' : (0 <= n)%Z -> (0 <= n')%Z -> toString n = toString n' -> n = n'.
Proof.
  intros H H' E. apply DecimalZ.to_int_inj.
  assert (G : forall m, (0 <= m)%Z ->
            exists d, Z.to_int m = Decimal.Pos d
                      /\ toString m = NilEmpty.string_of_uint d).
  { intros [|p|p] Hm; [exists (Decimal.D0 Decimal.Nil); split; reflexivity| |lia].
    exists (Pos.to_uint p). split; [reflexivity|].
    unfold toString. cbn. unfold NilZero.string_of_uint.
    pose proof (DecimalPos.Unsigned.to_uint_nonnil p) as Nn.
    destruct (Pos.to_uint p); [congruence|reflexivity..]. }
  destruct (G n H) as (d & -> & Sd). destruct (G n' H') as (d' & -> & Sd').
  rewrite Sd, Sd' in E.
  assert (Some d = Some d') as [= ->]; [|reflexivity].
  rewrite <- (NilEmpty.usu d), <- (NilEmpty.usu d'), E. reflexivity.
Qed.

(** Two digits for everything below 60. *)
Definition two_digits_differ : bool :=
  forallb (fun a =>
    forallb (fun b =>
      implb (String.eqb (padStart2 (toString (Z.of_nat a)))
                        (padStart2 (toString (Z.of_nat b))))
            (Nat.eqb a b))
      (seq 0 60))
    (seq 0 60).

Lemma label_pad_inj m m' :
  (0 <= m < 60)%Z -> (0 <= m' < 60)%Z ->
  padStart2 (toString m) = padStart2 (toString m') -> m = m'.
Proof.
  intros H H' E.
  assert (C : two_digits_differ = true) by (vm_compute; reflexivity).
  unfold two_digits_differ in C. rewrite forallb_forall in C.
  assert (Im : In (Z.to_nat m) (seq 0 60)) by (apply in_seq; lia).
  assert (Im' : In (Z.to_nat m') (seq 0 60)) by (apply in_seq; lia).
  specialize (C _ Im). rewrite forallb_forall in C. specialize (C _ Im').
  rewrite !Z2Nat.id in C by lia. rewrite E, String.eqb_refl in C. cbn in C.
  apply Nat.eqb_eq in C. lia.
Qed.

(** X23.  [formatTime] of the four players that show hours.  Two
    positions between 0 and 2^53 ms, the range in which the source's
    double arithmetic is exact, get the same label only if they lie in
    the same whole second: the label determines the second. *)
Theorem time_label_determines_second (a b : Q) :
  0 <= a -> a <= MAX_EXACT -> 0 <= b -> b <= MAX_EXACT ->
  formatTime a = formatTime b ->
  Qfloor (a / 1000) = Qfloor (b / 1000).
Proof.
  intros Ha _ Hb _.
  assert (F : forall x, 0 <= x -> (0 <= Qfloor (x / 1000))%Z).
  { intros x Hx. change 0%Z with (Qfloor 0). apply Qfloor_resp_le.
    apply Qle_shift_div_l; [reflexivity|]. rewrite Qmult_0_l. exact Hx. }
  pose proof (F a Ha) as Ta. pose proof (F b Hb) as Tb.
  unfold formatTime.
  set (ta := Qfloor (a / 1000)) in *. set (tb := Qfloor (b / 1000)) in *.
  clearbody ta tb.
  rewrite !Z.rem_mod_nonneg by lia.
  assert (B : forall t, (0 <= t)%Z ->
            (0 <= t / 3600 /\ (0 <= t mod 3600 / 60 < 60 /\ 0 <= t mod 60 < 60)
             /\ t = 3600 * (t / 3600) + 60 * (t mod 3600 / 60) + t mod 60)%Z).
  { intros t Ht.
    pose proof (Z.div_mod t 3600 ltac:(lia)) as E1.
    pose proof (Z.mod_pos_bound t 3600 ltac:(lia)) as B1.
    pose proof (Z.div_mod (t mod 3600) 60 ltac:(lia)) as E2.
    pose proof (Z.mod_pos_bound (t mod 3600) 60 ltac:(lia)) as B2.
    assert (E3 : ((t mod 3600) mod 60 = t mod 60)%Z).
    { apply Z.mod_mod_divide. exists 60%Z. reflexivity. }
    rewrite E3 in *.
    set (q := (t / 3600)%Z) in *. set (r := (t mod 3600)%Z) in *.
    set (q2 := (r / 60)%Z) in *. set (r2 := (t mod 60)%Z) in *.
    clearbody q r q2 r2. lia. }
  destruct (B ta Ta) as (Ha0 & (Ma & Sa) & Da).
  destruct (B tb Tb) as (Hb0 & (Mb & Sb) & Db).
  set (ha := (ta / 3600)%Z) in *. set (ma := (ta mod 3600 / 60)%Z) in *.
  set (sa := (ta mod 60)%Z) in *.
  set (hb := (tb / 3600)%Z) in *. set (mb := (tb mod 3600 / 60)%Z) in *.
  set (sb := (tb mod 60)%Z) in *.
  clearbody ha ma sa hb mb sb.
  assert (Cn : forall n, (0 <= n)%Z -> colons (toString n) = O)
    by exact label_toString_colons.
  assert (Cp : forall n, (0 <= n)%Z -> colons (padStart2 (toString n)) = O).
  { intros n Hn. rewrite label_pad_colons. apply Cn, Hn. }
  destruct (Z.ltb_spec 0 ha) as [Pa|Pa], (Z.ltb_spec 0 hb) as [Pb|Pb]; intros E.
  - apply label_split in E; [|apply Cn; lia..]. destruct E as [Eh E].
    apply label_split in E; [|apply Cp; lia..]. destruct E as [Em Es].
    apply label_toString_inj in Eh; [|lia..].
    apply label_pad_inj in Em; [|lia..]. apply label_pad_inj in Es; [|lia..]. lia.
  - exfalso. apply (f_equal colons) in E.
    rewrite !label_colons_app, !Cn, !Cp in E by lia. cbn in E. lia.
  - exfalso. apply (f_equal colons) in E.
    rewrite !label_colons_app, !Cn, !Cp in E by lia. cbn in E. lia.
  - apply label_split in E; [|apply Cn; lia..]. destruct E as [Em Es].
    apply label_toString_inj in Em; [|lia..]. apply label_pad_inj in Es; [|lia..]. lia.
Qed.

Lemma time_label_determines_second_witness :
  formatTime 3725999 = "1:02:05" /\ Qfloor (3725999 / 1000) = Qfloor (3725000 / 1000).
Proof.
  split; [vm_compute; reflexivity|].
  apply time_label_determines_second; vm_compute; first [discriminate|reflexivity].
Defined.

End TimeLabels.

(** ** The watch history *)

Module WatchHistory.
Import Auth.

(** The entry of a video, if the history has one. *)
Definition lookup (vid : string) (l : list WatchHistoryItem) : option WatchHistoryItem :=
  find (fun item => String.eqb (videoId item) vid) l.

(** One entry per video, at most 100 entries. *)
Record history_ok (l : list WatchHistoryItem) : Prop := {
  ok_distinct : NoDup (map videoId l);
  ok_length : (List.length l <= 100)%nat
}.

Definition storage_ok (st : AsyncStorage) : Prop :=
  forall key h, In (key, h) st -> history_ok h.

(** Newest first. *)
Definition newest_first (l : list WatchHistoryItem) : Prop :=
  StronglySorted (fun a b => (watchedAt b <= watchedAt a)%N) l.

Lemma hist_insert_perm x l : Permutation (insert_newest_first x l) (x :: l).
Proof.
  induction l as [|y l IH]; cbn; [reflexivity|].
  destruct (N.ltb (watchedAt x) (watchedAt y)); [|reflexivity].
  rewrite IH. apply perm_swap.
Qed.

Lemma hist_sort_perm l : Permutation (sort_newest_first l) l.
Proof.
  induction l as [|x l IH]; [reflexivity|].
  change (sort_newest_first (x :: l)) with (insert_newest_first x (sort_newest_first l)).
  rewrite hist_insert_perm. apply perm_skip, IH.
Qed.

Lemma hist_sort_ok l : history_ok l -> history_ok (sort_newest_first l).
Proof.
  intros [D L]. pose proof (hist_sort_perm l) as P. split.
  - apply (Permutation_NoDup (l := map videoId l)); [|exact D].
    apply Permutation_map, Permutation_sym, P.
  - rewrite (Permutation_length P). exact L.
Qed.

Lemma hist_sort_sorted l : newest_first l -> sort_newest_first l = l.
Proof.
  induction 1 as [|x l S IH F]; [reflexivity|].
  change (sort_newest_first (x :: l)) with (insert_newest_first x (sort_newest_first l)).
  rewrite IH. destruct l as [|y l]; [reflexivity|]. cbn.
  inversion F as [|? ? Hy _]; subst.
  destruct (N.ltb_spec (watchedAt x) (watchedAt y)); [lia|reflexivity].
Qed.

Lemma hist_firstn_nodup {A} (n : nat) (l : list A) : NoDup l -> NoDup (firstn n l).
Proof.
  intros H. rewrite <- (firstn_skipn n l) in H. apply NoDup_app_remove_r in H. exact H.
Qed.

Lemma hist_filter_map_in vid (l : list WatchHistoryItem) x :
  In x (map videoId (filter (fun item => negb (String.eqb (videoId item) vid)) l)) ->
  In x (map videoId l) /\ x <> vid.
Proof.
  rewrite !in_map_iff. intros (it & E & H). apply filter_In in H. destruct H as [H N].
  split; [eauto|]. subst x. apply negb_true_iff, String.eqb_neq in N. exact N.
Qed.

Lemma hist_filter_nodup vid (l : list WatchHistoryItem) :
  NoDup (map videoId l) ->
  NoDup (map videoId (filter (fun item => negb (String.eqb (videoId item) vid)) l)).
Proof.
  induction l as [|y l IH]; cbn; intros H; [constructor|].
  inversion H as [|? ? Hn Hd]; subst.
  destruct (negb (String.eqb (videoId y) vid)); cbn; [|auto].
  constructor; [|auto]. intro I. apply Hn. apply (hist_filter_map_in vid l), I.
Qed.

(** The history [addToHistory] builds. *)
Definition added (item : WatchHistoryItem) (l : list WatchHistoryItem)
  : list WatchHistoryItem :=
  firstn 100 (item :: filter (fun i => negb (String.eqb (videoId i) (videoId item))) l).

Lemma hist_added_ok item l : history_ok l -> history_ok (added item l).
Proof.
  intros [D L]. unfold added. split.
  - rewrite <- firstn_map. apply hist_firstn_nodup. cbn. constructor.
    + intro I. apply hist_filter_map_in in I. destruct I as [_ N]. apply N; reflexivity.
    + apply hist_filter_nodup, D.
  - apply firstn_le_length.
Qed.

Lemma hist_nil_ok : history_ok [].
Proof. split; [constructor|cbn; lia]. Qed.

Lemma hist_getItem_in key st h : getItem key st = Some h -> exists k, In (k, h) st.
Proof.
  unfold getItem. destruct (find _ st) as [[k v]|] eqn:E; [|discriminate].
  intros [= <-]. apply find_some in E. exists k. apply E.
Qed.

Lemma hist_setItem_ok key h st : storage_ok st -> history_ok h -> storage_ok (setItem key h st).
Proof.
  intros S H k v [E|I].
  - injection E as <- <-. exact H.
  - apply filter_In in I. apply (S k v), I.
Qed.

(** What every call preserves. *)
Record consistent (s : State) : Prop := {
  co_history : history_ok (watchHistory s);
  co_storage : storage_ok (storage s);
  co_signed_out : user s = None -> watchHistory s = [];
  co_flag : isAuthenticated s = true <-> user s <> None
}.

Lemma hist_load_consistent r uid s :
  consistent s -> user s <> None -> consistent (loadWatchHistory r uid s).
Proof.
  intros C U. unfold loadWatchHistory. destruct r; [|exact C].
  destruct (getItem _ _) as [h|] eqn:E; [|exact C].
  destruct (hist_getItem_in _ _ _ E) as [k I].
  destruct C as [H S O F]. split; cbn; try assumption.
  - apply hist_sort_ok, (S k h I).
  - intros N; contradiction.
Qed.

Lemma hist_save_consistent w h s :
  consistent s -> history_ok h -> consistent (saveWatchHistory w h s).
Proof.
  intros C Hh. unfold saveWatchHistory.
  destruct (user s) eqn:U; [|exact C].
  destruct w; [|exact C].
  destruct C as [H S O F]. split; cbn; try assumption.
  apply hist_setItem_ok; assumption.
Qed.

Lemma hist_signed_in_consistent u s :
  consistent s ->
  consistent (set_isAuthenticated true (set_user (Some u) s)).
Proof.
  intros [H S O F]. split; cbn; try assumption; [discriminate|].
  split; [discriminate|reflexivity].
Qed.

Lemma hist_secure_consistent sec s : consistent s -> consistent (set_secure sec s).
Proof.
  intros [H S O F]. split; assumption.
Qed.

Lemma hist_handle_consistent e s : consistent s -> consistent (handle e s).
Proof.
  intros C. destruct e as [w1 w2 l|d1 d2|v d i a w|w]; cbn [handle].
  - unfold signIn, simulateGoogleSignIn. destruct w1; [|exact C].
    destruct w2; [|apply hist_secure_consistent, C].
    apply hist_load_consistent; [|discriminate].
    apply (hist_signed_in_consistent demoUser), hist_secure_consistent,
      hist_secure_consistent, C.
  - unfold signOut. destruct d1; [|exact C].
    destruct d2; [|apply hist_secure_consistent, C].
    destruct C as [H S O F]. split; cbn; try assumption.
    + apply hist_nil_ok.
    + reflexivity.
    + split; [discriminate|congruence].
  - unfold addToHistory. destruct (user s) eqn:U; [|exact C].
    apply hist_save_consistent.
    + destruct C as [H S O F]. split; cbn; try assumption.
      * apply (hist_added_ok (mkWatchHistoryItem _ _ _ _ _ _ _ _)), H.
      * rewrite U. discriminate.
    + apply (hist_added_ok (mkWatchHistoryItem _ _ _ _ _ _ _ _)), C.
  - unfold clearHistory. destruct (user s) eqn:U; [|exact C].
    apply hist_save_consistent; [|apply hist_nil_ok].
    destruct C as [H S O F]. split; cbn; try assumption; [apply hist_nil_ok|reflexivity].
Qed.

Lemma hist_mount_consistent r l sec st : storage_ok st -> consistent (mount r l sec st).
Proof.
  intros S.
  assert (C0 : consistent (initialState sec st)).
  { split; cbn; try assumption; [apply hist_nil_ok|reflexivity|].
    split; [discriminate|congruence]. }
  unfold mount, loadStoredAuth.
  assert (G : forall s, consistent s -> consistent (set_isLoading false s)).
  { intros s [H S' O F]. split; assumption. }
  apply G. destruct r; [|exact C0].
  destruct (stored_user _) as [u|]; [|exact C0].
  destruct (truthy _); [|exact C0].
  apply hist_load_consistent; [|discriminate].
  apply hist_signed_in_consistent, C0.
Qed.

Lemma hist_reachable_consistent sec st s :
  storage_ok st -> reachable sec st s -> consistent s.
Proof.
  intros S. induction 1 as [r l|e s _ IH].
  - apply hist_mount_consistent, S.
  - apply hist_handle_consistent, IH.
Qed.

(** X9.  AuthContext, watch history.  Whatever the user does and
    whichever store operation fails, the history shown has at most one
    entry per video and at most 100 entries, and so has every history
    kept in storage, provided the histories found in storage at start-up
    had. *)
Theorem history_one_entry_per_video
  (sec : SecureStore) (st : AsyncStorage) (s : State) :
  storage_ok st -> reachable sec st s ->
  NoDup (map videoId (watchHistory s))
  /\ (List.length (watchHistory s) <= 100)%nat
  /\ storage_ok (storage s).
Proof.
  intros S R. destruct (hist_reachable_consistent sec st s S R) as [[D L] S' _ _].
  auto.
Qed.

Definition sample_video : VideoItem :=
  mkVideoItem "dQw4w9WgXcQ" "A video" "About it" "https://img.example/1.jpg"
              "A channel" "2020-01-01" "3:32" "1000".

Lemma history_one_entry_per_video_witness :
  let s := play [SignIn true true true;
                 AddToHistory sample_video (Some 30) 5000 5000 true;
                 AddToHistory sample_video (Some 45) 9000 9000 false]
                (mount true true (mkSecureStore None None) []) in
  NoDup (map videoId (watchHistory s))
  /\ (List.length (watchHistory s) <= 100)%nat
  /\ storage_ok (storage s).
Proof.
  apply (history_one_entry_per_video (mkSecureStore None None) []).
  - intros key h [].
  - repeat apply reach_step. apply reach_mount.
Defined.

(** X10.  AuthContext, signed-out user.  While nobody is signed in the
    history is empty, and [addToHistory] and [clearHistory] change
    neither the state nor the stores. *)
Theorem signed_out_history_is_empty
  (sec : SecureStore) (st : AsyncStorage) (s : State)
  (video : VideoItem) (d : option Q) (now_id now_at : N) (writes : bool) :
  storage_ok st -> reachable sec st s -> isAuthenticated s = false ->
  user s = None
  /\ watchHistory s = []
  /\ addToHistory video d now_id now_at writes s = s
  /\ clearHistory writes s = s.
Proof.
  intros S R A. destruct (hist_reachable_consistent sec st s S R) as [_ _ O F].
  assert (U : user s = None).
  { destruct (user s) eqn:E; [|reflexivity].
    assert (T : isAuthenticated s = true) by (apply F; discriminate). congruence. }
  split; [exact U|]. split; [exact (O U)|].
  unfold addToHistory, clearHistory. rewrite U. split; reflexivity.
Qed.

Lemma signed_out_history_is_empty_witness :
  let s := play [SignIn true true true;
                 AddToHistory sample_video (Some 30) 5000 5000 true;
                 SignOut true true]
                (mount true true (mkSecureStore None None) []) in
  user s = None
  /\ watchHistory s = []
  /\ addToHistory sample_video (Some 12) 7000 7000 true s = s
  /\ clearHistory true s = s.
Proof.
  apply (signed_out_history_is_empty (mkSecureStore None None) []).
  - intros key h [].
  - repeat apply reach_step. apply reach_mount.
  - vm_compute; reflexivity.
Defined.

(** *** Adding an entry *)

Lemma hist_find_firstn {A} (f : A -> bool) n (l : list A) x :
  find f (firstn n l) = Some x -> find f l = Some x.
Proof.
  revert l. induction n as [|n IH]; intros [|y l]; cbn; try discriminate.
  destruct (f y); [trivial|apply IH].
Qed.

Lemma hist_lookup_filter vid other (l : list WatchHistoryItem) :
  vid <> other ->
  lookup vid (filter (fun i => negb (String.eqb (videoId i) other)) l) = lookup vid l.
Proof.
  intros N. unfold lookup. induction l as [|y l IH]; cbn; [reflexivity|].
  destruct (String.eqb_spec (videoId y) other) as [E|E]; cbn.
  - destruct (String.eqb_spec (videoId y) vid) as [E'|E']; [congruence|exact IH].
  - destruct (String.eqb (videoId y) vid); [reflexivity|exact IH].
Qed.

(** The entry [addToHistory] writes for [video]. *)
Definition entry (video : VideoItem) (d : option Q) (now_id now_at : N) : WatchHistoryItem :=
  mkWatchHistoryItem (v_id video ++ "_" ++ decimal now_id) (v_id video)
                     (v_title video) (v_thumbnail video) (v_channelTitle video)
                     (v_duration video) now_at d.

Lemma hist_addToHistory_history video d i a w s :
  user s <> None ->
  watchHistory (addToHistory video d i a w s) = added (entry video d i a) (watchHistory s).
Proof.
  intros U. unfold addToHistory. destruct (user s) as [u|] eqn:E; [|congruence].
  unfold saveWatchHistory. cbn [user set_watchHistory]. rewrite E.
  destruct w; reflexivity.
Qed.

Lemma hist_added_cons item l :
  added item l
  = item :: firstn 99 (filter (fun i => negb (String.eqb (videoId i) (videoId item))) l).
Proof. reflexivity. Qed.

Lemma hist_added_head video d now_id now_at w s :
  user s <> None ->
  lookup (v_id video) (watchHistory (addToHistory video d now_id now_at w s))
  = Some (entry video d now_id now_at).
Proof.
  intros U. rewrite hist_addToHistory_history by exact U. rewrite hist_added_cons.
  unfold lookup. cbn [find].
  change (videoId (entry video d now_id now_at)) with (v_id video).
  rewrite String.eqb_refl. reflexivity.
Qed.

(** X11.  AuthContext, [addToHistory].  For a signed-in user the added
    video is found in the history, first, with the new time and watched
    duration; the entry of any other video is never altered, and is kept
    if the history had fewer than 100 entries. *)
Theorem added_video_is_found
  (video : VideoItem) (d : option Q) (now_id now_at : N) (writes : bool) (s : State) :
  user s <> None ->
  let s' := addToHistory video d now_id now_at writes s in
  hd_error (watchHistory s') = Some (entry video d now_id now_at)
  /\ lookup (v_id video) (watchHistory s') = Some (entry video d now_id now_at)
  /\ (forall vid item, vid <> v_id video ->
        lookup vid (watchHistory s') = Some item ->
        lookup vid (watchHistory s) = Some item)
  /\ ((List.length (watchHistory s) < 100)%nat ->
      forall vid, vid <> v_id video ->
        lookup vid (watchHistory s') = lookup vid (watchHistory s)).
Proof.
  intros U s'. unfold s'. rewrite hist_addToHistory_history by exact U.
  rewrite hist_added_cons. cbn [videoId entry hd_error].
  split; [reflexivity|]. split; [|split].
  - unfold lookup. cbn [find]. change (videoId (entry video d now_id now_at)) with (v_id video).
    rewrite String.eqb_refl. reflexivity.
  - intros vid item N L. unfold lookup in L. cbn [find] in L.
    change (videoId (entry video d now_id now_at)) with (v_id video) in L.
    destruct (String.eqb_spec (v_id video) vid) as [E|_]; [congruence|].
    apply hist_find_firstn in L.
    rewrite <- (hist_lookup_filter vid (v_id video)) by exact N. exact L.
  - intros Hl vid N. rewrite firstn_all2.
    + unfold lookup at 1. cbn [find].
      change (videoId (entry video d now_id now_at)) with (v_id video).
      destruct (String.eqb_spec (v_id video) vid) as [E|_]; [congruence|].
      apply (hist_lookup_filter vid (v_id video)), N.
    + pose proof (filter_length_le
                    (fun i => negb (String.eqb (videoId i) (v_id video))) (watchHistory s)).
      lia.
Qed.

Lemma added_video_is_found_witness :
  let s := play [SignIn true true true;
                 AddToHistory sample_video (Some 30) 5000 5000 true]
                (mount true true (mkSecureStore None None) []) in
  let s' := addToHistory sample_video (Some 45) 9000 9001 true s in
  hd_error (watchHistory s') = Some (entry sample_video (Some 45) 9000 9001)
  /\ lookup (v_id sample_video) (watchHistory s')
     = Some (entry sample_video (Some 45) 9000 9001).
Proof.
  cbv zeta.
  destruct (added_video_is_found sample_video (Some 45) 9000%N 9001%N true
              (play [SignIn true true true;
                     AddToHistory sample_video (Some 30) 5000 5000 true]
                    (mount true true (mkSecureStore None None) [])))
    as (H1 & H2 & _).
  - vm_compute; discriminate.
  - split; [exact H1|exact H2].
Defined.

(** X12.  AuthContext, [addToHistory], the cap.  When the history is
    full (100 entries) and has no entry for the video, the new entry
    comes first and the last entry of the list is the one dropped. *)
Theorem full_history_drops_last
  (video : VideoItem) (d : option Q) (now_id now_at : N) (writes : bool) (s : State) :
  user s <> None ->
  List.length (watchHistory s) = 100%nat ->
  lookup (v_id video) (watchHistory s) = None ->
  watchHistory (addToHistory video d now_id now_at writes s)
  = entry video d now_id now_at :: removelast (watchHistory s).
Proof.
  intros U L N. rewrite hist_addToHistory_history by exact U.
  rewrite hist_added_cons. cbn [videoId entry].
  assert (F : filter (fun i => negb (String.eqb (videoId i) (v_id video))) (watchHistory s)
              = watchHistory s).
  { unfold lookup in N. clear L.
    induction (watchHistory s) as [|y l IH]; cbn in *; [reflexivity|].
    destruct (String.eqb (videoId y) (v_id video)); [discriminate|].
    cbn. f_equal. apply IH, N. }
  rewrite F. f_equal. rewrite removelast_firstn_len, L. reflexivity.
Qed.

(** A full history of videos ["0"] to ["99"], newest first. *)
Definition numbered (k : nat) : WatchHistoryItem :=
  mkWatchHistoryItem (decimal (N.of_nat k)) (decimal (N.of_nat k)) "t" "i" "c" "1:00"
                     (N.of_nat (1000 - k)) None.

Definition full_state : State :=
  mkState (Some demoUser) true false (map numbered (seq 0 100))
          (mkSecureStore (Some demoUser) (Some "demo_token"%string)) [].

Lemma full_history_drops_last_witness :
  watchHistory (addToHistory sample_video (Some 30) 5000 5000 true full_state)
  = entry sample_video (Some 30) 5000 5000 :: removelast (watchHistory full_state).
Proof.
  apply full_history_drops_last.
  - vm_compute; discriminate.
  - vm_compute; reflexivity.
  - vm_compute; reflexivity.
Defined.

(** *** Saving and loading *)









Lemma hist_insert_sorted x l : newest_first l -> newest_first (insert_newest_first x l).
Proof.
  induction 1 as [|y l S IH F]; cbn; [repeat constructor|].
  destruct (N.ltb_spec (watchedAt x) (watchedAt y)) as [L|L].
  - constructor; [exact IH|].
    apply (Permutation_Forall (Permutation_sym (hist_insert_perm x l))).
    constructor; [lia|exact F].
  - constructor; [constructor; assumption|].
    constructor; [exact L|]. rewrite Forall_forall in *. intros b Hb.
    specialize (F b Hb). cbn in F. lia.
Qed.

Lemma hist_sort_newest_first l : newest_first (sort_newest_first l).
Proof.
  induction l as [|x l IH]; [constructor|].
  change (sort_newest_first (x :: l)) with (insert_newest_first x (sort_newest_first l)).
  apply hist_insert_sorted, IH.
Qed.

(** X25.  AuthContext, [loadWatchHistory].  Whatever order the stored
    history is in, the history shown after loading has the same entries,
    newest first; a stored history that is already in that order is
    shown as it is, and a failed read leaves the state alone. *)
Theorem loaded_history_is_newest_first
  (userId : string) (h : list WatchHistoryItem) (s : State) :
  getItem (historyKey userId) (storage s) = Some h ->
  let s' := loadWatchHistory true userId s in
  Permutation (watchHistory s') h
  /\ newest_first (watchHistory s')
  /\ (newest_first h -> watchHistory s' = h)
  /\ loadWatchHistory false userId s = s.
Proof.
  intros G s'. unfold s', loadWatchHistory. rewrite G. cbn [watchHistory set_watchHistory].
  split; [apply hist_sort_perm|]. split; [apply hist_sort_newest_first|].
  split; [apply hist_sort_sorted|reflexivity].
Qed.

Lemma loaded_history_is_newest_first_witness :
  let h := [numbered 7; numbered 3; numbered 5] in
  let s := mkState (Some demoUser) true false [] (mkSecureStore None None)
                   [(historyKey "demo_user_123", h)] in
  Permutation (watchHistory (loadWatchHistory true "demo_user_123" s)) h
  /\ watchHistory (loadWatchHistory true "demo_user_123" s)
     = [numbered 3; numbered 5; numbered 7].
Proof.
  cbv zeta.
  destruct (loaded_history_is_newest_first "demo_user_123"
              [numbered 7; numbered 3; numbered 5]
              (mkState (Some demoUser) true false [] (mkSecureStore None None)
                       [(historyKey "demo_user_123",
                         [numbered 7; numbered 3; numbered 5])]))
    as (P & _).
  - vm_compute; reflexivity.
  - split; [exact P|vm_compute; reflexivity].
Defined.

End WatchHistory.

(** ** The player screen: when a video enters the history *)

Module HistoryThreshold.
Import PlayerScreen.

Lemma percentage_reached (w t : Z) :
  Qle_bool 10 (watchedPercentage w t) = true <-> (0 < t /\ t <= 10 * w)%Z.
Proof.
  unfold watchedPercentage. destruct (Z.ltb_spec 0 t) as [P|P].
  - rewrite Qle_bool_iff. destruct t as [|p|p]; try lia.
    unfold Qle, Qdiv, Qmult, Qinv, inject_Z. cbn -[Z.mul Pos.mul Z.le Z.lt].
    lia.
  - split; [discriminate|lia].
Qed.

(** X14.  Player screen, [handleVideoProgress].  A progress report
    counts as "watched" exactly when 30 whole seconds were played, or
    when the whole seconds played are at least a tenth of the whole
    seconds of the video; with an unknown (zero) length only the 30 s
    rule applies. *)
Theorem watched_enough_threshold (currentSec totalSec : Q) :
  watched_enough currentSec totalSec = true
  <-> (30 <= Qfloor currentSec
       \/ (0 < Qfloor totalSec /\ Qfloor totalSec <= 10 * Qfloor currentSec))%Z.
Proof.
  unfold watched_enough, Math_floor. rewrite orb_true_iff, Z.leb_le, percentage_reached.
  reflexivity.
Qed.

(** A progress report, with what the environment answers during the call. *)
Record Report : Type := mkReport {
  r_currentSec : Q;
  r_totalSec : Q;
  r_iso_now : string;
  r_now_id : N;
  r_now_at : N;
  r_writes : bool
}.

Definition report (r : Report) (s : State) : State :=
  handleVideoProgress (r_currentSec r) (r_totalSec r) (r_iso_now r)
                      (r_now_id r) (r_now_at r) (r_writes r) s.

Definition reports (rs : list Report) (s : State) : State :=
  fold_left (fun s r => report r s) rs s.

Definition counts (r : Report) : bool :=
  watched_enough (r_currentSec r) (r_totalSec r).

(** The video as the screen hands it to [addToHistory]. *)
Definition history_video (video : VideoDetails) (iso_now : string) : Auth.VideoItem :=
  Auth.mkVideoItem (id video) (title video) (JS.str_or (description video) "")
                   (thumbnail video) (JS.str_or (channelTitle video) "Unknown Channel")
                   iso_now (JS.str_or (duration video) "Unknown") "0".

Lemma screen_report_ignored r s :
  hasAddedToHistory s = true \/ counts r = false \/ Auth.isAuthenticated (auth s) = false
  \/ currentVideo s = None ->
  report r s = s.
Proof.
  unfold report, handleVideoProgress, counts.
  intros [H|[H|[H|H]]]; rewrite H; destruct (currentVideo s);
    rewrite ?andb_false_r; reflexivity.
Qed.

Lemma screen_reports_ignored rs s :
  hasAddedToHistory s = true \/ forallb (fun r => negb (counts r)) rs = true ->
  reports rs s = s.
Proof.
  induction rs as [|r rs IH]; intros H; [reflexivity|].
  cbn [reports fold_left]. rewrite screen_report_ignored.
  - apply IH. destruct H as [H|H]; [left; exact H|right].
    cbn in H. apply andb_true_iff in H. apply H.
  - destruct H as [H|H]; [left; exact H|right; left].
    cbn in H. apply andb_true_iff in H. destruct H as [H _].
    apply negb_true_iff in H. exact H.
Qed.

(** X15.  Player screen, [handleVideoProgress].  Of a run of progress
    reports for a signed-in user, only the first that counts as watched
    touches the history: it puts the video first, with the whole seconds
    of that report as watched duration; the reports before it and all
    the reports after it change nothing. *)
Theorem first_watched_report_is_recorded
  (video : VideoDetails) (before after : list Report) (r : Report) (s : State) :
  currentVideo s = Some video ->
  hasAddedToHistory s = false ->
  Auth.isAuthenticated (auth s) = true ->
  Auth.user (auth s) <> None ->
  forallb (fun r => negb (counts r)) before = true ->
  counts r = true ->
  let s' := reports (before ++ r :: after) s in
  s' = report r s
  /\ hasAddedToHistory s' = true
  /\ hd_error (Auth.watchHistory (auth s'))
     = Some (WatchHistory.entry (history_video video (r_iso_now r))
               (Some (inject_Z (Qfloor (r_currentSec r)))) (r_now_id r) (r_now_at r)).
Proof.
  intros V L A U B C s'.
  assert (E : s' = report r s).
  { unfold s', reports. rewrite fold_left_app. cbn [fold_left].
    fold (reports before s). rewrite (screen_reports_ignored before s) by (right; exact B).
    fold (reports after (report r s)). apply screen_reports_ignored. left.
    unfold report, handleVideoProgress. unfold counts in C. rewrite V, L, A, C. reflexivity. }
  split; [exact E|]. rewrite E.
  unfold report, handleVideoProgress. unfold counts in C. rewrite V, L, A, C.
  split; [reflexivity|]. cbn [auth set_auth set_hasAddedToHistory andb negb].
  rewrite WatchHistory.hist_addToHistory_history by exact U.
  rewrite WatchHistory.hist_added_cons. reflexivity.
Qed.

Definition sample_details : VideoDetails :=
  mkVideoDetails "dQw4w9WgXcQ" "A video" "" "https://img.example/1.jpg" "" "2020-01-01"
                 "3:32" "1000"
                 [mkVideoFormat "720p" "https://cdn.example/v-720.mp4" "video/mp4" None None].

Definition sample_screen : State :=
  mkState (Auth.signIn true true true
             (Auth.mount true true (Auth.mkSecureStore None None) []))
          (Some sample_details) 0 false.

Lemma first_watched_report_is_recorded_witness :
  let s' := reports [mkReport 5 212 "2024-05-01T10:00:05.000Z" 5000 5000 true;
                     mkReport (45 # 2) 212 "2024-05-01T10:00:22.500Z" 22500 22500 true;
                     mkReport 40 212 "2024-05-01T10:00:40.000Z" 40000 40000 true]
                    sample_screen in
  hasAddedToHistory s' = true
  /\ hd_error (Auth.watchHistory (auth s'))
     = Some (WatchHistory.entry (history_video sample_details "2024-05-01T10:00:22.500Z")
               (Some (inject_Z 22)) 22500 22500).
Proof.
  cbv zeta.
  refine (proj2 (first_watched_report_is_recorded sample_details
     [mkReport 5 212 "2024-05-01T10:00:05.000Z" 5000 5000 true]
     [mkReport 40 212 "2024-05-01T10:00:40.000Z" 40000 40000 true]
     (mkReport (45 # 2) 212 "2024-05-01T10:00:22.500Z" 22500 22500 true)
     sample_screen _ _ _ _ _ _)).
  - reflexivity.
  - reflexivity.
  - vm_compute; reflexivity.
  - vm_compute; discriminate.
  - vm_compute; reflexivity.
  - vm_compute; reflexivity.
Defined.

End HistoryThreshold.
